(* ===== verification/_CoqProject ===== *)
-Q . S2P
Prelude.v
Bytes.v
CppString.v
StdMap.v
Float64.v
FloatText.v
ProcFs.v
Wire.v
RedisClient.v
LogAggregator.v
Metrics.v
Exposition.v
HealthMonitor.v
ResourceMonitor.v
MonitorThread.v
ResourceManager.v
Supervisor.v
Lifecycle.v
Sandbox.v
Smoke.v
Options.v
Daemon.v
Session.v
Main.v
