(* ===== verification/Prelude.v ===== *)
(** * A verification of the sandbox daemon

    The program (src/sandbox) is a daemon that polls a Redis-like server for jobs,
    runs each job's command in a sandboxed child, and reports the outcome, with a
    log, metrics, health checks, resource monitors and a process supervisor around
    it.  This development translates its C++ sources into executable Gallina and
    proves what each part does.  A definition that models code follows one
    function of the sources, or one fragment of a function, under its name.

    ** Files

    - Prelude: fixed-width integers, the [outcome] of a call, [Result] and [Error]
      (result.hpp), the descriptors of a process, the lemmas and tactics everything
      shares.
    - Bytes, CppString, ProcFs: bytes and little-endian loads and stores;
      [std::string], [std::to_string] and [std::from_chars]; [std::getline] and
      the extractions of [std::istringstream] on files of /proc.
    - StdMap: [std::map] with string keys, as an interface (a type class with its
      laws) and an implementation; HealthMonitor and Metrics use only the laws.
    - Float64, FloatText: non-negative doubles, their exact rounding, and their two
      printed forms ([operator<<] and [std::format]).
    - Wire: the response format (redis_client.hpp, [parse_value] in
      redis_client.cpp) against its grammar.
    - RedisClient: the socket, requests, response frames and commands
      (redis_client.hpp, redis_client.cpp).
    - LogAggregator: the bounded log and its queries (log_aggregator.hpp, log_aggregator.cpp).
    - Metrics: the exporter and the HTTP endpoint (metrics.hpp, metrics.cpp).
    - Exposition: a strict reader of the text format the endpoint announces, to state
      what a scraper sees of what the exporter prints; it models no code.
    - HealthMonitor: the checks, the monitor thread, its mutex and its joining
      (health_monitor.hpp, health_monitor.cpp).
    - ResourceMonitor, ResourceManager: sampling of /proc, alerts, history, limits,
      and the table of monitors (resource_monitor.hpp, resource_monitor.cpp).
    - MonitorThread: the thread of one monitor step by step, interleaved with the
      calls of its owner, up to the destructor ([monitor_loop] and its neighbours
      in resource_monitor.cpp).
    - Supervisor: the process table, the monitor threads, restarts and the watchdog
      (process_supervisor.hpp, process_supervisor.cpp).
    - Lifecycle: an abstract machine for the life of one supervised process, each move
      with the verdicts it hears and the events it raises, which Supervisor refines.
    - Sandbox: running a command in a child, the child's set-up and its seccomp
      filter, the stub for other systems (sandbox.hpp, sandbox.cpp, seccomp.cpp).
    - Smoke: the smoke test of the sandbox and the check of the stub
      (sandbox_smoke.cpp, cross_stub_main.cpp).
    - Options: the command line (main.cpp).
    - Daemon: the polling loop of main.cpp, composed from RedisClient, Sandbox,
      LogAggregator and Metrics, with what it prints; the callback of the
      supervisor; the registered health checks, composed from HealthMonitor and
      ResourceManager.
    - Session: the polling loop at the level of messages, a specification that
      Daemon refines.
    - Main: [main] from the command line to the exit code: the signal handler, the
      start-up, the loop until a signal, and the destructors in their order.

    ** How the code is represented

    The state of an object is a [Record] with the fields of its class under their
    own names; an operation is a function from the state, and from what the system
    answers, to the result and the new state.  A function that can throw, block or
    do something undefined returns an [outcome]: [Ret], [Throw], [Terminate]
    ([std::terminate]), [Undefined], [Blocked], or [OutOfFuel], an artefact of a
    recursion bound.  Unsigned arithmetic wraps where the code's does ([u32],
    [u64], ...), and buffer accesses out of bounds are [Undefined].

    The system is an input.  In RedisClient it is a script of the results of
    [send] and [recv]; in Sandbox, Supervisor and the monitors it is a record of
    the answers to one step: the result of [fork] or [clone], the wait status, the
    clock, the contents of /proc.  A call that waits may wait for ever: a script that
    runs out, and a child [waitpid] waits for that never ends, are [Blocked].
    Theorems quantify over it.

    A function handed to another is an argument: [Sandbox.run] calls the one it is
    given between its reads, on the state of its owner, so that in Daemon a chunk of
    output is logged and sent before the next is read.  The exporter of the metrics
    server is a pointer, looked up among the exporters that exist when it is used.

    Operations that hold a mutex for their whole length are one atomic step.  Where
    the threads matter they are steps of their own: Supervisor has the monitor
    threads and the watchdog, with [join], the mutex and the destruction of thread
    objects explicit, and [reachable] closes the object under every interleaving; a
    monitor thread that sleeps before a restart is at a step of its own, during which
    everything else may happen.  HealthMonitor and MonitorThread have the program
    counter of their thread, the former with the owner of the mutex.  Main runs the
    health thread of HealthMonitor for the steps its input gives, then joins it; what
    the implementation makes of the undefined unlock this may meet is an input too
    ([double_unlock]).
    Hash tables are traversed in an order given as a parameter, and theorems hold
    for every order.

    ** What is shown

    - Wire: parsing never leaves its buffer and accepts exactly the grammar; it is
      defined exactly as long as the stack is deep enough for the nesting of the
      input, and says how much is; no encoding is a prefix of another; a large element
      count reserves memory before any bound is checked.
    - RedisClient: a request and its response survive any splitting of the traffic
      by the kernel; on every behaviour of the kernel a request is sent in order,
      without repetition, and the call is defined; when the request does not fit 32
      bits it writes out of bounds; descriptors are not lost by connecting.
    - LogAggregator: the implementation refines a log that remembers everything and
      shows its last entries; the queries return the newest matches in order.
    - Metrics and Exposition: the text is one block per name, in order, losing
      nothing; a strict scraper reads it back to the recorded metrics, types, labels
      and values included, when names, labels and series are ones the format carries,
      which those of the daemon are not; what a client of the endpoint would be
      answered, though nothing in the daemon accepts one.
    - HealthMonitor: after a turn the statuses are the verdicts of the checks; the
      loop's lock is released twice, so no turn ends within the language; what that
      makes of joining the thread.
    - ResourceMonitor and ResourceManager: what the counters of /proc become, exact
      comparison of the memory ratio, the newest thousand samples, totals modulo
      their width in any order; the limit check of a listing sees memory only.
    - MonitorThread: [stop] always joins the thread, and no order of calls goes
      wrong.
    - Supervisor and Lifecycle: an invariant of every reachable state; the refinement
      of the life of a process by every interleaving; what [start], [stop],
      [remove_process] and the destructor do on every branch; that an automatic
      restart terminates the daemon, that [stop] always waits for its timeout, that
      a start too early never comes back, and that the watchdog reports every exit
      as a success.
    - Sandbox and Smoke: descriptors and memory are released exactly once on every
      branch; the output is what the child wrote, in pieces of at most 4095 bytes;
      the meaning of the exit code; that it returns exactly when the command closes
      its output and ends; the filter lets the child finish on every target and kills
      it at every call not on the list; what a success of the smoke test means.
    - Options and Daemon: options round-trip and stay within their types; the bytes
      sent during a turn are exactly the protocol of a job; the counters count.
    - Session and Main: the loop is the loop of the protocol at the level of
      messages when every command ends, and leaks no descriptor or memory; [main]
      serves until a signal comes, and what its coming back then depends on; its exit
      codes; what it has released by then; and the returns on which it destroys
      an object another still uses.

    ** Bounds and fuel

    The loops of RedisClient take fuel equal to the bytes to move plus one, and every
    turn moves at least one byte: [send_safe] shows [OutOfFuel] unreachable.  The
    parser recurses with the length of the buffer as fuel, each level consuming its
    tag, and with a stack whose depth is an argument ([parse_body_in]): a level takes
    five bytes at least, so that of the client, which reads frames of at most 64 MiB,
    would have to be a fifth of that deep ([parse_body_defined]); the other theorems
    are about a stack that is ([parse_body]).  [Supervisor.stop_loop] recurses on the polls it is
    given; [stop_times_out] shows a poll past the timeout is enough.  Joining a
    monitor takes at most five steps of its thread ([MonitorThread.join],
    [HealthMonitor.join]): [stop_thread_joins], [stop_joins].  The reads of
    [Sandbox.run] have one unit of fuel for each result and each byte of the script
    ([read_fuel]), and no read gives more than one result.  The decimal exponent search of FloatText has fuel 400, more than the decimal exponents of
    doubles.

    ** What is not modelled

    Parameters, with no property assumed of them unless a theorem says so: the regular
    expression engine, [strerror], [seccomp_syscall_resolve_name], [getopt_long].
    Left out: SIGPIPE (a write to a closed connection is an
    error result, not a signal), data races (the memory is sequentially consistent),
    the allocator (except where [reserve] is reached with a size from the network),
    negative doubles in the metrics, [uptime_seconds], the unit tests, and the
    scripts and container files. *)
From Stdlib Require Export ZArith Lia.
From Stdlib Require Export Init.Byte.
From Stdlib Require Strings.Byte.
From stdpp Require Export base tactics list gmap strings.

#[local] Open Scope Z_scope.

(** The rewriting and resolution hints the development shares. *)
Create HintDb devops.
Create Rewrite HintDb devops.

(** * Fixed-width integers

    A [uintN_t] is a [Z] in [0 .. 2^N - 1]; [wrap N] is the conversion to that
    type, which is also what unsigned overflow does.  A signed conversion is
    [sint N] (two's complement, as C++20 requires). *)
Definition wrap (w : Z) (z : Z) : Z := z mod 2 ^ w.
Definition sint (w : Z) (z : Z) : Z :=
  let r := wrap w z in if r <? 2 ^ (w - 1) then r else r - 2 ^ w.

Abbreviation u8 := (wrap 8).
Abbreviation u16 := (wrap 16).
Abbreviation u32 := (wrap 32).
Abbreviation u64 := (wrap 64).
Abbreviation i32 := (sint 32).
Abbreviation i64 := (sint 64).

Definition in_uint (w z : Z) : Prop := 0 <= z < 2 ^ w.
Definition in_sint (w z : Z) : Prop := - 2 ^ (w - 1) <= z < 2 ^ (w - 1).

(** * Outcomes of a call

    [Ret] is a normal return, [Throw] an exception that leaves the function,
    [Terminate] a call of [std::terminate] (an exception that leaves a thread's
    function, the destruction of a joinable [std::thread]), [Undefined] an
    operation the language gives no meaning to (an access out of bounds, locking
    a mutex twice or unlocking one not owned) or exhausting the stack, [Blocked] a call that never
    returns, and [OutOfFuel] an artefact of the recursion bound of the model,
    shown unreachable wherever it could occur. *)
Inductive exn : Type :=
  | bad_alloc
  | out_of_range
  | resource_deadlock_would_occur.

Inductive outcome (A : Type) : Type :=
  | Ret (a : A)
  | Throw (e : exn)
  | Terminate
  | Undefined
  | Blocked
  | OutOfFuel.
Arguments Ret {A} a.
Arguments Throw {A} e.
Arguments Terminate {A}.
Arguments Undefined {A}.
Arguments Blocked {A}.
Arguments OutOfFuel {A}.

#[global] Instance outcome_ret : MRet outcome := fun A a => Ret a.
#[global] Instance outcome_bind : MBind outcome := fun A B f m =>
  match m with
  | Ret a => f a
  | Throw e => Throw e
  | Terminate => Terminate
  | Undefined => Undefined
  | Blocked => Blocked
  | OutOfFuel => OutOfFuel
  end.

#[global] Instance outcome_fmap : FMap outcome := λ A B f m, m ≫= (λ a, Ret (f a)).

(** A partial memory access: no value means the access is undefined. *)
Definition access {A} (o : option A) : outcome A :=
  match o with Some a => Ret a | None => Undefined end.

(** The outcomes a caller can observe without leaving the language. *)
Definition defined {A} (m : outcome A) : Prop :=
  match m with Ret _ | Throw _ => True | _ => False end.

Lemma bind_Ret {A B} (m : outcome A) (f : A → outcome B) b :
  (a ← m; f a) = Ret b ↔ ∃ a, m = Ret a ∧ f a = Ret b.
Proof. destruct m; simpl; naive_solver. Qed.

Lemma bind_eq {A B} (m : outcome A) a (f : A → outcome B) : m = Ret a → m ≫= f = f a.
Proof. by intros ->. Qed.

Lemma bind_ret_l {A B} (a : A) (f : A → outcome B) : (x ← Ret a; f x) = f a.
Proof. done. Qed.

(** * [Result<T>] (result.hpp) *)
Inductive Errc : Type := Esystem | Eprotocol | Econfig | Estate.
#[global] Instance Errc_eq_dec : EqDecision Errc.
Proof. solve_decision. Defined.

Record Error : Type := mkError { code : Errc; message : string }.
#[global] Instance Error_eq_dec : EqDecision Error.
Proof. solve_decision. Defined.

(** The two alternatives of the [std::variant<T, Error>] (and of the
    [std::optional<Error>] of the [void] specialisation, with [T := unit]). *)
Inductive Result (T : Type) : Type :=
  | Ok (v : T)
  | Err (e : Error).
Arguments Ok {T} v.
Arguments Err {T} e.

Definition is_err {T} (r : Result T) : bool :=
  match r with Ok _ => false | Err _ => true end.

(** [static Error system(what)]: the text of [errno] is the C library's. *)
Definition Error_system (strerror : Z → string) (errno : Z) (what : string) : Error :=
  mkError Esystem (what +:+ ": " +:+ strerror errno).

(** * Descriptors

    The descriptors a process has open, and every [::close] it made of a number
    that was not. *)
Record fd_table : Type := mkFds { fds_open : gset Z; stray : list Z }.

Definition fd_open (fd : Z) (t : fd_table) : fd_table :=
  mkFds ({[fd]} ∪ fds_open t) (stray t).

Definition fd_close (fd : Z) (t : fd_table) : fd_table :=
  if decide (fd ∈ fds_open t) then mkFds (fds_open t ∖ {[fd]}) (stray t)
  else mkFds (fds_open t) (stray t ++ [fd]).

Lemma fd_table_eq t t' : fds_open t = fds_open t' → stray t = stray t' → t = t'.
Proof. destruct t, t'. simpl. congruence. Qed.

Lemma fd_close_open fd t : fd ∈ fds_open t → fd_close fd t = mkFds (fds_open t ∖ {[fd]}) (stray t).
Proof. intros. unfold fd_close. by rewrite decide_True. Qed.

(** Closing what has just been opened. *)
Lemma fd_close_opened fd t : fd ∉ fds_open t → fd_close fd (fd_open fd t) = t.
Proof.
  intros. rewrite fd_close_open by (simpl; set_solver). apply fd_table_eq; [|done].
  simpl. set_solver.
Qed.

(** * Lists *)
Section lists.
Context {A : Type}.
Implicit Types l : list A.

(** The last [n] elements of [l]: all of them when there are fewer. *)
Definition last_n (n : nat) (l : list A) : list A := drop (length l - n) l.

Lemma length_last_n n l : length (last_n n l) = Nat.min n (length l).
Proof. unfold last_n. rewrite length_drop. lia. Qed.

Lemma last_n_all n l : (length l ≤ n)%nat → last_n n l = l.
Proof. intros. unfold last_n. by replace (length l - n)%nat with 0%nat by lia. Qed.

Lemma last_n_0 l : last_n 0 l = [].
Proof. unfold last_n. rewrite Nat.sub_0_r. by apply drop_ge. Qed.

Lemma last_n_app_r n l k :
  (n ≤ length k)%nat → last_n n (l ++ k) = last_n n k.
Proof.
  intros. unfold last_n. rewrite length_app, drop_app_ge by lia. f_equal. lia.
Qed.

(** Dropping old elements early does not change which ones survive. *)
Lemma last_n_last_n_app n m l k :
  (n ≤ m)%nat → last_n n (last_n m l ++ k) = last_n n (l ++ k).
Proof.
  intros Hnm. rewrite <-(take_drop (length l - m) l) at 2.
  fold (last_n m l). rewrite <-(assoc_L (++)).
  destruct (decide (length l ≤ m)%nat).
  { by replace (length l - m)%nat with 0%nat by lia. }
  symmetry. apply last_n_app_r. rewrite length_app, length_last_n. lia.
Qed.

Lemma reverse_take_reverse n l : reverse (take n (reverse l)) = last_n n l.
Proof. by rewrite take_reverse, reverse_involutive. Qed.

(** Reading a list at consecutive indices. *)
Lemma omap_lookup_seq l k n :
  (k + n = length l)%nat → omap (λ i, l !! i) (seq k n) = drop k l.
Proof.
  revert k. induction n as [|n IH]; intros k Hk.
  - simpl. by rewrite drop_ge by lia.
  - simpl. destruct (lookup_lt_is_Some_2 l k) as [x Hx]; [lia|].
    rewrite Hx, IH by lia. symmetry. by apply drop_S.
Qed.

Lemma tail_drop l : tail l = drop 1 l.
Proof. by destruct l. Qed.

End lists.

#[export] Hint Rewrite @length_app @length_last_n @length_replicate @length_take
  @length_drop @length_insert : devops.

(** * Automation *)

(** Case analysis on the boolean comparisons of a goal, as arithmetic facts. *)
Ltac case_Z :=
  repeat match goal with
  | |- context [Z.ltb ?a ?b] => destruct (Z.ltb_spec a b)
  | |- context [Z.leb ?a ?b] => destruct (Z.leb_spec a b)
  | |- context [Z.eqb ?a ?b] => destruct (Z.eqb_spec a b)
  end.

Ltac len := autorewrite with devops in *; simpl in *; try lia.

Lemma wrap_range w z : 0 <= w → 0 <= wrap w z < 2 ^ w.
Proof. intros. apply Z.mod_pos_bound, Z.pow_pos_nonneg; lia. Qed.

Lemma wrap_small w z : 0 <= z < 2 ^ w → wrap w z = z.
Proof. apply Z.mod_small. Qed.

Lemma wrap_add_l w a b : wrap w (wrap w a + b) = wrap w (a + b).
Proof. unfold wrap. by rewrite Zplus_mod_idemp_l. Qed.

Lemma sint_range w z : 0 < w → in_sint w (sint w z).
Proof.
  intros. unfold in_sint, sint. pose proof (wrap_range w z ltac:(lia)).
  assert (2 ^ w = 2 * 2 ^ (w - 1)) by (rewrite <-Z.pow_succ_r by lia; f_equal; lia).
  case_Z; lia.
Qed.

(** Reinterpreting a signed value as unsigned and back is the identity. *)
Lemma sint_wrap w z : 0 < w → in_sint w z → sint w (wrap w z) = z.
Proof.
  intros ? [??]. unfold sint, wrap.
  assert (2 ^ w = 2 * 2 ^ (w - 1)) by (rewrite <-Z.pow_succ_r by lia; f_equal; lia).
  rewrite Zmod_mod. destruct (Z.leb_spec 0 z).
  - rewrite Z.mod_small by lia. case_Z; lia.
  - replace (z mod 2 ^ w) with (z + 2 ^ w)
      by (apply (Z.mod_unique_pos _ _ (-1)); lia).
    case_Z; lia.
Qed.

Lemma wrap_sint w z : 0 < w → in_uint w z → wrap w (sint w z) = z.
Proof.
  intros ? [??]. unfold sint. rewrite (wrap_small w z) by lia.
  case_Z; [by apply wrap_small|]. unfold wrap.
  symmetry. apply (Z.mod_unique_pos _ _ (-1)); lia.
Qed.
