(* ===== verification/Bytes.v ===== *)
(** Bytes, little-endian integers and memory blocks.

    A [const uint8_t*] with its length is a [list byte]; [load] and [store] are
    the [memcpy]s of redis_client.cpp, partial because an access outside the
    block is undefined.  The host is little-endian, as the wire format assumes. *)
From S2P Require Import Prelude.

#[local] Open Scope Z_scope.

(** * Bytes *)
Definition byte_to_Z (b : byte) : Z := Z.of_N (Byte.to_N b).
Definition byte_of_Z (z : Z) : byte :=
  default x00 (Byte.of_N (Z.to_N (z mod 256))).

#[global] Instance byte_eq_dec : EqDecision byte := Byte.byte_eq_dec.
#[global] Instance byte_inhabited : Inhabited byte := populate x00.

Lemma byte_to_Z_range b : 0 <= byte_to_Z b < 256.
Proof. unfold byte_to_Z. pose proof (Byte.to_N_bounded b). lia. Qed.

Lemma byte_of_to_Z b : byte_of_Z (byte_to_Z b) = b.
Proof.
  unfold byte_of_Z. rewrite Z.mod_small by apply byte_to_Z_range.
  unfold byte_to_Z. by rewrite N2Z.id, Byte.of_to_N.
Qed.

Lemma byte_to_of_Z z : byte_to_Z (byte_of_Z z) = z mod 256.
Proof.
  unfold byte_of_Z, byte_to_Z. pose proof (Z.mod_pos_bound z 256 ltac:(lia)).
  destruct (Byte.of_N (Z.to_N (z mod 256))) as [b|] eqn:Hb; simpl.
  - apply Byte.to_of_N in Hb. lia.
  - apply Byte.of_N_None_iff in Hb. lia.
Qed.

(** * Little-endian integers of any width *)
Fixpoint le_value (bs : list byte) : Z :=
  match bs with
  | [] => 0
  | b :: bs => byte_to_Z b + 256 * le_value bs
  end.

Fixpoint le_bytes (w : nat) (z : Z) : list byte :=
  match w with
  | O => []
  | S w => byte_of_Z z :: le_bytes w (z / 256)
  end.

Lemma length_le_bytes w z : length (le_bytes w z) = w.
Proof. revert z. induction w; simpl; auto. Qed.
#[export] Hint Rewrite length_le_bytes : devops.

Lemma pow2_8_succ w : 2 ^ (8 * Z.of_nat (S w)) = 256 * 2 ^ (8 * Z.of_nat w).
Proof.
  replace (8 * Z.of_nat (S w)) with (8 + 8 * Z.of_nat w) by lia.
  by rewrite Z.pow_add_r by lia.
Qed.

Lemma le_value_range bs : 0 <= le_value bs < 2 ^ (8 * Z.of_nat (length bs)).
Proof.
  induction bs as [|b bs IH]; [simpl; lia|]. cbn [le_value length].
  rewrite pow2_8_succ. pose proof (byte_to_Z_range b). lia.
Qed.

Lemma le_value_bytes w z :
  le_value (le_bytes w z) = z mod 2 ^ (8 * Z.of_nat w).
Proof.
  revert z. induction w as [|w IH]; intros z; [by rewrite Z.mod_1_r|].
  cbn [le_bytes le_value]. rewrite IH, byte_to_of_Z, pow2_8_succ.
  rewrite Z.rem_mul_r by lia. done.
Qed.

Lemma le_bytes_value bs : le_bytes (length bs) (le_value bs) = bs.
Proof.
  induction bs as [|b bs IH]; [done|]. cbn [le_value length le_bytes].
  pose proof (byte_to_Z_range b).
  f_equal.
  - rewrite <-(byte_of_to_Z b) at 2. unfold byte_of_Z. do 3 f_equal.
    by rewrite (Z.mul_comm 256), Z_mod_plus_full.
  - transitivity (le_bytes (length bs) (le_value bs)); [|done]. f_equal.
    symmetry. apply (Z.div_unique_pos _ _ _ (byte_to_Z b)); lia.
Qed.

(** The inverse of [le_bytes], on blocks of the right size. *)
Lemma le_bytes_of_value w bs : length bs = w → le_bytes w (le_value bs) = bs.
Proof. intros <-. apply le_bytes_value. Qed.

Lemma le_value_inj bs1 bs2 :
  length bs1 = length bs2 → le_value bs1 = le_value bs2 → bs1 = bs2.
Proof.
  intros Hl Hv. by rewrite <-(le_bytes_value bs1), Hl, Hv, le_bytes_value.
Qed.

(** * Memory blocks *)
Definition size {A} (l : list A) : Z := Z.of_nat (length l).

(** [slice buf off n]: the [n] bytes at [off], when all of them exist. *)
Definition slice (buf : list byte) (off n : Z) : option (list byte) :=
  if (0 <=? off) && (0 <=? n) && (off + n <=? size buf)
  then Some (take (Z.to_nat n) (drop (Z.to_nat off) buf))
  else None.

(** [load_le<T>(p)]: [sizeof(T)] bytes, least significant first. *)
Definition load (w : nat) (buf : list byte) (off : Z) : option Z :=
  le_value <$> slice buf off (Z.of_nat w).

(** [memcpy(buf + off, bs, bs.size())]. *)
Definition store (buf : list byte) (off : Z) (bs : list byte) : option (list byte) :=
  if (0 <=? off) && (off + size bs <=? size buf)
  then Some (take (Z.to_nat off) buf ++ bs
             ++ drop (Z.to_nat off + length bs) buf)
  else None.

Lemma size_nonneg {A} (l : list A) : 0 <= size l.
Proof. unfold size. lia. Qed.
Lemma size_app {A} (l k : list A) : size (l ++ k) = size l + size k.
Proof. unfold size. rewrite length_app. lia. Qed.
Lemma size_cons {A} (a : A) l : size (a :: l) = 1 + size l.
Proof. unfold size. simpl. lia. Qed.
Lemma size_nil {A} : size (@nil A) = 0.
Proof. done. Qed.
Lemma size_le_bytes w z : size (le_bytes w z) = Z.of_nat w.
Proof. unfold size. by rewrite length_le_bytes. Qed.
Lemma size_replicate {A} n (a : A) : size (replicate n a) = Z.of_nat n.
Proof. unfold size. by rewrite length_replicate. Qed.
#[export] Hint Rewrite @size_app @size_cons @size_nil size_le_bytes
  @size_replicate : devops.
#[export] Hint Resolve size_nonneg : devops.

(** Loads and stores, read off the shape of the block. *)
Lemma slice_app pre mid post :
  slice (pre ++ mid ++ post) (size pre) (size mid) = Some mid.
Proof.
  unfold slice. rewrite !size_app.
  pose proof (size_nonneg pre). pose proof (size_nonneg mid).
  pose proof (size_nonneg post).
  rewrite !(proj2 (Z.leb_le _ _)) by lia. simpl. f_equal.
  unfold size. rewrite !Nat2Z.id, drop_app_length. by rewrite take_app_length.
Qed.

Lemma slice_Some buf off n mid :
  slice buf off n = Some mid ↔
  ∃ pre post, buf = pre ++ mid ++ post ∧ size pre = off ∧ size mid = n.
Proof.
  split.
  - unfold slice. intros H.
    destruct ((0 <=? off) && (0 <=? n) && (off + n <=? size buf)) eqn:E; [|done].
    simplify_eq. apply andb_true_iff in E as [E1 E3].
    apply andb_true_iff in E1 as [E1 E2].
    apply Z.leb_le in E1, E2, E3. unfold size in *.
    exists (take (Z.to_nat off) buf), (drop (Z.to_nat n) (drop (Z.to_nat off) buf)).
    rewrite !take_drop, !length_take, !length_drop. split; [done|lia].
  - intros (pre & post & -> & <- & <-). apply slice_app.
Qed.

Lemma slice_None buf off n :
  0 <= off → 0 <= n → slice buf off n = None ↔ size buf < off + n.
Proof.
  intros. unfold slice. rewrite !(proj2 (Z.leb_le 0 _)) by lia. simpl.
  destruct (Z.leb_spec (off + n) (size buf)); naive_solver lia.
Qed.

Lemma load_app w pre mid post :
  length mid = w → load w (pre ++ mid ++ post) (size pre) = Some (le_value mid).
Proof. intros <-. unfold load. by rewrite (slice_app pre mid post : slice _ _ (Z.of_nat _) = _). Qed.

Lemma store_app pre old post bs off :
  size pre = off → length old = length bs →
  store (pre ++ old ++ post) off bs = Some (pre ++ bs ++ post).
Proof.
  intros <- Hl. unfold store. rewrite !size_app.
  assert (size old = size bs) by (unfold size; congruence).
  pose proof (size_nonneg pre). pose proof (size_nonneg post).
  rewrite !(proj2 (Z.leb_le _ _)) by lia. simpl. unfold size.
  rewrite Nat2Z.id, take_app_length. do 3 f_equal.
  rewrite <-drop_drop, drop_app_length, <-Hl. apply drop_app_length.
Qed.

Lemma store_None buf off bs :
  0 <= off → store buf off bs = None ↔ size buf < off + size bs.
Proof.
  intros. unfold store. rewrite (proj2 (Z.leb_le 0 _)) by lia. simpl.
  destruct (Z.leb_spec (off + size bs) (size buf)); naive_solver lia.
Qed.

Lemma size_store buf off bs buf' : store buf off bs = Some buf' → size buf' = size buf.
Proof.
  unfold store. destruct (0 <=? off) eqn:E1; simpl; [|done].
  destruct (off + size bs <=? size buf) eqn:E2; [|done]. intros [= <-].
  apply Z.leb_le in E1, E2. unfold size in *.
  rewrite !length_app, length_take, length_drop. lia.
Qed.

(** * Strings as bytes *)
Definition bytes (s : string) : list byte := String.list_byte_of_string s.
Definition of_bytes (bs : list byte) : string := String.string_of_list_byte bs.

Lemma of_bytes_bytes s : of_bytes (bytes s) = s.
Proof. apply String.string_of_list_byte_of_string. Qed.
Lemma bytes_of_bytes bs : bytes (of_bytes bs) = bs.
Proof. apply String.list_byte_of_string_of_list_byte. Qed.
Lemma bytes_inj s1 s2 : bytes s1 = bytes s2 → s1 = s2.
Proof. intros H. by rewrite <-(of_bytes_bytes s1), H, of_bytes_bytes. Qed.
Lemma length_bytes s : length (bytes s) = String.length s.
Proof.
  unfold bytes, String.list_byte_of_string. rewrite length_map.
  induction s; simpl; auto.
Qed.
Lemma bytes_append s1 s2 : bytes (s1 +:+ s2) = bytes s1 ++ bytes s2.
Proof.
  unfold bytes, String.list_byte_of_string. rewrite <-List.map_app. f_equal.
  induction s1; simpl; [done|]. by f_equal.
Qed.

#[global] Arguments le_bytes : simpl never.
#[global] Arguments le_value : simpl never.
