(* ===== verification/CppString.v ===== *)
(** [std::string] operations the program uses: searching, prefixes, substrings,
    and the decimal conversions [std::to_string] and [std::from_chars]. *)
From Stdlib Require Import DecimalString DecimalN.
From S2P Require Import Prelude.

#[local] Open Scope Z_scope.

(** * Searching *)

(** [starts_with]. *)
Fixpoint starts_with (s p : string) {struct p} : bool :=
  match p, s with
  | EmptyString, _ => true
  | String.String b p, String.String a s => bool_decide (a = b) && starts_with s p
  | _, EmptyString => false
  end.

(** First occurrence of [q] in [s]. *)
Fixpoint find_opt (s q : string) : option nat :=
  if starts_with s q then Some O
  else match s with
       | EmptyString => None
       | String.String _ s => S <$> find_opt s q
       end.

Definition npos : Z := 2 ^ 64 - 1.

(** [s.find(q)] *)
Definition find (s q : string) : Z :=
  match find_opt s q with Some n => Z.of_nat n | None => npos end.

(** [s.find(q) != npos] *)
Definition contains (s q : string) : bool :=
  match find_opt s q with Some _ => true | None => false end.

(** * Substrings *)
Fixpoint string_drop (n : nat) (s : string) : string :=
  match n, s with
  | O, _ => s
  | S _, EmptyString => EmptyString
  | S n, String.String _ s => string_drop n s
  end.

Fixpoint string_take (n : nat) (s : string) : string :=
  match n, s with
  | O, _ | _, EmptyString => EmptyString
  | S n, String.String a s => String.String a (string_take n s)
  end.

(** [s.substr(pos)] throws when [pos > s.size()]. *)
Definition substr_from (s : string) (pos : Z) : outcome string :=
  if Z.of_nat (String.length s) <? pos then Throw out_of_range
  else Ret (string_drop (Z.to_nat pos) s).

(** [s.substr(0, n)] never throws; it clips to the length. *)
Definition substr0 (s : string) (n : nat) : string := string_take n s.

(** * Decimal numbers *)

(** [std::to_string] of an integer. *)
Definition to_string (z : Z) : string :=
  match z with
  | Z.neg p => "-" +:+ NilZero.string_of_uint (N.to_uint (N.pos p))
  | _ => NilZero.string_of_uint (N.to_uint (Z.to_N z))
  end.

Definition digit_of (c : Ascii.ascii) : option Z :=
  let n := Z.of_N (Ascii.N_of_ascii c) in
  if (48 <=? n) && (n <=? 57) then Some (n - 48) else None.

(** The longest prefix of decimal digits and what follows it. *)
Fixpoint span_digits (s : string) : list Z * string :=
  match s with
  | EmptyString => ([], EmptyString)
  | String.String c s' =>
      match digit_of c with
      | Some d => let '(ds, r) := span_digits s' in (d :: ds, r)
      | None => ([], s)
      end
  end.

Definition dec_value (acc : Z) (ds : list Z) : Z :=
  fold_left (λ v d, 10 * v + d) ds acc.

(** The [errc] a conversion reports. *)
Inductive from_chars_ec : Type := no_error | invalid_argument | result_out_of_range.

(** [std::from_chars(first, last, value)] at an unsigned type of [w] bits: the
    error code, the value (unchanged, 0, on failure) and the unread suffix. *)
Definition from_chars (w : Z) (s : string) : from_chars_ec * Z * string :=
  match span_digits s with
  | ([], _) => (invalid_argument, 0, s)
  | (ds, rest) =>
      let v := dec_value 0 ds in
      if v <? 2 ^ w then (no_error, v, rest) else (result_out_of_range, 0, rest)
  end.

(** * Lemmas on searching *)
Lemma string_app_cons a (s1 s2 : string) :
  String.String a s1 +:+ s2 = String.String a (s1 +:+ s2).
Proof. done. Qed.

Lemma string_app_nil_l (s : string) : "" +:+ s = s.
Proof. done. Qed.

Lemma starts_with_true s p : starts_with s p = true ↔ ∃ r, s = p +:+ r.
Proof.
  revert s. induction p as [|b p IH]; intros s; simpl.
  - setoid_rewrite string_app_nil_l. destruct s; naive_solver.
  - destruct s as [|a s]; [split; [done|by intros [r [=]]]|].
    setoid_rewrite string_app_cons. simpl. case_bool_decide; simpl.
    + rewrite IH. naive_solver.
    + naive_solver.
Qed.

Lemma find_opt_Some s q n :
  find_opt s q = Some n →
  ∃ l r, s = l +:+ q +:+ r ∧ String.length l = n.
Proof.
  revert n. induction s as [|a s IH]; intros n; cbn [find_opt].
  - destruct (starts_with "" q) eqn:E; [|done]. intros [= <-].
    apply starts_with_true in E as [r Hr]. exists "", r.
      by rewrite string_app_nil_l.
  - destruct (starts_with (String.String a s) q) eqn:E.
    + intros [= <-]. apply starts_with_true in E as [r Hr]. exists "", r.
      by rewrite string_app_nil_l.
    + destruct (find_opt s q) as [k|]; [|done]. intros [= <-].
      destruct (IH k eq_refl) as (l & r & -> & Hl).
      exists (String.String a l), r. simpl. by rewrite Hl, string_app_cons.
Qed.

Lemma find_opt_app l q r : is_Some (find_opt (l +:+ q +:+ r) q).
Proof.
  induction l as [|a l IH]; rewrite ?string_app_nil_l, ?string_app_cons; simpl.
  - assert (starts_with (q +:+ r) q = true) as H by (apply starts_with_true; eauto).
    destruct (q +:+ r); cbn [find_opt]; rewrite H; eauto.
  - case_match; [eauto|]. destruct IH as [k ->]. simpl. eauto.
Qed.

Lemma contains_true s q : contains s q = true ↔ ∃ l r, s = l +:+ q +:+ r.
Proof.
  unfold contains. split.
  - destruct (find_opt s q) as [n|] eqn:E; [|done]. intros _.
    apply find_opt_Some in E as (l & r & ? & _). eauto.
  - intros (l & r & ->). by destruct (find_opt_app l q r) as [n ->].
Qed.

Lemma string_app_assoc (s1 s2 s3 : string) :
  (s1 +:+ s2) +:+ s3 = s1 +:+ s2 +:+ s3.
Proof. induction s1; rewrite ?string_app_cons; f_equal; auto. Qed.

Lemma string_app_nil_r (s : string) : s +:+ "" = s.
Proof. induction s; rewrite ?string_app_cons; f_equal; auto. Qed.

Lemma length_string_app (s1 s2 : string) :
  String.length (s1 +:+ s2) = (String.length s1 + String.length s2)%nat.
Proof. induction s1; rewrite ?string_app_cons; simpl; auto. Qed.

Lemma string_drop_app (s1 s2 : string) :
  string_drop (String.length s1) (s1 +:+ s2) = s2.
Proof. induction s1; rewrite ?string_app_cons; simpl; [by destruct s2|done]. Qed.

Lemma string_drop_0 s : string_drop 0 s = s.
Proof. by destruct s. Qed.

Lemma string_drop_drop n m s : string_drop n (string_drop m s) = string_drop (m + n) s.
Proof. revert s. induction m as [|m IH]; intros [|a s]; simpl; auto. by destruct n. Qed.

Lemma string_take_drop n s : string_take n s +:+ string_drop n s = s.
Proof.
  revert s. induction n as [|n IH]; intros [|a s]; simpl; try done.
  by rewrite string_app_cons, IH.
Qed.

Lemma length_string_take n s : String.length (string_take n s) = Nat.min n (String.length s).
Proof. revert s. induction n as [|n IH]; intros [|a s]; simpl; auto. Qed.

(** * Lemmas on decimal numbers *)
Fixpoint digits_of_uint (d : Decimal.uint) : list Z :=
  match d with
  | Decimal.Nil => []
  | Decimal.D0 d => 0 :: digits_of_uint d
  | Decimal.D1 d => 1 :: digits_of_uint d
  | Decimal.D2 d => 2 :: digits_of_uint d
  | Decimal.D3 d => 3 :: digits_of_uint d
  | Decimal.D4 d => 4 :: digits_of_uint d
  | Decimal.D5 d => 5 :: digits_of_uint d
  | Decimal.D6 d => 6 :: digits_of_uint d
  | Decimal.D7 d => 7 :: digits_of_uint d
  | Decimal.D8 d => 8 :: digits_of_uint d
  | Decimal.D9 d => 9 :: digits_of_uint d
  end.

Lemma span_string_of_uint d :
  span_digits (NilEmpty.string_of_uint d) = (digits_of_uint d, "").
Proof. induction d as [|d IH|d IH|d IH|d IH|d IH|d IH|d IH|d IH|d IH|d IH];
  [done|..]; simpl; by rewrite IH. Qed.

Lemma dec_value_acc d (p : positive) :
  dec_value (Z.pos p) (digits_of_uint d) = Z.pos (Pos.of_uint_acc d p).
Proof.
  revert p. induction d; intros p; [done|..];
    cbn [digits_of_uint]; unfold dec_value; cbn [fold_left];
    cbn [Pos.of_uint_acc]; rewrite <-IHd; unfold dec_value; f_equal; lia.
Qed.

Lemma dec_value_of_uint d : dec_value 0 (digits_of_uint d) = Z.of_N (N.of_uint d).
Proof.
  unfold N.of_uint. induction d; [done|..];
    cbn [digits_of_uint]; unfold dec_value; cbn [fold_left];
    [exact IHd|..]; simpl Z.add; apply dec_value_acc.
Qed.

Lemma dec_value_nonneg acc ds :
  0 <= acc → Forall (λ d, 0 <= d) ds → 0 <= dec_value acc ds.
Proof.
  intros Hacc Hds. revert acc Hacc.
  induction Hds as [|d ds Hd _ IH]; intros acc Hacc; [done|].
  unfold dec_value in *. simpl. apply IH. lia.
Qed.

Lemma digit_of_range c d : digit_of c = Some d → 0 <= d <= 9.
Proof. unfold digit_of. case_match eqn:E; [|done]. intros [= <-]. lia. Qed.

Lemma span_digits_nonneg s : Forall (λ d, 0 <= d) (span_digits s).1.
Proof.
  induction s as [|c s IH]; simpl; [constructor|].
  destruct (digit_of c) as [d|] eqn:E; [|constructor].
  destruct (span_digits s). simpl in *. constructor; [|done].
  apply digit_of_range in E. lia.
Qed.

(** A non-negative number prints as a non-empty run of digits with its value. *)
Lemma to_string_digits n :
  0 <= n → ∃ d, to_string n = NilEmpty.string_of_uint d ∧ d ≠ Decimal.Nil
    ∧ dec_value 0 (digits_of_uint d) = n.
Proof.
  intros Hn. exists (N.to_uint (Z.to_N n)).
  assert (Hnil : N.to_uint (Z.to_N n) ≠ Decimal.Nil).
  { destruct (Z.to_N n) as [|p]; [done|]. simpl.
    intros Hp. by apply (DecimalPos.Unsigned.to_uint_nonnil p). }
  split; [|split; [done|]].
  - transitivity (NilZero.string_of_uint (N.to_uint (Z.to_N n))); [by destruct n|].
    by destruct (N.to_uint (Z.to_N n)).
  - rewrite dec_value_of_uint, DecimalN.Unsigned.of_to. lia.
Qed.

Lemma from_chars_to_string w n :
  0 <= n → from_chars w (to_string n) =
           if n <? 2 ^ w then (no_error, n, "") else (result_out_of_range, 0, "").
Proof.
  intros Hn. destruct (to_string_digits n Hn) as (d & -> & Hd & Hv).
  unfold from_chars. rewrite span_string_of_uint, Hv.
  destruct (digits_of_uint d) eqn:E; [by destruct d|done].
Qed.
