(* ===== verification/StdMap.v ===== *)
(** [std::map<std::string, V>]: the interface the monitors and the metrics rely
    on, its laws, and an implementation.  A map is traversed in the order of its
    keys, [std::less] on strings being the lexicographic order of their bytes. *)
From stdpp Require Import sorting.
From S2P Require Import Prelude.

(** * The interface *)
Class StdMap (M : Type → Type) : Type := {
  map_new {V} : M V;
  map_find {V} : M V → string → option V;
  (** [m[key] = value] *)
  map_assign {V} : string → V → M V → M V;
  (** what [for (auto& [k, v] : m)] yields *)
  map_entries {V} : M V → list (string * V);
}.

(** Keys grow strictly along a traversal. *)
Definition key_lt {V} (p q : string * V) : Prop := String.le p.1 q.1 ∧ p.1 ≠ q.1.

Class StdMapLaws (M : Type → Type) `{!StdMap M} : Prop := {
  find_new {V} k : map_find (map_new : M V) k = None;
  find_assign {V} k v (m : M V) k' :
    map_find (map_assign k v m) k' = if decide (k' = k) then Some v else map_find m k';
  entries_find {V} (m : M V) k v : (k, v) ∈ map_entries m ↔ map_find m k = Some v;
  entries_sorted {V} (m : M V) : StronglySorted key_lt (map_entries m);
}.

(** * Consequences of the laws *)
Lemma key_sorted_unique {V} (l1 l2 : list (string * V)) :
  StronglySorted key_lt l1 → StronglySorted key_lt l2 →
  (∀ p, p ∈ l1 ↔ p ∈ l2) → l1 = l2.
Proof.
  assert (Hirr : ∀ (l : list (string * V)) p,
    Forall (key_lt p) l → ∀ q, q ∈ l → q ≠ p).
  { intros l p Hl q Hq ->. rewrite list.Forall_forall in Hl. by destruct (Hl p Hq). }
  revert l2. induction l1 as [|p1 l1 IH]; intros [|p2 l2] H1 H2 Hin; [done| | |].
  - pose proof (proj2 (Hin p2) ltac:(set_solver)). set_solver.
  - pose proof (proj1 (Hin p1) ltac:(set_solver)). set_solver.
  - apply StronglySorted_inv in H1 as [H1 F1], H2 as [H2 F2].
    assert (p1 = p2) as ->.
    { pose proof (proj1 (Hin p1) ltac:(set_solver)) as [?|Hp1]%elem_of_cons; [done|].
      pose proof (proj2 (Hin p2) ltac:(set_solver)) as [?|Hp2]%elem_of_cons; [done|].
      rewrite list.Forall_forall in F1, F2. destruct (F2 p1 Hp1) as [Ha Hb].
      destruct (F1 p2 Hp2) as [Hc _]. destruct Hb. by apply (anti_symm String.le). }
    f_equal. apply IH; [done..|]. intros p. specialize (Hin p). rewrite !elem_of_cons in Hin.
    specialize (Hirr _ p2 F1 p) as G1. specialize (Hirr _ p2 F2 p) as G2. naive_solver.
Qed.

Section laws.
Context `{StdMapLaws M} {V : Type}.
Implicit Types m : M V.

(** Two maps with the same lookups are traversed alike. *)
Lemma entries_ext m1 m2 :
  (∀ k, map_find m1 k = map_find m2 k) → map_entries m1 = map_entries m2.
Proof.
  intros Hf. apply key_sorted_unique; [apply entries_sorted..|].
  intros [k v]. by rewrite !entries_find, Hf.
Qed.

Lemma entries_new : map_entries (map_new : M V) = [].
Proof.
  destruct (map_entries _) as [|[k v] l] eqn:E; [done|].
  assert ((k, v) ∈ map_entries (map_new : M V)) as Hin by (rewrite E; set_solver).
  apply entries_find in Hin. by rewrite find_new in Hin.
Qed.

Lemma entries_NoDup m : NoDup (map_entries m).*1.
Proof.
  pose proof (entries_sorted m) as Hs. induction Hs as [|[k v] l Hs IH Hl]; cbn; [constructor|].
  constructor; [|done]. intros ([k' v'] & -> & Hin)%list_elem_of_fmap.
  rewrite list.Forall_forall in Hl. by destruct (Hl _ Hin).
Qed.
End laws.

(** * An implementation: finite maps, sorted on traversal *)
Definition le_key {V} (p q : string * V) : Prop := String.le p.1 q.1.
#[global] Instance le_key_dec {V} : RelDecision (@le_key V).
Proof. intros p q. unfold le_key. apply _. Defined.
#[local] Instance le_key_trans {V} : Transitive (@le_key V).
Proof. intros p q r. unfold le_key. apply transitivity. Qed.
#[local] Instance le_key_total {V} : Total (@le_key V).
Proof. intros p q. unfold le_key. apply total, _. Qed.

#[global] Instance gmap_StdMap : StdMap (gmap string) := {
  map_new V := ∅;
  map_find V m k := m !! k;
  map_assign V k v m := <[k := v]> m;
  map_entries V m := merge_sort le_key (map_to_list m);
}.

#[global] Instance gmap_StdMapLaws : StdMapLaws (gmap string).
Proof.
  split.
  - intros V k. apply lookup_empty.
  - intros V k v m k'. cbn. case_decide; subst; [apply lookup_insert_eq|].
    by apply lookup_insert_ne.
  - intros V m k v. cbn. by rewrite merge_sort_Permutation, elem_of_map_to_list.
  - intros V m. cbn.
    pose proof (StronglySorted_merge_sort le_key (map_to_list m)) as Hs.
    assert (NoDup (merge_sort le_key (map_to_list m)).*1) as Hnd
      by (rewrite merge_sort_Permutation; apply NoDup_fst_map_to_list).
    induction Hs as [|p l Hs IH Hl]; [constructor|].
    cbn in Hnd. apply NoDup_cons in Hnd as [Hp Hnd]. constructor; [by apply IH|].
    rewrite list.Forall_forall in Hl |- *. intros q Hq. split; [by apply Hl|].
    intros Heq. apply Hp. rewrite Heq. by apply list_elem_of_fmap_2.
Qed.
