(* ===== verification/Float64.v ===== *)
(** Non-negative IEEE 754 doubles, as far as the program computes with them:
    conversion of unsigned integers, division and comparison, each rounded to
    nearest with ties to even. *)
From S2P Require Import Prelude.

#[local] Open Scope Z_scope.

(** [F m e] is [m * 2^e]. *)
Inductive f64 : Type := F (m e : Z) | Inf | NaN.
#[global] Instance f64_eq_dec : EqDecision f64.
Proof. solve_decision. Defined.

(** [2^z], or 1 for a negative [z]: a ratio is scaled by [2^z] by multiplying its
    numerator by [p2 z] and its denominator by [p2 (- z)]. *)
Definition p2 (z : Z) : Z := 2 ^ Z.max z 0.

(** [floor (log2 (n / d))] *)
Definition binade (n d : Z) : Z :=
  let k := Z.log2 n - Z.log2 d in
  if n * p2 (- k) <? d * p2 k then k - 1 else k.

(** Integer division rounded to nearest, ties to even. *)
Definition div_even (n d : Z) : Z :=
  let q := n / d in
  let r := n mod d in
  if (d <? 2 * r) || ((2 * r =? d) && Z.odd q) then q + 1 else q.

(** The double nearest to [n / d]: 53 bits, exponent at least -1074. *)
Definition rnd (n d : Z) : f64 :=
  if n =? 0 then F 0 0
  else
    let e := Z.max (binade n d - 52) (-1074) in
    let q := div_even (n * p2 (- e)) (d * p2 e) in
    let '(q, e) := if q =? 2 ^ 53 then (2 ^ 52, e + 1) else (q, e) in
    if 971 <? e then Inf else F q e.

(** [static_cast<double>] of an unsigned integer. *)
Definition f64_of_Z (z : Z) : f64 := rnd z 1.

Definition fdiv (a b : f64) : f64 :=
  match a, b with
  | NaN, _ | _, NaN | Inf, Inf => NaN
  | Inf, F _ _ => Inf
  | F _ _, Inf => F 0 0
  | F m1 e1, F m2 e2 =>
      if m2 =? 0 then (if m1 =? 0 then NaN else Inf)
      else rnd (m1 * p2 (e1 - e2)) (m2 * p2 (e2 - e1))
  end.

(** [a > b] *)
Definition fgt (a b : f64) : bool :=
  match a, b with
  | NaN, _ | _, NaN => false
  | Inf, Inf => false
  | Inf, F _ _ => true
  | F _ _, Inf => false
  | F m1 e1, F m2 e2 => m2 * p2 (e2 - e1) <? m1 * p2 (e1 - e2)
  end.

(** The literals 0.9 and 0.75. *)
Definition f0_9 : f64 := rnd 9 10.
Definition f0_75 : f64 := rnd 3 4.

Example f0_9_bits : f0_9 = F 8106479329266893 (-53).
Proof. reflexivity. Qed.
Example f0_75_bits : f0_75 = F (3 * 2 ^ 51) (-53).
Proof. reflexivity. Qed.

(** * Scaling *)
Lemma p2_pos z : 0 < p2 z.
Proof. apply Z.pow_pos_nonneg; lia. Qed.

Lemma p2_nonneg z : 0 <= z → p2 z = 2 ^ z.
Proof. intros. unfold p2. by rewrite Z.max_l. Qed.

Lemma p2_neg z : z <= 0 → p2 z = 1.
Proof. intros. unfold p2. by rewrite Z.max_r. Qed.

Lemma p2_shift a b : p2 (a + b) * p2 (- a) * p2 (- b) = p2 (- (a + b)) * p2 a * p2 b.
Proof.
  unfold p2. rewrite <-!Z.pow_add_r by lia. f_equal. lia.
Qed.

(** Comparing scaled ratios does not depend on which side carries the power. *)
Lemma scale_le n d a b :
  0 <= n → 0 <= d →
  d * p2 (a + b) <= n * p2 (- (a + b)) ↔ d * p2 a * p2 b <= n * p2 (- a) * p2 (- b).
Proof.
  intros Hn Hd. pose proof (p2_shift a b) as H.
  pose proof (p2_pos (a + b)). pose proof (p2_pos (- (a + b))).
  pose proof (p2_pos a). pose proof (p2_pos b). pose proof (p2_pos (- a)). pose proof (p2_pos (- b)).
  set (x := p2 (a + b)) in *. set (y := p2 (- (a + b))) in *.
  set (u := p2 a * p2 b) in *. set (v := p2 (- a) * p2 (- b)) in *.
  assert (x * v = y * u) by (unfold u, v; lia).
  assert (0 < u) by (unfold u; nia). assert (0 < v) by (unfold v; nia).
  replace (d * p2 a * p2 b) with (d * u) by (unfold u; lia).
  replace (n * p2 (- a) * p2 (- b)) with (n * v) by (unfold v; lia).
  split; intros Hle.
  - apply (Z.mul_le_mono_pos_l _ _ y); [done|].
    replace (y * (d * u)) with (d * x * v) by nia. nia.
  - apply (Z.mul_le_mono_pos_l _ _ v); [done|].
    replace (v * (d * x)) with (d * u * y) by nia. nia.
Qed.

Lemma binade_spec n d :
  0 < n → 0 < d →
  d * p2 (binade n d) <= n * p2 (- binade n d) ∧
  n * p2 (- (binade n d + 1)) < d * p2 (binade n d + 1).
Proof.
  intros Hn Hd. unfold binade.
  pose proof (Z.log2_spec n Hn) as [Hn1 Hn2]. pose proof (Z.log2_spec d Hd) as [Hd1 Hd2].
  pose proof (Z.log2_nonneg n). pose proof (Z.log2_nonneg d).
  set (a := Z.log2 n) in *. set (b := Z.log2 d) in *.
  rewrite Z.pow_succ_r in Hn2, Hd2 by lia.
  assert (Hup : n * p2 (- (a - b + 1)) < d * p2 (a - b + 1)).
  { destruct (Z.le_gt_cases 0 (a - b + 1)).
    - rewrite (p2_neg (- _)), p2_nonneg by lia.
      assert (2 ^ b * 2 ^ (a - b + 1) = 2 * 2 ^ a) as Hp
        by (rewrite <-Z.pow_add_r, <-Z.pow_succ_r by lia; f_equal; lia).
      pose proof (Z.pow_pos_nonneg 2 (a - b + 1)). nia.
    - rewrite (p2_neg (a - b + 1)), (p2_nonneg (- _)) by lia.
      assert (2 ^ b = 2 * 2 ^ a * 2 ^ (- (a - b + 1))) as Hp
        by (rewrite <-Z.pow_succ_r, <-Z.pow_add_r by lia; f_equal; lia).
      pose proof (Z.pow_pos_nonneg 2 (- (a - b + 1))). nia. }
  destruct (Z.ltb_spec (n * p2 (- (a - b))) (d * p2 (a - b))) as [Hlt|Hge]; [|by split].
  split; [|by replace (a - b - 1 + 1) with (a - b) by lia].
  destruct (Z.le_gt_cases 0 (a - b - 1)).
  - rewrite (p2_neg (- _)), p2_nonneg by lia.
    assert (2 * 2 ^ b * 2 ^ (a - b - 1) = 2 ^ a) as Hp
      by (rewrite <-Z.pow_succ_r, <-Z.pow_add_r by lia; f_equal; lia).
    pose proof (Z.pow_pos_nonneg 2 (a - b - 1)). nia.
  - rewrite (p2_neg (a - b - 1)), (p2_nonneg (- _)) by lia.
    assert (2 * 2 ^ b = 2 ^ a * 2 ^ (- (a - b - 1))) as Hp
      by (rewrite <-Z.pow_succ_r, <-Z.pow_add_r by lia; f_equal; lia).
    pose proof (Z.pow_pos_nonneg 2 (- (a - b - 1))). nia.
Qed.

(** * Rounding to an integer *)
Lemma div_even_bounds n d : 0 < d → n / d <= div_even n d <= n / d + 1.
Proof. intros. unfold div_even. destruct (_ || _); lia. Qed.

Lemma div_even_exact k d : 0 < d → div_even (k * d) d = k.
Proof.
  intros. unfold div_even. rewrite Z.div_mul, Z.mod_mul by lia.
  destruct (Z.ltb_spec d (2 * 0)); [lia|]. destruct (Z.eqb_spec (2 * 0) d); [lia|]. done.
Qed.

(** The rounded quotient exceeds [k] exactly past the midpoint above [k], which
    itself rounds up when [k] is odd. *)
Lemma div_even_gt n d k :
  0 < d →
  k < div_even n d ↔ (if Z.odd k then (2 * k + 1) * d <= 2 * n else (2 * k + 1) * d < 2 * n).
Proof.
  intros Hd. unfold div_even.
  pose proof (Z.div_mod n d ltac:(lia)) as Hn. pose proof (Z.mod_pos_bound n d Hd).
  set (q := n / d) in *. set (r := n mod d) in *.
  destruct (Z.lt_trichotomy q k) as [Hq|[->|Hq]].
  - destruct (_ || _), (Z.odd k); nia.
  - destruct (Z.ltb_spec d (2 * r)), (Z.eqb_spec (2 * r) d), (Z.odd k); simpl; nia.
  - destruct (_ || _), (Z.odd k); nia.
Qed.

(** * Comparing a rounded ratio with a double in [1/2, 1) *)
Definition past_midpoint (n d C : Z) : bool :=
  if Z.odd C then (2 * C + 1) * d <=? 2 ^ 54 * n else (2 * C + 1) * d <? 2 ^ 54 * n.

(** The significand before the carry to the next binade. *)
Lemma div_even_binade n d :
  0 < n → 0 < d → -1022 <= binade n d →
  let e := binade n d - 52 in
  2 ^ 52 <= div_even (n * p2 (- e)) (d * p2 e) <= 2 ^ 53.
Proof.
  intros Hn Hd Hb e. pose proof (binade_spec n d Hn Hd) as [Hlo Hhi].
  pose proof (p2_pos e). pose proof (p2_pos (- e)).
  set (x := n * p2 (- e)). set (y := d * p2 e). assert (0 < y) by (unfold y; nia).
  assert (Hx : 2 ^ 52 * y <= x).
  { replace (binade n d) with (e + 52) in Hlo by (unfold e; lia).
    apply scale_le in Hlo; [|lia..]. rewrite (p2_neg (Z.opp 52)), (p2_nonneg 52) in Hlo by lia.
    unfold x, y. lia. }
  assert (Hy : x < 2 ^ 53 * y).
  { replace (binade n d + 1) with (e + 53) in Hhi by (unfold e; lia).
    apply Z.lt_nge in Hhi. apply Z.lt_nge. intros Hc. apply Hhi.
    apply scale_le; [lia..|]. rewrite (p2_neg (Z.opp 53)), (p2_nonneg 53) by lia.
    unfold x, y in Hc. lia. }
  pose proof (div_even_bounds x y ltac:(done)).
  assert (2 ^ 52 <= x / y) by (apply Z.div_le_lower_bound; lia).
  assert (x / y < 2 ^ 53) by (apply Z.div_lt_upper_bound; lia). lia.
Qed.

Lemma rnd_normal n d :
  0 < n → 0 < d → -1022 <= binade n d <= 900 →
  ∃ q e, rnd n d = F q e ∧ 2 ^ 52 <= q < 2 ^ 53 ∧
    let e0 := binade n d - 52 in
    let q0 := div_even (n * p2 (- e0)) (d * p2 e0) in
    (e = e0 ∧ q = q0) ∨ (e = e0 + 1 ∧ q = 2 ^ 52 ∧ q0 = 2 ^ 53).
Proof.
  intros Hn Hd Hb. pose proof (div_even_binade n d Hn Hd ltac:(lia)) as Hq.
  cbv zeta in Hq. unfold rnd. rewrite (proj2 (Z.eqb_neq n 0)) by lia.
  rewrite Z.max_l by lia. cbv zeta.
  set (e := binade n d - 52) in *. set (q := div_even _ _) in *.
  destruct (Z.eqb_spec q (2 ^ 53)) as [Hc|Hc].
  - destruct (Z.ltb_spec 971 (e + 1)); [lia|].
    exists (2 ^ 52), (e + 1). split; [done|]. split; [lia|]. auto.
  - destruct (Z.ltb_spec 971 e); [lia|]. exists q, e. split; [done|]. split; [lia|]. auto.
Qed.

Lemma rnd_gt_threshold n d C :
  0 < n → 0 < d → -1022 <= binade n d <= 900 → 2 ^ 52 <= C < 2 ^ 53 →
  fgt (rnd n d) (F C (-53)) = past_midpoint n d C.
Proof.
  intros Hn Hd Hb HC.
  destruct (rnd_normal n d Hn Hd Hb) as (q & e & -> & Hq & He). cbv zeta in He.
  pose proof (binade_spec n d Hn Hd) as [Hlo Hhi].
  unfold fgt, past_midpoint.
  set (b := binade n d) in *.
  destruct (Z.lt_trichotomy b (-1)) as [Hb1|[Hb1|Hb1]].
  - (* the ratio is below one half *)
    assert (H : 2 * n < d).
    { rewrite (p2_nonneg (- _)), (p2_neg (b + 1)) in Hhi by lia.
      assert (2 ^ 1 <= 2 ^ (- (b + 1))) by (apply Z.pow_le_mono_r; lia). nia. }
    assert (e <= -53) by lia.
    rewrite (p2_nonneg (-53 - e)), (p2_neg (e - -53)) by lia.
    pose proof (Z.pow_pos_nonneg 2 (-53 - e) ltac:(lia) ltac:(lia)).
    assert (e = -53 → q = 2 ^ 52) by lia.
    assert (e < -53 → 2 ^ 1 <= 2 ^ (-53 - e)) by (intros; apply Z.pow_le_mono_r; lia).
    transitivity false; [apply Z.ltb_ge|destruct (Z.odd C); case_Z; nia].
    destruct (Z.eq_dec e (-53)) as [->|]; [simpl; lia|nia].
  - (* same binade as the threshold *)
    rewrite Hb1 in He. change (-1 - 52) with (-53) in He.
    rewrite (p2_nonneg (- -53)), (p2_neg (-53)), Z.mul_1_r in He by lia.
    pose proof (div_even_gt (n * 2 ^ (- -53)) d C Hd) as Hgt.
    assert (Hif : (C * p2 (-53 - e) <? q * p2 (e - -53)) = (C <? div_even (n * 2 ^ (- -53)) d)).
    { destruct He as [[-> ->]|(-> & -> & ->)].
      - by rewrite !p2_neg, !Z.mul_1_r by lia.
      - change (p2 (-53 - (-53 + 1))) with 1. change (p2 (-53 + 1 - -53)) with 2.
        case_Z; lia. }
    rewrite Hif. change (- -53) with 53 in *.
    destruct (Z.odd C); case_Z; lia.
  - (* the ratio is at least one *)
    assert (H : d <= n).
    { rewrite (p2_neg (- b)), (p2_nonneg b) in Hlo by lia.
      pose proof (Z.pow_pos_nonneg 2 b ltac:(lia) ltac:(lia)). nia. }
    assert (-52 <= e) by lia.
    rewrite (p2_neg (-53 - e)), (p2_nonneg (e - -53)) by lia.
    assert (2 ^ 1 <= 2 ^ (e - -53)) by (apply Z.pow_le_mono_r; lia).
    transitivity true; [apply Z.ltb_lt; nia|destruct (Z.odd C); case_Z; nia].
Qed.

(** * Conversions of integers *)

(** Integers of 53 bits are exact. *)
Lemma binade_1 z : 0 < z → binade z 1 = Z.log2 z.
Proof.
  intros. unfold binade. change (Z.log2 1) with 0. rewrite Z.sub_0_r.
  pose proof (Z.log2_nonneg z). pose proof (Z.log2_spec z ltac:(done)).
  rewrite (p2_neg (- _)), p2_nonneg by lia. case_Z; lia.
Qed.

Lemma f64_of_Z_exact z :
  0 < z < 2 ^ 53 → ∃ e, -52 <= e <= 0 ∧ f64_of_Z z = F (z * 2 ^ (- e)) e.
Proof.
  intros Hz. unfold f64_of_Z, rnd. rewrite (proj2 (Z.eqb_neq z 0)) by lia.
  rewrite binade_1 by lia. pose proof (Z.log2_nonneg z).
  assert (Z.log2 z < 53) by (apply Z.log2_lt_pow2; lia).
  rewrite Z.max_l by lia. exists (Z.log2 z - 52). split; [lia|]. cbv zeta.
  rewrite (p2_nonneg (- _)), (p2_neg (Z.log2 z - 52)) by lia.
  pose proof (div_even_exact (z * 2 ^ (- (Z.log2 z - 52))) 1 ltac:(lia)) as Hex.
  rewrite Z.mul_1_r in Hex. rewrite Z.mul_1_l, Hex.
  pose proof (Z.log2_spec z ltac:(lia)) as [_ Hs].
  assert (z * 2 ^ (- (Z.log2 z - 52)) < 2 ^ 53).
  { replace 53 with (Z.succ (Z.log2 z) + - (Z.log2 z - 52)) by lia.
    rewrite Z.pow_add_r by lia.
    apply Z.mul_lt_mono_pos_r; [apply Z.pow_pos_nonneg; lia|done]. }
  rewrite (proj2 (Z.eqb_neq _ (2 ^ 53))) by lia. by case_Z; try lia.
Qed.

(** * The ratio of two exact conversions against a threshold *)
Lemma past_midpoint_scale n d C k :
  0 < k → past_midpoint (n * k) (d * k) C = past_midpoint n d C.
Proof. intros. unfold past_midpoint. destruct (Z.odd C); case_Z; try done; nia. Qed.

Lemma binade_bounds n d :
  Z.log2 n - Z.log2 d - 1 <= binade n d <= Z.log2 n - Z.log2 d.
Proof. unfold binade. case_Z; lia. Qed.

Lemma fdiv_exact u l :
  0 < u < 2 ^ 53 → 0 < l < 2 ^ 53 →
  ∃ k, 0 <= k ∧ fdiv (f64_of_Z u) (f64_of_Z l) = rnd (u * 2 ^ k) (l * 2 ^ k).
Proof.
  intros Hu Hl.
  destruct (f64_of_Z_exact u Hu) as (e1 & He1 & ->).
  destruct (f64_of_Z_exact l Hl) as (e2 & He2 & ->). unfold fdiv.
  pose proof (Z.pow_pos_nonneg 2 (- e2) ltac:(lia) ltac:(lia)).
  rewrite (proj2 (Z.eqb_neq _ 0)) by nia.
  exists (Z.max (- e1) (- e2)). split; [lia|]. unfold p2.
  rewrite <-!Z.mul_assoc, <-!Z.pow_add_r by lia. f_equal; do 2 f_equal; lia.
Qed.

Lemma ratio_gt_threshold u l C :
  0 < u < 2 ^ 53 → 0 < l < 2 ^ 53 → 2 ^ 52 <= C < 2 ^ 53 →
  fgt (fdiv (f64_of_Z u) (f64_of_Z l)) (F C (-53)) = past_midpoint u l C.
Proof.
  intros Hu Hl HC. destruct (fdiv_exact u l Hu Hl) as (k & Hk & ->).
  pose proof (Z.pow_pos_nonneg 2 k ltac:(lia) ltac:(lia)).
  rewrite rnd_gt_threshold; [by apply past_midpoint_scale|nia|nia| |done].
  pose proof (binade_bounds (u * 2 ^ k) (l * 2 ^ k)) as Hb.
  rewrite !Z.log2_mul_pow2 in Hb by lia.
  pose proof (Z.log2_nonneg u). pose proof (Z.log2_nonneg l).
  assert (Z.log2 u < 53) by (apply Z.log2_lt_pow2; lia).
  assert (Z.log2 l < 53) by (apply Z.log2_lt_pow2; lia). lia.
Qed.

(** For limits up to 2^50 the two comparisons of the memory check decide the exact
    ratios: no rounding shows. *)
Lemma ratio_gt_0_9 u l :
  0 <= u < 2 ^ 53 → 0 < l <= 2 ^ 50 →
  fgt (fdiv (f64_of_Z u) (f64_of_Z l)) f0_9 = (9 * l <? 10 * u).
Proof.
  intros Hu Hl. rewrite f0_9_bits. destruct (Z.eq_dec u 0) as [->|].
  - destruct (f64_of_Z_exact l ltac:(lia)) as (e & He & ->).
    pose proof (Z.pow_pos_nonneg 2 (- e) ltac:(lia) ltac:(lia)).
    unfold f64_of_Z, fdiv, rnd at 1. simpl Z.eqb at 1.
    rewrite (proj2 (Z.eqb_neq _ 0)) by nia. simpl. case_Z; try lia. done.
  - rewrite ratio_gt_threshold by lia. unfold past_midpoint. simpl Z.odd. cbv iota.
    case_Z; lia.
Qed.

Lemma ratio_gt_0_75 u l :
  0 <= u < 2 ^ 53 → 0 < l <= 2 ^ 50 →
  fgt (fdiv (f64_of_Z u) (f64_of_Z l)) f0_75 = (3 * l <? 4 * u).
Proof.
  intros Hu Hl. rewrite f0_75_bits. destruct (Z.eq_dec u 0) as [->|].
  - destruct (f64_of_Z_exact l ltac:(lia)) as (e & He & ->).
    pose proof (Z.pow_pos_nonneg 2 (- e) ltac:(lia) ltac:(lia)).
    unfold f64_of_Z, fdiv, rnd at 1. simpl Z.eqb at 1.
    rewrite (proj2 (Z.eqb_neq _ 0)) by nia. simpl. case_Z; try lia. done.
  - rewrite ratio_gt_threshold by lia. unfold past_midpoint.
    change (Z.odd (3 * 2 ^ 51)) with false. cbv iota. case_Z; lia.
Qed.
