(* ===== verification/FloatText.v ===== *)
(** Doubles as text, the two ways the metrics print them: [operator<<] with its
    default format, which is [%.6g], and [std::format] with an empty
    specification, the shortest text that reads back as the same value. *)
From Stdlib Require Import Ascii.
From S2P Require Import Prelude CppString Float64.

#[local] Open Scope Z_scope.

(** * Decimal exponents and digits *)

(** [floor (log10 (n / d))], for a ratio below 10^400 and above 10^-400. *)
Fixpoint exp10_up (fuel : nat) (n d k : Z) : Z :=
  match fuel with
  | O => k
  | S fuel => if 10 * d <=? n then exp10_up fuel n (10 * d) (k + 1) else k
  end.
Fixpoint exp10_down (fuel : nat) (n d k : Z) : Z :=
  match fuel with
  | O => k
  | S fuel => if n <? d then exp10_down fuel (10 * n) d (k - 1) else k
  end.
Definition exp10 (n d : Z) : Z :=
  if d <=? n then exp10_up 400 n d 0 else exp10_down 400 n d 0.

(** 10^z, or 1 for a negative [z]. *)
Definition p10 (z : Z) : Z := 10 ^ Z.max z 0.

(** The ratio rounded to [p] significant digits: the digits as an integer, and the
    exponent of the first. *)
Definition significant (p n d : Z) : Z * Z :=
  let x := exp10 n d in
  let q := div_even (n * p10 (p - 1 - x)) (d * p10 (x - (p - 1))) in
  if q =? 10 ^ p then (10 ^ (p - 1), x + 1) else (q, x).

Fixpoint zeros (n : nat) : string :=
  match n with O => "" | S n => String.String "0"%char (zeros n) end.

(** [z] in [w] digits, with leading zeros. *)
Definition padded (w : nat) (z : Z) : string :=
  let s := to_string z in zeros (w - String.length s) +:+ s.

(** Without the zeros at the end. *)
Fixpoint strip_zeros (s : string) : string :=
  match s with
  | EmptyString => ""
  | String.String c s =>
      match strip_zeros s with
      | EmptyString => if bool_decide (c = "0"%char) then "" else String.String c ""
      | s => String.String c s
      end
  end.

(** A point and the digits after it, if any are left. *)
Definition fraction (s : string) : string :=
  match strip_zeros s with EmptyString => "" | s => "." +:+ s end.

(** [q], of [p] digits the first of which has exponent [x], without a power. *)
Definition fixed (p q x : Z) : string :=
  if x <? 0 then "0" +:+ fraction (zeros (Z.to_nat (- x - 1)) +:+ to_string q)
  else
    let k := p - 1 - x in
    if 0 <=? k then
      to_string (q / 10 ^ k)
        +:+ (if k =? 0 then "" else fraction (padded (Z.to_nat k) (q mod 10 ^ k)))
    else to_string (q * 10 ^ (- k)).

(** [q] as a digit, a fraction and a power of ten of at least two digits. *)
Definition scientific (p q x : Z) : string :=
  to_string (q / 10 ^ (p - 1))
    +:+ (if p =? 1 then "" else fraction (padded (Z.to_nat (p - 1)) (q mod 10 ^ (p - 1))))
    +:+ "e" +:+ (if x <? 0 then "-" else "+") +:+ padded 2 (Z.abs x).

(** [ss << v] *)
Definition print_g (v : f64) : string :=
  match v with
  | Inf => "inf"
  | NaN => "nan"
  | F m e =>
      if m =? 0 then "0"
      else
        let '(q, x) := significant 6 (m * p2 e) (p2 (- e)) in
        if (-4 <=? x) && (x <? 6) then fixed 6 q x else scientific 6 q x
  end.

(** * The shortest text that reads back *)

(** The double nearest to [q * 10^(x - (p - 1))]. *)
Definition read_back (p q x : Z) : f64 :=
  rnd (q * p10 (x - (p - 1))) (p10 (p - 1 - x)).

(** The neighbours of [n / d] with [p] digits that read back as [v]: the nearer
    one, the even one when both are as near. *)
Definition candidate (v : f64) (p n d : Z) : option (Z * Z) :=
  let x := exp10 n d in
  let a := n * p10 (p - 1 - x) in
  let b := d * p10 (x - (p - 1)) in
  let near := div_even a b in
  let far := if near =? a / b then a / b + 1 else a / b in
  let ok q := bool_decide (read_back p q x = v) in
  let norm q := if q =? 10 ^ p then (10 ^ (p - 1), x + 1) else (q, x) in
  if ok near then Some (norm near) else if ok far then Some (norm far) else None.

(** The fewest digits that will do; 17 always do. *)
Fixpoint shortest (fuel : nat) (v : f64) (p n d : Z) : Z * Z * Z :=
  match fuel with
  | O => let '(q, x) := significant 17 n d in (17, q, x)
  | S fuel =>
      match candidate v p n d with
      | Some (q, x) => (p, q, x)
      | None => shortest fuel v (p + 1) n d
      end
  end.

(** [std::format("{}", v)]: whichever of the two notations is shorter, without a
    power when they tie; an integer too long for its digits is written out. *)
Definition format_double (v : f64) : string :=
  match v with
  | Inf => "inf"
  | NaN => "nan"
  | F m e =>
      if m =? 0 then "0"
      else
        let n := m * p2 e in
        let d := p2 (- e) in
        let '(p, q, x) := shortest 16 v 1 n d in
        let s := scientific p q x in
        let f := if p - 1 <? x then to_string (n / d) else fixed p q x in
        if (String.length f <=? String.length s)%nat then f else s
  end.

Example print_g_samples :
  (print_g <$> [f64_of_Z 0; f64_of_Z 1; f64_of_Z 120; f64_of_Z 999999; f64_of_Z 1234567;
    rnd 1 3; rnd 3 2; rnd 1 100000])
  = ["0"; "1"; "120"; "999999"; "1.23457e+06"; "0.333333"; "1.5"; "1e-05"].
Proof. vm_compute. reflexivity. Qed.

Example format_double_samples :
  (format_double <$> [f64_of_Z 0; f64_of_Z 1; f64_of_Z 1234567; f64_of_Z 100000;
    rnd 1 10; rnd 1 3; rnd 3 2; rnd 1 100000; f64_of_Z (2 ^ 60)])
  = ["0"; "1"; "1234567"; "1e+05"; "0.1"; "0.3333333333333333"; "1.5"; "1e-05";
     "1152921504606846976"].
Proof. vm_compute. reflexivity. Qed.

(** * Integers of at most six digits are printed as they are *)
Lemma exp10_up_spec fuel n d k :
  0 < d → d <= n → n < d * 10 ^ Z.of_nat (S fuel) →
  ∃ j, 0 <= j ∧ exp10_up fuel n d k = k + j ∧ d * 10 ^ j <= n < d * 10 ^ (j + 1).
Proof.
  revert d k. induction fuel as [|fuel IH]; intros d k Hd Hdn Hn; cbn [exp10_up].
  - exists 0. split; [lia|]. split; [lia|]. cbn in *. lia.
  - destruct (Z.leb_spec (10 * d) n).
    + destruct (IH (10 * d) (k + 1)) as (j & Hj & -> & Hlo & Hhi); [lia|done| |].
      { rewrite (Nat2Z.inj_succ (S fuel)), Z.pow_succ_r in Hn by lia. lia. }
      exists (j + 1). split; [lia|]. split; [lia|]. 
      rewrite !Z.pow_add_r in * by lia. lia.
    + exists 0. split; [lia|]. split; [lia|]. cbn. lia.
Qed.

Lemma exp10_spec n d :
  0 < d → d <= n → n < d * 10 ^ 401 →
  0 <= exp10 n d ∧ d * 10 ^ exp10 n d <= n < d * 10 ^ (exp10 n d + 1).
Proof.
  intros Hd Hdn Hn. unfold exp10. rewrite (proj2 (Z.leb_le d n)) by done.
  destruct (exp10_up_spec 400 n d 0 Hd Hdn Hn) as (j & Hj & -> & Hs). done.
Qed.

Lemma strip_zeros_zeros n : strip_zeros (zeros n) = "".
Proof. induction n as [|n IH]; [done|]. cbn. by rewrite IH. Qed.

Lemma zeros_snoc n : zeros n +:+ "0" = zeros (S n).
Proof. induction n as [|n IH]; [done|]. cbn [zeros]. rewrite string_app_cons, IH. done. Qed.

Lemma fraction_zero w : (0 < w)%nat → fraction (padded w 0) = "".
Proof.
  intros Hw. unfold fraction, padded. change (to_string 0) with "0". cbn [String.length].
  rewrite zeros_snoc. replace (S (w - 1)) with w by lia. by rewrite strip_zeros_zeros.
Qed.

Lemma fixed_integer z x :
  0 <= x <= 5 → fixed 6 (z * 10 ^ (5 - x)) x = to_string z.
Proof.
  intros Hx. unfold fixed. rewrite (proj2 (Z.ltb_ge x 0)) by lia.
  change (6 - 1) with 5. rewrite (proj2 (Z.leb_le 0 (5 - x))) by lia.
  pose proof (Z.pow_pos_nonneg 10 (5 - x) ltac:(lia) ltac:(lia)).
  rewrite Z.div_mul, Z.mod_mul by lia. destruct (Z.eqb_spec (5 - x) 0).
  - apply string_app_nil_r.
  - rewrite fraction_zero by lia. apply string_app_nil_r.
Qed.

Lemma significant_integer z d :
  0 < d → 0 < z < 10 ^ 6 →
  ∃ x, 0 <= x <= 5 ∧ significant 6 (z * d) d = (z * 10 ^ (5 - x), x).
Proof.
  intros Hd Hz. unfold significant.
  assert (10 ^ 6 < 10 ^ 401) as Hbig by (apply Z.pow_lt_mono_r; lia).
  destruct (exp10_spec (z * d) d) as (Hx & Hlo & Hhi); [done|nia|nia|].
  set (x := exp10 (z * d) d) in *.
  assert (10 ^ x <= z < 10 ^ (x + 1)) as [Hl Hh] by nia.
  assert (x < 6) by (apply (Z.pow_lt_mono_r_iff 10); lia).
  exists x. split; [lia|]. change (6 - 1) with 5. unfold p10.
  rewrite (Z.max_l (5 - x) 0), (Z.max_r (x - 5) 0) by lia.
  replace (z * d * 10 ^ (5 - x)) with (z * 10 ^ (5 - x) * d) by lia.
  rewrite Z.pow_0_r, Z.mul_1_r, div_even_exact by done.
  rewrite (proj2 (Z.eqb_neq _ (10 ^ 6))); [done|].
  assert (z * 10 ^ (5 - x) < 10 ^ (x + 1) * 10 ^ (5 - x))
    by (apply Z.mul_lt_mono_pos_r; [apply Z.pow_pos_nonneg; lia|done]).
  rewrite <-Z.pow_add_r in * by lia. replace (x + 1 + (5 - x)) with 6 in * by lia. lia.
Qed.

Lemma print_g_integer z : 0 <= z < 10 ^ 6 → print_g (f64_of_Z z) = to_string z.
Proof.
  intros Hz. destruct (Z.eq_dec z 0) as [->|]; [reflexivity|].
  destruct (f64_of_Z_exact z ltac:(lia)) as (e & He & ->). unfold print_g.
  pose proof (Z.pow_pos_nonneg 2 (- e) ltac:(lia) ltac:(lia)).
  rewrite (proj2 (Z.eqb_neq _ 0)) by nia. rewrite (p2_neg e), (p2_nonneg (- e)) by lia.
  rewrite Z.mul_1_r.
  destruct (significant_integer z (2 ^ (- e))) as (x & Hx & ->); [done|lia|].
  rewrite (proj2 (Z.leb_le (-4) x)), (proj2 (Z.ltb_lt x 6)) by lia.
  by apply fixed_integer.
Qed.
