(* ===== verification/ProcFs.v ===== *)
(** Reading text files the way the monitors do: [std::getline] over a file,
    [std::istringstream] over a line, and the extractions of words and unsigned
    integers from it. *)
From Stdlib Require Import Ascii.
From S2P Require Import Prelude CppString.

#[local] Open Scope Z_scope.

(** The readable files and their contents. *)
Abbreviation file_system := (string → option string).

(** * Lines *)
Definition newline : Ascii.ascii := "010"%char.

(** Every line [std::getline] yields, a last line without its newline included. *)
Fixpoint getlines (s : string) : list string :=
  match s with
  | EmptyString => []
  | String.String c s =>
      if bool_decide (c = newline) then "" :: getlines s
      else match getlines s with
           | [] => [String.String c ""]
           | l :: ls => String.String c l :: ls
           end
  end.

(** The first [std::getline] on a fresh string: empty at the end of the file. *)
Definition getline (s : string) : string := default "" (head (getlines s)).

(** * Extraction *)

(** An input stream: what is left, and whether it is still good. *)
Record istream : Type := mkStream { rest : string; good : bool }.

Definition istringstream (s : string) : istream := mkStream s true.

Fixpoint skip_ws (s : string) : string :=
  match s with
  | String.String c s' => if Ascii.is_space c then skip_ws s' else s
  | EmptyString => EmptyString
  end.

Fixpoint drop_word (s : string) : string :=
  match s with
  | String.String c s' => if Ascii.is_space c then s else drop_word s'
  | EmptyString => EmptyString
  end.

(** [iss >> token], the token being thrown away. *)
Definition skip_token (st : istream) : istream :=
  if good st then
    match skip_ws (rest st) with
    | EmptyString => mkStream "" false
    | s => mkStream (drop_word s) true
    end
  else st.

(** [iss >> value] at an unsigned type of [w] bits whose value was [old]: nothing
    to read leaves it alone, a non-number gives 0, an overflow the maximum. *)
Definition read_uint (w : Z) (old : Z) (st : istream) : Z * istream :=
  if good st then
    match skip_ws (rest st) with
    | EmptyString => (old, mkStream "" false)
    | s =>
        let '(neg, s) :=
          match s with
          | String.String c s' =>
              if bool_decide (c = "-"%char) then (true, s')
              else if bool_decide (c = "+"%char) then (false, s')
              else (false, s)
          | EmptyString => (false, s)
          end in
        let '(ds, r) := span_digits s in
        match ds with
        | [] => (0, mkStream r false)
        | _ =>
            let v := dec_value 0 ds in
            if v <? 2 ^ w then (wrap w (if neg : bool then - v else v), mkStream r true)
            else (2 ^ w - 1, mkStream r false)
        end
    end
  else (old, st).

(** * Lines of [/proc/<pid>/status] and [/proc/<pid>/io] *)

(** [line.substr(0, n) == key] where [n] is the literal in the code. *)
Definition substr_is (line : string) (n : nat) (key : string) : bool :=
  bool_decide (substr0 line n = key).

(** [std::istringstream iss(line.substr(n)); iss >> value;] *)
Definition read_after (w : Z) (n : nat) (old : Z) (line : string) : Z :=
  (read_uint w old (istringstream (string_drop n line))).1.

(** * Lemmas *)
Lemma span_digits_app ds r :
  (∀ c r', r = String.String c r' → digit_of c = None) →
  span_digits (DecimalString.NilEmpty.string_of_uint ds +:+ r)
    = (digits_of_uint ds, r).
Proof.
  intros Hr. induction ds; cbn [DecimalString.NilEmpty.string_of_uint digits_of_uint];
    rewrite ?string_app_nil_l, ?string_app_cons.
  { destruct r as [|c r]; [done|]. cbn [span_digits]. by rewrite (Hr c r). }
  all: cbn [span_digits]; rewrite IHds; done.
Qed.

Lemma read_uint_range w old st :
  0 <= w → in_uint w old → in_uint w (read_uint w old st).1.
Proof.
  intros Hw Ho. pose proof (Z.pow_pos_nonneg 2 w ltac:(lia) Hw). unfold read_uint, in_uint in *.
  destruct (good st); [|done]. destruct (skip_ws (rest st)) as [|c s]; [done|].
  destruct (if bool_decide (c = "-"%char) then _ else _) as [neg s'].
  destruct (span_digits s') as [[|d ds] r]; [simpl; lia|].
  destruct (dec_value 0 (d :: ds) <? 2 ^ w); simpl; [apply wrap_range; done|lia].
Qed.

Fixpoint all_space (s : string) : bool :=
  match s with
  | EmptyString => true
  | String.String c s => Ascii.is_space c && all_space s
  end.

Lemma skip_ws_app ws s : all_space ws = true → skip_ws (ws +:+ s) = skip_ws s.
Proof.
  induction ws as [|c ws IH]; [done|]. rewrite string_app_cons. simpl.
  destruct (Ascii.is_space c); [done|by intros].
Qed.

Lemma digit_not_space c d : digit_of c = Some d → Ascii.is_space c = false.
Proof. destruct c as [[] [] [] [] [] [] [] []]; by vm_compute. Qed.

Lemma digit_not_sign c d : digit_of c = Some d → c ≠ "-"%char ∧ c ≠ "+"%char.
Proof. intros Hd. by split; intros ->; vm_compute in Hd. Qed.

(** Blank space, a number that fits, and anything that is not a digit. *)
Lemma read_uint_number w old ws n r :
  all_space ws = true → in_uint w n →
  (∀ c r', r = String.String c r' → digit_of c = None) →
  read_uint w old (istringstream (ws +:+ to_string n +:+ r)) = (n, istringstream r).
Proof.
  intros Hws Hn Hr. unfold read_uint, istringstream. cbn [good rest].
  rewrite skip_ws_app by done.
  destruct (to_string_digits n (proj1 Hn)) as (d & -> & Hd & Hv).
  pose proof (span_digits_app d r Hr) as Hspan.
  destruct (DecimalString.NilEmpty.string_of_uint d) as [|c s] eqn:Es; [by destruct d|].
  rewrite string_app_cons in *.
  assert (∃ k, digit_of c = Some k) as [k Hk]
    by (destruct d; simplify_eq/=; eexists; reflexivity).
  cbn [skip_ws]. rewrite (digit_not_space c k Hk).
  destruct (digit_not_sign c k Hk) as [H1 H2].
  rewrite !bool_decide_false by done. rewrite Hspan.
  destruct (digits_of_uint d) eqn:E; [by destruct d|]. rewrite Hv.
  rewrite (proj2 (Z.ltb_lt _ _)) by apply Hn. by rewrite wrap_small.
Qed.

(** * Files and lines built from their parts *)
Fixpoint free_of (p : Ascii.ascii → bool) (s : string) : bool :=
  match s with
  | EmptyString => true
  | String.String c s => negb (p c) && free_of p s
  end.

Definition is_newline (c : Ascii.ascii) : bool := bool_decide (c = newline).

(** A file of the given lines, each ended by a newline. *)
Definition unlines (ls : list string) : string :=
  foldr (λ l s, l +:+ String.String newline s) "" ls.

(** The given words, each followed by a space. *)
Definition unwords (ws : list string) : string :=
  foldr (λ w s, w +:+ String.String " "%char s) "" ws.

Lemma getlines_line l s :
  free_of is_newline l = true → getlines (l +:+ String.String newline s) = l :: getlines s.
Proof.
  induction l as [|c l IH]; rewrite ?string_app_nil_l, ?string_app_cons.
  - done.
  - cbn [free_of getlines]. unfold is_newline at 1. case_bool_decide; [done|].
    simpl. intros Hl. by rewrite IH.
Qed.

Lemma getlines_unlines ls :
  Forall (λ l, free_of is_newline l = true) ls → getlines (unlines ls) = ls.
Proof. induction 1; simpl; [done|]. rewrite getlines_line by done. by f_equal. Qed.

Lemma getline_first l s :
  free_of is_newline l = true → getline (l +:+ String.String newline s) = l.
Proof. intros. unfold getline. by rewrite getlines_line. Qed.

Definition is_word (w : string) : bool :=
  bool_decide (w ≠ "") && free_of Ascii.is_space w.

Lemma drop_word_app w s :
  free_of Ascii.is_space w = true → drop_word (w +:+ String.String " "%char s) = String.String " "%char s.
Proof.
  induction w as [|c w IH]; [done|]. rewrite string_app_cons. simpl.
  destruct (Ascii.is_space c); [done|]. simpl. apply IH.
Qed.

Lemma skip_token_word ws w s :
  all_space ws = true → is_word w = true →
  skip_token (istringstream (ws +:+ w +:+ String.String " "%char s))
    = istringstream (String.String " "%char s).
Proof.
  intros Hws [Hne Hw]%andb_prop. apply bool_decide_eq_true in Hne.
  unfold skip_token, istringstream. cbn [good rest]. rewrite skip_ws_app by done.
  destruct w as [|c w]; [done|]. rewrite string_app_cons. cbn [skip_ws].
  pose proof Hw as Hw'. simpl in Hw'. destruct (Ascii.is_space c) eqn:Ec; [done|].
  rewrite <-string_app_cons, drop_word_app by done. done.
Qed.

(** Skipping as many words as the line starts with. *)
Lemma skip_tokens_words ws words s :
  all_space ws = true → Forall (λ w, is_word w = true) words →
  Nat.iter (length words) skip_token (istringstream (ws +:+ unwords words +:+ s))
    = istringstream (match words with [] => ws +:+ s | _ => String.String " "%char s end).
Proof.
  intros Hws Hw. revert ws Hws. induction Hw as [|w words Hw1 _ IH]; intros ws Hws.
  - done.
  - cbn [length unwords foldr]. rewrite Nat.iter_succ_r.
    rewrite string_app_assoc, string_app_cons, skip_token_word by done.
    fold (unwords words).
    change (String.String " "%char (unwords words +:+ s)) with (" " +:+ unwords words +:+ s).
    rewrite (IH " " ltac:(done)). by destruct words.
Qed.
