(* ===== verification/Wire.v ===== *)
(** The response side of the wire protocol: [Response] and [parse_value]
    (redis_client.hpp, redis_client.cpp), against the grammar of the frames. *)
From S2P Require Import Prelude Bytes CppString.

#[local] Open Scope Z_scope.

(** * Data *)
Module ResponseTag.
Inductive t : Type := Nil | Error | Str | Int | Dbl | Arr.
#[global] Instance eq_dec : EqDecision t.
Proof. solve_decision. Defined.

(** [static_cast<ResponseTag>(byte)], where a [case] of the switch matches. *)
Definition of_byte (z : Z) : option t :=
  if z =? 0 then Some Nil
  else if z =? 1 then Some Error
  else if z =? 2 then Some Str
  else if z =? 3 then Some Int
  else if z =? 4 then Some Dbl
  else if z =? 5 then Some Arr
  else None.

Definition to_Z (x : t) : Z :=
  match x with Nil => 0 | Error => 1 | Str => 2 | Int => 3 | Dbl => 4 | Arr => 5 end.
End ResponseTag.

(** A [double] is kept as its 64 bits: the client only copies it. *)
Inductive Response : Type := mkResponse {
  tag : ResponseTag.t;
  err_code : Z;
  err_msg : string;
  str : string;
  integer : Z;
  dbl : Z;
  arr : list Response;
}.

Definition is_nil (r : Response) : bool := bool_decide (tag r = ResponseTag.Nil).
Definition is_error (r : Response) : bool := bool_decide (tag r = ResponseTag.Error).
Definition as_str (r : Response) : string := str r.
Definition as_int (r : Response) : Z := integer r.
Definition as_dbl (r : Response) : Z := dbl r.
Definition as_arr (r : Response) : list Response := arr r.

(** [Response out; out.tag = t;] and the field assignments of each case. *)
Definition blank (t : ResponseTag.t) : Response := mkResponse t 0 "" "" 0 0 [].
Definition rNil : Response := blank ResponseTag.Nil.
Definition rError (c : Z) (m : string) : Response :=
  mkResponse ResponseTag.Error c m "" 0 0 [].
Definition rStr (s : string) : Response := mkResponse ResponseTag.Str 0 "" s 0 0 [].
Definition rInt (z : Z) : Response := mkResponse ResponseTag.Int 0 "" "" z 0 [].
Definition rDbl (z : Z) : Response := mkResponse ResponseTag.Dbl 0 "" "" 0 z [].
Definition rArr (l : list Response) : Response :=
  mkResponse ResponseTag.Arr 0 "" "" 0 0 l.

(** * The parser *)
Definition protocol_error (m : string) : Error := mkError Eprotocol m.

(** The lambda [need]: [buf.size() - pos] is computed at [size_t]. *)
Definition need (buf : list byte) (pos n : Z) : Result unit :=
  if u64 (size buf - pos) <? n then Err (protocol_error "truncated response")
  else Ok tt.

(** [if (auto g = need(n); g.is_err()) return g.error();] *)
Definition guarded (buf : list byte) (pos n : Z)
    (k : outcome (Result Response * Z)) : outcome (Result Response * Z) :=
  match need buf pos n with Err e => Ret (Err e, pos) | Ok _ => k end.

(** [out.s.assign(buf.data() + pos, n)] *)
Definition assign (buf : list byte) (pos n : Z) : outcome string :=
  of_bytes <$> access (slice buf pos n).

(** The cases of the switch that do not recurse, [pos] being just after the tag. *)
Definition case_Error (buf : list byte) (pos : Z) : outcome (Result Response * Z) :=
  guarded buf pos 8 (
    ec ← access (load 4 buf pos);
    let pos := u64 (pos + 4) in
    msg_len ← access (load 4 buf pos);
    let pos := u64 (pos + 4) in
    guarded buf pos msg_len (
      m ← assign buf pos msg_len;
      Ret (Ok (rError (i32 ec) m), u64 (pos + msg_len)))).

Definition case_Str (buf : list byte) (pos : Z) : outcome (Result Response * Z) :=
  guarded buf pos 4 (
    slen ← access (load 4 buf pos);
    let pos := u64 (pos + 4) in
    guarded buf pos slen (
      s ← assign buf pos slen;
      Ret (Ok (rStr s), u64 (pos + slen)))).

Definition case_Int (buf : list byte) (pos : Z) : outcome (Result Response * Z) :=
  guarded buf pos 8 (
    z ← access (load 8 buf pos);
    Ret (Ok (rInt (i64 z)), u64 (pos + 8))).

Definition case_Dbl (buf : list byte) (pos : Z) : outcome (Result Response * Z) :=
  guarded buf pos 8 (
    z ← access (load 8 buf pos);
    Ret (Ok (rDbl z), u64 (pos + 8))).

Section parser.
(** Whether [std::vector<Response>::reserve(n)] finds the memory: when it does
    not, it throws [std::bad_alloc]. *)
Context (reserve_ok : Z → bool).

Definition reserve (n : Z) : outcome unit :=
  if reserve_ok n then Ret tt else Throw bad_alloc.

(** The result is the returned [Result<Response>] with the final value of the
    in-out argument [pos].  The recursion follows the nesting of the data: [stack] is
    how many calls of [parse_value] the stack has room for, and one more overflows it.
    [fuel] bounds the calls and the turns of the element loop together. *)
Fixpoint parse_value (fuel stack : nat) (buf : list byte) (pos : Z)
    : outcome (Result Response * Z) :=
  match fuel, stack with
  | O, _ => OutOfFuel
  | _, O => Undefined
  | S fuel, S stack =>
    if size buf <=? pos then Ret (Err (protocol_error "empty response body"), pos)
    else
      b ← access (slice buf pos 1);
      let c := le_value b in
      let pos := u64 (pos + 1) in
      match ResponseTag.of_byte c with
      | Some ResponseTag.Nil => Ret (Ok rNil, pos)
      | Some ResponseTag.Error => case_Error buf pos
      | Some ResponseTag.Str => case_Str buf pos
      | Some ResponseTag.Int => case_Int buf pos
      | Some ResponseTag.Dbl => case_Dbl buf pos
      | Some ResponseTag.Arr =>
          guarded buf pos 4 (
            count ← access (load 4 buf pos);
            let pos := u64 (pos + 4) in
            _ ← reserve count;
            parse_elems fuel stack buf pos 0 count [])
      | None =>
          Ret (Err (protocol_error ("unknown tag " +:+ to_string c)), pos)
      end
  end
(** [for (uint32_t i = 0; i < count; ++i) ...], [acc] being [out.arr]. *)
with parse_elems (fuel stack : nat) (buf : list byte) (pos i count : Z)
    (acc : list Response) : outcome (Result Response * Z) :=
  match fuel with
  | O => OutOfFuel
  | S fuel =>
    if i <? count then
      '(elem, pos) ← parse_value fuel stack buf pos;
      match elem with
      | Err e => Ret (Err e, pos)
      | Ok v => parse_elems fuel stack buf pos (u32 (i + 1)) count (acc ++ [v])
      end
    else Ret (Ok (rArr acc), pos)
  end.

(** A recursion bound that no buffer of this size reaches. *)
Definition parse_fuel (buf : list byte) : nat := 2 * length buf + 2.

(** [size_t pos = 0; return parse_value(buf, pos);], on a stack with room for [stack]
    calls. *)
Definition parse_body_in (stack : nat) (buf : list byte) : outcome (Result Response) :=
  '(r, _) ← parse_value (parse_fuel buf) stack buf 0;
  Ret r.

(** The same on a stack no frame of this size exhausts. *)
Definition parse_body (buf : list byte) : outcome (Result Response) :=
  parse_body_in (S (length buf)) buf.
End parser.

(** * The grammar of responses *)
Fixpoint encode_response (r : Response) : list byte :=
  byte_of_Z (ResponseTag.to_Z (tag r)) ::
  match tag r with
  | ResponseTag.Nil => []
  | ResponseTag.Error =>
      le_bytes 4 (u32 (err_code r)) ++ le_bytes 4 (size (bytes (err_msg r)))
      ++ bytes (err_msg r)
  | ResponseTag.Str => le_bytes 4 (size (bytes (str r))) ++ bytes (str r)
  | ResponseTag.Int => le_bytes 8 (u64 (integer r))
  | ResponseTag.Dbl => le_bytes 8 (dbl r)
  | ResponseTag.Arr =>
      le_bytes 4 (size (arr r)) ++ List.flat_map encode_response (arr r)
  end.

(** The responses the grammar describes: the fields the tag does not select
    have their default values, and the others fit their wire width. *)
Inductive wf_response : Response → Prop :=
  | wf_nil : wf_response rNil
  | wf_error c m : in_sint 32 c → in_uint 32 (size (bytes m)) → wf_response (rError c m)
  | wf_str s : in_uint 32 (size (bytes s)) → wf_response (rStr s)
  | wf_int z : in_sint 64 z → wf_response (rInt z)
  | wf_dbl z : in_uint 64 z → wf_response (rDbl z)
  | wf_arr l : in_uint 32 (size l) → Forall wf_response l → wf_response (rArr l).

(** * Induction over nested responses *)
Section response_ind.
Context (P : Response → Prop).
Context (Hrec : ∀ t c m s i d l, Forall P l → P (mkResponse t c m s i d l)).

Fixpoint response_ind (r : Response) : P r :=
  match r with
  | mkResponse t c m s i d l =>
      Hrec t c m s i d l
        ((fix go (l : list Response) : Forall P l :=
            match l with
            | [] => Forall_nil_2 P
            | x :: l => Forall_cons_2 P x l (response_ind x) (go l)
            end) l)
  end.
End response_ind.

(** * Reading one field *)
Lemma need_spec pre suf n :
  size (pre ++ suf) < 2 ^ 64 →
  need (pre ++ suf) (size pre) n =
    if size suf <? n then Err (protocol_error "truncated response") else Ok tt.
Proof.
  intros Hsz. unfold need. rewrite size_app in *.
  replace (size pre + size suf - size pre) with (size suf) by lia.
  pose proof (size_nonneg pre). pose proof (size_nonneg suf).
  by rewrite wrap_small by lia.
Qed.

Lemma split_size (suf : list byte) n :
  0 <= n <= size suf → ∃ mid rest, suf = mid ++ rest ∧ size mid = n.
Proof.
  intros Hn. exists (take (Z.to_nat n) suf), (drop (Z.to_nat n) suf).
  rewrite take_drop. split; [done|]. unfold size in *. rewrite length_take. lia.
Qed.

(** A guard either reports the truncation or leaves the field in the buffer. *)
Lemma guarded_cases pre suf n k :
  size (pre ++ suf) < 2 ^ 64 → 0 <= n →
  (guarded (pre ++ suf) (size pre) n k
     = Ret (Err (protocol_error "truncated response"), size pre))
  ∨ ∃ mid rest, suf = mid ++ rest ∧ size mid = n
      ∧ guarded (pre ++ suf) (size pre) n k = k.
Proof.
  intros Hsz Hn. unfold guarded. rewrite need_spec by done. case_Z; [by left|].
  right. destruct (split_size suf n) as (mid & rest & -> & <-); [lia|].
  by exists mid, rest.
Qed.

Lemma guarded_ok pre mid rest n k :
  size (pre ++ mid ++ rest) < 2 ^ 64 → n <= size mid →
  guarded (pre ++ mid ++ rest) (size pre) n k = k.
Proof.
  intros Hsz Hn. unfold guarded. rewrite need_spec, size_app by done.
  pose proof (size_nonneg rest). case_Z; [lia|done].
Qed.

Lemma assign_app pre mid rest n :
  size mid = n → assign (pre ++ mid ++ rest) (size pre) n = Ret (of_bytes mid).
Proof. intros <-. unfold assign. by rewrite slice_app. Qed.

(** Advancing the position never wraps inside a buffer. *)
Lemma advance (pre mid rest : list byte) n :
  size (pre ++ mid ++ rest) < 2 ^ 64 → size mid = n →
  u64 (size pre + n) = size (pre ++ mid).
Proof.
  intros Hsz <-. rewrite size_app. rewrite !size_app in Hsz.
  pose proof (size_nonneg pre). pose proof (size_nonneg mid).
  pose proof (size_nonneg rest). apply wrap_small. lia.
Qed.

Lemma le_value_4 bs : size bs = 4 → 0 <= le_value bs < 2 ^ 32.
Proof.
  intros H. pose proof (le_value_range bs) as Hr. unfold size in H. by rewrite H in Hr.
Qed.

Lemma le_value_8 bs : size bs = 8 → 0 <= le_value bs < 2 ^ 64.
Proof.
  intros H. pose proof (le_value_range bs) as Hr. unfold size in H. by rewrite H in Hr.
Qed.

Lemma size_length {A} (l : list A) (n : nat) : size l = Z.of_nat n → length l = n.
Proof. unfold size. lia. Qed.

Lemma le_bytes_size bs w : size bs = Z.of_nat w → le_bytes w (le_value bs) = bs.
Proof. intros H. by apply le_bytes_of_value, size_length. Qed.

Lemma of_byte_to_Z t c : ResponseTag.of_byte c = Some t → ResponseTag.to_Z t = c.
Proof. unfold ResponseTag.of_byte. repeat case_Z; naive_solver. Qed.

Lemma to_Z_of_byte t : ResponseTag.of_byte (ResponseTag.to_Z t) = Some t.
Proof. by destruct t. Qed.

Lemma length_encode_response r : (1 ≤ length (encode_response r))%nat.
Proof. destruct r. simpl. lia. Qed.

Lemma length_flat_map_encode l : size l <= size (List.flat_map encode_response l).
Proof.
  induction l as [|r l IH]; [done|]. simpl. rewrite size_app, size_cons.
  pose proof (length_encode_response r). unfold size in *. lia.
Qed.

(** The encoding, constructor by constructor. *)
Lemma encode_rError c m : encode_response (rError c m) =
  byte_of_Z 1 :: le_bytes 4 (u32 c) ++ le_bytes 4 (size (bytes m)) ++ bytes m.
Proof. done. Qed.
Lemma encode_rStr s : encode_response (rStr s) =
  byte_of_Z 2 :: le_bytes 4 (size (bytes s)) ++ bytes s.
Proof. done. Qed.
Lemma encode_rInt z : encode_response (rInt z) = byte_of_Z 3 :: le_bytes 8 (u64 z).
Proof. done. Qed.
Lemma encode_rDbl z : encode_response (rDbl z) = byte_of_Z 4 :: le_bytes 8 z.
Proof. done. Qed.
Lemma encode_rArr l : encode_response (rArr l) =
  byte_of_Z 5 :: le_bytes 4 (size l) ++ List.flat_map encode_response l.
Proof. done. Qed.

(** * Soundness: what the parser accepts is an encoding

    [reads pre suf m P]: run at the end of [pre] with [suf] unread, [m] either
    returns a response satisfying [P] with the bytes it consumed, the position
    being just after them, or reports a protocol error, or runs out of memory. *)
Definition reads (pre suf : list byte) (m : outcome (Result Response * Z))
    (P : Response → list byte → Prop) : Prop :=
  match m with
  | Ret (Ok v, pos) =>
      ∃ used rest, suf = used ++ rest ∧ pos = size (pre ++ used) ∧ P v used
  | Ret (Err e, _) => code e = Eprotocol
  | Throw e => e = bad_alloc
  | _ => False
  end.

Lemma reads_shift pre mid rest m (P Q : Response → list byte → Prop) :
  reads (pre ++ mid) rest m P → (∀ v used, P v used → Q v (mid ++ used)) →
  reads pre (mid ++ rest) m Q.
Proof.
  intros Hm HPQ. destruct m as [[[v|e] pos]|e| | | |]; simpl in *; try done.
  destruct Hm as (used & rest' & -> & -> & HP).
  exists (mid ++ used), rest'. rewrite <-!(assoc_L (++)). auto.
Qed.

Lemma reads_ret pre used rest v pos (P : Response → list byte → Prop) :
  pos = size (pre ++ used) → P v used → reads pre (used ++ rest) (Ret (Ok v, pos)) P.
Proof. intros -> HP. by exists used, rest. Qed.

Lemma reads_guarded pre suf n k P :
  size (pre ++ suf) < 2 ^ 64 → 0 <= n →
  (∀ mid rest, suf = mid ++ rest → size mid = n → reads pre suf k P) →
  reads pre suf (guarded (pre ++ suf) (size pre) n k) P.
Proof.
  intros Hsz Hn Hk.
  destruct (guarded_cases pre suf n k Hsz Hn) as [->|(mid & rest & H1 & H2 & ->)];
    [done|eauto].
Qed.

(** One integer field: its load succeeds and the position moves past it. *)
Lemma reads_load w pre mid rest (k : Z → Z → outcome (Result Response * Z)) P :
  size (pre ++ mid ++ rest) < 2 ^ 64 → size mid = Z.of_nat w →
  reads (pre ++ mid) rest (k (le_value mid) (size (pre ++ mid)))
    (λ v used, P v (mid ++ used)) →
  reads pre (mid ++ rest)
    (x ← access (load w (pre ++ mid ++ rest) (size pre));
     k x (u64 (size pre + Z.of_nat w))) P.
Proof.
  intros Hsz Hw Hk. rewrite load_app by (by apply size_length).
  simpl. rewrite (advance pre mid rest) by done.
  eapply reads_shift; [exact Hk|done].
Qed.

(** A counted string: guard, copy, and the position past it. *)
Lemma reads_string pre suf n (mk : string → Response) (P : Response → list byte → Prop) :
  size (pre ++ suf) < 2 ^ 64 → 0 <= n →
  (∀ mid, size mid = n → P (mk (of_bytes mid)) mid) →
  reads pre suf
    (guarded (pre ++ suf) (size pre) n
       (s ← assign (pre ++ suf) (size pre) n; Ret (Ok (mk s), u64 (size pre + n)))) P.
Proof.
  intros Hsz Hn HP. apply reads_guarded; [done..|]. intros mid rest -> Hmid.
  rewrite assign_app by done. simpl. rewrite (advance pre mid rest) by done.
  apply reads_ret; auto.
Qed.

(** The bytes after the tag of an encoding of [v], a response tagged [t]. *)
Definition payload (t : ResponseTag.t) (v : Response) (used : list byte) : Prop :=
  encode_response v = byte_of_Z (ResponseTag.to_Z t) :: used ∧ wf_response v.

Lemma case_Error_sound (pre suf : list byte) :
  size (pre ++ suf) < 2 ^ 64 →
  reads pre suf (case_Error (pre ++ suf) (size pre)) (payload ResponseTag.Error).
Proof.
  intros Hsz. apply reads_guarded; [done|lia|]. intros mid rest -> Hmid.
  destruct (split_size mid 4) as (m1 & m2 & -> & H1); [lia|]. rewrite size_app in Hmid.
  rewrite <-!(assoc_L (++)) in Hsz |- *.
  apply (reads_load 4 pre m1 (m2 ++ rest) (λ ec pos,
    msg_len ← access (load 4 (pre ++ m1 ++ m2 ++ rest) pos);
    let pos := u64 (pos + 4) in
    guarded (pre ++ m1 ++ m2 ++ rest) pos msg_len (
      m ← assign (pre ++ m1 ++ m2 ++ rest) pos msg_len;
      Ret (Ok (rError (i32 ec) m), u64 (pos + msg_len))))); [done..|]. cbv beta.
  rewrite (assoc_L (++) pre) in Hsz |- *.
  apply (reads_load 4 (pre ++ m1) m2 rest (λ n pos,
    guarded ((pre ++ m1) ++ m2 ++ rest) pos n (
      m ← assign ((pre ++ m1) ++ m2 ++ rest) pos n;
      Ret (Ok (rError (i32 (le_value m1)) m), u64 (pos + n))))); [done|lia|]. cbv beta.
  rewrite (assoc_L (++) (pre ++ m1)) in Hsz |- *.
  pose proof (le_value_4 m1 H1). pose proof (le_value_4 m2 ltac:(lia)).
  apply (reads_string _ _ _ (rError _)); [done|lia|]. intros mid Hm. split.
  - rewrite encode_rError, wrap_sint, bytes_of_bytes, Hm by (done || lia).
    rewrite !le_bytes_size by lia. done.
  - constructor; [by apply sint_range|]. rewrite bytes_of_bytes, Hm. done.
Qed.

Lemma case_Str_sound (pre suf : list byte) :
  size (pre ++ suf) < 2 ^ 64 →
  reads pre suf (case_Str (pre ++ suf) (size pre)) (payload ResponseTag.Str).
Proof.
  intros Hsz. apply reads_guarded; [done|lia|]. intros mid rest -> Hmid.
  apply (reads_load 4 pre mid rest (λ n pos,
    guarded (pre ++ mid ++ rest) pos n (
      s ← assign (pre ++ mid ++ rest) pos n;
      Ret (Ok (rStr s), u64 (pos + n))))); [done|lia|]. cbv beta.
  rewrite (assoc_L (++)) in Hsz |- *. pose proof (le_value_4 mid Hmid).
  apply (reads_string _ _ _ rStr); [done|lia|]. intros s Hs. split.
  - rewrite encode_rStr, bytes_of_bytes, Hs, le_bytes_size by lia. done.
  - constructor. rewrite bytes_of_bytes, Hs. done.
Qed.

Lemma case_Int_sound (pre suf : list byte) :
  size (pre ++ suf) < 2 ^ 64 →
  reads pre suf (case_Int (pre ++ suf) (size pre)) (payload ResponseTag.Int).
Proof.
  intros Hsz. apply reads_guarded; [done|lia|]. intros mid rest -> Hmid.
  apply (reads_load 8 pre mid rest (λ z pos, Ret (Ok (rInt (i64 z)), pos)));
    [done|lia|]. cbv beta. pose proof (le_value_8 mid Hmid).
  apply (reads_ret _ []); [by rewrite app_nil_r|]. split.
  - by rewrite encode_rInt, wrap_sint, le_bytes_size, app_nil_r by (done || lia).
  - constructor. by apply sint_range.
Qed.

Lemma case_Dbl_sound (pre suf : list byte) :
  size (pre ++ suf) < 2 ^ 64 →
  reads pre suf (case_Dbl (pre ++ suf) (size pre)) (payload ResponseTag.Dbl).
Proof.
  intros Hsz. apply reads_guarded; [done|lia|]. intros mid rest -> Hmid.
  apply (reads_load 8 pre mid rest (λ z pos, Ret (Ok (rDbl z), pos)));
    [done|lia|]. cbv beta. pose proof (le_value_8 mid Hmid).
  apply (reads_ret _ []); [by rewrite app_nil_r|]. split.
  - by rewrite encode_rDbl, le_bytes_size, app_nil_r by (done || lia).
  - by constructor.
Qed.

Section soundness.
Context (reserve_ok : Z → bool).

(** The claim for each of the two mutually recursive functions. *)
Definition value_sound (fuel : nat) : Prop := ∀ stack (pre suf : list byte),
  size (pre ++ suf) < 2 ^ 64 → (2 * length suf + 1 ≤ fuel)%nat → (length suf < 5 * stack)%nat →
  reads pre suf (parse_value reserve_ok fuel stack (pre ++ suf) (size pre))
    (λ v used, used = encode_response v ∧ wf_response v).

Definition elems_sound (fuel : nat) : Prop := ∀ stack (pre suf : list byte) i count acc,
  size (pre ++ suf) < 2 ^ 64 → (2 * length suf + 2 ≤ fuel)%nat → (length suf < 5 * stack)%nat →
  0 <= i <= count → count < 2 ^ 32 →
  reads pre suf (parse_elems reserve_ok fuel stack (pre ++ suf) (size pre) i count acc)
    (λ v used, ∃ l, v = rArr (acc ++ l) ∧ size l = count - i
       ∧ Forall wf_response l ∧ used = List.flat_map encode_response l).

Lemma elems_sound_S fuel : value_sound fuel → elems_sound fuel → elems_sound (S fuel).
Proof.
  intros IHv IHe stack pre suf i count acc Hsz Hf Hst Hi Hc. cbn [parse_elems]. case_Z.
  2: { apply (reads_ret _ []); [by rewrite app_nil_r|].
       exists []. rewrite app_nil_r. repeat split; try done. rewrite size_nil. lia. }
  pose proof (IHv stack pre suf Hsz ltac:(lia) Hst) as Hv.
  destruct (parse_value _ _ _ _ _) as [[[v|e] pos]|e| | | |]; simpl in Hv |- *; try done.
  destruct Hv as (used & rest & -> & -> & -> & Hwf).
  pose proof (length_encode_response v). rewrite length_app in Hf, Hst.
  rewrite (assoc_L (++)) in Hsz |- *.
  rewrite (wrap_small 32) by lia.
  eapply reads_shift; [apply IHe; [done|lia..]|].
  intros r used (l & -> & Hl & Hwfl & ->). exists (v :: l).
  rewrite <-(assoc_L (++)), size_cons. repeat split; [lia|by constructor].
Qed.

Lemma case_Arr_sound fuel stack (pre suf : list byte) :
  elems_sound fuel → size (pre ++ suf) < 2 ^ 64 → (2 * length suf + 2 ≤ fuel)%nat →
  (length suf < 5 * stack + 4)%nat →
  reads pre suf
    (guarded (pre ++ suf) (size pre) 4 (
       count ← access (load 4 (pre ++ suf) (size pre));
       let pos := u64 (size pre + 4) in
       _ ← reserve reserve_ok count;
       parse_elems reserve_ok fuel stack (pre ++ suf) pos 0 count []))
    (payload ResponseTag.Arr).
Proof.
  intros IHe Hsz Hf Hst. apply reads_guarded; [done|lia|]. intros mid rest -> Hmid.
  apply (reads_load 4 pre mid rest (λ n pos,
    _ ← reserve reserve_ok n;
    parse_elems reserve_ok fuel stack (pre ++ mid ++ rest) pos 0 n [])); [done|lia|].
  cbv beta. rewrite (assoc_L (++)) in Hsz |- *. pose proof (le_value_4 mid Hmid).
  unfold reserve. destruct (reserve_ok _); [|done]. cbn [mbind outcome_bind].
  rewrite length_app in Hf, Hst. apply (size_length mid 4) in Hmid as Hmid'.
  rewrite <-(app_nil_l rest).
  eapply reads_shift; [rewrite app_nil_l, app_nil_r; apply IHe; [done|lia..]|].
  intros v used (l & -> & Hl & Hwf & ->). split.
  - rewrite app_nil_l, encode_rArr, Hl, Z.sub_0_r, le_bytes_size by lia. done.
  - rewrite app_nil_l. constructor; [|done]. rewrite Hl. unfold in_uint. lia.
Qed.

Lemma value_sound_S fuel : elems_sound fuel → value_sound (S fuel).
Proof.
  intros IHe stack pre suf Hsz Hf Hst. destruct stack as [|stack]; [lia|]. cbn [parse_value].
  destruct (Z.leb_spec (size (pre ++ suf)) (size pre)) as [Hle|Hgt]; [done|].
  destruct suf as [|b suf]; [rewrite app_nil_r in Hgt; lia|].
  change (b :: suf) with ([b] ++ suf) in *.
  rewrite (slice_app pre [b] suf : slice _ _ 1 = _). cbn [access mbind outcome_bind].
  cbv zeta. rewrite (advance pre [b] suf 1) by done.
  replace (le_value [b]) with (byte_to_Z b) by (unfold le_value; lia).
  rewrite length_app in Hf, Hst. simpl in Hf, Hst. rewrite (assoc_L (++)) in Hsz |- *.
  destruct (ResponseTag.of_byte (byte_to_Z b)) as [t|] eqn:Ht; [|done].
  apply of_byte_to_Z in Ht.
  apply (reads_shift _ _ _ _ (payload t)).
  2: { intros v used [-> ?]. by rewrite Ht, byte_of_to_Z. }
  destruct t.
  - apply (reads_ret _ []); [by rewrite app_nil_r|]. split; [done|constructor].
  - by apply case_Error_sound.
  - by apply case_Str_sound.
  - by apply case_Int_sound.
  - by apply case_Dbl_sound.
  - apply case_Arr_sound; [done|done|lia..].
Qed.

Lemma parse_sound fuel : value_sound fuel ∧ elems_sound fuel.
Proof.
  induction fuel as [|fuel [IHv IHe]].
  - split; [intros ?????|intros ???????]; lia.
  - split; [by apply value_sound_S|by apply elems_sound_S].
Qed.
End soundness.

(** * Completeness: every encoding is accepted *)

Lemma guarded_enough (pre suf : list byte) n k :
  size (pre ++ suf) < 2 ^ 64 → n <= size suf →
  guarded (pre ++ suf) (size pre) n k = k.
Proof. intros. unfold guarded. rewrite need_spec by done. case_Z; [lia|done]. Qed.

Lemma guarded_load w (pre mid rest : list byte) n (k : Z → Z → outcome (Result Response * Z)) :
  size (pre ++ mid ++ rest) < 2 ^ 64 → size mid = Z.of_nat w → n = Z.of_nat w →
  guarded (pre ++ mid ++ rest) (size pre) n
    (x ← access (load w (pre ++ mid ++ rest) (size pre)); k x (u64 (size pre + n)))
  = k (le_value mid) (size (pre ++ mid)).
Proof.
  intros Hsz Hmid ->. rewrite guarded_ok by (done || lia).
  rewrite load_app by (by apply size_length). simpl. by rewrite (advance pre mid rest).
Qed.

Lemma string_complete (pre mid rest : list byte) (mk : string → Response) n :
  size (pre ++ mid ++ rest) < 2 ^ 64 → n = size mid →
  guarded (pre ++ mid ++ rest) (size pre) n
    (s ← assign (pre ++ mid ++ rest) (size pre) n; Ret (Ok (mk s), u64 (size pre + n)))
  = Ret (Ok (mk (of_bytes mid)), size (pre ++ mid)).
Proof.
  intros Hsz ->. rewrite guarded_ok by (done || lia).
  rewrite assign_app by done. simpl. by rewrite (advance pre mid rest).
Qed.

Lemma le_value_le_bytes w z : 0 <= z < 2 ^ (8 * Z.of_nat w) → le_value (le_bytes w z) = z.
Proof. intros. rewrite le_value_bytes. by apply Z.mod_small. Qed.

Lemma case_Str_complete (pre post : list byte) s :
  in_uint 32 (size (bytes s)) →
  let enc := le_bytes 4 (size (bytes s)) ++ bytes s in
  size (pre ++ enc ++ post) < 2 ^ 64 →
  case_Str (pre ++ enc ++ post) (size pre) = Ret (Ok (rStr s), size (pre ++ enc)).
Proof.
  intros Hs enc Hsz. unfold case_Str, enc in *. rewrite <-(assoc_L (++)) in Hsz |- *.
  rewrite (guarded_load 4 pre _ _ 4 (λ n pos,
    guarded _ pos n (s ← assign _ pos n; Ret (Ok (rStr s), u64 (pos + n)))))
    by (done || by rewrite size_le_bytes).
  rewrite le_value_le_bytes by done. rewrite (assoc_L (++)) in Hsz |- *.
  rewrite string_complete by done. by rewrite of_bytes_bytes, (assoc_L (++)).
Qed.

Lemma case_Error_complete (pre post : list byte) c m :
  in_sint 32 c → in_uint 32 (size (bytes m)) →
  let enc := le_bytes 4 (u32 c) ++ le_bytes 4 (size (bytes m)) ++ bytes m in
  size (pre ++ enc ++ post) < 2 ^ 64 →
  case_Error (pre ++ enc ++ post) (size pre) = Ret (Ok (rError c m), size (pre ++ enc)).
Proof.
  intros Hc Hm enc Hsz. unfold case_Error, enc in *.
  set (m1 := le_bytes 4 (u32 c)) in *. set (m2 := le_bytes 4 (size (bytes m))) in *.
  assert (H1 : size m1 = 4) by apply size_le_bytes.
  assert (H2 : size m2 = 4) by apply size_le_bytes.
  rewrite <-!(assoc_L (++)) in Hsz |- *.
  pose proof (size_nonneg (bytes m ++ post)).
  rewrite guarded_enough by (done || (rewrite size_app, (size_app m2); lia)).
  rewrite load_app by apply length_le_bytes. cbn [access mbind outcome_bind].
  cbv zeta. rewrite (advance pre m1 (m2 ++ bytes m ++ post)) by done. rewrite (assoc_L (++) pre) in Hsz |- *.
  rewrite load_app by apply length_le_bytes. cbn [access mbind outcome_bind].
  rewrite (advance (pre ++ m1) m2 (bytes m ++ post)) by done.
  unfold m1, m2. rewrite !le_value_le_bytes by (apply wrap_range || done; lia).
  fold m1 m2. rewrite (assoc_L (++) (pre ++ m1)) in Hsz |- *.
  rewrite (string_complete _ _ _ (rError _)) by done.
  by rewrite of_bytes_bytes, sint_wrap, <-!(assoc_L (++)) by done.
Qed.

Lemma case_Int_complete (pre post : list byte) z :
  in_sint 64 z → size (pre ++ le_bytes 8 (u64 z) ++ post) < 2 ^ 64 →
  case_Int (pre ++ le_bytes 8 (u64 z) ++ post) (size pre)
    = Ret (Ok (rInt z), size (pre ++ le_bytes 8 (u64 z))).
Proof.
  intros Hz Hsz. unfold case_Int.
  rewrite (guarded_load 8 pre _ _ 8 (λ z pos, Ret (Ok (rInt (i64 z)), pos)))
    by (done || by rewrite size_le_bytes).
  rewrite le_value_le_bytes by (by apply wrap_range). by rewrite sint_wrap.
Qed.

Lemma case_Dbl_complete (pre post : list byte) z :
  in_uint 64 z → size (pre ++ le_bytes 8 z ++ post) < 2 ^ 64 →
  case_Dbl (pre ++ le_bytes 8 z ++ post) (size pre)
    = Ret (Ok (rDbl z), size (pre ++ le_bytes 8 z)).
Proof.
  intros Hz Hsz. unfold case_Dbl.
  rewrite (guarded_load 8 pre _ _ 8 (λ z pos, Ret (Ok (rDbl z), pos)))
    by (done || by rewrite size_le_bytes).
  by rewrite le_value_le_bytes.
Qed.

Section completeness.
Context (reserve_ok : Z → bool).

Definition value_complete (v : Response) : Prop := ∀ fuel stack (pre post : list byte),
  wf_response v → size (pre ++ encode_response v ++ post) < 2 ^ 64 →
  (2 * length (encode_response v ++ post) + 1 ≤ fuel)%nat →
  (length (encode_response v) < 5 * stack)%nat →
  (∀ n, 0 <= n <= size (encode_response v) → reserve_ok n = true) →
  parse_value reserve_ok fuel stack (pre ++ encode_response v ++ post) (size pre)
    = Ret (Ok v, size (pre ++ encode_response v)).

Lemma elems_complete l fuel stack (pre post : list byte) i count acc :
  Forall value_complete l → Forall wf_response l →
  let enc := List.flat_map encode_response l in
  size (pre ++ enc ++ post) < 2 ^ 64 →
  (2 * length (enc ++ post) + 2 ≤ fuel)%nat → (length enc < 5 * stack)%nat →
  (∀ n, 0 <= n <= size enc → reserve_ok n = true) →
  0 <= i → count = i + size l → count < 2 ^ 32 →
  parse_elems reserve_ok fuel stack (pre ++ enc ++ post) (size pre) i count acc
    = Ret (Ok (rArr (acc ++ l)), size (pre ++ enc)).
Proof.
  intros Hl. revert fuel pre i acc.
  induction Hl as [|v l Hv _ IH]; intros fuel pre i acc Hwf enc Hsz Hf Hst Hres Hi Hc Hc32;
    (destruct fuel as [|fuel]; [lia|]); cbn [parse_elems].
  - rewrite size_nil in Hc. case_Z; [lia|]. by rewrite !app_nil_r.
  - rewrite size_cons in Hc. pose proof (size_nonneg l). case_Z; [|lia].
    apply Forall_cons in Hwf as [Hwfv Hwf]. unfold enc in *. cbn [List.flat_map] in *.
    rewrite <-(assoc_L (++)) in Hsz, Hf |- *. rewrite length_app in Hst.
    rewrite size_app in Hres. pose proof (size_nonneg (encode_response v)).
    pose proof (size_nonneg (List.flat_map encode_response l)).
    rewrite Hv; [|done|done|lia|lia|intros; apply Hres; lia].
    cbn [mbind outcome_bind]. rewrite (wrap_small 32) by lia.
    pose proof (length_encode_response v). rewrite length_app in Hf.
    rewrite (assoc_L (++)) in Hsz |- *.
    rewrite IH; [|done|done|lia|lia|intros; apply Hres; lia|lia..].
    by rewrite <-!(assoc_L (++)).
Qed.

Lemma parse_value_tag fuel stack (pre pay post : list byte) t :
  size (pre ++ (byte_of_Z (ResponseTag.to_Z t) :: pay) ++ post) < 2 ^ 64 →
  let buf := (pre ++ [byte_of_Z (ResponseTag.to_Z t)]) ++ pay ++ post in
  let pos := size (pre ++ [byte_of_Z (ResponseTag.to_Z t)]) in
  parse_value reserve_ok (S fuel) (S stack) (pre ++ (byte_of_Z (ResponseTag.to_Z t) :: pay) ++ post) (size pre)
  = match t with
    | ResponseTag.Nil => Ret (Ok rNil, pos)
    | ResponseTag.Error => case_Error buf pos
    | ResponseTag.Str => case_Str buf pos
    | ResponseTag.Int => case_Int buf pos
    | ResponseTag.Dbl => case_Dbl buf pos
    | ResponseTag.Arr =>
        guarded buf pos 4 (
          count ← access (load 4 buf pos);
          let pos := u64 (pos + 4) in
          _ ← reserve reserve_ok count;
          parse_elems reserve_ok fuel stack buf pos 0 count [])
    end.
Proof.
  intros Hsz. set (b := byte_of_Z _) in *. cbn [parse_value].
  change ((b :: pay) ++ post) with ([b] ++ pay ++ post) in *.
  generalize dependent (pay ++ post). clear pay post. intros suf Hsz.
  destruct (Z.leb_spec (size (pre ++ [b] ++ suf)) (size pre)) as [Hle|_].
  { rewrite !size_app, size_cons, size_nil in Hle. pose proof (size_nonneg suf). lia. }
  rewrite (slice_app pre [b] suf : slice _ _ 1 = _). cbn [access mbind outcome_bind].
  cbv zeta. rewrite (advance pre [b] suf 1) by done.
  replace (le_value [b]) with (ResponseTag.to_Z t)
    by (unfold le_value, b; rewrite byte_to_of_Z; by destruct t).
  rewrite to_Z_of_byte, (assoc_L (++)). by destruct t.
Qed.

Lemma parse_complete v : value_complete v.
Proof.
  induction v as [t c m s i d l IH] using response_ind.
  intros fuel stack pre post Hwf Hsz Hf Hst Hres. destruct fuel as [|fuel]; [lia|].
  destruct stack as [|stack]; [lia|].
  inversion Hwf; subst; clear Hwf.
  - apply (parse_value_tag fuel stack pre [] post ResponseTag.Nil). exact Hsz.
  - fold (rError c m) in *. rewrite encode_rError in *.
    etrans; [exact (parse_value_tag fuel stack pre _ post ResponseTag.Error Hsz)|]. cbv beta zeta iota.
    rewrite case_Error_complete by (done || by rewrite <-(assoc_L (++))).
    by rewrite <-(assoc_L (++)).
  - fold (rStr s) in *. rewrite encode_rStr in *.
    etrans; [exact (parse_value_tag fuel stack pre _ post ResponseTag.Str Hsz)|]. cbv beta zeta iota.
    rewrite case_Str_complete by (done || by rewrite <-(assoc_L (++))).
    by rewrite <-(assoc_L (++)).
  - fold (rInt i) in *. rewrite encode_rInt in *.
    etrans; [exact (parse_value_tag fuel stack pre _ post ResponseTag.Int Hsz)|]. cbv beta zeta iota.
    rewrite case_Int_complete by (done || by rewrite <-(assoc_L (++))).
    by rewrite <-(assoc_L (++)).
  - fold (rDbl d) in *. rewrite encode_rDbl in *.
    etrans; [exact (parse_value_tag fuel stack pre _ post ResponseTag.Dbl Hsz)|]. cbv beta zeta iota.
    rewrite case_Dbl_complete by (done || by rewrite <-(assoc_L (++))).
    by rewrite <-(assoc_L (++)).
  - fold (rArr l) in *. rewrite encode_rArr in *.
    pose proof (length_flat_map_encode l). unfold in_uint in *.
    rewrite size_cons, size_app, size_le_bytes in Hres.
    etrans; [exact (parse_value_tag fuel stack pre _ post ResponseTag.Arr Hsz)|]. cbv beta zeta iota.
    change (byte_of_Z 5 :: ?x) with ([byte_of_Z 5] ++ x) in Hsz.
    rewrite <-!(assoc_L (++)), (assoc_L (++) pre) in Hsz.
    rewrite <-(assoc_L (++) (le_bytes 4 (size l))).
    rewrite (guarded_load 4 _ _ _ 4 (λ n pos,
      _ ← reserve reserve_ok n; parse_elems reserve_ok fuel stack _ pos 0 n []))
      by (done || by rewrite size_le_bytes).
    rewrite le_value_le_bytes by lia. unfold reserve. rewrite Hres by lia.
    cbn [mbind outcome_bind]. rewrite (assoc_L (++)) in Hsz |- *.
    rewrite elems_complete; try done.
    + by rewrite <-!(assoc_L (++)).
    + cbn [length app] in Hf. rewrite <-(assoc_L (++)), length_app in Hf. lia.
    + cbn [length] in Hst. rewrite length_app, length_le_bytes in Hst. lia.
    + intros n Hn. apply Hres. lia.
    + lia.
Qed.
End completeness.

(** * The parser against the grammar *)

(** On a stack that is deep enough, the parser returns a response or a protocol error;
    the one way out of it is [reserve] running out of memory. *)
Lemma parse_body_in_reads reserve_ok stack buf :
  size buf < 2 ^ 64 → size buf < 5 * Z.of_nat stack →
  match parse_body_in reserve_ok stack buf with
  | Ret (Ok v) => ∃ rest, buf = encode_response v ++ rest ∧ wf_response v
  | Ret (Err e) => code e = Eprotocol
  | Throw e => e = bad_alloc
  | _ => False
  end.
Proof.
  intros Hsz Hst. unfold parse_body_in.
  pose proof (proj1 (parse_sound reserve_ok (parse_fuel buf)) stack [] buf Hsz) as H.
  specialize (H ltac:(unfold parse_fuel; lia) ltac:(unfold size in Hst; lia)).
  simpl in H. rewrite size_nil in H.
  destruct (parse_value _ _ _ buf 0) as [[[v|e] pos]|e| | | |]; simpl in *; try done.
  destruct H as (used & rest & -> & _ & -> & Hwf). eauto.
Qed.

Lemma parse_body_reads reserve_ok buf :
  size buf < 2 ^ 64 →
  match parse_body reserve_ok buf with
  | Ret (Ok v) => ∃ rest, buf = encode_response v ++ rest ∧ wf_response v
  | Ret (Err e) => code e = Eprotocol
  | Throw e => e = bad_alloc
  | _ => False
  end.
Proof. intros Hsz. apply parse_body_in_reads; [done|]. unfold size. lia. Qed.

(** [n] arrays of one element, each in the one before. *)
Definition nested (n : nat) : list byte :=
  List.flat_map (λ _, byte_of_Z 5 :: le_bytes 4 1) (seq 0 n).

Lemma nested_S n : nested (S n) = (byte_of_Z 5 :: le_bytes 4 1) ++ nested n.
Proof.
  unfold nested. cbn [seq List.flat_map]. f_equal. rewrite <-!fmap_S_seq.
  induction (seq 0 n) as [|i l IH]; [done|]. cbn [fmap list_fmap List.flat_map]. by rewrite IH.
Qed.

Lemma size_nested n : size (nested n) = 5 * Z.of_nat n.
Proof.
  induction n as [|n IH]; [done|]. rewrite nested_S, size_app, IH, size_cons, size_le_bytes. lia.
Qed.

Lemma parse_nested reserve_ok stack : reserve_ok 1 = true → ∀ n fuel (pre : list byte),
  (stack ≤ n)%nat → (2 * n + 1 ≤ fuel)%nat → size (pre ++ nested n) < 2 ^ 64 →
  parse_value reserve_ok fuel stack (pre ++ nested n) (size pre) = Undefined.
Proof.
  intros Hres. induction stack as [|stack IH]; intros n fuel pre Hn Hf Hsz;
    (destruct fuel as [|fuel]; [lia|]); [done|].
  destruct n as [|n]; [lia|]. rewrite nested_S in Hsz |- *.
  etrans; [exact (parse_value_tag reserve_ok fuel stack pre (le_bytes 4 1) (nested n)
    ResponseTag.Arr Hsz)|]. cbv beta zeta iota.
  change (ResponseTag.to_Z ResponseTag.Arr) with 5.
  change (byte_of_Z 5 :: le_bytes 4 1) with ([byte_of_Z 5] ++ le_bytes 4 1) in Hsz.
  rewrite <-!(assoc_L (++)), (assoc_L (++) pre) in Hsz.
  rewrite (guarded_load 4 _ _ _ 4 (λ n pos,
    _ ← reserve reserve_ok n; parse_elems reserve_ok fuel stack _ pos 0 n []))
    by (done || by rewrite size_le_bytes).
  rewrite le_value_le_bytes by lia. unfold reserve. rewrite Hres. cbn [mbind outcome_bind].
  rewrite (assoc_L (++)) in Hsz |- *. destruct fuel as [|fuel]; [lia|]. cbn [parse_elems].
  change (0 <? 1) with true. cbv iota. by rewrite IH by (done || lia).
Qed.

(** C1: parsing is memory-safe, and total as far as the stack goes: on every byte
    string, as long as the stack has room for one call of [parse_value] for each five
    bytes and one more, [parse_value] never reads outside the buffer, never blocks and
    terminates; it returns a [Result], or the up-front [reserve] throws
    [std::bad_alloc].  No smaller stack will do: however deep it is, there is a body
    of five bytes per call, arrays nested in arrays, that overflows it. *)
Theorem parse_body_defined reserve_ok buf stack :
  size buf < 2 ^ 64 →
  (size buf < 5 * Z.of_nat stack →
   (∃ r, parse_body_in reserve_ok stack buf = Ret r) ∨
   parse_body_in reserve_ok stack buf = Throw bad_alloc) ∧
  (reserve_ok 1 = true → 5 * Z.of_nat stack < 2 ^ 64 →
   ∃ deep, size deep = 5 * Z.of_nat stack ∧ parse_body_in reserve_ok stack deep = Undefined).
Proof.
  intros Hsz. split; intros H1.
  - pose proof (parse_body_in_reads reserve_ok stack buf Hsz H1) as H.
    destruct (parse_body_in reserve_ok stack buf) as [r|e| | | |]; naive_solver.
  - intros H2. exists (nested stack). rewrite size_nested. split; [done|]. unfold parse_body_in.
    pose proof (parse_nested reserve_ok stack H1 stack (parse_fuel (nested stack)) []) as H.
    rewrite app_nil_l, size_nil in H. rewrite H; [done|lia| |by rewrite size_nested].
    unfold parse_fuel. pose proof (size_nested stack). unfold size in *. lia.
Qed.

Lemma parse_body_complete reserve_ok v rest :
  size (encode_response v ++ rest) < 2 ^ 64 →
  (∀ n, 0 <= n <= size (encode_response v) → reserve_ok n = true) →
  wf_response v → parse_body reserve_ok (encode_response v ++ rest) = Ret (Ok v).
Proof.
  intros Hsz Hres Hwf. unfold parse_body, parse_body_in.
  pose proof (parse_complete reserve_ok v (parse_fuel (encode_response v ++ rest))
    (S (length (encode_response v ++ rest))) [] rest Hwf) as H.
  rewrite !app_nil_l in H. change (size []) with 0 in H.
  rewrite H; [done|done|unfold parse_fuel; lia|rewrite length_app; lia|done].
Qed.

(** C2: the parser is exactly the grammar: when memory for as many elements as
    there are bytes is available, a body parses to [v] if and only if [v] is a
    well-formed response and the body starts with its encoding. *)
Theorem parse_body_iff reserve_ok buf v :
  size buf < 2 ^ 64 → (∀ n, 0 <= n <= size buf → reserve_ok n = true) →
  parse_body reserve_ok buf = Ret (Ok v) ↔
  wf_response v ∧ ∃ rest, buf = encode_response v ++ rest.
Proof.
  intros Hsz Hres. split.
  - intros Hv. pose proof (parse_body_reads reserve_ok buf Hsz) as H.
    rewrite Hv in H. naive_solver.
  - intros [Hwf [rest ->]]. apply parse_body_complete; [done| |done].
    rewrite size_app in Hres. pose proof (size_nonneg rest).
    intros. apply Hres. lia.
Qed.

(** A response is determined by its bytes: two well-formed responses whose
    encodings start the same stream are equal. *)
Lemma encode_response_prefix_free v1 v2 rest1 rest2 :
  wf_response v1 → wf_response v2 →
  size (encode_response v1 ++ rest1) < 2 ^ 64 →
  encode_response v1 ++ rest1 = encode_response v2 ++ rest2 → v1 = v2.
Proof.
  intros H1 H2 Hsz Heq.
  pose proof (parse_body_complete (λ _, true) v1 rest1 Hsz ltac:(done) H1) as P1.
  rewrite Heq in Hsz, P1.
  pose proof (parse_body_complete (λ _, true) v2 rest2 Hsz ltac:(done) H2).
  congruence.
Qed.

Lemma parse_elems_at_end reserve_ok fuel stack (buf : list byte) i count acc :
  i < count →
  parse_elems reserve_ok (S (S fuel)) (S stack) buf (size buf) i count acc
    = Ret (Err (protocol_error "empty response body"), size buf).
Proof. intros. simpl. by case_Z; try lia. Qed.

(** The element count of an array is trusted before any element is seen: a
    body of five bytes makes the parser reserve [count] elements, for every
    [count] up to [2^32 - 1], and the call throws when that memory is missing;
    otherwise the very first element is reported missing. *)
Lemma reserve_before_elements reserve_ok count :
  0 < count < 2 ^ 32 →
  parse_body reserve_ok (byte_of_Z 5 :: le_bytes 4 count) =
    if reserve_ok count then Ret (Err (protocol_error "empty response body"))
    else Throw bad_alloc.
Proof.
  intros Hc. unfold parse_body, parse_body_in, parse_fuel. cbn [length]. rewrite length_le_bytes.
  pose proof (parse_value_tag reserve_ok 11 5 [] (le_bytes 4 count) [] ResponseTag.Arr) as H.
  rewrite app_nil_r in H. cbn [app] in H. change (size []) with 0 in H.
  change (2 * S 4 + 2)%nat with 12%nat. change (ResponseTag.to_Z ResponseTag.Arr) with 5 in H.
  rewrite H; clear H.
  2: { rewrite size_cons, size_le_bytes. lia. }
  cbv zeta. rewrite app_nil_r.
  pose proof (guarded_load 4 [byte_of_Z 5] (le_bytes 4 count) [] 4 (λ n pos,
      _ ← reserve reserve_ok n;
      parse_elems reserve_ok 11 5 (byte_of_Z 5 :: le_bytes 4 count) pos 0 n [])) as H.
  rewrite app_nil_r in H. cbn [app ResponseTag.to_Z] in *. rewrite H; clear H.
  2: { rewrite size_cons, size_le_bytes. lia. }
  2, 3: by rewrite ?size_le_bytes.
  rewrite le_value_le_bytes by lia. unfold reserve.
  destruct (reserve_ok count); [|done]. cbn [mbind outcome_bind].
  by rewrite (parse_elems_at_end reserve_ok 9 4) by lia.
Qed.

(** * Witnesses *)
Definition sample_job : Response :=
  rArr [rStr "job-1"; rStr "build"; rStr "local"; rStr "make"; rInt (-1)].

Lemma sample_job_wf : wf_response sample_job.
Proof.
  apply wf_arr; [by vm_compute|].
  repeat apply Forall_cons_2; try apply Forall_nil_2;
    (apply wf_str || apply wf_int); by vm_compute.
Defined.

Lemma parse_body_defined_witness :
  let buf := [x05; xff; xff; xff; xff; x05] in
  ((∃ r, parse_body_in (λ n, n <? 1000) 2 buf = Ret r)
   ∨ parse_body_in (λ n, n <? 1000) 2 buf = Throw bad_alloc) ∧
  ∃ deep, size deep = 10 ∧ parse_body_in (λ n, n <? 1000) 2 deep = Undefined.
Proof.
  destruct (parse_body_defined (λ n, n <? 1000) [x05; xff; xff; xff; xff; x05] 2) as [H1 H2];
    [by vm_compute|]. split; [by apply H1|by apply H2].
Defined.

Lemma parse_body_iff_witness :
  parse_body (λ n, n <? 1000) (encode_response sample_job ++ [x00]) = Ret (Ok sample_job).
Proof.
  apply (parse_body_iff (λ n, n <? 1000)).
  - by vm_compute.
  - intros n [_ Hn]. apply Z.ltb_lt. eapply Z.le_lt_trans; [exact Hn|by vm_compute].
  - split; [exact sample_job_wf|by exists [x00]].
Defined.

Lemma encode_response_prefix_free_witness :
  rStr "ok" = mkResponse ResponseTag.Str 0 "" (of_bytes [x6f; x6b]) 0 0 [].
Proof.
  apply (encode_response_prefix_free _ _ [x00] [x00]);
    [apply wf_str; by vm_compute..|by vm_compute|done].
Defined.

Lemma reserve_before_elements_witness :
  parse_body (λ n, n <? 1000) (byte_of_Z 5 :: le_bytes 4 (2 ^ 32 - 1)) = Throw bad_alloc.
Proof. by rewrite reserve_before_elements by lia. Defined.
