(* ===== verification/RedisClient.v ===== *)
(** [RedisClient] (redis_client.hpp, redis_client.cpp): the socket, the request
    frames, the response frames and the commands.

    The kernel is the environment: what [::send] and [::recv] do is given by a
    script of their results, an empty script being a call that never returns. *)
From S2P Require Import Prelude Bytes CppString Wire.

#[local] Open Scope Z_scope.

(** * The socket *)

(** A result of [::send]: up to [n] bytes accepted, or a failure and its errno. *)
Inductive tx : Type := TAccept (n : Z) | TFail (e : Z).
(** A result of [::recv]: bytes that have arrived (none at the end of the
    stream), or a failure and its errno. *)
Inductive rx : Type := RData (bs : list byte) | RFail (e : Z).

Record net : Type := mkNet {
  sent : list byte;         (** every byte the peer has been given *)
  tx_script : list tx;
  rx_script : list rx;
  errno : Z;
}.

(** [::send(fd, data, len, 0)] returns at most [len]. *)
Definition sys_send (data : list byte) (w : net) : outcome (Z * net) :=
  match tx_script w with
  | [] => Blocked
  | TAccept n :: s =>
      let n := Z.max 0 (Z.min n (size data)) in
      Ret (n, mkNet (sent w ++ take (Z.to_nat n) data) s (rx_script w) (errno w))
  | TFail e :: s => Ret (-1, mkNet (sent w) s (rx_script w) e)
  end.

(** [::recv(fd, buf, len, 0)]: its result, the bytes it stores at [buf]. *)
Definition sys_recv (len : Z) (w : net) : outcome (Z * list byte * net) :=
  match rx_script w with
  | [] => Blocked
  | RData bs :: s =>
      if size bs <=? len then
        Ret (size bs, bs, mkNet (sent w) (tx_script w) s (errno w))
      else
        Ret (len, take (Z.to_nat len) bs,
             mkNet (sent w) (tx_script w) (RData (drop (Z.to_nat len) bs) :: s) (errno w))
  | RFail e :: s => Ret (-1, [], mkNet (sent w) (tx_script w) s e)
  end.

Section client.
(** The C library's error texts, and the memory behind [reserve]. *)
Context (strerror : Z → string) (reserve_ok : Z → bool).

(** * [write_all] and [read_exact] *)
Fixpoint write_loop (fuel : nat) (data : list byte) (done : Z) (w : net)
    : outcome (Result unit * net) :=
  match fuel with
  | O => OutOfFuel
  | S fuel =>
    if done <? size data then
      chunk ← access (slice data done (u64 (size data - done)));
      '(n, w) ← sys_send chunk w;
      if n <=? 0 then Ret (Err (Error_system strerror (errno w) "send"), w)
      else write_loop fuel data (u64 (done + n)) w
    else Ret (Ok tt, w)
  end.

Definition write_all (data : list byte) (w : net) : outcome (Result unit * net) :=
  write_loop (S (length data)) data 0 w.

(** The result carries the final contents of the caller's buffer. *)
Fixpoint read_loop (fuel : nat) (buf : list byte) (got len : Z) (w : net)
    : outcome (Result (list byte) * net) :=
  match fuel with
  | O => OutOfFuel
  | S fuel =>
    if got <? len then
      '(n, chunk, w) ← sys_recv (u64 (len - got)) w;
      if n <=? 0 then Ret (Err (Error_system strerror (errno w) "recv"), w)
      else
        buf ← access (store buf got chunk);
        read_loop fuel buf (u64 (got + n)) len w
    else Ret (Ok buf, w)
  end.

Definition read_exact (buf : list byte) (len : Z) (w : net)
    : outcome (Result (list byte) * net) :=
  read_loop (S (Z.to_nat len)) buf 0 len w.

(** * Requests *)

(** The lengths are added at [uint32_t]. *)
Definition payload_size (args : list string) : Z :=
  fold_left (λ p a, u32 (p + u32 (4 + u32 (size (bytes a))))) args 4.

(** The loop that fills [msg] from [off]. *)
Fixpoint fill_args (msg : list byte) (off : Z) (args : list string)
    : outcome (list byte) :=
  match args with
  | [] => Ret msg
  | a :: args =>
      msg ← access (store msg off (le_bytes 4 (u32 (size (bytes a)))));
      msg ← access (store msg (u64 (off + 4)) (bytes a));
      fill_args msg (u64 (off + u64 (4 + size (bytes a)))) args
  end.

(** [std::vector<uint8_t> msg(4 + payload)] and everything written to it. *)
Definition build_message (args : list string) : outcome (list byte) :=
  let payload := payload_size args in
  let msg := replicate (Z.to_nat (u32 (4 + payload))) x00 in
  msg ← access (store msg 0 (le_bytes 4 payload));
  msg ← access (store msg 4 (le_bytes 4 (u32 (size args))));
  fill_args msg 8 args.

(** * Response frames *)
Definition MAX_FRAME : Z := 64 * 1024 * 1024.

Definition frame_too_big (len : Z) : Error :=
  mkError Eprotocol ("frame of " +:+ to_string len +:+ " bytes exceeds limit").

Definition read_frame (w : net) : outcome (Result Response * net) :=
  '(r, w) ← read_exact (replicate 4 x00) 4 w;
  match r with
  | Err e => Ret (Err e, w)
  | Ok header =>
      len ← access (load 4 header 0);
      if MAX_FRAME <? len then Ret (Err (frame_too_big len), w)
      else
        '(r, w) ← read_exact (replicate (Z.to_nat len) x00) len w;
        match r with
        | Err e => Ret (Err e, w)
        | Ok body => v ← parse_body reserve_ok body; Ret (v, w)
        end
  end.

(** [RedisClient::send] on a client whose descriptor is [fd]. *)
Definition send (fd : Z) (args : list string) (w : net) : outcome (Result Response * net) :=
  if fd <? 0 then Ret (Err (mkError Estate "not connected"), w)
  else
    msg ← build_message args;
    '(r, w) ← write_all msg w;
    match r with
    | Err e => Ret (Err e, w)
    | Ok _ => read_frame w
    end.

(** * Commands *)
Definition set (fd : Z) (key val : string) := send fd ["set"; key; val].
Definition get (fd : Z) (key : string) := send fd ["get"; key].
Definition del (fd : Z) (key : string) := send fd ["del"; key].
Definition lpush (fd : Z) (key val : string) := send fd ["lpush"; key; val].
Definition rpop (fd : Z) (key : string) := send fd ["rpop"; key].
Definition lrange (fd : Z) (key : string) (start stop : Z) :=
  send fd ["lrange"; key; to_string start; to_string stop].
Definition llen (fd : Z) (key : string) := send fd ["llen"; key].
Definition job_next (fd : Z) := send fd ["job next"].
Definition job_status (fd : Z) (id : string) := send fd ["job status"; id].
Definition job_result (fd : Z) (id : string) (exit_code duration_ms : Z) :=
  send fd ["job result"; id; to_string exit_code; to_string duration_ms].
Definition job_log (fd : Z) (id line : string) := send fd ["job log"; id; line].
Definition sandbox_register (fd : Z) (id type addr : string) :=
  send fd ["sandbox register"; id; type; addr].
Definition sandbox_claim (fd : Z) (id job_id : string) :=
  send fd ["sandbox claim"; id; job_id].
Definition sandbox_release (fd : Z) (id : string) := send fd ["sandbox release"; id].
End client.

(** * The connection

    [fds] are the descriptors of the process. *)
Record RedisClient : Type := mkClient { fd_ : Z }.

(** [RedisClient() = default] *)
Definition RedisClient_new : RedisClient := mkClient (-1).

Definition close (c : RedisClient) (fds : fd_table) : RedisClient * fd_table :=
  if 0 <=? fd_ c then (mkClient (-1), fd_close (fd_ c) fds) else (c, fds).

Definition is_connected (c : RedisClient) : bool := 0 <=? fd_ c.

(** The destructor. *)
Definition RedisClient_delete (c : RedisClient) (fds : fd_table) : fd_table := (close c fds).2.

(** [std::exchange(other.fd_, -1)]: the new client and the emptied one. *)
Definition move_construct (other : RedisClient) : RedisClient * RedisClient :=
  (mkClient (fd_ other), mkClient (-1)).

(** [a = std::move(b)] for two different objects; self-assignment does nothing. *)
Definition move_assign (this other : RedisClient) (fds : fd_table)
    : RedisClient * RedisClient * fd_table :=
  let '(_, fds) := close this fds in
  (mkClient (fd_ other), mkClient (-1), fds).

(** What the kernel answers during one [connect]. *)
Record connect_env : Type := mkConnectEnv {
  socket_ret : Z;
  socket_errno : Z;
  inet_pton_ret : Z;
  connect_ret : Z;
  connect_errno : Z;
}.

Definition EINVAL : Z := 22.

Definition connect (strerror : Z → string) (e : connect_env) (host : string) (port : Z)
    (c : RedisClient) (fds : fd_table) : Result unit * RedisClient * fd_table :=
  let '(c, fds) := close c fds in
  let fd := socket_ret e in
  let c := mkClient fd in
  if fd <? 0 then (Err (Error_system strerror (socket_errno e) "socket"), c, fds)
  else
    let fds := fd_open fd fds in
    if negb (inet_pton_ret e =? 1) then
      let '(c, fds) := close c fds in
      (Err (Error_system strerror EINVAL ("invalid host '" +:+ host +:+ "'")), c, fds)
    else if connect_ret e <? 0 then
      (Err (Error_system strerror (connect_errno e)
              ("connect " +:+ host +:+ ":" +:+ to_string port)), c, fds)
    else (Ok tt, c, fds).

(** * Specification of the traffic *)

(** A request frame, and its size: the length prefix, the argument count, and
    each argument behind its own length. *)
Definition encode_arg (a : string) : list byte :=
  le_bytes 4 (size (bytes a)) ++ bytes a.
Definition encode_args (args : list string) : list byte := List.flat_map encode_arg args.
Definition encode_request (args : list string) : list byte :=
  le_bytes 4 (4 + size (encode_args args)) ++ le_bytes 4 (size args) ++ encode_args args.

(** A response frame carrying [body]. *)
Definition frame (body : list byte) : list byte := le_bytes 4 (size body) ++ body.

(** [accepting s n s']: the kernel takes [n] more bytes, in pieces of any
    positive size, and then has [s'] left to do. *)
Inductive accepting : list tx → Z → list tx → Prop :=
  | accepting_done s : accepting s 0 s
  | accepting_more k s n s' :
      0 < k → 0 < n → accepting s (n - Z.min k n) s' →
      accepting (TAccept k :: s) n s'.

(** [incoming s bs s']: [bs] arrives next, in chunks of any positive size,
    followed by [s']. *)
Inductive incoming : list rx → list byte → list rx → Prop :=
  | incoming_done s : incoming s [] s
  | incoming_chunk c s bs s' :
      c ≠ [] → incoming s bs s' → incoming (RData c :: s) (c ++ bs) s'.

(** * Building a request *)
Lemma size_encode_arg a : size (encode_arg a) = 4 + size (bytes a).
Proof. unfold encode_arg. by rewrite size_app, size_le_bytes. Qed.

Lemma length_encode_arg a : length (encode_arg a) = (4 + length (bytes a))%nat.
Proof. unfold encode_arg. by rewrite length_app, length_le_bytes. Qed.

Lemma encode_args_cons a args : encode_args (a :: args) = encode_arg a ++ encode_args args.
Proof. done. Qed.

Lemma payload_size_spec args : payload_size args = u32 (4 + size (encode_args args)).
Proof.
  unfold payload_size.
  assert (H : ∀ p, fold_left (λ p a, u32 (p + u32 (4 + u32 (size (bytes a))))) args (u32 p)
                   = u32 (p + size (encode_args args))).
  { induction args as [|a args IH]; intros p; cbn [fold_left].
    - change (size (encode_args [])) with 0. by rewrite Z.add_0_r.
    - rewrite encode_args_cons, size_app, size_encode_arg.
      replace (u32 (u32 p + _)) with (u32 (p + (4 + size (bytes a)))).
      { rewrite IH. f_equal. lia. }
      unfold wrap. by rewrite <-Zplus_mod, !Z.add_assoc, Zplus_mod_idemp_r. }
  by rewrite <-H.
Qed.

(** Overwriting the front of a block that is still zero. *)
Lemma store_zeros (pre bs : list byte) n off :
  off = size pre →
  store (pre ++ replicate n x00) off bs =
    if decide (length bs ≤ n)%nat
    then Some ((pre ++ bs) ++ replicate (n - length bs) x00) else None.
Proof.
  intros ->. destruct (decide _) as [Hle|Hgt].
  - replace n with (length bs + (n - length bs))%nat at 1 by lia.
    rewrite replicate_add, <-(assoc_L (++)). apply store_app; [done|].
    by rewrite length_replicate.
  - apply store_None; [apply size_nonneg|].
    rewrite size_app, size_replicate. unfold size. lia.
Qed.

Lemma le_bytes_u32 z : le_bytes 4 (u32 z) = le_bytes 4 z.
Proof.
  apply le_value_inj; [by rewrite !length_le_bytes|].
  rewrite !le_value_bytes. unfold wrap. apply Zmod_mod.
Qed.

Lemma fill_args_spec (pre : list byte) n args :
  size pre + Z.of_nat n < 2 ^ 32 →
  fill_args (pre ++ replicate n x00) (size pre) args =
    if decide (length (encode_args args) ≤ n)%nat
    then Ret ((pre ++ encode_args args) ++ replicate (n - length (encode_args args)) x00)
    else Undefined.
Proof.
  revert pre n. induction args as [|a args IH]; intros pre n Hn; cbn [fill_args].
  - rewrite decide_True by (simpl; lia). simpl. by rewrite app_nil_r, Nat.sub_0_r.
  - pose proof (size_nonneg pre).
    rewrite le_bytes_u32, encode_args_cons, length_app, length_encode_arg.
    rewrite store_zeros by done. rewrite length_le_bytes.
    destruct (decide (4 ≤ n)%nat); [|by rewrite decide_False by lia].
    cbn [access mbind outcome_bind]. rewrite (wrap_small 64 (size pre + 4)) by lia.
    rewrite store_zeros by (by rewrite size_app, size_le_bytes).
    destruct (decide (length (bytes a) ≤ n - 4)%nat) as [Ha|];
      [|by rewrite decide_False by lia].
    cbn [access mbind outcome_bind].
    assert (Hoff : u64 (size pre + u64 (4 + size (bytes a)))
                   = size ((pre ++ le_bytes 4 (size (bytes a))) ++ bytes a)).
    { rewrite !size_app, size_le_bytes. unfold size in *.
      rewrite (wrap_small 64 (4 + _)) by lia. rewrite wrap_small by lia. lia. }
    rewrite Hoff, IH.
    2: { rewrite !size_app, size_le_bytes. unfold size in *. lia. }
    destruct (decide _); [|by rewrite decide_False by lia].
    rewrite decide_True by lia. unfold encode_arg. rewrite <-!(assoc_L (++)).
    do 6 f_equal. lia.
Qed.

(** The number of bytes a request needs. *)
Definition request_size (args : list string) : Z := 8 + size (encode_args args).

Lemma size_encode_request args : size (encode_request args) = request_size args.
Proof. unfold encode_request, request_size. rewrite !size_app, !size_le_bytes. lia. Qed.

Lemma build_message_eq args :
  build_message args =
    if request_size args <? 2 ^ 32 then Ret (encode_request args) else Undefined.
Proof.
  unfold build_message, request_size. rewrite payload_size_spec.
  set (e := size (encode_args args)). pose proof (size_nonneg (encode_args args)).
  assert (HB : u32 (4 + u32 (4 + e)) = u32 (8 + e)).
  { unfold wrap. rewrite Zplus_mod_idemp_r. f_equal. lia. }
  rewrite HB, le_bytes_u32.
  pose proof (wrap_range 32 (8 + e) ltac:(lia)) as HB'.
  set (n := Z.to_nat (u32 (8 + e))).
  rewrite <-(app_nil_l (replicate n x00)), store_zeros by done.
  rewrite length_le_bytes, app_nil_l.
  assert (Hsmall : 2 ^ 32 <= 8 + e → (n < 8 + length (encode_args args))%nat).
  { unfold n, e, size in *. lia. }
  destruct (decide (4 ≤ n)%nat).
  2: { case_Z; [|done]. unfold n in *. rewrite wrap_small in * by (unfold e; lia). unfold e in *. lia. }
  cbn [access mbind outcome_bind]. rewrite le_bytes_u32.
  rewrite store_zeros by (by rewrite size_le_bytes). rewrite length_le_bytes.
  destruct (decide (4 ≤ n - 4)%nat).
  2: { case_Z; [|done]. unfold n in *. rewrite wrap_small in * by (unfold e; lia). unfold e in *. lia. }
  cbn [access mbind outcome_bind].
  pose proof (fill_args_spec (le_bytes 4 (4 + e) ++ le_bytes 4 (size args)) (n - 4 - 4) args) as Hf.
  rewrite size_app, !size_le_bytes in Hf. change (Z.of_nat 4 + Z.of_nat 4) with 8 in Hf.
  rewrite Hf by (unfold n; lia). case_Z.
  - unfold n in *. rewrite wrap_small in * by (unfold e; lia).
    assert (Z.to_nat (8 + e) - 4 - 4 = length (encode_args args))%nat as ->
      by (unfold e, size; lia).
    rewrite decide_True, Nat.sub_diag, app_nil_r by lia.
    unfold encode_request. by rewrite <-(assoc_L (++)).
  - rewrite decide_False by lia. done.
Qed.

(** C29: [send] builds exactly the frame the protocol prescribes when the frame
    fits 32 bits; otherwise the lengths added at [uint32_t] have wrapped, the
    buffer is too small, and the copies run past its end. *)
Theorem build_message_spec args :
  build_message args =
    if request_size args <? 2 ^ 32 then Ret (encode_request args) else Undefined.
Proof. apply build_message_eq. Qed.

(** * Writing everything *)
Section io.
Context (strerror : Z → string).

(** What any run of the write loop does: the peer has been given a prefix of the
    data, all of it exactly when the loop reports success. *)
Definition wrote (data : list byte) (w : net) (m : outcome (Result unit * net)) : Prop :=
  match m with
  | Ret (r, w') =>
      ∃ p q, data = p ++ q ∧ sent w' = sent w ++ p ∧ rx_script w' = rx_script w
        ∧ match r with Ok _ => q = [] | Err e => code e = Esystem end
  | Blocked => True
  | _ => False
  end.

Lemma write_loop_wrote fuel (pre data : list byte) w w0 :
  size (pre ++ data) < 2 ^ 64 → (length data < fuel)%nat →
  sent w = sent w0 ++ pre → rx_script w = rx_script w0 →
  wrote (pre ++ data) w0 (write_loop strerror fuel (pre ++ data) (size pre) w).
Proof.
  revert pre data w. induction fuel as [|fuel IH]; intros pre data w Hsz Hf Hs Hr; [lia|].
  cbn [write_loop]. rewrite size_app. pose proof (size_nonneg pre). case_Z.
  2: { destruct data; [|rewrite size_cons in *; pose proof (size_nonneg data); lia].
       rewrite app_nil_r. exists pre, []. by rewrite app_nil_r. }
  rewrite size_app in Hsz.
  replace (size pre + size data - size pre) with (size data) by lia.
  rewrite (wrap_small 64 (size data)) by (pose proof (size_nonneg data); lia).
  pose proof (slice_app pre data []) as Hsl. rewrite app_nil_r in Hsl. rewrite Hsl.
  cbn [access mbind outcome_bind]. unfold sys_send.
  destruct (tx_script w) as [|[n|e] s]; [done|..]; cbn [mbind outcome_bind].
  2: { exists pre, data. auto. }
  set (k := Z.max 0 (Z.min n (size data))).
  assert (Hk : 0 <= k <= size data) by (unfold k; lia).
  destruct (split_size data k Hk) as (c & rest & -> & Hc).
  assert (Z.to_nat k = length c) as -> by (unfold size in Hc; lia).
  rewrite take_app_length. case_Z.
  { exists pre, (c ++ rest). assert (c = []) as -> by (destruct c; [done|unfold size in *; simpl in *; lia]).
    simpl. rewrite app_nil_r. auto. }
  rewrite wrap_small by (rewrite size_app in *; lia).
  rewrite <-Hc, <-size_app, (assoc_L (++)). apply IH.
  - rewrite <-(assoc_L (++)), size_app. done.
  - rewrite length_app in Hf. unfold size in *. lia.
  - simpl. by rewrite Hs, (assoc_L (++)).
  - done.
Qed.

Lemma write_all_wrote data w :
  size data < 2 ^ 64 → wrote data w (write_all strerror data w).
Proof.
  intros. unfold write_all.
  apply (write_loop_wrote _ [] data w w); [done|lia| |done]. by rewrite app_nil_r.
Qed.

Lemma write_loop_accepting fuel (pre data : list byte) w s' :
  size (pre ++ data) < 2 ^ 64 → (length data < fuel)%nat →
  accepting (tx_script w) (size data) s' →
  write_loop strerror fuel (pre ++ data) (size pre) w
    = Ret (Ok tt, mkNet (sent w ++ data) s' (rx_script w) (errno w)).
Proof.
  revert pre data w. induction fuel as [|fuel IH]; intros pre data w Hsz Hf Hacc; [lia|].
  cbn [write_loop]. rewrite size_app. pose proof (size_nonneg pre).
  pose proof (size_nonneg data). inversion Hacc as [s Hs Hz|k s n s'' Hk Hn Hacc' Hs]; subst.
  { assert (data = []) as -> by (destruct data; [done|unfold size in *; simpl in *; lia]).
    change (size []) with 0. rewrite Z.add_0_r, Z.ltb_irrefl, app_nil_r. by destruct w. }
  case_Z; [|lia]. rewrite size_app in Hsz.
  replace (size pre + size data - size pre) with (size data) by lia.
  rewrite (wrap_small 64 (size data)) by lia.
  pose proof (slice_app pre data []) as Hsl. rewrite app_nil_r in Hsl. rewrite Hsl.
  cbn [access mbind outcome_bind]. unfold sys_send. rewrite <-Hs. cbn [mbind outcome_bind].
  set (m := Z.max 0 (Z.min k (size data))).
  assert (Hm : Z.min k (size data) = m) by lia. rewrite Hm in Hacc'.
  destruct (split_size data m) as (c & rest & -> & Hc); [lia|].
  assert (Z.to_nat m = length c) as -> by (unfold size in Hc; lia).
  rewrite take_app_length. case_Z; [lia|]. rewrite size_app in *.
  rewrite wrap_small by lia. rewrite <-Hc, <-size_app, (assoc_L (++)), IH; simpl.
  - by rewrite (assoc_L (++)).
  - rewrite !size_app. lia.
  - rewrite length_app in Hf. unfold size in *. lia.
  - by replace (size rest) with (size c + size rest - m) by lia.
Qed.

(** * Reading exactly *)
Definition read_ok (len : Z) (m : outcome (Result (list byte) * net)) : Prop :=
  match m with
  | Ret (Ok bs, _) => size bs = len
  | Ret (Err e, _) => code e = Esystem
  | Blocked => True
  | _ => False
  end.

Lemma sys_recv_chunk len w n chunk w' :
  0 <= len → sys_recv len w = Ret (n, chunk, w') → 0 < n →
  size chunk = n ∧ n <= len.
Proof.
  intros Hlen. unfold sys_recv. destruct (rx_script w) as [|[bs|e] s]; [done|..].
  - case_Z; intros [= <- <- <-]; [auto|]. intros Hn. split; [|lia].
    unfold size in *. rewrite length_take. idtac. lia.
  - intros [= <- <- <-]. lia.
Qed.

Lemma read_loop_safe fuel buf (got len : Z) w :
  0 <= got <= len → len < 2 ^ 64 → size buf = len →
  len - got < Z.of_nat fuel → read_ok len (read_loop strerror fuel buf got len w).
Proof.
  revert buf got w. induction fuel as [|fuel IH]; intros buf got w Hg Hlen Hb Hf; [lia|].
  cbn [read_loop]. case_Z; [|done]. rewrite (wrap_small 64) by lia.
  destruct (sys_recv (len - got) w) as [[[n chunk] w']|e| | | |] eqn:E; simpl;
    try (by unfold sys_recv in E; repeat case_match; simplify_eq).
  case_Z; [done|].
  destruct (sys_recv_chunk (len - got) w n chunk w' ltac:(lia) E ltac:(lia)) as [Hc Hn].
  destruct (store buf got chunk) as [buf'|] eqn:Est.
  2: { apply store_None in Est; lia. }
  cbn [access mbind outcome_bind]. rewrite wrap_small by lia.
  apply IH; [lia|done| |lia]. by rewrite (size_store _ _ _ _ Est).
Qed.

Lemma read_loop_incoming fuel (pre bs zs : list byte) w more s' :
  size (pre ++ bs) < 2 ^ 64 → length zs = length bs → (length bs < fuel)%nat →
  incoming (rx_script w) (bs ++ more) s' →
  ∃ s, incoming s more s' ∧
    read_loop strerror fuel (pre ++ zs) (size pre) (size (pre ++ bs)) w
      = Ret (Ok (pre ++ bs), mkNet (sent w) (tx_script w) s (errno w)).
Proof.
  revert pre bs zs w. induction fuel as [|fuel IH]; intros pre bs zs w Hsz Hzs Hf Hin; [lia|].
  cbn [read_loop]. pose proof (size_nonneg pre). pose proof (size_nonneg bs).
  rewrite size_app in *. case_Z.
  2: { destruct bs; [|rewrite size_cons in *; pose proof (size_nonneg bs); lia].
       destruct zs; [|done]. exists (rx_script w). split; [done|]. by destruct w. }
  replace (size pre + size bs - size pre) with (size bs) by lia.
  rewrite (wrap_small 64 (size bs)) by lia.
  inversion Hin as [s Hs Hnil|c s cs s'' Hc Hin' Hs Heq]; subst.
  { destruct bs; [unfold size in *; simpl in *; lia|done]. }
  unfold sys_recv. rewrite <-Hs.
  assert (0 < size c) by (destruct c; [done|unfold size; simpl; lia]).
  destruct (Z.leb_spec (size c) (size bs)) as [Hle|Hgt]; cbn [mbind outcome_bind].
  - assert (∃ rest, bs = c ++ rest) as [rest ->].
    { exists (drop (length c) bs). apply (f_equal (take (length c))) in Heq.
      rewrite take_app_length, take_app_le in Heq by (unfold size in *; lia).
      rewrite Heq at 1. by rewrite take_drop. }
    rewrite <-(assoc_L (++)) in Heq. apply (inj (c ++.)) in Heq as ->.
    case_Z; [lia|]. rewrite length_app in Hzs, Hf. rewrite size_app in *.
    rewrite <-(take_drop (length c) zs), store_app
      by (done || (rewrite length_take; lia)).
    cbn [access mbind outcome_bind]. rewrite wrap_small by lia.
    destruct (IH (pre ++ c) rest (drop (length c) zs)
      (mkNet (sent w) (tx_script w) s (errno w))) as (s0 & Hs0 & HR).
    + rewrite !size_app. lia.
    + rewrite length_drop. lia.
    + unfold size in *. lia.
    + done.
    + exists s0. split; [done|].
      rewrite <-!(assoc_L (++)) in HR. rewrite !size_app in HR.
      cbn [sent tx_script rx_script errno] in HR. rewrite <-HR. f_equal; lia.
  - case_Z; [lia|].
    assert (∃ rest, c = bs ++ rest ∧ more = rest ++ cs) as (rest & -> & ->).
    { exists (drop (length bs) c). apply (f_equal (drop (length bs))) in Heq as Hd.
      apply (f_equal (take (length bs))) in Heq.
      rewrite take_app_length, take_app_le in Heq by (unfold size in *; lia).
      rewrite drop_app_length, drop_app_le in Hd by (unfold size in *; lia).
      split; [|done]. rewrite <-Heq at 1. by rewrite take_drop. }
    assert (Z.to_nat (size bs) = length bs) as -> by (unfold size; lia).
    rewrite take_app_length, drop_app_length.
    rewrite <-(app_nil_r zs), store_app by done.
    cbn [access mbind outcome_bind]. rewrite wrap_small by lia.
    destruct fuel as [|fuel]; [unfold size in *; lia|]. cbn [read_loop].
    case_Z; [lia|]. rewrite app_nil_r. exists (RData rest :: s).
    split; [|done]. constructor; [|done].
    rewrite size_app in Hgt. intros ->. rewrite size_nil in Hgt. lia.
Qed.
End io.

(** * One request and its response *)
Section exchange.
Context (strerror : Z → string) (reserve_ok : Z → bool).

Lemma read_exact_incoming (bs zs : list byte) w more s' len :
  size bs = len → len < 2 ^ 64 → length zs = length bs →
  incoming (rx_script w) (bs ++ more) s' →
  ∃ s, incoming s more s' ∧
    read_exact strerror zs len w
      = Ret (Ok bs, mkNet (sent w) (tx_script w) s (errno w)).
Proof.
  intros <- Hlen Hzs Hin. unfold read_exact.
  apply (read_loop_incoming strerror _ [] bs zs w more s' Hlen Hzs); [|done].
  unfold size. lia.
Qed.

Lemma load_header (h : list byte) : size h = 4 → load 4 h 0 = Some (le_value h).
Proof.
  intros Hh. pose proof (load_app 4 [] h []) as H. rewrite app_nil_l, app_nil_r in H.
  apply H. by apply size_length.
Qed.

Lemma read_frame_ok body v more w s' :
  size body <= MAX_FRAME → parse_body reserve_ok body = Ret v →
  incoming (rx_script w) (frame body ++ more) s' →
  ∃ s, incoming s more s' ∧
    read_frame strerror reserve_ok w
      = Ret (v, mkNet (sent w) (tx_script w) s (errno w)).
Proof.
  intros Hb Hp Hin. unfold read_frame, frame, MAX_FRAME in *.
  rewrite <-(assoc_L (++)) in Hin.
  destruct (read_exact_incoming (le_bytes 4 (size body)) (replicate 4 x00) w
    (body ++ more) s' 4) as (s1 & Hin1 & ->);
    [apply size_le_bytes|lia|by rewrite length_le_bytes|done|].
  cbn [mbind outcome_bind]. rewrite load_header by apply size_le_bytes.
  pose proof (size_nonneg body).
  rewrite le_value_le_bytes by lia. cbn [access mbind outcome_bind]. case_Z; [lia|].
  destruct (read_exact_incoming body (replicate (Z.to_nat (size body)) x00)
    (mkNet (sent w) (tx_script w) s1 (errno w)) more s' (size body))
    as (s2 & Hin2 & ->); [done|lia|rewrite length_replicate; unfold size; lia|done|].
  cbn [mbind outcome_bind]. rewrite Hp. exists s2. auto.
Qed.

Lemma send_writes fd args w s' :
  0 <= fd → request_size args < 2 ^ 32 →
  accepting (tx_script w) (request_size args) s' →
  send strerror reserve_ok fd args w
    = read_frame strerror reserve_ok
        (mkNet (sent w ++ encode_request args) s' (rx_script w) (errno w)).
Proof.
  intros Hfd Hsz Hacc. unfold send. case_Z; [lia|].
  rewrite build_message_eq. case_Z; [|lia]. cbn [mbind outcome_bind].
  unfold write_all. rewrite <-size_encode_request in *.
  pose proof (write_loop_accepting strerror (S (length (encode_request args))) []
    (encode_request args) w s') as Hl. rewrite app_nil_l in Hl.
  change (size []) with 0 in Hl. by rewrite Hl by (done || lia).
Qed.

(** Whatever the frame that answers holds, [send] returns what parsing it gives. *)
Lemma send_frame fd args body r more w tx' rx' :
  0 <= fd → request_size args < 2 ^ 32 → size body <= MAX_FRAME →
  accepting (tx_script w) (request_size args) tx' →
  parse_body reserve_ok body = Ret r →
  incoming (rx_script w) (frame body ++ more) rx' →
  ∃ s, incoming s more rx' ∧
    send strerror reserve_ok fd args w
      = Ret (r, mkNet (sent w ++ encode_request args) tx' s (errno w)).
Proof.
  intros Hfd Hargs Hm Htx Hp Hrx. rewrite (send_writes _ _ _ tx') by done.
  by apply (read_frame_ok body r more
    (mkNet (sent w ++ encode_request args) tx' (rx_script w) (errno w))).
Qed.

(** C3: a request and its response cross any well-behaved connection: however
    the kernel splits the two byte streams, [send] gives the peer exactly the
    request's frame, and returns the response whose frame arrives, leaving the
    bytes that follow unread.  Bytes after the response inside its frame are
    ignored. *)
Theorem send_roundtrip fd args v junk more w tx' rx' :
  0 <= fd → request_size args < 2 ^ 32 →
  wf_response v → size (encode_response v ++ junk) <= MAX_FRAME →
  (∀ n, 0 <= n <= size (encode_response v) → reserve_ok n = true) →
  accepting (tx_script w) (request_size args) tx' →
  incoming (rx_script w) (frame (encode_response v ++ junk) ++ more) rx' →
  ∃ s, incoming s more rx' ∧
    send strerror reserve_ok fd args w
      = Ret (Ok v, mkNet (sent w ++ encode_request args) tx' s (errno w)).
Proof.
  intros Hfd Hargs Hv Hm Hres Htx Hrx.
  eapply send_frame; [done..| |done].
  apply parse_body_complete; [unfold MAX_FRAME in Hm; lia|done..].
Qed.

(** An oversized frame is refused before its body is read, so that body is
    what the next response is read from: the stream is out of step. *)
Lemma send_oversized fd args len more w tx' rx' :
  0 <= fd → request_size args < 2 ^ 32 → MAX_FRAME < len < 2 ^ 32 →
  accepting (tx_script w) (request_size args) tx' →
  incoming (rx_script w) (le_bytes 4 len ++ more) rx' →
  ∃ s, incoming s more rx' ∧
    send strerror reserve_ok fd args w
      = Ret (Err (frame_too_big len),
             mkNet (sent w ++ encode_request args) tx' s (errno w)).
Proof.
  intros Hfd Hargs Hlen Htx Hrx.
  rewrite (send_writes _ _ _ tx') by done. unfold read_frame.
  destruct (read_exact_incoming (le_bytes 4 len) (replicate 4 x00)
    (mkNet (sent w ++ encode_request args) tx' (rx_script w) (errno w))
    more rx' 4) as (s1 & Hin1 & ->);
    [apply size_le_bytes|lia|by rewrite length_le_bytes|done|].
  cbn [mbind outcome_bind]. rewrite load_header by apply size_le_bytes.
  unfold MAX_FRAME in *. rewrite le_value_le_bytes by lia.
  cbn [access mbind outcome_bind]. case_Z; [|lia]. eauto.
Qed.

(** What [read_frame] can do on any connection. *)
Lemma read_frame_safe w :
  match read_frame strerror reserve_ok w with
  | Ret (Ok v, w') => wf_response v
  | Ret (Err e, w') => code e = Esystem ∨ code e = Eprotocol
  | Throw e => e = bad_alloc
  | Blocked => True
  | _ => False
  end.
Proof.
  unfold read_frame.
  pose proof (read_loop_safe strerror (S (Z.to_nat 4)) (replicate 4 x00) 0 4 w
    ltac:(lia) ltac:(lia) ltac:(done) ltac:(lia)) as H1.
  unfold read_exact.
  destruct (read_loop _ _ _ _ _ w) as [[[h|e] w1]|e| | | |]; simpl in H1; try done;
    [|simpl; by left].
  cbn [mbind outcome_bind]. rewrite load_header by done.
  cbn [access mbind outcome_bind]. pose proof (le_value_4 h H1) as Hl.
  set (len := le_value h) in *. destruct (Z.ltb_spec MAX_FRAME len); [simpl; by right|].
  unfold MAX_FRAME in *.
  pose proof (read_loop_safe strerror (S (Z.to_nat len)) (replicate (Z.to_nat len) x00)
    0 len w1 ltac:(lia) ltac:(lia) ltac:(rewrite size_replicate; lia) ltac:(lia)) as H2.
  destruct (read_loop _ _ _ _ _ w1) as [[[body|e] w2]|e| | | |]; simpl in H2; try done;
    [|simpl; by left].
  cbn [mbind outcome_bind].
  pose proof (parse_body_reads reserve_ok body ltac:(lia)) as H3.
  destruct (parse_body reserve_ok body) as [[v|e]|e| | | |]; simpl; try done; [|simpl; by right].
  naive_solver.
Qed.

(** Reading leaves the outgoing direction alone. *)
Definition outgoing (w : net) : list byte * list tx := (sent w, tx_script w).

Lemma read_frame_outgoing w r w' :
  read_frame strerror reserve_ok w = Ret (r, w') → outgoing w' = outgoing w.
Proof.
  assert (Hl : ∀ fuel buf got len w r w',
    read_loop strerror fuel buf got len w = Ret (r, w') → outgoing w' = outgoing w).
  { intros fuel. induction fuel as [|fuel IH]; intros buf got len w0 r0 w0'; [done|].
    cbn [read_loop]. case_Z; [|by intros; simplify_eq/=]. unfold sys_recv.
    destruct (rx_script w0) as [|[bs|e] s]; [done|..]; cbn [mbind outcome_bind];
      [|by (intros; simplify_eq/=)].
    destruct (size bs <=? _); cbn [mbind outcome_bind]; case_match;
      (by intros; simplify_eq/=) || (intros [buf' [_ H']]%bind_Ret; by apply IH in H'). }
  unfold read_frame, read_exact.
  intros [[[e|e] w1] [H1 H]]%bind_Ret; apply Hl in H1; [|by injection H as _ <-].
  apply bind_Ret in H as (len & _ & H). destruct (MAX_FRAME <? len); [by injection H as _ <-|].
  revert H.
  intros [[[b|b] w2] [H2 H]]%bind_Ret; apply Hl in H2.
  - apply bind_Ret in H as (v & _ & [= _ <-]). congruence.
  - injection H as _ <-. congruence.
Qed.

Lemma read_frame_sent w r w' :
  read_frame strerror reserve_ok w = Ret (r, w') → sent w' = sent w.
Proof. intros H. apply read_frame_outgoing in H. by injection H. Qed.

(** C4: on any connection whatever, a request that fits its frame is sent in
    order and without repetition: the peer has received a prefix of the frame,
    all of it when a response is returned; what [send] returns is a well-formed
    response or a system or protocol error, and no run of it is undefined or
    exceeds its loop bounds. *)
Theorem send_safe fd args w :
  0 <= fd → request_size args < 2 ^ 32 →
  match send strerror reserve_ok fd args w with
  | Ret (r, w') =>
      ∃ p q, encode_request args = p ++ q ∧ sent w' = sent w ++ p ∧
        match r with
        | Ok v => q = [] ∧ wf_response v
        | Err e => code e = Esystem ∨ code e = Eprotocol
        end
  | Throw e => e = bad_alloc
  | Blocked => True
  | Terminate | Undefined | OutOfFuel => False
  end.
Proof.
  intros Hfd Hargs. unfold send. case_Z; [lia|].
  rewrite build_message_eq. case_Z; [|lia]. cbn [mbind outcome_bind].
  pose proof (write_all_wrote strerror (encode_request args) w) as Hw.
  rewrite size_encode_request in Hw. specialize (Hw ltac:(lia)).
  destruct (write_all _ _ w) as [[[[]|e] w1]|e| | | |]; simpl in Hw; try done;
    cbn [mbind outcome_bind]; destruct Hw as (p & q & He & Hs & Hr & Hq).
  2: { exists p, q. auto. }
  pose proof (read_frame_safe w1) as Hsafe. pose proof (read_frame_sent w1) as Hsent.
  destruct (read_frame strerror reserve_ok w1) as [[r w2]|e| | | |]; try done.
  exists p, q. rewrite (Hsent _ _ eq_refl), Hs. destruct r; auto.
Qed.
End exchange.

(** * Requests are unambiguous *)
Lemma le_bytes_app_inj w z1 z2 (l1 l2 : list byte) :
  le_bytes w z1 ++ l1 = le_bytes w z2 ++ l2 →
  z1 mod 2 ^ (8 * Z.of_nat w) = z2 mod 2 ^ (8 * Z.of_nat w) ∧ l1 = l2.
Proof.
  intros [H1 ->]%app_inj_1; [|by rewrite !length_le_bytes].
  apply (f_equal le_value) in H1. by rewrite !le_value_bytes in H1.
Qed.

Lemma encode_args_inj args1 args2 (r1 r2 : list byte) :
  length args1 = length args2 →
  size (encode_args args1) < 2 ^ 32 → size (encode_args args2) < 2 ^ 32 →
  encode_args args1 ++ r1 = encode_args args2 ++ r2 → args1 = args2.
Proof.
  revert args2. induction args1 as [|a1 args1 IH]; intros [|a2 args2] Hl H1 H2; try done.
  rewrite !encode_args_cons in *. unfold encode_arg. rewrite <-!(assoc_L (++)).
  rewrite !size_app, !size_encode_arg in *.
  pose proof (size_nonneg (bytes a1)). pose proof (size_nonneg (bytes a2)).
  pose proof (size_nonneg (encode_args args1)). pose proof (size_nonneg (encode_args args2)).
  intros [Hz Happ]%le_bytes_app_inj. rewrite !Z.mod_small in Hz by lia.
  apply app_inj_1 in Happ as [Ha Happ]; [|unfold size in Hz; lia].
  f_equal; [by apply bytes_inj|]. apply IH in Happ; [done|simpl in Hl; lia|lia..].
Qed.

(** A request frame determines its arguments. *)
Lemma encode_request_inj args1 args2 r1 r2 :
  request_size args1 < 2 ^ 32 → request_size args2 < 2 ^ 32 →
  encode_request args1 ++ r1 = encode_request args2 ++ r2 → args1 = args2.
Proof.
  unfold request_size, encode_request. intros H1 H2. rewrite <-!(assoc_L (++)).
  assert (Hn : ∀ args, size args <= size (encode_args args)).
  { induction args as [|a args IH]; [done|].
    rewrite encode_args_cons, size_app, size_encode_arg, size_cons.
    pose proof (size_nonneg (bytes a)). lia. }
  pose proof (Hn args1). pose proof (Hn args2).
  pose proof (size_nonneg args1). pose proof (size_nonneg args2).
  intros [_ [Hc Happ]%le_bytes_app_inj]%le_bytes_app_inj.
  rewrite !Z.mod_small in Hc by lia.
  eapply encode_args_inj; [unfold size in Hc; lia| | |exact Happ]; lia.
Qed.

(** C30: the server can tell requests apart: the messages [build_message] makes of
    two lists of arguments are distinct, and neither begins the other.  If the stream
    that starts with the message of one is a stream that starts with the message of
    the other, the arguments are the same and so is what follows. *)
Theorem build_message_inj args1 args2 m1 m2 r1 r2 :
  build_message args1 = Ret m1 → build_message args2 = Ret m2 →
  m1 ++ r1 = m2 ++ r2 → args1 = args2 ∧ m1 = m2 ∧ r1 = r2.
Proof.
  rewrite !build_message_eq.
  destruct (Z.ltb_spec (request_size args1) (2 ^ 32)); [|done].
  destruct (Z.ltb_spec (request_size args2) (2 ^ 32)); [|done].
  intros [= <-] [= <-] He.
  assert (args1 = args2) as -> by (by eapply encode_request_inj).
  apply app_inv_head in He. done.
Qed.

(** * Descriptors *)

(** The descriptor a client owns. *)
Definition owned (c : RedisClient) : gset Z := if 0 <=? fd_ c then {[fd_ c]} else ∅.

(** What the process has besides the descriptor of [c]. *)
Definition without (c : RedisClient) (fds : fd_table) : fd_table :=
  mkFds (fds_open fds ∖ owned c) (stray fds).

Lemma close_spec c fds :
  owned c ⊆ fds_open fds →
  close c fds = (mkClient (if 0 <=? fd_ c then -1 else fd_ c), without c fds).
Proof.
  unfold close, without, owned. destruct c as [fd]. simpl. case_Z.
  - intros. by rewrite fd_close_open by set_solver.
  - intros _. rewrite difference_empty_L. by destruct fds.
Qed.

Lemma owned_open fd : 0 <= fd → owned (mkClient fd) = {[fd]}.
Proof. intros. unfold owned. simpl. by case_Z; try lia. Qed.

Lemma owned_closed fd : fd < 0 → owned (mkClient fd) = ∅.
Proof. intros. unfold owned. simpl. by case_Z; try lia. Qed.

(** [connect] neither leaks nor steals a descriptor: the one the client held
    is closed, and afterwards the client holds the new one if any; it succeeds
    only connected. *)
Lemma connect_fds strerror e host port c fds :
  owned c ⊆ fds_open fds → socket_ret e ∉ fds_open fds →
  let '(r, c', fds') := connect strerror e host port c fds in
  fds' = mkFds ((fds_open fds ∖ owned c) ∪ owned c') (stray fds) ∧
  (is_err r = false → is_connected c' = true).
Proof.
  intros Hown Hfresh. unfold connect. rewrite close_spec by done.
  destruct (Z.ltb_spec (socket_ret e) 0) as [Hneg|Hpos].
  { rewrite owned_closed by done. split; [|done]. apply fd_table_eq; simpl; [set_solver|done]. }
  destruct (negb _).
  - rewrite close_spec by (rewrite owned_open by done; simpl; set_solver). simpl.
    rewrite (proj2 (Z.leb_le _ _)) by done. unfold without.
    rewrite owned_open, owned_closed by done. split; [|done].
    apply fd_table_eq; simpl; [set_solver|done].
  - destruct (connect_ret e <? 0); rewrite owned_open by done;
      (split; [apply fd_table_eq; simpl; [set_solver|done]|]); intros _; by apply Z.leb_le.
Qed.

(** The only descriptor it takes is the socket. *)
Lemma connect_owned strerror e host port c fds :
  let '(_, c', _) := connect strerror e host port c fds in owned c' ⊆ {[socket_ret e]}.
Proof.
  unfold connect. destruct (close c fds) as [c1 fds1].
  destruct (Z.ltb_spec (socket_ret e) 0).
  { rewrite owned_closed by done. set_solver. }
  destruct (negb _).
  - unfold close. cbn [fd_]. rewrite (proj2 (Z.leb_le _ _)) by done.
    rewrite owned_closed by done. set_solver.
  - destruct (connect_ret e <? 0); by rewrite owned_open by done.
Qed.

(** When the peer refuses the connection, [connect] reports the error but
    keeps the descriptor: the client still claims to be connected. *)
Lemma connect_refused_stays_connected strerror e host port c fds :
  0 <= socket_ret e → inet_pton_ret e = 1 → connect_ret e < 0 →
  let '(r, c', fds') := connect strerror e host port c fds in
  is_err r = true ∧ is_connected c' = true ∧ socket_ret e ∈ fds_open fds'.
Proof.
  intros Hs Hi Hc. unfold connect. destruct (close c fds) as [c1 fds1]. rewrite Hi. simpl.
  case_Z; try lia. unfold is_connected. simpl.
  split; [done|]. split; [by apply Z.leb_le|set_solver].
Qed.

(** Moving a client transfers its descriptor and closes the target's old
    one; no descriptor is owned twice and none is lost. *)
Lemma move_assign_fds this other fds :
  owned this ∪ owned other ⊆ fds_open fds → owned this ## owned other →
  let '(this', other', fds') := move_assign this other fds in
  owned this' = owned other ∧ owned other' = ∅ ∧
  fds' = without this fds ∧ owned this' ⊆ fds_open fds'.
Proof.
  intros Ho Hd. unfold move_assign. rewrite close_spec by set_solver.
  assert (Hown : owned (mkClient (fd_ other)) = owned other) by done.
  rewrite Hown. unfold without. simpl. repeat split; set_solver.
Qed.

(** * Witnesses *)
Definition sample_frame : list byte := frame (encode_response sample_job ++ [x00]).

(** A kernel that splits both streams. *)
Definition sample_net : net :=
  mkNet [] [TAccept 3; TAccept 1000]
    [RData (take 2 sample_frame); RData (drop 2 sample_frame ++ [x07; x08])] 0.

Lemma sample_net_accepting : accepting (tx_script sample_net) (request_size ["job next"]) [].
Proof.
  apply accepting_more; [lia|by vm_compute|].
  apply accepting_more; [lia|by vm_compute|].
  apply accepting_done.
Defined.

Lemma sample_net_incoming :
  incoming (rx_script sample_net) (sample_frame ++ [x07; x08]) [].
Proof.
  apply (incoming_chunk (take 2 sample_frame) _ (drop 2 sample_frame ++ [x07; x08]));
    [done|].
  apply (incoming_chunk (drop 2 sample_frame ++ [x07; x08]) [] []); [done|].
  apply incoming_done.
Defined.

Lemma send_roundtrip_witness :
  ∃ s, incoming s [x07; x08] [] ∧
    send (λ _, "") (λ n, n <? 100) 3 ["job next"] sample_net
      = Ret (Ok sample_job, mkNet (encode_request ["job next"]) [] s 0).
Proof.
  apply (send_roundtrip (λ _, "") (λ n, n <? 100) 3 ["job next"] sample_job [x00]
    [x07; x08] sample_net [] []).
  - lia.
  - by vm_compute.
  - exact sample_job_wf.
  - by vm_compute.
  - intros n [_ Hn]. apply Z.ltb_lt. eapply Z.le_lt_trans; [exact Hn|by vm_compute].
  - exact sample_net_accepting.
  - exact sample_net_incoming.
Defined.

Lemma send_oversized_witness :
  ∃ s, incoming s [x01; x02] [] ∧
    send (λ _, "") (λ _, true) 3 ["job next"]
      (mkNet [] [TAccept 1000] [RData (le_bytes 4 (2 ^ 27) ++ [x01; x02])] 0)
      = Ret (Err (frame_too_big (2 ^ 27)), mkNet (encode_request ["job next"]) [] s 0).
Proof.
  apply (send_oversized (λ _, "") (λ _, true) 3 ["job next"] (2 ^ 27) [x01; x02]
    (mkNet [] [TAccept 1000] [RData (le_bytes 4 (2 ^ 27) ++ [x01; x02])] 0) [] []).
  - lia.
  - by vm_compute.
  - unfold MAX_FRAME. lia.
  - apply accepting_more; [lia|by vm_compute|apply accepting_done].
  - apply (incoming_chunk (le_bytes 4 (2 ^ 27) ++ [x01; x02]) [] [] []);
      [done|apply incoming_done].
Defined.

(** The peer hangs up after the request. *)
Lemma send_safe_witness :
  ∃ p q, encode_request ["job next"] = p ++ q ∧ p = [] ++ p ∧
    (code (Error_system (λ _, "Success") 0 "recv") = Esystem
     ∨ code (Error_system (λ _, "Success") 0 "recv") = Eprotocol).
Proof.
  pose proof (send_safe (λ _, "Success") (λ _, true) 3 ["job next"]
    (mkNet [] [TAccept 1000] [RData []] 0) ltac:(lia) ltac:(by vm_compute)) as H.
  vm_compute in H. destruct H as (p & q & H1 & H2 & H3).
  exists p, q. split; [exact H1|]. split; [done|by left].
Defined.

Lemma build_message_inj_witness :
  ["get"; "k"] = "get" :: ["k"] ∧
  encode_request ["get"; "k"] = encode_request ["get"; "k"] ∧ [x00] = [x00].
Proof.
  apply (build_message_inj ["get"; "k"] ("get" :: ["k"]) _ _ [x00] [x00]);
    vm_compute; reflexivity.
Defined.

Lemma connect_fds_witness :
  let e := mkConnectEnv 5 0 1 0 0 in
  let fds := mkFds {[3; 4]} [] in
  let '(r, c', fds') := connect (λ _, "") e "127.0.0.1" 1234 (mkClient 4) fds in
  fds' = mkFds ((fds_open fds ∖ owned (mkClient 4)) ∪ owned c') (stray fds)
  ∧ (is_err r = false → is_connected c' = true).
Proof.
  intros e fds. apply (connect_fds (λ _, "") e "127.0.0.1" 1234 (mkClient 4) fds).
  - rewrite owned_open by lia. simpl. set_solver.
  - simpl. set_solver.
Defined.

Lemma connect_refused_stays_connected_witness :
  let e := mkConnectEnv 5 0 1 (-1) 111 in
  let '(r, c', fds') := connect (λ _, "") e "127.0.0.1" 1234 RedisClient_new (mkFds ∅ []) in
  is_err r = true ∧ is_connected c' = true ∧ 5 ∈ fds_open fds'.
Proof. apply connect_refused_stays_connected; simpl; lia. Defined.

Lemma move_assign_fds_witness :
  let '(this', other', fds') := move_assign (mkClient 4) (mkClient 5) (mkFds {[4; 5]} []) in
  owned this' = owned (mkClient 5) ∧ owned other' = ∅ ∧
  fds' = without (mkClient 4) (mkFds {[4; 5]} []) ∧ owned this' ⊆ fds_open fds'.
Proof.
  apply move_assign_fds; rewrite ?owned_open by lia; simpl; set_solver.
Defined.
