(* ===== verification/LogAggregator.v ===== *)
(** [LogAggregator] (log_aggregator.hpp, log_aggregator.cpp): the bounded log,
    its level detection and its queries.  Every operation runs under the
    object's mutex, so each is one atomic step on the state. *)
From Stdlib Require Import Ascii.
From S2P Require Import Prelude CppString.

(** * State *)
Record LogEntry : Type := mkEntry {
  timestamp_ms : Z;
  source : string;
  level : string;
  message : string;
}.

(** The deque, oldest first, and the bound. *)
Record LogAggregator : Type := mkLog {
  entries_ : list LogEntry;
  max_entries_ : nat;
}.

Definition LogAggregator_new : LogAggregator := mkLog [] (N.to_nat 10000).

(** * Operations *)

(** [while (entries_.size() > max_entries_) entries_.pop_front();] *)
Fixpoint evict (max : nat) (es : list LogEntry) : list LogEntry :=
  match es with
  | [] => []
  | e :: es' => if decide (max < length es) then evict max es' else es
  end.

(** [now] is the reading of the steady clock. *)
Definition push (now : Z) (src lvl msg : string) (s : LogAggregator) : LogAggregator :=
  mkLog (evict (max_entries_ s) (entries_ s ++ [mkEntry now src lvl msg])) (max_entries_ s).

(** [raw_line.substr(raw_line.find(' ') + 1)]: [npos + 1] wraps to 0. *)
Definition after_space (raw_line : string) : outcome string :=
  substr_from raw_line (u64 (find raw_line " " + 1)).

Definition detect_level (raw_line : string) : outcome (string * string) :=
  if starts_with raw_line "[ERROR]" || starts_with raw_line "ERROR:" then
    msg ← after_space raw_line; Ret ("error", msg)
  else if starts_with raw_line "[WARN]" || starts_with raw_line "WARN:" then
    msg ← after_space raw_line; Ret ("warn", msg)
  else if starts_with raw_line "[DEBUG]" || starts_with raw_line "DEBUG:" then
    msg ← after_space raw_line; Ret ("debug", msg)
  else Ret ("info", raw_line).

Definition push_raw (now : Z) (src raw_line : string) (s : LogAggregator)
    : outcome LogAggregator :=
  '(lvl, msg) ← detect_level raw_line;
  Ret (push now src lvl msg s).

(** [for (it = rbegin(); it != rend() && results.size() < limit; ++it) if (p) ...]
    over the reversed deque. *)
Fixpoint search_loop (p : LogEntry → bool) (limit : nat) (rit results : list LogEntry)
    : list LogEntry :=
  match rit with
  | [] => results
  | e :: rit =>
      if decide (length results < limit) then
        search_loop p limit rit (if p e then results ++ [e] else results)
      else results
  end.

Definition search (query : string) (limit : nat) (s : LogAggregator) : list LogEntry :=
  reverse (search_loop (λ e, contains (message e) query) limit (reverse (entries_ s)) []).

Definition get_by_source (src : string) (limit : nat) (s : LogAggregator) : list LogEntry :=
  reverse (search_loop (λ e, bool_decide (source e = src)) limit (reverse (entries_ s)) []).

(** The same loop around [std::regex_search], which may throw ([None]): the
    handler keeps the results collected so far. *)
Fixpoint regex_loop (p : LogEntry → option bool) (limit : nat) (rit results : list LogEntry)
    : list LogEntry :=
  match rit with
  | [] => results
  | e :: rit =>
      if decide (length results < limit) then
        match p e with
        | None => results
        | Some b => regex_loop p limit rit (if b then results ++ [e] else results)
        end
      else results
  end.

Section regex.
(** The regular-expression engine: compiling may fail, and so may a search. *)
Context (regex : Type) (regex_compile : string → option regex)
  (regex_search : string → regex → option bool).

Definition search_regex (pattern : string) (limit : nat) (s : LogAggregator)
    : list LogEntry :=
  reverse
    (match regex_compile pattern with
     | None => []
     | Some re => regex_loop (λ e, regex_search (message e) re) limit (reverse (entries_ s)) []
     end).
End regex.

(** [for (i = start; i < size; i++) results.push_back(entries_[i])] *)
Definition get_recent (count : nat) (s : LogAggregator) : list LogEntry :=
  let n := length (entries_ s) in
  let start := if decide (count < n) then n - count else 0 in
  omap (λ i, entries_ s !! i) (seq start (n - start)).

Definition set_max_entries (max : nat) (s : LogAggregator) : LogAggregator :=
  mkLog (entries_ s) max.
Definition count (s : LogAggregator) : nat := length (entries_ s).
Definition clear (s : LogAggregator) : LogAggregator := mkLog [] (max_entries_ s).

(** * Abstract specification

    The log promised to a client: every entry ever pushed since the last
    [clear], of which the newest [max] are visible.  [l_bound] is the least
    bound a push has run under: entries evicted then do not come back. *)
Inductive op : Type :=
  | OPush (now : Z) (src lvl msg : string)
  | OSetMax (max : nat)
  | OClear.

Definition step (o : op) (s : LogAggregator) : LogAggregator :=
  match o with
  | OPush now src lvl msg => push now src lvl msg s
  | OSetMax max => set_max_entries max s
  | OClear => clear s
  end.

Definition run (ops : list op) (s : LogAggregator) : LogAggregator :=
  fold_left (λ s o, step o s) ops s.

Record spec_log : Type := mkSpec {
  history : list LogEntry;
  visible : nat;            (** how many of them are still kept *)
  bound : nat;
}.

Definition spec_step (o : op) (a : spec_log) : spec_log :=
  match o with
  | OPush now src lvl msg =>
      mkSpec (history a ++ [mkEntry now src lvl msg])
        (Nat.min (S (visible a)) (bound a)) (bound a)
  | OSetMax max => mkSpec (history a) (visible a) max
  | OClear => mkSpec [] 0 (bound a)
  end.

Definition spec_run (ops : list op) (a : spec_log) : spec_log :=
  fold_left (λ a o, spec_step o a) ops a.

(** The concrete log holds exactly the visible entries. *)
Definition refines (s : LogAggregator) (a : spec_log) : Prop :=
  entries_ s = last_n (visible a) (history a) ∧ max_entries_ s = bound a
  ∧ visible a ≤ length (history a).

(** * Lemmas *)
Lemma evict_last_n max es : evict max es = last_n max es.
Proof.
  induction es as [|e es IH]; [done|]. cbn [evict]. unfold last_n.
  case_decide; cbn [length] in *.
  - rewrite IH. unfold last_n. by replace (S (length es) - max) with (S (length es - max)) by lia.
  - by replace (S (length es) - max) with 0 by lia.
Qed.

Lemma search_loop_spec p limit rit results :
  length results ≤ limit →
  search_loop p limit rit results
    = results ++ take (limit - length results) (List.filter p rit).
Proof.
  revert results. induction rit as [|e rit IH]; intros results Hl; cbn [search_loop].
  - simpl. by rewrite take_nil, app_nil_r.
  - case_decide as Hd.
    + cbn [List.filter]. destruct (p e).
      * rewrite IH by (rewrite length_app; simpl; lia).
        rewrite length_app, <-(assoc_L (++)). simpl.
        replace (limit - length results) with (S (limit - (length results + 1))) by lia.
        done.
      * by apply IH.
    + replace (limit - length results) with 0 by lia. by rewrite app_nil_r.
Qed.

Lemma filter_reverse (p : LogEntry → bool) l :
  List.filter p (reverse l) = reverse (List.filter p l).
Proof.
  induction l as [|x l IH]; [done|].
  rewrite reverse_cons, List.filter_app, IH. cbn [List.filter].
  destruct (p x); [by rewrite reverse_cons|by rewrite app_nil_r].
Qed.

(** The reversed loop returns the newest matches in chronological order. *)
Lemma search_loop_newest p limit es :
  reverse (search_loop p limit (reverse es) []) = last_n limit (List.filter p es).
Proof.
  rewrite search_loop_spec by (simpl; lia). simpl.
  by rewrite Nat.sub_0_r, filter_reverse, reverse_take_reverse.
Qed.

Lemma regex_loop_total p limit rit results :
  regex_loop (λ e, Some (p e)) limit rit results = search_loop p limit rit results.
Proof.
  revert results. induction rit as [|e rit IH]; intros results; simpl; [done|].
  case_decide; [|done]. by destruct (p e).
Qed.

Lemma find_space_npos s : find_opt s " " = None ∨
  ∃ n, find_opt s " " = Some n ∧ (n < String.length s).
Proof.
  destruct (find_opt s " ") as [n|] eqn:E; [right|by left].
  apply find_opt_Some in E as (l & r & -> & <-). exists (String.length l).
  split; [done|]. rewrite !length_string_app. simpl. lia.
Qed.

(** Whatever follows the first space, or the whole line when there is none. *)
Definition text_after_space (s : string) : string :=
  match find_opt s " " with Some n => string_drop (S n) s | None => s end.

Lemma after_space_spec s :
  (Z.of_nat (String.length s) < 2 ^ 64 - 1)%Z → after_space s = Ret (text_after_space s).
Proof.
  intros Hl. unfold after_space, find, text_after_space, substr_from, npos.
  destruct (find_space_npos s) as [->|(n & -> & Hn)].
  - change (u64 (2 ^ 64 - 1 + 1)) with 0%Z. destruct (Z.ltb_spec (Z.of_nat (String.length s)) 0); [lia|].
    by destruct s.
  - rewrite wrap_small by lia. destruct (Z.ltb_spec (Z.of_nat (String.length s)) (Z.of_nat n + 1)); [lia|].
    by replace (Z.to_nat (Z.of_nat n + 1)) with (S n) by lia.
Qed.

Lemma last_n_snoc {A} n (l : list A) x : last_n n l ++ [x] = last_n (S n) (l ++ [x]).
Proof.
  unfold last_n. rewrite length_app. simpl.
  replace (length l + 1 - S n) with (length l - n) by lia.
  by rewrite drop_app_le by lia.
Qed.

Lemma last_n_last_n {A} n m (l : list A) : last_n n (last_n m l) = last_n (Nat.min m n) l.
Proof.
  unfold last_n. rewrite drop_drop, length_drop. f_equal. lia.
Qed.

Lemma step_refines o s a : refines s a → refines (step o s) (spec_step o a).
Proof.
  intros (He & Hm & Hv). destruct o as [now src lvl msg|max|]; unfold refines;
    cbn [step spec_step push entries_ max_entries_ history visible bound].
  - rewrite Hm, He, evict_last_n, last_n_snoc, last_n_last_n, length_app.
    split; [done|]. split; [done|]. cbn [length]. lia.
  - auto.
  - auto.
Qed.

(** * Properties *)

(** C13: the log refines its specification: after any sequence of pushes, bound
    changes and clears, it holds the newest entries of everything pushed since
    the last clear, in order, as many as the bounds allowed. *)
Theorem run_refines ops :
  refines (run ops LogAggregator_new) (spec_run ops (mkSpec [] 0 (N.to_nat 10000))).
Proof.
  assert (H : ∀ s a, refines s a → refines (run ops s) (spec_run ops a)).
  { unfold run, spec_run. induction ops as [|o ops IH]; intros s a Hr; simpl; [done|].
    apply IH. by apply step_refines. }
  apply H. by repeat split.
Qed.

(** A push never leaves the log over its bound, and the entry pushed is the
    newest whenever the bound allows one entry; lowering the bound alone evicts
    nothing until that push. *)
Lemma push_bounded now src lvl msg max s :
  let s' := push now src lvl msg (set_max_entries max s) in
  count s' = Nat.min (S (count s)) max ∧
  (max ≠ 0 → last (entries_ s') = Some (mkEntry now src lvl msg)) ∧
  entries_ (set_max_entries max s) = entries_ s.
Proof.
  cbv zeta. unfold count. cbn [entries_ push set_max_entries max_entries_].
  rewrite evict_last_n. split; [|split; [|done]].
  - rewrite length_last_n, length_app. cbn [length]. lia.
  - intros Hmax. destruct max as [|max]; [done|].
    by rewrite <-last_n_snoc, last_snoc.
Qed.

(** C39: the queries are what their names say: each returns the newest matching
    entries, at most [limit] of them, in chronological order. *)
Theorem queries_newest query src limit s :
  search query limit s
    = last_n limit (List.filter (λ e, contains (message e) query) (entries_ s)) ∧
  get_by_source src limit s
    = last_n limit (List.filter (λ e, bool_decide (source e = src)) (entries_ s)) ∧
  get_recent limit s = last_n limit (entries_ s).
Proof.
  unfold search, get_by_source. rewrite !search_loop_newest.
  split; [done|]. split; [done|]. unfold get_recent, last_n. case_decide.
  - apply omap_lookup_seq. lia.
  - rewrite omap_lookup_seq by lia.
    by replace (length (entries_ s) - limit) with 0 by lia.
Qed.

Lemma regex_loop_throws p limit newer e older results :
  length results + length newer < limit →
  Forall (λ x, is_Some (p x)) newer → p e = None →
  regex_loop p limit (newer ++ e :: older) results
    = results ++ List.filter (λ x, bool_decide (p x = Some true)) newer.
Proof.
  intros Hl Hn He. revert results Hl. induction Hn as [|x newer [b Hb] _ IH]; intros results Hl.
  - cbn [regex_loop app List.filter]. simpl in Hl. rewrite decide_True by lia.
    by rewrite He, app_nil_r.
  - cbn [regex_loop app List.filter]. simpl in Hl. rewrite decide_True by lia.
    rewrite Hb. destruct b.
    + rewrite IH by (rewrite length_app; simpl; lia). rewrite bool_decide_true by done.
      by rewrite <-(assoc_L (++)).
    + rewrite IH by lia. by rewrite bool_decide_false by done.
Qed.

(** An invalid pattern gives no entry; a pattern that always matches or
    fails gives the newest matches; when the engine gives up on an entry, the
    newer matches found before it are returned, not the empty list. *)
Lemma search_regex_spec regex compile rsearch pattern limit s :
  (compile pattern = None → search_regex regex compile rsearch pattern limit s = []) ∧
  (∀ re p, compile pattern = Some re →
     (∀ e, rsearch (message e) re = Some (p e)) →
     search_regex regex compile rsearch pattern limit s
       = last_n limit (List.filter p (entries_ s))) ∧
  (∀ re older e newer, compile pattern = Some re →
     entries_ s = older ++ e :: newer → length newer < limit →
     Forall (λ x, is_Some (rsearch (message x) re)) newer →
     rsearch (message e) re = None →
     search_regex regex compile rsearch pattern limit s
       = List.filter (λ x, bool_decide (rsearch (message x) re = Some true)) newer).
Proof.
  unfold search_regex. split; [|split].
  - by intros ->.
  - intros re p -> Hp. rewrite <-search_loop_newest, <-regex_loop_total. f_equal.
    generalize (@nil LogEntry) as results.
    induction (reverse (entries_ s)) as [|e rit IH]; intros results; simpl; [done|].
    rewrite Hp. case_decide; [|done]. destruct (p e); apply IH.
  - intros re older e newer -> -> Hl Hn He.
    rewrite reverse_app, reverse_cons, <-(assoc_L (++)). simpl.
    rewrite (regex_loop_throws (λ x, rsearch (message x) re) limit (reverse newer) e);
      [|by rewrite length_reverse|by apply Forall_reverse|done].
    simpl. by rewrite filter_reverse, reverse_involutive.
Qed.

(** Every line is accepted. *)
Lemma detect_level_total line :
  (Z.of_nat (String.length line) < 2 ^ 64 - 1)%Z →
  ∃ lvl, detect_level line = Ret (lvl, if decide (lvl = "info") then line
                                       else text_after_space line).
Proof.
  intros Hl. unfold detect_level. rewrite !after_space_spec by done.
  destruct (starts_with line "[ERROR]" || _); [by exists "error"|].
  destruct (starts_with line "[WARN]" || _); [by exists "warn"|].
  destruct (starts_with line "[DEBUG]" || _); [by exists "debug"|].
  by exists "info".
Qed.

(** A line that carries a level tag and a space is logged at that level with
    the text after the space; a line with no tag is logged whole as [info]; no
    line makes [push_raw] throw. *)
Lemma push_raw_levels now src msg s :
  (Z.of_nat (String.length msg) < 2 ^ 64 - 9)%Z →
  push_raw now src ("[ERROR] " +:+ msg) s = Ret (push now src "error" msg s) ∧
  push_raw now src ("ERROR: " +:+ msg) s = Ret (push now src "error" msg s) ∧
  push_raw now src ("[WARN] " +:+ msg) s = Ret (push now src "warn" msg s) ∧
  push_raw now src ("WARN: " +:+ msg) s = Ret (push now src "warn" msg s) ∧
  push_raw now src ("[DEBUG] " +:+ msg) s = Ret (push now src "debug" msg s) ∧
  push_raw now src ("DEBUG: " +:+ msg) s = Ret (push now src "debug" msg s) ∧
  ∃ lvl txt, push_raw now src msg s = Ret (push now src lvl txt s).
Proof.
  intros Hl.
  assert (Hs : ∀ p : string, String.length p ≤ 8 →
    after_space (p +:+ msg) = Ret (text_after_space (p +:+ msg))).
  { intros p Hp. apply after_space_spec. rewrite length_string_app. lia. }
  unfold push_raw.
  destruct (detect_level_total msg ltac:(lia)) as [lvl Hlvl].
  repeat split; [unfold detect_level; rewrite Hs by (simpl; lia)..|].
  1-6: rewrite !string_app_cons, !string_app_nil_l; unfold text_after_space; simpl;
    by rewrite ?string_drop_0.

  rewrite Hlvl. simpl. eauto.
Qed.

(** The text is cut at the first space of the line and not at the end of the
    tag: a tag glued to a word takes that word out of the log. *)
Lemma push_raw_drops_glued_word now src word rest s :
  find_opt word " " = None →
  (Z.of_nat (String.length word + String.length rest) < 2 ^ 64 - 9)%Z →
  push_raw now src ("[ERROR]" +:+ word +:+ " " +:+ rest) s
    = Ret (push now src "error" rest s).
Proof.
  intros Hw Hl. unfold push_raw, detect_level.
  rewrite after_space_spec by (rewrite !length_string_app; simpl; lia).
  assert (Hf : ∀ r, find_opt (word +:+ String.String " "%char r) " " = Some (String.length word)).
  { intros r. clear Hl s. induction word as [|c word IH]; [by destruct r|].
    rewrite string_app_cons. revert Hw. cbn [find_opt starts_with].
    case_bool_decide; simpl; [by destruct word|].
    destruct (find_opt word " "); [done|]. intros _. by rewrite IH. }
  rewrite !string_app_cons, !string_app_nil_l.
  unfold text_after_space. simpl. rewrite Hf. simpl.
  change (match word +:+ String.String " "%char rest with
          | "" => "" | String.String _ s0 => string_drop (String.length word) s0 end)
    with (string_drop (S (String.length word)) (word +:+ String.String " "%char rest)).
  replace (S (String.length word)) with (String.length word + 1) by lia.
  by rewrite <-string_drop_drop, string_drop_app.
Qed.

(** * Witnesses *)
Definition sample_log : LogAggregator :=
  run [OPush 1 "api" "info" "request handled"; OPush 2 "worker" "error" "job timeout"]
    LogAggregator_new.

Example log_search_substring :
  source <$> search "timeout" 100 sample_log = ["worker"].
Proof. reflexivity. Qed.

Example log_max_entries_enforced :
  count (run [OSetMax 2; OPush 1 "s" "info" "a"; OPush 2 "s" "info" "b";
              OPush 3 "s" "info" "c"] LogAggregator_new) = 2.
Proof. reflexivity. Qed.

Lemma push_raw_levels_witness :
  push_raw 7 "sandbox" ("[WARN] " +:+ "disk almost full") sample_log
    = Ret (push 7 "sandbox" "warn" "disk almost full" sample_log).
Proof. by apply (push_raw_levels 7 "sandbox" "disk almost full" sample_log). Defined.

Lemma push_raw_drops_glued_word_witness :
  push_raw 7 "sandbox" ("[ERROR]" +:+ "disk" +:+ " " +:+ "full") sample_log
    = Ret (push 7 "sandbox" "error" "full" sample_log).
Proof. by apply push_raw_drops_glued_word. Defined.
