(* ===== verification/Metrics.v ===== *)
(** [MetricsExporter] and [MetricsServer] (metrics.hpp, metrics.cpp): the recorded
    metrics, their two renderings, the sockets of the server and its answers.
    Label sets and the grouping by name are [std::map]s, used through the
    interface of StdMap.  Values are the non-negative doubles of Float64. *)
From Stdlib Require Import Ascii.
From stdpp Require Import sorting.
From S2P Require Import Prelude Bytes CppString Float64 ProcFs StdMap FloatText.

#[local] Open Scope Z_scope.

(** * Data *)
Module MetricType.
Inductive t : Type := Counter | Gauge | Histogram.
#[global] Instance eq_dec : EqDecision t.
Proof. solve_decision. Defined.
End MetricType.

Definition eol : string := String.String newline "".
Definition quote : string := String.String "034"%char "".
Definition crlf : string := String.String "013"%char eol.

Section metrics.
Context {M : Type → Type} `{StdMapLaws M}.

Record Metric : Type := mkMetric {
  name : string;
  type : MetricType.t;
  value : f64;
  labels : M string;
}.

(** The metrics, in the order they were recorded. *)
Record MetricsExporter : Type := mkExporter { metrics_ : list Metric }.

Definition MetricsExporter_new : MetricsExporter := mkExporter [].

(** * Recording *)
Definition push (m : Metric) (x : MetricsExporter) : MetricsExporter :=
  mkExporter (metrics_ x ++ [m]).
Definition counter (n : string) (v : f64) (ls : M string) : MetricsExporter → MetricsExporter :=
  push (mkMetric n MetricType.Counter v ls).
Definition gauge (n : string) (v : f64) (ls : M string) : MetricsExporter → MetricsExporter :=
  push (mkMetric n MetricType.Gauge v ls).
Definition histogram (n : string) (v : f64) (ls : M string) : MetricsExporter → MetricsExporter :=
  push (mkMetric n MetricType.Histogram v ls).

(** * Rendering *)

(** The loop over the labels, a comma before every label but the first. *)
Fixpoint render_pairs (first : bool) (ls : list (string * string)) : string :=
  match ls with
  | [] => ""
  | (k, v) :: ls =>
      (if first then "" else ",") +:+ k +:+ "=" +:+ quote +:+ v +:+ quote
        +:+ render_pairs false ls
  end.

Definition render_labels (ls : M string) : string :=
  match map_entries ls with
  | [] => ""
  | l => "{" +:+ render_pairs true l +:+ "}"
  end.

Definition type_str (t : MetricType.t) : string :=
  match t with
  | MetricType.Counter => "counter"
  | MetricType.Gauge => "gauge"
  | MetricType.Histogram => "histogram"
  end.

Definition render_metric (m : Metric) : string :=
  name m +:+ render_labels (labels m) +:+ " " +:+ print_g (value m) +:+ eol.

(** [grouped[m.name].push_back(&m)] for every metric. *)
Definition group (ms : list Metric) : M (list Metric) :=
  fold_left (λ g m, map_assign (name m) (default [] (map_find g (name m)) ++ [m]) g)
    ms map_new.

(** The text of one group. *)
Definition render_group (n : string) (ms : list Metric) : string :=
  match ms with
  | [] => ""
  | m :: _ =>
      "# HELP " +:+ n +:+ " redisops metric" +:+ eol
      +:+ "# TYPE " +:+ n +:+ " " +:+ type_str (type m) +:+ eol
  end +:+ foldr (λ m s, render_metric m +:+ s) "" ms +:+ eol.

Definition render_prometheus (x : MetricsExporter) : string :=
  foldr (λ g s, render_group g.1 g.2 +:+ s) "" (map_entries (group (metrics_ x))).

Fixpoint render_objects (first : bool) (ms : list Metric) : string :=
  match ms with
  | [] => ""
  | m :: ms =>
      (if first then "" else ",") +:+ "{" +:+ quote +:+ "name" +:+ quote +:+ ":" +:+ quote
        +:+ name m +:+ quote +:+ "," +:+ quote +:+ "value" +:+ quote +:+ ":"
        +:+ format_double (value m) +:+ "}" +:+ render_objects false ms
  end.

Definition render_json (x : MetricsExporter) : string :=
  "[" +:+ render_objects true (metrics_ x) +:+ "]".

(** * Grouping *)
Definition named (n : string) (ms : list Metric) : list Metric := filter (λ m, name m = n) ms.

Lemma find_group ms n :
  map_find (group ms) n = match named n ms with [] => None | l => Some l end.
Proof.
  unfold group, named. induction ms as [|m ms IH] using rev_ind; [cbn; by rewrite find_new|].
  rewrite fold_left_app, filter_app. cbn [fold_left]. rewrite find_assign, filter_cons.
  case_decide as Hn; subst.
  - rewrite IH, decide_True by done. cbn. by destruct (filter _ ms).
  - rewrite decide_False by done. cbn. by rewrite app_nil_r, IH.
Qed.

Lemma entries_group ms n l :
  (n, l) ∈ map_entries (group ms) ↔ l = named n ms ∧ l ≠ [].
Proof. rewrite entries_find, find_group. destruct (named n ms); naive_solver. Qed.

Lemma named_nonempty ms n : named n ms ≠ [] ↔ ∃ m, m ∈ ms ∧ name m = n.
Proof.
  unfold named. split.
  - intros Hne. destruct (filter _ ms) as [|m l] eqn:E; [done|].
    exists m. assert (m ∈ filter (λ m, name m = n) ms) as Hin by (rewrite E; set_solver).
    apply list_elem_of_filter in Hin. naive_solver.
  - intros (m & Hm & Hn) Hnil. assert (m ∈ filter (λ m, name m = n) ms) as Hin
      by (by apply list_elem_of_filter). rewrite Hnil in Hin. by apply not_elem_of_nil in Hin.
Qed.

(** The Prometheus text is one block per metric name, in the order of the
    names and no name twice; a block has one HELP and one TYPE line, of the type
    recorded first, then every metric recorded under the name, in the order they
    were recorded: none is lost and none is printed twice. *)
Lemma render_prometheus_blocks x :
  ∃ names, StronglySorted (λ a b, String.le a b ∧ a ≠ b) names ∧
    (∀ n, n ∈ names ↔ ∃ m, m ∈ metrics_ x ∧ name m = n) ∧
    render_prometheus x =
      foldr (λ n s, render_group n (named n (metrics_ x)) +:+ s) "" names.
Proof.
  set (ms := metrics_ x). exists (map_entries (group ms)).*1. split_and!.
  - pose proof (entries_sorted (group ms)) as Hs. induction Hs as [|p l Hs IH Hl]; [constructor|].
    cbn. constructor; [done|]. apply list.Forall_fmap. exact Hl.
  - intros n. rewrite list_elem_of_fmap, <-named_nonempty. split.
    + intros ([n' l] & -> & [-> Hne]%entries_group). done.
    + intros Hne. exists (n, named n ms). split; [done|]. by apply entries_group.
  - unfold render_prometheus. fold ms.
    assert (Hin : ∀ p, p ∈ map_entries (group ms) → p.2 = named p.1 ms)
      by (intros [n l] Hp; by apply entries_group in Hp as [-> _]).
    induction (map_entries (group ms)) as [|p l IH]; [done|]. cbn.
    rewrite (Hin p), IH; [done| |]; set_solver.
Qed.

(** * The server's sockets

    [exporter_] is a pointer, kept as the address of an exporter; null is [None]. *)
Record MetricsServer : Type := mkServer {
  port_ : Z;
  server_fd_ : Z;
  exporter_ : option Z;
  running_ : bool;
}.

Definition MetricsServer_new (port : Z) : MetricsServer := mkServer port (-1) None false.

Definition set_exporter (exporter : option Z) (s : MetricsServer) : MetricsServer :=
  mkServer (port_ s) (server_fd_ s) exporter (running_ s).

(** [socket_fd], [bind_ok] and [listen_ok] are the answers of the system, [fds] the
    descriptors of the process. *)
Definition start (socket_fd : Z) (bind_ok listen_ok : bool) (s : MetricsServer) (fds : fd_table)
    : bool * MetricsServer * fd_table :=
  if socket_fd <? 0 then (false, mkServer (port_ s) socket_fd (exporter_ s) (running_ s), fds)
  else
    let fds := fd_open socket_fd fds in
    if bind_ok && listen_ok
    then (true, mkServer (port_ s) socket_fd (exporter_ s) true, fds)
    else (false, mkServer (port_ s) (-1) (exporter_ s) (running_ s), fd_close socket_fd fds).

Definition stop (s : MetricsServer) (fds : fd_table) : MetricsServer * fd_table :=
  if 0 <=? server_fd_ s
  then (mkServer (port_ s) (-1) (exporter_ s) false, fd_close (server_fd_ s) fds)
  else (mkServer (port_ s) (server_fd_ s) (exporter_ s) false, fds).

(** A server that is not listening opens exactly one descriptor when it
    starts, none when starting fails, and stopping it gives that descriptor back;
    starting a server that already listens loses the first descriptor: stopping
    it closes only the second. *)
Lemma server_fds fd fd2 bind_ok listen_ok s fds :
  server_fd_ s < 0 → 0 <= fd2 → fd ≠ fd2 → fd ∉ fds_open fds → fd2 ∉ fds_open fds →
  let '(ok, s1, fds1) := start fd bind_ok listen_ok s fds in
  ok = (0 <=? fd) && bind_ok && listen_ok ∧
  fds1 = (if ok then fd_open fd fds else fds) ∧
  (stop s1 fds1).2 = fds ∧ server_fd_ (stop s1 fds1).1 < 0 ∧
  (ok = true →
     let '(ok2, s2, fds2) := start fd2 true true s1 fds1 in
     ok2 = true ∧ (stop s2 fds2).2 = fd_open fd fds).
Proof.
  intros Hs Hfd2 Hne Hf Hf2. unfold start, stop. destruct (Z.ltb_spec fd 0) as [H0|H0].
  - cbn. rewrite (proj2 (Z.leb_gt 0 fd)) by lia. by cbn.
  - rewrite (proj2 (Z.leb_le 0 fd)) by done. destruct bind_ok, listen_ok; cbn.
    2-4: split_and!; try done; by apply fd_close_opened.
    rewrite (proj2 (Z.leb_le 0 fd)), (proj2 (Z.ltb_ge fd2 0)) by done. cbn.
    rewrite (proj2 (Z.leb_le 0 fd2)) by done. cbn.
    split_and!; try done; try (by apply fd_close_opened). intros _.
    split; [done|]. apply fd_close_opened. simpl. set_solver.
Qed.

(** * Answering a client *)
Definition build_response (body : string) (code : Z) : string :=
  "HTTP/1.1 " +:+ to_string code +:+ " " +:+ (if code =? 200 then "OK" else "Not Found") +:+ crlf
  +:+ "Content-Type: text/plain; version=0.0.4; charset=utf-8" +:+ crlf
  +:+ "Content-Length: " +:+ to_string (Z.of_nat (String.length body)) +:+ crlf
  +:+ "Connection: close" +:+ crlf
  +:+ crlf +:+ body.

(** [std::string request(buf)]: up to the first zero byte. *)
Fixpoint c_str (bs : list byte) : string :=
  match bs with
  | [] => ""
  | b :: bs =>
      if bool_decide (b = x00) then "" else String.String (Ascii.ascii_of_byte b) (c_str bs)
  end.

Inductive client_call : Type := Send (fd : Z) (response : string) | Close (fd : Z).

(** [received] is what [recv] put in the buffer of 4095 bytes, if it returned a
    positive number, and [exporters] the exporters that exist at that moment, by
    address: reading through a pointer to none of them is undefined. *)
Definition handle_client (exporters : gmap Z MetricsExporter) (client_fd : Z)
    (received : option (list byte)) (s : MetricsServer) : outcome (list client_call) :=
  match received with
  | None => Ret [Close client_fd]
  | Some bs =>
      let request := c_str bs in
      '(body, code) ←
        match contains request "GET /metrics", exporter_ s with
        | true, Some p => x ← access (exporters !! p); Ret (render_prometheus x, 200)
        | _, _ =>
            Ret (if contains request "GET /health" then ("ok" +:+ eol, 200) else ("", 404))
        end;
      Ret [Send client_fd (build_response body code); Close client_fd]
  end.

(** * Reading a response back *)

(** What a client does: the header ends at the first empty line. *)
Definition split_response (r : string) : option (string * string) :=
  (λ n, (string_take n r, string_drop (n + 4) r)) <$> find_opt r (crlf +:+ crlf).

Definition is_cr (c : Ascii.ascii) : bool := bool_decide (c = "013"%char).

Lemma find_blank_free s r :
  free_of is_cr s = true →
  find_opt (s +:+ r) (crlf +:+ crlf) = (λ n, String.length s + n)%nat <$> find_opt r (crlf +:+ crlf).
Proof.
  induction s as [|c s IH]; intros Hf.
  - rewrite string_app_nil_l. by destruct (find_opt r _).
  - cbn [free_of] in Hf. apply andb_prop in Hf as [Hc Hf]. specialize (IH Hf).
    rewrite string_app_cons. cbn [find_opt].
    assert (starts_with (String.String c (s +:+ r)) (crlf +:+ crlf) = false) as ->.
    { unfold is_cr in Hc. apply negb_true_iff, bool_decide_eq_false in Hc.
      unfold crlf. rewrite string_app_cons. cbn [starts_with]. by rewrite bool_decide_false. }
    rewrite IH. by destruct (find_opt r _).
Qed.

(** A line break followed by more text is not the empty line. *)
Lemma find_blank_line c r :
  is_cr c = false →
  find_opt (crlf +:+ String.String c r) (crlf +:+ crlf)
    = (λ n, 2 + n)%nat <$> find_opt (String.String c r) (crlf +:+ crlf).
Proof.
  intros Hc. unfold crlf, eol. cbn [find_opt]. repeat rewrite string_app_cons.
  repeat rewrite string_app_nil_l. cbn [find_opt starts_with].
  rewrite !bool_decide_true by done. unfold is_cr in Hc. apply bool_decide_eq_false in Hc.
  cbn [andb]. rewrite (bool_decide_false (c = "013"%char)) by done. cbn [andb].
  rewrite (bool_decide_false (newline = "013"%char)) by done. cbn [andb].
  by destruct (find_opt r _).
Qed.

Lemma to_string_free z : 0 <= z → free_of is_cr (to_string z) = true.
Proof.
  intros Hz. destruct (to_string_digits z Hz) as (d & -> & _ & _).
  induction d; cbn; done.
Qed.

Lemma find_blank_text c w r :
  is_cr c = false →
  find_opt (crlf +:+ String.String c w +:+ r) (crlf +:+ crlf)
    = (λ n, 2 + n)%nat <$> find_opt (String.String c w +:+ r) (crlf +:+ crlf).
Proof. apply (find_blank_line c (w +:+ r)). Qed.

Lemma string_take_app s r : string_take (String.length s) (s +:+ r) = s.
Proof.
  induction s as [|c s IH]; [by destruct r|]. rewrite string_app_cons. cbn. by rewrite IH.
Qed.

Lemma find_blank_end r : find_opt (crlf +:+ crlf +:+ r) (crlf +:+ crlf) = Some 0%nat.
Proof.
  destruct (crlf +:+ crlf +:+ r) as [|c s] eqn:E; [done|]. cbn [find_opt].
  assert (starts_with (String.String c s) (crlf +:+ crlf) = true) as ->; [|done].
  rewrite <-E. apply starts_with_true. exists r. by rewrite string_app_assoc.
Qed.

(** The lines before the empty one. *)
Definition header (body : string) (code : Z) : string :=
  "HTTP/1.1 " +:+ to_string code +:+ " " +:+ (if code =? 200 then "OK" else "Not Found") +:+ crlf
  +:+ "Content-Type: text/plain; version=0.0.4; charset=utf-8" +:+ crlf
  +:+ "Content-Length: " +:+ to_string (Z.of_nat (String.length body)) +:+ crlf
  +:+ "Connection: close".

Lemma build_response_header body code :
  build_response body code = header body code +:+ crlf +:+ crlf +:+ body.
Proof. unfold build_response, header. by rewrite !string_app_assoc. Qed.

Lemma find_blank_header body code :
  0 <= code →
  find_opt (build_response body code) (crlf +:+ crlf) = Some (String.length (header body code)).
Proof.
  intros Hc. unfold build_response, header. rewrite !length_string_app.
  rewrite find_blank_free by done. rewrite find_blank_free by (by apply to_string_free).
  rewrite find_blank_free by done.
  rewrite find_blank_free by (by destruct (code =? 200)).
  rewrite find_blank_text by done. rewrite find_blank_free by done.
  rewrite find_blank_text by done. rewrite find_blank_free by done.
  rewrite find_blank_free by (apply to_string_free; lia).
  rewrite find_blank_text by done. rewrite find_blank_free by done.
  rewrite find_blank_end. cbn. by rewrite ?Nat.add_0_r.
Qed.

Lemma split_build_response body code :
  0 <= code → split_response (build_response body code) = Some (header body code, body).
Proof.
  intros Hc. unfold split_response. rewrite find_blank_header by done. cbn.
  rewrite build_response_header. do 2 f_equal.
  - apply string_take_app.
  - replace (header body code +:+ crlf +:+ crlf +:+ body)
      with ((header body code +:+ crlf +:+ crlf) +:+ body) by (by rewrite !string_app_assoc).
    replace (String.length (header body code) + 4)%nat
      with (String.length (header body code +:+ crlf +:+ crlf))
      by (rewrite !length_string_app; cbn; lia).
    apply string_drop_app.
Qed.

(** [cs] answers a client with [body]: one response and one [close], and a client
    that ends the header at the first empty line finds [body] after it, with its
    length announced in the header. *)
Definition answers (fd code : Z) (body : string) (cs : list client_call) : Prop :=
  ∃ r, cs = [Send fd r; Close fd] ∧ split_response r = Some (header body code, body) ∧
    starts_with r ("HTTP/1.1 " +:+ to_string code +:+ " ") = true ∧
    contains (header body code)
      (crlf +:+ "Content-Length: " +:+ to_string (Z.of_nat (String.length body)) +:+ crlf) = true.

Lemma build_response_answers fd code body :
  0 <= code → answers fd code body [Send fd (build_response body code); Close fd].
Proof.
  intros Hc. exists (build_response body code). split; [done|].
  split; [by apply split_build_response|]. split.
  - apply starts_with_true. unfold build_response. eexists. by rewrite !string_app_assoc.
  - apply contains_true. unfold header.
    exists ("HTTP/1.1 " +:+ to_string code +:+ " "
      +:+ (if code =? 200 then "OK" else "Not Found") +:+ crlf
      +:+ "Content-Type: text/plain; version=0.0.4; charset=utf-8"), "Connection: close".
    by rewrite !string_app_assoc.
Qed.

(** C16: what [handle_client] does with each client, whatever [recv] returns (nothing
    in the daemon calls it: this is what a caller would get).  A client that sends
    nothing is closed, once, and sent nothing.  One that sends something is sent one
    response and closed once: code 200 and the metrics the exporter holds at that
    moment when the request names [GET /metrics] and an exporter is set, which must
    still exist, or else reading it is undefined; code 200 and [ok] when the request
    names [GET /health]; code 404 and no body otherwise.  A client that ends the
    header at the first empty line finds exactly the body after it, and the header
    announces its length. *)
Theorem handle_client_answers exporters fd s :
  handle_client exporters fd None s = Ret [Close fd] ∧
  ∀ bs, let request := c_str bs in
    match exporter_ s with
    | Some p =>
        contains request "GET /metrics" = true →
        match exporters !! p with
        | Some x => ∃ cs, handle_client exporters fd (Some bs) s = Ret cs ∧
                      answers fd 200 (render_prometheus x) cs
        | None => handle_client exporters fd (Some bs) s = Undefined
        end
    | None => True
    end ∧
    (exporter_ s = None ∨ contains request "GET /metrics" = false →
     ∃ cs, handle_client exporters fd (Some bs) s = Ret cs ∧
       if contains request "GET /health" then answers fd 200 ("ok" +:+ eol) cs
       else answers fd 404 "" cs).
Proof.
  split; [done|]. intros bs request. unfold handle_client. fold request. split.
  - destruct (exporter_ s) as [p|]; [|done]. intros ->. destruct (exporters !! p); [|done].
    eexists. split; [reflexivity|]. by apply build_response_answers.
  - intros Hno. destruct (contains request "GET /health");
      (destruct Hno as [-> | ->]; [destruct (contains request "GET /metrics")|]);
      eexists; (split; [reflexivity|]); by apply build_response_answers.
Qed.
End metrics.

(** * Concrete runs *)
Definition example_labels : gmap string string :=
  map_assign "target" "local" (map_assign "exit_code" "0" map_new).

Definition example_exporter : MetricsExporter (M := gmap string) :=
  counter "jobs" (f64_of_Z 1) example_labels
    (gauge "done" (f64_of_Z 1234567) map_new
       (counter "jobs" (f64_of_Z 1) map_new MetricsExporter_new)).

(** Two samples of one series: a gauge is never replaced, and a counter never
    added up. *)
Example example_prometheus :
  render_prometheus example_exporter =
    "# HELP done redisops metric" +:+ eol +:+ "# TYPE done gauge" +:+ eol
    +:+ "done 1.23457e+06" +:+ eol +:+ eol
    +:+ "# HELP jobs redisops metric" +:+ eol +:+ "# TYPE jobs counter" +:+ eol
    +:+ "jobs 1" +:+ eol
    +:+ "jobs{exit_code=" +:+ quote +:+ "0" +:+ quote +:+ ",target=" +:+ quote +:+ "local"
    +:+ quote +:+ "} 1" +:+ eol +:+ eol.
Proof. vm_compute. reflexivity. Qed.

Example example_json :
  render_json (MetricsExporter_new (M := gmap string)) = "[]" ∧
  render_json (mkExporter [mkMetric "x" MetricType.Gauge (rnd 1 10) (∅ : gmap string string)])
    = "[{" +:+ quote +:+ "name" +:+ quote +:+ ":" +:+ quote +:+ "x" +:+ quote +:+ ","
      +:+ quote +:+ "value" +:+ quote +:+ ":0.1}]".
Proof. split; vm_compute; reflexivity. Qed.

(** Nothing is escaped: a quote in a label ends the label's text early. *)
Example label_quote_not_escaped :
  render_labels (map_assign "type" ("a" +:+ quote +:+ "b") map_new : gmap string string)
    = "{type=" +:+ quote +:+ "a" +:+ quote +:+ "b" +:+ quote +:+ "}".
Proof. vm_compute. reflexivity. Qed.

Lemma render_prometheus_blocks_witness :
  ∃ names, (∀ n, n ∈ names ↔ ∃ m, m ∈ metrics_ example_exporter ∧ name m = n) ∧
    render_prometheus example_exporter =
      foldr (λ n s, render_group n (named n (metrics_ example_exporter)) +:+ s) "" names.
Proof.
  destruct (render_prometheus_blocks example_exporter) as (names & _ & H1 & H2).
  exists names. split; [exact H1|exact H2].
Defined.

Lemma server_fds_witness :
  let s := MetricsServer_new 9090 in
  let fds := mkFds {[0; 1; 2]} [] in
  let '(ok, s1, fds1) := start 4 true true s fds in
  ok = true ∧ (stop s1 fds1).2 = fds.
Proof.
  destruct (server_fds 4 5 true true (MetricsServer_new 9090) (mkFds {[0; 1; 2]} []))
    as (H1 & _ & H3 & _).
  - cbn. lia.
  - lia.
  - done.
  - simpl. set_solver.
  - simpl. set_solver.
  - split; [exact H1|exact H3].
Defined.

(** A response is what is recorded when the request comes, not when the exporter
    was set; through a pointer to an exporter that is gone there is none. *)
Lemma handle_client_answers_witness :
  let s := set_exporter (Some 64) (MetricsServer_new 9090) in
  (∃ cs, handle_client {[64 := example_exporter]} 8 (Some (bytes "GET /metrics HTTP/1.1")) s = Ret cs
     ∧ answers 8 200 (render_prometheus example_exporter) cs) ∧
  handle_client (∅ : gmap Z (MetricsExporter (M := gmap string))) 8
    (Some (bytes "GET /metrics HTTP/1.1")) s = Undefined.
Proof.
  intros s. split.
  - exact (proj1 (proj2 (handle_client_answers {[64 := example_exporter]} 8 s)
      (bytes "GET /metrics HTTP/1.1")) eq_refl).
  - exact (proj1 (proj2 (handle_client_answers ∅ 8 s) (bytes "GET /metrics HTTP/1.1")) eq_refl).
Defined.
