(* ===== verification/Exposition.v ===== *)
(** The Prometheus text of the exporter (metrics.cpp, [render_prometheus]) read back
    by a scraper as strict as the format the endpoint announces: what it accepts, and
    that it then recovers exactly what was recorded. *)
From Stdlib Require Import Ascii.
From stdpp Require Import sorting.
From S2P Require Import Prelude CppString Float64 FloatText ProcFs StdMap Metrics.

#[local] Open Scope Z_scope.

(** * A scraper of the text format 0.0.4

    As strict as the format: names and label names are of its alphabet, a label's
    value is read with its escapes and has to be ASCII, a metric has one HELP and one
    TYPE line before its samples, its lines come as one group, no two samples have the
    same name and labels, and a histogram has no sample under its own name.  Whatever
    breaks a rule makes the whole text unreadable. *)
Definition brace : Ascii.ascii := "123"%char.
Definition space : Ascii.ascii := "032"%char.
Definition hash : Ascii.ascii := "035"%char.
Definition equals : Ascii.ascii := "061"%char.
Definition dquote : Ascii.ascii := "034"%char.
Definition backslash : Ascii.ascii := "092"%char.

Definition is_space (c : Ascii.ascii) : bool := bool_decide (c = space).
Definition is_equals (c : Ascii.ascii) : bool := bool_decide (c = equals).
(** What ends the name of a sample. *)
Definition ends_name (c : Ascii.ascii) : bool := bool_decide (c = brace) || bool_decide (c = space).

(** [[a-zA-Z_]] and [[0-9]] *)
Definition is_letter (c : Ascii.ascii) : bool :=
  let n := Ascii.nat_of_ascii c in
  ((65 <=? n) && (n <=? 90) || (97 <=? n) && (n <=? 122) || (n =? 95))%nat.
Definition is_digit (c : Ascii.ascii) : bool :=
  let n := Ascii.nat_of_ascii c in ((48 <=? n) && (n <=? 57))%nat.
Definition is_colon (c : Ascii.ascii) : bool := bool_decide (c = ":"%char).

Definition spelled (head tail : Ascii.ascii → bool) (s : string) : bool :=
  match s with
  | EmptyString => false
  | String.String c s => head c && free_of (λ c, negb (tail c)) s
  end.

(** [[a-zA-Z_:][a-zA-Z0-9_:]*] and [[a-zA-Z_][a-zA-Z0-9_]*] *)
Definition valid_name : string → bool :=
  spelled (λ c, is_letter c || is_colon c) (λ c, is_letter c || is_digit c || is_colon c).
Definition valid_label : string → bool := spelled is_letter (λ c, is_letter c || is_digit c).

(** The text of a value: one of the two words, or the characters of a number. *)
Definition number_char (c : Ascii.ascii) : bool :=
  is_digit c || bool_decide (c ∈ ["."; "e"; "+"; "-"]%char).
Definition valid_value (s : string) : bool :=
  bool_decide (s ∈ ["inf"; "nan"]) || spelled number_char number_char s.

(** Up to the first character that satisfies [p]. *)
Fixpoint span_until (p : Ascii.ascii → bool) (s : string) : string * string :=
  match s with
  | EmptyString => ("", "")
  | String.String c s' =>
      if p c then ("", s) else let '(a, r) := span_until p s' in (String.String c a, r)
  end.

(** A character of a label's value that stands for itself. *)
Definition plain (c : Ascii.ascii) : bool :=
  (Ascii.nat_of_ascii c <? 128)%nat && negb (bool_decide (c ∈ [dquote; backslash; newline])).

(** A label's value up to its closing quote, its escapes decoded. *)
Fixpoint scrape_value (s : string) : option (string * string) :=
  match s with
  | EmptyString => None
  | String.String c s =>
      if bool_decide (c = dquote) then Some ("", s)
      else if bool_decide (c = backslash) then
        match s with
        | EmptyString => None
        | String.String d s =>
            '(v, r) ← scrape_value s;
            if bool_decide (d = dquote) || bool_decide (d = backslash)
            then Some (String.String d v, r)
            else if bool_decide (d = "n"%char) then Some (String.String newline v, r) else None
        end
      else if plain c then '(v, r) ← scrape_value s; Some (String.String c v, r)
      else None
  end.

(** [k="v",...}] *)
Fixpoint scrape_pairs (fuel : nat) (s : string) : option (list (string * string) * string) :=
  match fuel with
  | O => None
  | S fuel =>
      let '(k, r) := span_until is_equals s in
      if negb (valid_label k) then None
      else
        match string_drop 1 r with
        | String.String q r =>
            if bool_decide (q = dquote) then
              '(v, r) ← scrape_value r;
              match r with
              | String.String c r =>
                  if bool_decide (c = ","%char) then
                    '(ls, r) ← scrape_pairs fuel r; Some ((k, v) :: ls, r)
                  else if bool_decide (c = "}"%char) then Some ([(k, v)], r)
                  else None
              | EmptyString => None
              end
            else None
        | EmptyString => None
        end
  end.

(** A sample: its name and labels, which make its series, and the text of its value. *)
Abbreviation series := (string * list (string * string))%type.
Abbreviation sample := (series * string)%type.

Definition scrape_sample (s : string) : option sample :=
  let '(n, r) := span_until ends_name s in
  if negb (valid_name n) then None
  else
    match r with
    | EmptyString => None
    | String.String c r =>
        '(ls, v) ←
          (if bool_decide (c = space) then Some ([], r)
           else
             '(ls, r) ← scrape_pairs (String.length r) r;
             match r with
             | String.String c v => if bool_decide (c = space) then Some (ls, v) else None
             | EmptyString => None
             end);
        if valid_value v && bool_decide (NoDup ls.*1) then Some (n, ls, v) else None
    end.

(** What has been read so far: the metrics that have a HELP line, the types, and the
    samples. *)
Record page : Type := mkPage {
  helped : list string;
  typed : list (string * string);
  samples : list sample;
}.

Definition sample_names (p : page) : list string := (λ s : sample, s.1.1) <$> samples p.

Definition kinds : list string := ["counter"; "gauge"; "histogram"; "summary"; "untyped"].

Definition scrape_line (p : page) (s : string) : option page :=
  if bool_decide (s = "") then Some p
  else if starts_with s "# HELP " then
    let '(n, _) := span_until is_space (string_drop 7 s) in
    if valid_name n && bool_decide (n ∉ helped p)
    then Some (mkPage (helped p ++ [n]) (typed p) (samples p)) else None
  else if starts_with s "# TYPE " then
    let '(n, r) := span_until is_space (string_drop 7 s) in
    let t := string_drop 1 r in
    if valid_name n && bool_decide (t ∈ kinds)
         && bool_decide (n ∉ (typed p).*1) && bool_decide (n ∉ sample_names p)
    then Some (mkPage (helped p) (typed p ++ [(n, t)]) (samples p)) else None
  else if starts_with s "#" then Some p
  else
    x ← scrape_sample s;
    let n := x.1.1 in
    if bool_decide ((n, "histogram") ∉ typed p) && bool_decide ((n, "summary") ∉ typed p)
         && bool_decide (x.1 ∉ (samples p).*1)
         && (bool_decide (last (sample_names p) = Some n) || bool_decide (n ∉ sample_names p))
    then Some (mkPage (helped p) (typed p) (samples p ++ [x])) else None.

Fixpoint scrape_lines (p : page) (ls : list string) : option page :=
  match ls with
  | [] => Some p
  | l :: ls => p ← scrape_line p l; scrape_lines p ls
  end.

Definition scrape (text : string) : option page := scrape_lines (mkPage [] [] []) (getlines text).

(** * Reading back what was written *)
Lemma free_of_app p s1 s2 : free_of p (s1 +:+ s2) = free_of p s1 && free_of p s2.
Proof.
  induction s1 as [|c s1 IH]; [done|]. rewrite string_app_cons. cbn [free_of].
  by rewrite IH, andb_assoc.
Qed.

Lemma span_until_app p a c r :
  free_of p a = true → p c = true →
  span_until p (a +:+ String.String c r) = (a, String.String c r).
Proof.
  induction a as [|d a IH]; intros Ha Hc; [rewrite string_app_nil_l; cbn [span_until]; by rewrite Hc|].
  cbn [free_of] in Ha. apply andb_prop in Ha as [Hd Ha]. apply negb_true_iff in Hd.
  rewrite string_app_cons. cbn [span_until]. by rewrite Hd, IH.
Qed.

(** * Reading back a line *)
Lemma spelled_free p h t s :
  spelled h t s = true → (∀ c, p c = true → h c = false ∧ t c = false) → free_of p s = true.
Proof.
  destruct s as [|c s]; [done|]. cbn [spelled]. intros [Hc Hs]%andb_prop Hp.
  assert (Hneg : ∀ c, t c = true → p c = false).
  { intros d Hd. destruct (p d) eqn:E; [|done]. destruct (Hp d E). congruence. }
  cbn [free_of]. apply andb_true_intro. split.
  - destruct (p c) eqn:E; [|done]. destruct (Hp c E). congruence.
  - clear Hc. induction s as [|d s IH]; [done|]. cbn [free_of] in *.
    apply andb_prop in Hs as [Hd Hs]. rewrite negb_involutive in Hd.
    by rewrite (Hneg d Hd), IH.
Qed.

(** The separators are not in the alphabets of names, labels and numbers. *)
Ltac separator :=
  intros ? ?; unfold ends_name, is_equals, is_space, is_newline in *;
  repeat match goal with
  | H : orb _ _ = true |- _ => apply orb_prop in H as [H|H]
  | H : bool_decide _ = true |- _ => apply bool_decide_eq_true in H; subst
  end; split; vm_compute; reflexivity.

Lemma name_free_ends n : valid_name n = true → free_of ends_name n = true.
Proof. intros Hn. eapply spelled_free; [exact Hn|]. separator. Qed.
Lemma name_free_space n : valid_name n = true → free_of is_space n = true.
Proof. intros Hn. eapply spelled_free; [exact Hn|]. separator. Qed.
Lemma name_free_newline n : valid_name n = true → free_of is_newline n = true.
Proof. intros Hn. eapply spelled_free; [exact Hn|]. separator. Qed.
Lemma label_free_equals n : valid_label n = true → free_of is_equals n = true.
Proof. intros Hn. eapply spelled_free; [exact Hn|]. separator. Qed.
Lemma label_free_newline n : valid_label n = true → free_of is_newline n = true.
Proof. intros Hn. eapply spelled_free; [exact Hn|]. separator. Qed.

(** A valid name starts neither an empty line nor a comment. *)
Lemma name_starts n s :
  valid_name n = true → n +:+ s ≠ "" ∧ starts_with (n +:+ s) "#" = false.
Proof.
  destruct n as [|c n]; [done|]. cbn [valid_name spelled]. intros [Hc _]%andb_prop.
  rewrite string_app_cons. split; [done|]. cbn [starts_with].
  rewrite bool_decide_false; [done|]. intros ->. by vm_compute in Hc.
Qed.

Lemma starts_with_longer s c p :
  starts_with s "#" = false → starts_with s (String.String hash (String.String c p)) = false.
Proof.
  destruct s as [|d s]; [done|]. cbn [starts_with]. rewrite andb_true_r.
  change "#"%char with hash. by intros ->.
Qed.

(** A label the format carries as it is printed, without escapes. *)
Definition clean_value (v : string) : bool := free_of (λ c, negb (plain c)) v.
Definition clean_label (p : string * string) : Prop :=
  valid_label p.1 = true ∧ clean_value p.2 = true.

Lemma plain_not_special c : plain c = true → c ≠ dquote ∧ c ≠ backslash ∧ is_newline c = false.
Proof.
  unfold plain. intros [_ Hc%negb_true_iff%bool_decide_eq_false]%andb_prop.
  split_and!; [set_solver..|]. apply bool_decide_eq_false. set_solver.
Qed.

Lemma scrape_value_clean v r :
  clean_value v = true → scrape_value (v +:+ String.String dquote r) = Some (v, r).
Proof.
  unfold clean_value. induction v as [|c v IH]; intros Hv; [done|].
  cbn [free_of] in Hv. apply andb_prop in Hv as [Hc Hv]. rewrite negb_involutive in Hc.
  rewrite string_app_cons. cbn [scrape_value]. destruct (plain_not_special c Hc) as (H1 & H2 & _).
  rewrite !bool_decide_false by done. by rewrite Hc, IH.
Qed.

Lemma clean_value_newline v : clean_value v = true → free_of is_newline v = true.
Proof.
  unfold clean_value. induction v as [|c v IH]; [done|]. cbn [free_of]. intros [Hc Hv]%andb_prop.
  rewrite negb_involutive in Hc. apply plain_not_special in Hc as (_ & _ & ->). by rewrite IH.
Qed.

Lemma render_pairs_cons k v l ls :
  render_pairs true ((k, v) :: l :: ls) =
    k +:+ "=" +:+ quote +:+ v +:+ quote +:+ "," +:+ render_pairs true (l :: ls).
Proof. by destruct l. Qed.

Lemma scrape_pairs_render fuel l ls r :
  (String.length (render_pairs true (l :: ls)) < fuel)%nat → Forall clean_label (l :: ls) →
  scrape_pairs fuel (render_pairs true (l :: ls) +:+ "}" +:+ r) = Some (l :: ls, r).
Proof.
  assert (Hone : ∀ fuel k v rest, clean_label (k, v) →
    scrape_pairs (S fuel) (k +:+ String.String equals (String.String dquote (v +:+ String.String dquote rest)))
    = match rest with
      | String.String c r =>
          if bool_decide (c = ","%char) then
            '(ls, r) ← scrape_pairs fuel r; Some ((k, v) :: ls, r)
          else if bool_decide (c = "}"%char) then Some ([(k, v)], r) else None
      | EmptyString => None
      end).
  { intros f k v rest [Hk Hv]. cbn [fst snd] in Hk, Hv. cbn [scrape_pairs].
    rewrite (span_until_app is_equals k) by (by try apply label_free_equals).
    rewrite Hk. cbn [negb].
    change (string_drop 1 (String.String equals ?x)) with x. cbv iota.
    rewrite (bool_decide_true (dquote = dquote)) by done.
    by rewrite scrape_value_clean by done. }
  revert fuel l. induction ls as [|l2 ls IH]; intros fuel [k v] Hf Hc;
    apply Forall_cons in Hc as [Hkv Hc]; (destruct fuel as [|fuel]; [lia|]).
  - cbn [render_pairs]. rewrite !string_app_assoc, !string_app_nil_l.
    exact (Hone fuel k v (String.String "}"%char r) Hkv).
  - rewrite render_pairs_cons in Hf |- *. rewrite !string_app_assoc.
    etransitivity; [exact (Hone fuel k v (String.String ","%char
      (render_pairs true (l2 :: ls) +:+ "}" +:+ r)) Hkv)|]. cbv iota.
    rewrite IH; [done| |done].
    rewrite !length_string_app in Hf. change (String.length ",") with 1%nat in Hf. lia.
Qed.

(** * The text of a value *)
Definition numeric (s : string) : Prop := free_of (λ c, negb (number_char c)) s = true.

Lemma numeric_app s1 s2 : numeric s1 → numeric s2 → numeric (s1 +:+ s2).
Proof. unfold numeric. rewrite free_of_app. by intros -> ->. Qed.

Lemma numeric_to_string z : numeric (to_string z) ∧ to_string z ≠ "".
Proof.
  assert (∀ u, numeric (DecimalString.NilZero.string_of_uint u)
    ∧ DecimalString.NilZero.string_of_uint u ≠ "") as Hu.
  { intros u. assert (numeric (DecimalString.NilEmpty.string_of_uint u)) as Hn.
    { induction u as [|u IH|u IH|u IH|u IH|u IH|u IH|u IH|u IH|u IH|u IH]; [done|..]; exact IH. }
    unfold DecimalString.NilZero.string_of_uint. destruct u; split; (exact Hn || done). }
  unfold to_string. destruct z; [done|apply Hu|].
  split; [by apply numeric_app; [|apply Hu]|done].
Qed.

Lemma numeric_zeros n : numeric (zeros n).
Proof. induction n; [done|]. exact IHn. Qed.

Lemma numeric_padded w z : numeric (padded w z).
Proof. apply numeric_app; [apply numeric_zeros|apply numeric_to_string]. Qed.

Lemma numeric_strip s : numeric s → numeric (strip_zeros s).
Proof.
  unfold numeric. induction s as [|c s IH]; [done|]. cbn [strip_zeros free_of]. intros Hs.
  apply andb_prop in Hs as [Hc Hs]. specialize (IH Hs). destruct (strip_zeros s) as [|d t].
  - case_bool_decide; [done|]. cbn [free_of]. by rewrite Hc.
  - cbn [free_of] in *. by rewrite Hc, IH.
Qed.

Lemma numeric_fraction s : numeric s → numeric (fraction s).
Proof.
  intros Hs%numeric_strip. unfold fraction. destruct (strip_zeros s) as [|c t]; [done|].
  by apply numeric_app.
Qed.

Lemma app_nonempty s1 s2 : s1 ≠ "" → s1 +:+ s2 ≠ "".
Proof. by destruct s1. Qed.

Create HintDb text.
#[local] Hint Resolve numeric_app numeric_zeros numeric_padded numeric_fraction app_nonempty : text.
#[local] Hint Extern 1 (numeric (to_string _)) => apply numeric_to_string : text.
#[local] Hint Extern 1 (to_string _ ≠ "") => apply numeric_to_string : text.
#[local] Hint Extern 0 (numeric (String.String _ _)) => reflexivity : text.
#[local] Hint Extern 0 (numeric EmptyString) => reflexivity : text.
#[local] Hint Extern 0 (String.String _ _ ≠ "") => discriminate : text.

Lemma spelled_numeric s : numeric s → s ≠ "" → spelled number_char number_char s = true.
Proof.
  unfold numeric. destruct s as [|c s]; [done|]. cbn [free_of spelled].
  rewrite negb_involutive. by intros -> _.
Qed.

(** Every value is printed as a number, or as one of the two words. *)
Lemma valid_print_g v : valid_value (print_g v) = true.
Proof.
  unfold print_g. destruct v as [m e| |]; [|done..]. destruct (m =? 0); [done|].
  destruct (significant _ _ _) as [q x]. apply orb_true_intro. right.
  unfold fixed, scientific. apply spelled_numeric; repeat case_match; auto 10 with text.
Qed.

Lemma value_free_newline s : valid_value s = true → free_of is_newline s = true.
Proof.
  intros [Hs%bool_decide_eq_true|Hs]%orb_prop.
  - assert (s = "inf" ∨ s = "nan") as [-> | ->] by set_solver; done.
  - eapply spelled_free; [exact Hs|]. separator.
Qed.

(** * The text of the exporter as lines *)
Definition line_free (s : string) : Prop := free_of is_newline s = true.

Lemma line_free_app s1 s2 : line_free s1 → line_free s2 → line_free (s1 +:+ s2).
Proof. unfold line_free. rewrite free_of_app. by intros -> ->. Qed.

Section exposition.
Context {M : Type → Type} `{StdMapLaws M}.
Implicit Types m : Metric (M := M).

(** What a scraper is meant to see of a metric. *)
Definition sample_of m : sample := (name m, map_entries (labels m), print_g (value m)).

(** A metric the format carries as the exporter prints it. *)
Definition clean m : Prop :=
  valid_name (name m) = true ∧ type m ≠ MetricType.Histogram ∧
  Forall clean_label (map_entries (labels m)).

Definition sample_line m : string :=
  name m +:+ render_labels (labels m) +:+ " " +:+ print_g (value m).

Lemma scrape_sample_clean m : clean m → scrape_sample (sample_line m) = Some (sample_of m).
Proof.
  intros (Hn & _ & Hl). unfold scrape_sample, sample_line, sample_of, render_labels.
  pose proof (name_free_ends _ Hn) as Hne. pose proof (valid_print_g (value m)) as Hv.
  pose proof (entries_NoDup (labels m)) as Hd.
  destruct (map_entries (labels m)) as [|l ls].
  - rewrite string_app_nil_l. change (" " +:+ ?x) with (String.String space x).
    rewrite (span_until_app ends_name (name m)) by done. rewrite Hn. cbn [negb].
    rewrite (bool_decide_true (space = space)) by done. cbn [mbind option_bind].
    by rewrite Hv, bool_decide_true.
  - rewrite !string_app_assoc. change ("{" +:+ ?x) with (String.String brace x).
    rewrite (span_until_app ends_name (name m)) by done. rewrite Hn. cbn [negb].
    rewrite (bool_decide_false (brace = space)) by done. rewrite scrape_pairs_render; [|..].
    + change (" " +:+ ?x) with (String.String space x). cbn [mbind option_bind].
      rewrite (bool_decide_true (space = space)) by done. cbn [mbind option_bind].
      by rewrite Hv, bool_decide_true.
    + rewrite !length_string_app. change (String.length "}") with 1%nat. lia.
    + done.
Qed.

(** The lines of a group, and of the whole text. *)
Definition group_lines (n : string) (ms : list (Metric (M := M))) : list string :=
  match ms with
  | [] => []
  | m :: _ => ["# HELP " +:+ n +:+ " redisops metric"; "# TYPE " +:+ n +:+ " " +:+ type_str (type m)]
  end ++ (sample_line <$> ms) ++ [""].

Lemma unlines_app ls1 ls2 : unlines (ls1 ++ ls2) = unlines ls1 +:+ unlines ls2.
Proof.
  induction ls1 as [|l ls1 IH]; [done|]. cbn [app unlines foldr].
  fold (unlines (ls1 ++ ls2)) (unlines ls1). rewrite IH. by rewrite string_app_assoc.
Qed.

Lemma render_group_lines n ms : render_group n ms = unlines (group_lines n ms).
Proof.
  unfold render_group, group_lines. rewrite !unlines_app. f_equal.
  - destruct ms as [|m ms]; [done|]. cbn [unlines foldr]. rewrite !string_app_assoc. reflexivity.
  - f_equal. induction ms as [|m ms IH]; [done|]. cbn [fmap list_fmap unlines foldr].
    fold (unlines (sample_line <$> ms)). rewrite <-IH. unfold render_metric, sample_line.
    by rewrite !string_app_assoc.
Qed.

Lemma render_prometheus_lines (x : MetricsExporter (M := M)) :
  render_prometheus x =
    unlines (List.flat_map (λ g, group_lines g.1 g.2) (map_entries (group (metrics_ x)))).
Proof.
  unfold render_prometheus. induction (map_entries _) as [|g gs IH]; [done|].
  cbn [foldr List.flat_map]. by rewrite unlines_app, IH, render_group_lines.
Qed.

Lemma line_free_pairs first ls : Forall clean_label ls → line_free (render_pairs first ls).
Proof.
  intros Hc. revert first. induction Hc as [|[k v] ls [Hk Hv] _ IH]; intros first; [done|].
  apply label_free_newline in Hk. apply clean_value_newline in Hv.
  cbn [render_pairs fst snd] in *.
  repeat apply line_free_app; [by destruct first|exact Hk|done..|exact Hv|done|apply IH].
Qed.

Lemma line_free_sample m : clean m → line_free (sample_line m).
Proof.
  intros (Hn & _ & Hl). unfold sample_line, render_labels.
  repeat apply line_free_app; [by apply name_free_newline| |done|].
  - destruct (map_entries (labels m)) as [|l ls]; [done|].
    repeat apply line_free_app; [done|by apply line_free_pairs|done].
  - apply value_free_newline, valid_print_g.
Qed.

Lemma line_free_group n ms :
  Forall clean ms → Forall (λ m, name m = n) ms → Forall line_free (group_lines n ms).
Proof.
  intros Hc Hn. apply Forall_app. split; [|apply Forall_app; split; [|by repeat constructor]].
  - destruct ms as [|m ms]; [done|]. apply Forall_cons in Hn as [<- _].
    apply Forall_cons in Hc as [(Hm & _) _]. apply name_free_newline in Hm.
    repeat constructor; repeat apply line_free_app; try done. by destruct (type m).
  - apply list.Forall_fmap. eapply Forall_impl; [exact Hc|]. apply line_free_sample.
Qed.
End exposition.

(** * The round trip *)
Section roundtrip.
Context {M : Type → Type} `{StdMapLaws M}.
Implicit Types m : Metric (M := M).

Lemma scrape_lines_app p ls1 ls2 :
  scrape_lines p (ls1 ++ ls2) = (p ← scrape_lines p ls1; scrape_lines p ls2).
Proof.
  revert p. induction ls1 as [|l ls1 IH]; intros p; [done|]. cbn [app scrape_lines].
  destruct (scrape_line p l); [apply IH|done].
Qed.

Lemma scrape_help p n :
  valid_name n = true → n ∉ helped p →
  scrape_line p ("# HELP " +:+ n +:+ " redisops metric")
    = Some (mkPage (helped p ++ [n]) (typed p) (samples p)).
Proof.
  intros Hn Hp. unfold scrape_line.
  change (string_drop 7 ("# HELP " +:+ ?x)) with x.
  rewrite (proj2 (starts_with_true _ "# HELP ")) by (by eexists).
  rewrite bool_decide_false by done. change (" redisops metric") with (String.String space "redisops metric").
  rewrite (span_until_app is_space n) by (by try apply name_free_space).
  by rewrite Hn, bool_decide_true.
Qed.

Lemma scrape_type p n m :
  valid_name n = true → n ∉ (typed p).*1 → n ∉ sample_names p →
  scrape_line p ("# TYPE " +:+ n +:+ " " +:+ type_str (type m))
    = Some (mkPage (helped p) (typed p ++ [(n, type_str (type m))]) (samples p)).
Proof.
  intros Hn Hp Hs. unfold scrape_line.
  change (string_drop 7 ("# TYPE " +:+ ?x)) with x.
  rewrite (proj2 (starts_with_true _ "# TYPE ")) by (by eexists).
  rewrite bool_decide_false by done.
  change (starts_with ("# TYPE " +:+ ?x) "# HELP ") with false. cbv iota.
  change (" " +:+ ?x) with (String.String space x).
  rewrite (span_until_app is_space n) by (by try apply name_free_space).
  change (string_drop 1 (String.String space ?x)) with (string_drop 0 x). rewrite string_drop_0.
  rewrite Hn, !(bool_decide_true (_ ∉ _)) by done.
  rewrite bool_decide_true; [done|]. unfold kinds. destruct (type m); cbn; set_solver.
Qed.

(** A sample is read when its series is new and its group is the current one. *)
Definition admits (p : page) (n : string) : Prop :=
  ((n, "histogram") ∉ typed p) ∧ ((n, "summary") ∉ typed p) ∧
  (last (sample_names p) = Some n ∨ n ∉ sample_names p).

Lemma scrape_metric p m :
  clean m → admits p (name m) → (sample_of m).1 ∉ (samples p).*1 →
  scrape_line p (sample_line m) = Some (mkPage (helped p) (typed p) (samples p ++ [sample_of m])).
Proof.
  intros Hc (H1 & H2 & H3) Hs. unfold scrape_line.
  destruct (name_starts (name m) (render_labels (labels m) +:+ " " +:+ print_g (value m)))
    as [Hne Hst]; [apply Hc|]. fold (sample_line m) in Hne, Hst.
  rewrite bool_decide_false by done.
  rewrite (starts_with_longer _ _ _ Hst : starts_with _ "# HELP " = false).
  rewrite (starts_with_longer _ _ _ Hst : starts_with _ "# TYPE " = false).
  rewrite Hst, scrape_sample_clean by done. cbn [mbind option_bind].
  change ((sample_of m).1.1) with (name m). rewrite !(bool_decide_true (_ ∉ typed p)) by done.
  rewrite (bool_decide_true ((sample_of m).1 ∉ _)) by done. cbn [andb].
  destruct H3 as [H3|H3]; rewrite (bool_decide_true _ H3), ?orb_true_r; done.
Qed.

Lemma scrape_metrics n ms p :
  Forall clean ms → Forall (λ m, name m = n) ms → admits p n →
  NoDup ((samples p).*1 ++ (sample_of <$> ms).*1) →
  scrape_lines p (sample_line <$> ms)
    = Some (mkPage (helped p) (typed p) (samples p ++ (sample_of <$> ms))).
Proof.
  intros Hc. revert p. induction Hc as [|m ms Hm _ IH]; intros p Hn Ha Hd.
  { cbn. rewrite app_nil_r. by destruct p. }
  apply Forall_cons in Hn as [<- Hn].
  change ((sample_of <$> m :: ms).*1) with ((sample_of m).1 :: (sample_of <$> ms).*1) in Hd.
  change (sample_line <$> m :: ms) with (sample_line m :: (sample_line <$> ms)). cbn [scrape_lines].
  rewrite scrape_metric; [|done|done|apply NoDup_app in Hd; set_solver]. cbn [mbind option_bind].
  rewrite IH; cbn [helped typed samples].
  - rewrite <-(assoc_L (++)). done.
  - done.
  - destruct Ha as (H1 & H2 & _). split; [done|]. split; [done|]. left.
    unfold sample_names. cbn [samples]. rewrite fmap_app. apply last_snoc.
  - rewrite fmap_app, <-(assoc_L (++)). exact Hd.
Qed.

(** The type a group is announced with. *)
Definition group_type (g : string * list (Metric (M := M))) : list (string * string) :=
  match g.2 with [] => [] | m :: _ => [(g.1, type_str (type m))] end.

(** Nothing of the metric [n] has been read. *)
Definition unread (p : page) (n : string) : Prop :=
  (n ∉ helped p) ∧ (n ∉ (typed p).*1) ∧ (n ∉ sample_names p).

Lemma scrape_group n ms p :
  ms ≠ [] → Forall clean ms → Forall (λ m, name m = n) ms → unread p n →
  NoDup ((samples p).*1 ++ (sample_of <$> ms).*1) →
  scrape_lines p (group_lines n ms)
    = Some (mkPage (helped p ++ [n]) (typed p ++ group_type (n, ms))
              (samples p ++ (sample_of <$> ms))).
Proof.
  intros Hne Hc Hn (U1 & U2 & U3) Hd. unfold group_lines.
  assert (valid_name n = true ∧ ∀ m, head ms = Some m → type m ≠ MetricType.Histogram) as [Hv Ht].
  { destruct ms as [|m ms]; [done|]. apply Forall_cons in Hn as [<- _].
    apply Forall_cons in Hc as [(? & ? & _) _]. split; [done|]. by intros ? [= <-]. }
  set (p1 := mkPage (helped p ++ [n]) (typed p ++ group_type (n, ms)) (samples p)).
  rewrite scrape_lines_app.
  match goal with |- context [scrape_lines p ?ls] =>
    assert (scrape_lines p ls = Some p1) as -> end.
  { destruct ms as [|m ms]; [done|]. cbn [scrape_lines].
    rewrite scrape_help by done. cbn [mbind option_bind]. by rewrite scrape_type. }
  cbn [mbind option_bind]. rewrite scrape_lines_app.
  rewrite (scrape_metrics n); [done|done|done| |done].
  unfold admits. change (sample_names p1) with (sample_names p). split_and!; [| |by right].
  all: cbn [p1 typed]; intros [Hin|Hin]%elem_of_app;
    [apply U2, list_elem_of_fmap; eexists; split; [|exact Hin]; reflexivity|].
  all: unfold group_type in Hin; destruct ms as [|m ms]; [done|]; cbn in Hin;
    specialize (Ht m eq_refl); destruct (type m); set_solver.
Qed.

(** The pages of several groups follow each other. *)
Lemma scrape_groups gs p :
  NoDup gs.*1 → (∀ n, n ∈ gs.*1 → unread p n) →
  Forall (λ g, g.2 ≠ [] ∧ Forall clean g.2 ∧ Forall (λ m, name m = g.1) g.2) gs →
  NoDup ((samples p).*1 ++ (List.flat_map (λ g, sample_of <$> g.2) gs).*1) →
  scrape_lines p (List.flat_map (λ g, group_lines g.1 g.2) gs)
    = Some (mkPage (helped p ++ gs.*1) (typed p ++ List.flat_map group_type gs)
              (samples p ++ List.flat_map (λ g, sample_of <$> g.2) gs)).
Proof.
  revert p. induction gs as [|[n ms] gs IH]; intros p Hnd Hu Hg Hd.
  { cbn. rewrite !app_nil_r. by destruct p. }
  apply Forall_cons in Hg as [(Hne & Hc & Hn) Hg]. cbn [fst snd] in *.
  cbn [fmap list_fmap fst] in Hnd, Hu. apply NoDup_cons in Hnd as [Hnew Hnd].
  cbn [List.flat_map fst snd] in Hd |- *. rewrite fmap_app in Hd.
  rewrite scrape_lines_app, scrape_group; [|done|done|done|apply Hu; set_solver|].
  2: { rewrite (assoc_L (++)) in Hd. by apply NoDup_app in Hd as [? _]. }
  cbn [mbind option_bind]. rewrite IH; cbn [helped typed samples].
  - rewrite <-!(assoc_L (++)). done.
  - done.
  - intros n' Hn'. assert (n' ≠ n) by set_solver.
    destruct (Hu n') as (U1 & U2 & U3); [set_solver|]. unfold unread, sample_names in *.
    cbn [helped typed samples]. rewrite !fmap_app. split_and!.
    + set_solver.
    + intros [?|Hin]%elem_of_app; [done|]. unfold group_type in Hin.
      destruct ms; cbn in Hin; set_solver.
    + intros [?|Hin]%elem_of_app; [done|].
      apply list_elem_of_fmap in Hin as (s & -> & (m & -> & Hm)%list_elem_of_fmap).
      rewrite list.Forall_forall in Hn. by apply Hn in Hm.
  - done.
  - rewrite fmap_app, <-(assoc_L (++)). exact Hd.
Qed.

(** The groups hold every metric once. *)
Lemma named_partition (ns : list string) (ms : list (Metric (M := M))) :
  NoDup ns → (∀ m, m ∈ ms → name m ∈ ns) → List.flat_map (λ n, named n ms) ns ≡ₚ ms.
Proof.
  intros Hnd. revert ms. induction Hnd as [|n ns Hn _ IH]; intros ms Hin.
  { destruct ms as [|m ms]; [done|]. specialize (Hin m ltac:(set_solver)). set_solver. }
  cbn [List.flat_map]. etransitivity; [|apply (filter_app_complement (λ m, name m = n))].
  apply Permutation_app; [done|].
  etransitivity; [|apply (IH (filter (λ m, name m ≠ n) ms))].
  - assert (∀ n', n' ∈ ns → named n' ms = named n' (filter (λ m, name m ≠ n) ms)) as Heq.
    { intros n' Hn'. unfold named. rewrite list_filter_filter_l; [done|].
      intros m <- <-. done. }
    clear -Heq. induction ns as [|n' ns IH]; [done|]. cbn [List.flat_map].
    rewrite Heq by set_solver. apply Permutation_app_head, IH. intros; apply Heq. set_solver.
  - intros m [Hne Hm]%list_elem_of_filter. specialize (Hin m Hm). set_solver.
Qed.

Lemma named_groups (ns : list string) (ms : list (Metric (M := M))) n :
  NoDup ns → n ∈ ns → named n (List.flat_map (λ n, named n ms) ns) = named n ms.
Proof.
  assert (Hnn : ∀ n', named n (named n' ms) = if decide (n = n') then named n ms else []).
  { intros n'. unfold named. rewrite list_filter_filter. case_decide as Hd.
    - subst. apply list_filter_iff. naive_solver.
    - induction ms as [|m ms IH]; [done|]. rewrite filter_cons, decide_False; [done|]. naive_solver. }
  assert (Hout : ∀ ns, n ∉ ns → named n (List.flat_map (λ n, named n ms) ns) = []).
  { intros l. induction l as [|n' l IH]; intros Hl; [done|]. cbn [List.flat_map].
    unfold named at 1. rewrite filter_app. change (named n (named n' ms) ++ named n (List.flat_map (λ n, named n ms) l) = []).
    rewrite Hnn, decide_False, IH; set_solver. }
  intros Hnd Hin. induction Hnd as [|n' ns Hn' _ IH]; [set_solver|]. cbn [List.flat_map].
  unfold named at 1. rewrite filter_app.
  change (named n (named n' ms) ++ named n (List.flat_map (λ n, named n ms) ns) = named n ms).
  rewrite Hnn. case_decide as Hd.
  - subst. by rewrite Hout, app_nil_r.
  - rewrite IH; [done|]. set_solver.
Qed.

Lemma filter_map {A B} (P : B → Prop) `{∀ b, Decision (P b)} (f : A → B) (l : list A) :
  filter P (f <$> l) = f <$> filter (λ a, P (f a)) l.
Proof.
  induction l as [|a l IH]; [done|]. rewrite fmap_cons, !filter_cons.
  case_decide; [rewrite fmap_cons; by f_equal|done].
Qed.

(** The exporters the format can carry as they print themselves: clean metrics, no
    series recorded twice. *)
Definition carriable (x : MetricsExporter (M := M)) : Prop :=
  Forall clean (metrics_ x) ∧ NoDup ((λ m, (sample_of m).1) <$> metrics_ x).

(** C15: what is scraped is what was recorded.  When every metric is clean (names and
    label names of the format's alphabet, label values that are ASCII and need no
    escape, no histogram) and no series is recorded twice, a scraper that refuses
    whatever breaks the format accepts the text, and reads from it exactly the
    recorded metrics, each once, with its labels in order and the text of its value,
    grouped by name in the order of the names and, within a name, in the order of
    recording; each name has the type it was recorded with first. *)
Theorem scrape_render (x : MetricsExporter (M := M)) :
  carriable x →
  ∃ p, scrape (render_prometheus x) = Some p ∧
    samples p = List.flat_map (λ g, sample_of <$> g.2) (map_entries (group (metrics_ x))) ∧
    samples p ≡ₚ sample_of <$> metrics_ x ∧
    (∀ n, filter (λ s, s.1.1 = n) (samples p) =
       filter (λ s, s.1.1 = n) (sample_of <$> metrics_ x)) ∧
    ∀ n t, (n, t) ∈ typed p ↔ ∃ m, head (named n (metrics_ x)) = Some m ∧ t = type_str (type m).
Proof.
  intros [Hc Hdup]. set (ms := metrics_ x) in *. set (gs := map_entries (group ms)).
  assert (Hgs : ∀ g, g ∈ gs → g.2 = named g.1 ms ∧ g.2 ≠ [])
    by (intros [n l] Hg; apply entries_group in Hg; exact Hg).
  assert (Hflat : List.flat_map (λ g, sample_of <$> g.2) gs
    = sample_of <$> List.flat_map (λ n, named n ms) gs.*1).
  { clear -Hgs. induction gs as [|g gs IH]; [done|]. cbn [List.flat_map fmap list_fmap].
    rewrite fmap_app, <-IH by set_solver. by rewrite (proj1 (Hgs g ltac:(set_solver))). }
  assert (Hnd : NoDup gs.*1) by apply entries_NoDup.
  assert (Hin : ∀ m, m ∈ ms → name m ∈ gs.*1).
  { intros m Hm. apply list_elem_of_fmap. exists (name m, named (name m) ms).
    split; [done|]. apply entries_group. split; [done|]. apply named_nonempty. by exists m. }
  assert (Hall : Forall (λ g, g.2 ≠ [] ∧ Forall clean g.2 ∧ Forall (λ m, name m = g.1) g.2) gs).
  { apply list.Forall_forall. intros g Hg. destruct (Hgs g Hg) as [Hg2 Hne]. split; [done|].
    rewrite Hg2. rewrite list.Forall_forall in Hc.
    split; apply list.Forall_forall; intros m [Hm1 Hm2]%list_elem_of_filter; auto. }
  assert (Hperm : List.flat_map (λ n, named n ms) gs.*1 ≡ₚ ms) by by apply named_partition.
  assert (Hlines : Forall line_free (List.flat_map (λ g, group_lines g.1 g.2) gs)).
  { clear -Hall. induction Hall as [|g gs (_ & H1 & H2) _ IH]; [done|]. cbn [List.flat_map].
    apply Forall_app. split; [by apply line_free_group|done]. }
  eexists. split.
  { unfold scrape. rewrite render_prometheus_lines. fold ms gs.
    rewrite getlines_unlines by exact Hlines. apply scrape_groups; [done| |done|].
    - intros n _. repeat split; apply not_elem_of_nil.
    - cbn [samples fmap list_fmap app]. rewrite Hflat, <-list_fmap_compose.
      rewrite Hperm. exact Hdup. }
  cbn [samples typed app]. split; [done|]. rewrite Hflat. split; [by rewrite Hperm|]. split.
  - intros n. rewrite !filter_map.
    assert (∀ l : list (Metric (M := M)), filter (λ a, (sample_of a).1.1 = n) l = named n l)
      as Hn by (intros l; by apply list_filter_iff).
    rewrite !Hn. f_equal. destruct (decide (n ∈ gs.*1)) as [Hn1|Hn1]; [by apply named_groups|].
    assert (∀ l : list (Metric (M := M)), (∀ m, m ∈ l → m ∈ ms) → named n l = []) as Hnil.
    { intros l Hl. destruct (named n l) as [|m l'] eqn:E; [done|].
      assert (m ∈ named n l) as Hm by (rewrite E; set_solver).
      apply list_elem_of_filter in Hm as [<- Hm]. destruct Hn1. by apply Hin, Hl. }
    rewrite !Hnil; [done|done|]. intros m Hm. by rewrite Hperm in Hm.
  - intros n t. rewrite list_elem_of_In, in_flat_map. split.
    + intros ([n' l] & Hg%list_elem_of_In & Ht). destruct (Hgs _ Hg) as [H1 _]. cbn in H1.
      unfold group_type in Ht. cbn [fst snd] in Ht. destruct l as [|m l]; [done|].
      destruct Ht as [[= <- <-]|[]]. exists m. by rewrite <-H1.
    + intros (m & Hm & ->). exists (n, named n ms). unfold group_type. cbn [fst snd].
      destruct (named n ms) as [|m' l] eqn:E; [done|]. injection Hm as ->.
      split; [|by left]. apply list_elem_of_In, entries_group. by rewrite E.
Qed.
End roundtrip.

(** * Concrete runs *)
Lemma example_carriable : carriable example_exporter.
Proof.
  assert (Hm : ∀ n t v ls, valid_name n = true → t ≠ MetricType.Histogram →
    ∀ l, map_entries (M := gmap string) ls = l → Forall clean_label l →
    clean (mkMetric n t v ls))
    by (intros n t v ls H1 H2 l <- H3; exact (conj H1 (conj H2 H3))).
  split.
  - change (metrics_ example_exporter) with
      [mkMetric "jobs" MetricType.Counter (f64_of_Z 1) map_new;
       mkMetric "done" MetricType.Gauge (f64_of_Z 1234567) map_new;
       mkMetric "jobs" MetricType.Counter (f64_of_Z 1) example_labels].
    repeat (apply Forall_cons; split); [..|by constructor];
      (eapply Hm; [reflexivity|discriminate|vm_compute; reflexivity|]).
    + constructor.
    + constructor.
    + repeat constructor.
  - apply (bool_decide_unpack _). vm_compute. exact I.
Qed.

Lemma scrape_render_witness :
  ∃ p, scrape (render_prometheus example_exporter) = Some p ∧
    samples p = [("done", [], "1.23457e+06"); ("jobs", [], "1");
                 ("jobs", [("exit_code", "0"); ("target", "local")], "1")].
Proof.
  destruct (scrape_render example_exporter example_carriable) as (p & H1 & H2 & _).
  exists p. split; [exact H1|]. rewrite H2. vm_compute. reflexivity.
Defined.

(** What the daemon records is not what the format carries: its names have dots, its
    gauges are recorded once for every job and its durations are histograms with a
    plain sample.  Any of the three makes the text unreadable. *)
Example dotted_name_unreadable :
  scrape (render_prometheus (gauge "sandbox.jobs_completed" (f64_of_Z 1)
    (map_new : gmap string string) MetricsExporter_new)) = None.
Proof. vm_compute. reflexivity. Qed.

Example recorded_twice_unreadable :
  scrape (render_prometheus (gauge "jobs" (f64_of_Z 2) (map_new : gmap string string)
    (gauge "jobs" (f64_of_Z 1) map_new MetricsExporter_new))) = None.
Proof. vm_compute. reflexivity. Qed.

Example plain_histogram_unreadable :
  scrape (render_prometheus (histogram "duration" (f64_of_Z 2) (map_new : gmap string string)
    MetricsExporter_new)) = None.
Proof. vm_compute. reflexivity. Qed.

(** A label that needs an escape is printed without one, and read as another. *)
Example unescaped_label_misread :
  samples <$> scrape (render_prometheus (gauge "jobs" (f64_of_Z 1)
    (map_assign "path" ("C:" +:+ String.String backslash "new") map_new : gmap string string)
    MetricsExporter_new))
  = Some [("jobs", [("path", "C:" +:+ String.String newline "ew")], "1")].
Proof. vm_compute. reflexivity. Qed.
