(* ===== verification/HealthMonitor.v ===== *)
(** [HealthMonitor] (health_monitor.hpp, health_monitor.cpp): the registered
    checks, their last results, the queries, and the monitor thread with the
    mutex it shares with the queries.  The two [std::map]s are used through the
    interface of StdMap; a check reads and changes a world of type [W]. *)
From stdpp Require Import sorting.
From S2P Require Import Prelude CppString StdMap.

#[local] Open Scope Z_scope.

(** * Data *)
Record HealthStatus : Type := mkStatus {
  id : string;
  healthy : bool;
  message : string;
  last_check : Z;
}.

Section health.
Context {M : Type → Type} `{StdMapLaws M} {W : Type}.

(** [std::function<bool(std::string&)>]: the verdict and what it wrote to its
    argument, which is empty before the call. *)
Definition HealthCheckFn : Type := W → bool * string * W.

Record HealthMonitor : Type := mkHealth {
  checks_ : M HealthCheckFn;
  statuses_ : M HealthStatus;
  interval_ms_ : Z;
  running_ : bool;
}.

Definition HealthMonitor_new : HealthMonitor := mkHealth map_new map_new 5000 false.

Definition set_statuses (m : M HealthStatus) (h : HealthMonitor) : HealthMonitor :=
  mkHealth (checks_ h) m (interval_ms_ h) (running_ h).
Definition set_running (b : bool) (h : HealthMonitor) : HealthMonitor :=
  mkHealth (checks_ h) (statuses_ h) (interval_ms_ h) b.

(** * Operations *)
Definition register_check (now : Z) (i : string) (fn : HealthCheckFn) (h : HealthMonitor)
    : HealthMonitor :=
  mkHealth (map_assign i fn (checks_ h))
    (map_assign i (mkStatus i true "pending" now) (statuses_ h))
    (interval_ms_ h) (running_ h).

Definition set_interval_ms (ms : Z) (h : HealthMonitor) : HealthMonitor :=
  mkHealth (checks_ h) (statuses_ h) ms (running_ h).

Definition start (h : HealthMonitor) : HealthMonitor :=
  if running_ h then h else set_running true h.

(** [stop] clears the flag; [stop_and_join] below joins the thread. *)
Definition stop (h : HealthMonitor) : HealthMonitor := set_running false h.

Definition get_all (h : HealthMonitor) : list HealthStatus := (map_entries (statuses_ h)).*2.

Definition is_healthy (i : string) (h : HealthMonitor) : bool :=
  match map_find (statuses_ h) i with Some s => healthy s | None => false end.

Definition unhealthy_count (h : HealthMonitor) : Z :=
  fold_left (λ count p, if negb (healthy p.2) then count + 1 else count)
    (map_entries (statuses_ h)) 0.

(** The status one check leaves. *)
Definition check_status (now : Z) (i : string) (ok : bool) (msg : string) : HealthStatus :=
  mkStatus i ok (if bool_decide (msg = "") then (if ok then "ok" else "unhealthy") else msg) now.

(** The loop over the checks, under the lock. *)
Fixpoint run_checks (now : Z) (fns : list (string * HealthCheckFn)) (m : M HealthStatus) (w : W)
    : M HealthStatus * W :=
  match fns with
  | [] => (m, w)
  | (i, fn) :: fns =>
      let '(ok, msg, w) := fn w in
      run_checks now fns (map_assign i (check_status now i ok msg) m) w
  end.

(** What a turn of the monitor does to the statuses. *)
Definition check_all (now : Z) (h : HealthMonitor) (w : W) : HealthMonitor * W :=
  let '(m, w) := run_checks now (map_entries (checks_ h)) (statuses_ h) w in
  (set_statuses m h, w).

(** * The monitor thread and the mutex *)

(** Where the thread is: testing [running_], inside the locked part, at the given
    count of the sleep loop, at the end of the loop's scope, or returned. *)
Inductive pc : Type := AtTest | Checking | Sleeping (i : Z) | AtScopeEnd | Returned.

(** Who holds the mutex; callers of the queries and of [register_check] are
    numbered. *)
Inductive thread : Type := Monitor | Caller (n : nat).
#[global] Instance thread_eq_dec : EqDecision thread.
Proof. solve_decision. Defined.

Record system : Type := mkSystem {
  monitor : HealthMonitor;
  world : W;
  owner : option thread;
  at_ : pc;
}.

(** [unlock]: undefined unless the caller holds the mutex. *)
Definition unlock (t : thread) (owner : option thread) : outcome (option thread) :=
  if decide (owner = Some t) then Ret None else Undefined.

(** One step of [monitor_loop]; [Blocked] while another thread holds the mutex. *)
Definition monitor_step (now : Z) (s : system) : outcome system :=
  match at_ s with
  | AtTest =>
      if running_ (monitor s) then
        match owner s with
        | None => Ret (mkSystem (monitor s) (world s) (Some Monitor) Checking)
        | Some _ => Blocked
        end
      else Ret (mkSystem (monitor s) (world s) (owner s) Returned)
  | Checking =>
      let '(h, w) := check_all now (monitor s) (world s) in
      (* lock.~lock_guard() *)
      o ← unlock Monitor (owner s);
      Ret (mkSystem h w o (Sleeping 0))
  | Sleeping i =>
      Ret (mkSystem (monitor s) (world s) (owner s)
             (if (i <? interval_ms_ (monitor s) / 100) && running_ (monitor s)
              then Sleeping (i + 1) else AtScopeEnd))
  | AtScopeEnd =>
      (* the scope of [lock] ends: its destructor runs again *)
      o ← unlock Monitor (owner s);
      Ret (mkSystem (monitor s) (world s) o AtTest)
  | Returned => Ret s
  end.

(** [thread_.join()]: the thread runs until it returns, nothing else moving. *)
Fixpoint join (fuel : nat) (now : Z) (s : system) : outcome system :=
  match at_ s, fuel with
  | Returned, _ => Ret s
  | _, O => OutOfFuel
  | _, S fuel => s ← monitor_step now s; join fuel now s
  end.

(** [HealthMonitor::stop], also the destructor, called while the thread is wherever
    it is. *)
Definition stop_and_join (now : Z) (s : system) : outcome system :=
  join 5 now (mkSystem (stop (monitor s)) (world s) (owner s) (at_ s)).

(** The steps the thread takes by itself, one for each reading of the clock. *)
Fixpoint thread_run (clock : list Z) (s : system) : outcome system :=
  match clock with
  | [] => Ret s
  | now :: clock => s ← monitor_step now s; thread_run clock s
  end.

(** The system as a transition system: the monitor thread, the callers of the
    locked operations, and the unlocked changes of the flag and the interval. *)
Inductive step : system → outcome system → Prop :=
  | step_monitor now s m : monitor_step now s = m → m ≠ Blocked → step s m
  | step_lock n s :
      owner s = None →
      step s (Ret (mkSystem (monitor s) (world s) (Some (Caller n)) (at_ s)))
  | step_register n s now i fn :
      owner s = Some (Caller n) →
      step s (Ret (mkSystem (register_check now i fn (monitor s)) (world s) (owner s) (at_ s)))
  | step_unlock n s o :
      unlock (Caller n) (owner s) = Ret o →
      step s (Ret (mkSystem (monitor s) (world s) o (at_ s)))
  | step_stop s :
      step s (Ret (mkSystem (stop (monitor s)) (world s) (owner s) (at_ s)))
  | step_interval ms s :
      step s (Ret (mkSystem (set_interval_ms ms (monitor s)) (world s) (owner s) (at_ s))).

(** [start] has just created the thread. *)
Definition started (h : HealthMonitor) (w : W) : system := mkSystem (start h) w None AtTest.

Inductive reachable (s0 : system) : system → Prop :=
  | reach_refl : reachable s0 s0
  | reach_step s s' : reachable s0 s → step s (Ret s') → reachable s0 s'.

Lemma reachable_trans s0 s1 s2 : reachable s0 s1 → reachable s1 s2 → reachable s0 s2.
Proof. intros H01 H12. induction H12; [done|by eapply reach_step]. Qed.

(** * The double unlock *)
Definition lock_inv (s : system) : Prop := owner s = Some Monitor ↔ at_ s = Checking.

Lemma step_lock_inv s s' : lock_inv s → step s (Ret s') → lock_inv s'.
Proof.
  unfold lock_inv. intros Hs Hst. inversion Hst; subst; cbn in *; try done.
  - unfold monitor_step in *. destruct (at_ s) eqn:Hat.
    + destruct (running_ (monitor s)), (owner s); simplify_eq/=; naive_solver.
    + destruct (check_all _ _ _) as [h w]. unfold unlock in *.
      case_decide; simplify_eq/=; naive_solver.
    + simplify_eq/=. case_match; naive_solver.
    + unfold unlock in *. case_decide; simplify_eq/=; naive_solver.
    + simplify_eq. by rewrite Hat.
  - split; [done|]. intros Hc. apply Hs in Hc. congruence.
  - unfold unlock in *. case_decide; simplify_eq/=. split; [done|].
    intros Hc. apply Hs in Hc. congruence.
Qed.

Lemma reachable_lock_inv h w s : reachable (started h w) s → lock_inv s.
Proof. induction 1; [done|by eapply step_lock_inv]. Qed.

(** The sleep loop, undisturbed. *)
Lemma sleep_step s0 (now : Z) i s :
  reachable s0 s → at_ s = Sleeping i →
  reachable s0 (mkSystem (monitor s) (world s) (owner s)
    (if (i <? interval_ms_ (monitor s) / 100) && running_ (monitor s)
     then Sleeping (i + 1) else AtScopeEnd)).
Proof.
  intros Hr Hat. eapply reach_step; [done|]. apply (step_monitor now); [|done].
  unfold monitor_step. by rewrite Hat.
Qed.

Lemma sleep_ends s0 (now : Z) i s :
  reachable s0 s → at_ s = Sleeping i →
  ∃ s', reachable s0 s' ∧ at_ s' = AtScopeEnd.
Proof.
  remember (Z.to_nat (interval_ms_ (monitor s) / 100 - i)) as n eqn:Hn.
  revert i s Hn. induction n as [|n IH]; intros i s Hn Hr Hat;
    pose proof (sleep_step s0 now i s Hr Hat) as Hr'.
  - rewrite (proj2 (Z.ltb_ge i _)) in Hr' by lia. by eexists.
  - rewrite (proj2 (Z.ltb_lt i _)) in Hr' by lia.
    destruct (running_ (monitor s)); [|by eexists].
    eapply (IH (i + 1)); [|exact Hr'|done]. cbn. lia.
Qed.

(** C27: the lock of the monitor's loop is released twice.  Whatever the callers
    do, a monitor thread that reaches the end of the loop's scope unlocks a mutex
    it does not hold, which is undefined; and every state in which the thread is
    about to start a turn, with the flag set and the mutex free, leads to that point:
    no turn of the loop ends within the language. *)
Theorem monitor_turn_undefined h w s now :
  reachable (started h w) s →
  (at_ s = AtScopeEnd → monitor_step now s = Undefined) ∧
  (at_ s = AtTest → running_ (monitor s) = true → owner s = None →
     ∃ s', reachable s s' ∧ step s' Undefined).
Proof.
  intros Hr. assert (Hend : ∀ s, reachable (started h w) s → at_ s = AtScopeEnd →
    monitor_step now s = Undefined).
  { clear s Hr. intros s Hr Hat. pose proof (reachable_lock_inv h w s Hr) as Hi.
    unfold monitor_step. rewrite Hat. unfold unlock. rewrite decide_False; [done|].
    intros Ho. apply Hi in Ho. congruence. }
  split; [by apply Hend|]. intros Hat Hrun Ho.
  assert (Hr1 : reachable s (mkSystem (monitor s) (world s) (Some Monitor) Checking)).
  { eapply reach_step; [apply reach_refl|]. apply (step_monitor now); [|done].
    unfold monitor_step. by rewrite Hat, Hrun, Ho. }
  destruct (check_all now (monitor s) (world s)) as [h2 w2] eqn:Hc.
  assert (Hr2 : reachable s (mkSystem h2 w2 None (Sleeping 0))).
  { eapply reach_step; [exact Hr1|]. apply (step_monitor now); [|done].
    unfold monitor_step. cbn. rewrite Hc. done. }
  destruct (sleep_ends _ now 0 _ Hr2 eq_refl) as (s' & Hr3 & Hat3).
  exists s'. split; [done|]. apply (step_monitor now); [|done].
  apply Hend; [by eapply reachable_trans|done].
Qed.

Lemma free_outside s :
  lock_inv s → at_ s ≠ Checking → (∀ n, owner s ≠ Some (Caller n)) → owner s = None.
Proof.
  intros Hi Hat Hn. destruct (owner s) as [[|n]|] eqn:Ho; [|by destruct (Hn n)|done].
  by apply Hi in Ho.
Qed.

(** What stopping comes to, by the point the thread is at. *)
Lemma stop_and_join_eq now s :
  lock_inv s → (∀ n, owner s ≠ Some (Caller n)) →
  stop_and_join now s =
    match at_ s with
    | AtTest | Returned =>
        Ret (mkSystem (stop (monitor s)) (world s) (owner s) Returned)
    | _ => Undefined
    end.
Proof.
  intros Hi Hn. unfold lock_inv in Hi.
  unfold stop_and_join. destruct (at_ s) as [| |i| |] eqn:Hat; try reflexivity.
  - cbn [join at_ monitor_step owner]. rewrite (proj2 Hi eq_refl).
    unfold unlock at 1. rewrite decide_True by done. cbn [monitor world].
    destruct (check_all now (stop (monitor s)) (world s)) as [h' w'] eqn:Hc.
    assert (running_ h' = false) as Hrun.
    { unfold check_all in Hc. destruct (run_checks _ _ _ _) as [m v]. by injection Hc as <- _. }
    cbn [mbind outcome_bind join at_ monitor_step monitor world owner]. rewrite Hrun, andb_false_r.
    reflexivity.
  - assert (owner s = None) as Ho.
    { apply (free_outside s); [|by rewrite Hat|done]. unfold lock_inv. by rewrite Hat. }
    cbn [join at_ monitor_step owner monitor world]. rewrite Ho.
    change (running_ (stop (monitor s))) with false. rewrite andb_false_r. reflexivity.
  - assert (owner s = None) as Ho.
    { apply (free_outside s); [|by rewrite Hat|done]. unfold lock_inv. by rewrite Hat. }
    cbn [join at_ monitor_step owner]. rewrite Ho. reflexivity.
Qed.
(** A thread inside a turn: it holds the mutex during the checks, and nobody does
    afterwards. *)
Definition in_turn (s : system) : Prop :=
  match at_ s with
  | Checking => owner s = Some Monitor
  | Sleeping _ | AtScopeEnd => owner s = None
  | AtTest | Returned => False
  end.

Lemma thread_run_in_turn clock s :
  in_turn s →
  thread_run clock s = Undefined ∨ ∃ s', thread_run clock s = Ret s' ∧ in_turn s'.
Proof.
  revert s. induction clock as [|now clock IH]; intros s Hs; [right; by exists s|].
  cbn [thread_run]. unfold in_turn in Hs. unfold monitor_step.
  destruct (at_ s) as [| |i| |]; try done; rewrite ?Hs.
  - destruct (check_all _ _ _) as [h w]. unfold unlock. rewrite decide_True by done. by apply IH.
  - apply IH. unfold in_turn. cbn. by destruct (_ && _).
  - left. unfold unlock. by rewrite decide_False.
Qed.

(** What joining a thread left to itself comes to: the flag is cleared before it
    tests it, or it has begun a turn. *)
Lemma stop_after_run clock now h w :
  (s ← thread_run clock (started h w); stop_and_join now s) =
    match clock with
    | [] => Ret (mkSystem (stop (start h)) w None Returned)
    | _ :: _ => Undefined
    end.
Proof.
  destruct clock as [|t clock]; [done|]. cbn [thread_run].
  assert (monitor_step t (started h w) = Ret (mkSystem (start h) w (Some Monitor) Checking)) as ->.
  { unfold monitor_step, started. cbn [at_ monitor owner world].
    assert (running_ (start h) = true) as -> by (unfold start; by destruct (running_ h) eqn:?).
    done. }
  cbn [mbind outcome_bind].
  destruct (thread_run_in_turn clock (mkSystem (start h) w (Some Monitor) Checking) eq_refl)
    as [-> | (s & -> & Hs)]; [done|]. cbn [mbind outcome_bind].
  unfold in_turn in Hs. rewrite stop_and_join_eq.
  - by destruct (at_ s).
  - unfold lock_inv. destruct (at_ s); naive_solver.
  - intros n. destruct (at_ s); naive_solver.
Qed.

(** C28: stopping is quick, and undefined once a turn has begun.  Whenever no caller
    holds the mutex, [stop] sees the end of the thread within five of its steps,
    whatever the interval: a thread that has not begun a turn, or has returned, is
    joined with the statuses as they are; one that is anywhere inside a turn leaves
    its sleep at once, and then unlocks a mutex it does not hold. *)
Theorem stop_joins h w s now :
  reachable (started h w) s → (∀ n, owner s ≠ Some (Caller n)) →
  stop_and_join now s =
    match at_ s with
    | AtTest | Returned =>
        Ret (mkSystem (stop (monitor s)) (world s) (owner s) Returned)
    | _ => Undefined
    end.
Proof.
  intros Hr Hn. apply stop_and_join_eq; [by eapply reachable_lock_inv|done].
Qed.

(** * The statuses *)

(** What the checks say when run in order, each on the world the previous left. *)
Fixpoint verdicts (now : Z) (fns : list (string * HealthCheckFn)) (w : W)
    : list (string * HealthStatus) * W :=
  match fns with
  | [] => ([], w)
  | (i, fn) :: fns =>
      let '(ok, msg, w) := fn w in
      let '(vs, w) := verdicts now fns w in
      ((i, check_status now i ok msg) :: vs, w)
  end.

Lemma run_checks_verdicts now fns m w :
  run_checks now fns m w =
    (fold_left (λ m p, map_assign p.1 p.2 m) (verdicts now fns w).1 m, (verdicts now fns w).2).
Proof.
  revert m w. induction fns as [|[i fn] fns IH]; intros m w; [done|]. cbn.
  destruct (fn w) as [[ok msg] w']. rewrite IH.
  by destruct (verdicts now fns w') as [vs w''].
Qed.

Lemma verdicts_keys now fns w : (verdicts now fns w).1.*1 = fns.*1.
Proof.
  revert w. induction fns as [|[i fn] fns IH]; intros w; [done|]. cbn.
  destruct (fn w) as [[ok msg] w']. specialize (IH w').
  destruct (verdicts now fns w') as [vs w'']. cbn in *. by f_equal.
Qed.

Lemma find_fold_assign (l : list (string * HealthStatus)) (m : M HealthStatus) i v :
  NoDup l.*1 →
  map_find (fold_left (λ m p, map_assign p.1 p.2 m) l m) i = Some v ↔
    (i, v) ∈ l ∨ ((i ∉ l.*1) ∧ map_find m i = Some v).
Proof.
  revert m. induction l as [|[j u] l IH]; intros m Hnd; cbn.
  { set_solver. }
  cbn in Hnd. apply NoDup_cons in Hnd as [Hj Hnd]. rewrite IH by done.
  rewrite find_assign, elem_of_cons, not_elem_of_cons.
  assert (∀ v, (j, v) ∈ l → False) as Hjl
    by (intros v' Hin; apply Hj; by apply (list_elem_of_fmap_2 fst _ (j, v'))).
  case_decide; subst; naive_solver.
Qed.

(** A name has a check exactly when it has a status. *)
Definition same_keys (h : HealthMonitor) : Prop :=
  ∀ i, is_Some (map_find (checks_ h) i) ↔ is_Some (map_find (statuses_ h) i).

Lemma elem_of_keys {V} (m : M V) i : i ∈ (map_entries m).*1 ↔ is_Some (map_find m i).
Proof.
  rewrite list_elem_of_fmap. split.
  - intros ([j v] & -> & Hin). apply entries_find in Hin. by eexists.
  - intros [v Hv]. exists (i, v). by rewrite entries_find.
Qed.

Lemma key_lt_keys {A B} (l1 : list (string * A)) (l2 : list (string * B)) :
  l1.*1 = l2.*1 → StronglySorted key_lt l1 → StronglySorted key_lt l2.
Proof.
  revert l2. induction l1 as [|[i a] l1 IH]; intros [|[j b] l2]; try done; cbn.
  { constructor. }
  intros [= -> Hk] [Hs Hf]%StronglySorted_inv. constructor; [by apply IH|].
  rewrite list.Forall_forall in Hf; rewrite list.Forall_forall. intros [k b'] Hin.
  assert (k ∈ l1.*1) as Hk1 by (rewrite Hk; by apply (list_elem_of_fmap_2 fst _ (k, b'))).
  apply list_elem_of_fmap in Hk1 as ([k' a'] & -> & Ha). exact (Hf _ Ha).
Qed.

Lemma check_all_entries now h w :
  same_keys h →
  map_entries (statuses_ (check_all now h w).1)
    = (verdicts now (map_entries (checks_ h)) w).1.
Proof.
  intros Hk. unfold check_all. rewrite run_checks_verdicts. cbn.
  set (fns := map_entries (checks_ h)). set (vs := (verdicts now fns w).1).
  assert (Hvs : vs.*1 = fns.*1) by apply verdicts_keys.
  assert (Hnd : NoDup vs.*1) by (rewrite Hvs; apply entries_NoDup).
  apply key_sorted_unique; [apply entries_sorted| |].
  - eapply key_lt_keys; [symmetry; exact Hvs|apply entries_sorted].
  - intros [i v]. rewrite entries_find, find_fold_assign by done. split; [|by left].
    intros [?|[Hi Hv]]; [done|]. destruct Hi. rewrite Hvs. unfold fns.
    apply elem_of_keys, Hk. by eexists.
Qed.

Lemma unhealthy_fold (l : list (string * HealthStatus)) n :
  fold_left (λ count p, if negb (healthy p.2) then count + 1 else count) l n
    = n + Z.of_nat (length (filter (λ s, healthy s = false) l.*2)).
Proof.
  revert n. induction l as [|[i s] l IH]; intros n; cbn [fold_left]; [cbn; lia|].
  rewrite IH, fmap_cons, filter_cons. cbn [snd].
  destruct (healthy s); cbn [negb decide decide_rel]; case_decide; try done; cbn [length]; lia.
Qed.

(** C14: after a turn of the monitor the statuses are exactly the verdicts of the
    registered checks, run once each in the order of their names: [get_all] lists
    them in that order, [unhealthy_count] counts the failing ones and [is_healthy]
    answers true exactly for the names of the passing ones. *)
Theorem check_all_spec now h w :
  same_keys h →
  let h' := (check_all now h w).1 in
  let vs := (verdicts now (map_entries (checks_ h)) w).1 in
  same_keys h' ∧
  get_all h' = vs.*2 ∧
  unhealthy_count h' = Z.of_nat (length (filter (λ s, healthy s = false) vs.*2)) ∧
  (∀ i, is_healthy i h' = true ↔ ∃ s, (i, s) ∈ vs ∧ healthy s = true) ∧
  (∀ i, is_Some (map_find (checks_ h) i) ↔ i ∈ vs.*1).
Proof.
  intros Hk h' vs. pose proof (check_all_entries now h w Hk) as He. fold h' vs in He.
  assert (Hvs : vs.*1 = (map_entries (checks_ h)).*1) by apply verdicts_keys.
  assert (Hc : checks_ h' = checks_ h)
    by (unfold h', check_all; by destruct (run_checks _ _ _ _)).
  split_and!.
  - intros i. by rewrite Hc, <-!elem_of_keys, He, Hvs.
  - unfold get_all. by rewrite He.
  - unfold unhealthy_count. by rewrite unhealthy_fold, He.
  - intros i. unfold is_healthy.
    rewrite <-He. setoid_rewrite entries_find.
    destruct (map_find (statuses_ h') i); naive_solver.
  - intros i. by rewrite Hvs, elem_of_keys.
Qed.

(** Registering keeps the two maps in step, and starts a check healthy. *)
Lemma register_check_same_keys now i fn h :
  same_keys h → same_keys (register_check now i fn h).
Proof.
  intros Hk j. cbn. rewrite !find_assign. case_decide; [|apply Hk].
  by split; intros _; eexists.
Qed.

Lemma new_same_keys : same_keys HealthMonitor_new.
Proof. intros i. cbn. rewrite !find_new. by split; intros [? [=]]. Qed.
End health.

(** * A concrete run *)
Definition example_health : HealthMonitor (M := gmap string) (W := nat) :=
  register_check 0 "redis" (λ w, (true, "", w))
    (register_check 0 "disk" (λ w, (Nat.even w, "", S w)) HealthMonitor_new).

Example example_turn :
  get_all (check_all 7 example_health 3%nat).1 =
    [mkStatus "disk" false "unhealthy" 7; mkStatus "redis" true "ok" 7].
Proof. vm_compute. reflexivity. Qed.

Lemma monitor_turn_undefined_witness :
  ∃ s', reachable (started example_health 3%nat) s' ∧ step s' Undefined.
Proof.
  exact (proj2 (monitor_turn_undefined example_health 3%nat _ 0 (reach_refl _))
    eq_refl eq_refl eq_refl).
Defined.

Lemma check_all_spec_witness :
  unhealthy_count (check_all 7 example_health 3%nat).1 = 1 ∧
  get_all (check_all 7 example_health 3%nat).1 =
    [mkStatus "disk" false "unhealthy" 7; mkStatus "redis" true "ok" 7].
Proof.
  destruct (check_all_spec 7 example_health 3%nat) as (_ & H1 & H2 & _).
  { apply register_check_same_keys, register_check_same_keys, new_same_keys. }
  rewrite H1, H2. split; vm_compute; reflexivity.
Defined.

Lemma stop_joins_witness :
  stop_and_join 0 (started example_health 3%nat) =
    Ret (mkSystem (stop (monitor (started example_health 3%nat))) 3%nat None Returned) ∧
  ∃ s, reachable (started example_health 3%nat) s ∧ at_ s = Checking ∧
    stop_and_join 0 s = Undefined.
Proof.
  split.
  - exact (stop_joins example_health 3%nat _ 0 (reach_refl _) (λ n, ltac:(done))).
  - assert (reachable (started example_health 3%nat)
      (mkSystem (monitor (started example_health 3%nat)) 3%nat (Some Monitor) Checking)) as Hr.
    { eapply reach_step; [apply reach_refl|]. by apply (step_monitor 0). }
    eexists. split; [exact Hr|]. split; [reflexivity|].
    exact (stop_joins example_health 3%nat _ 0 Hr (λ n, ltac:(done))).
Defined.
