(* ===== verification/ResourceMonitor.v ===== *)
(** [ResourceMonitor] (resource_monitor.hpp, resource_monitor.cpp): sampling a
    process through [/proc], the alerts a sample raises, the sample history and
    the limit checks.  Each call is one atomic step, and [monitor_step] is a whole
    turn of the monitor thread; MonitorThread has its steps. *)
From Stdlib Require Import Ascii.
From S2P Require Import Prelude CppString Float64 ProcFs.

#[local] Open Scope Z_scope.

(** * Data *)
Record ResourceLimits : Type := mkLimits {
  lim_memory_bytes : Z;
  lim_cpu_percent : Z;
  pids_max : Z;
  disk_bytes : Z;
  network_rx_bps : Z;
  network_tx_bps : Z;
}.

Definition default_limits : ResourceLimits :=
  mkLimits (256 * 1024 * 1024) 50 64 (1024 * 1024 * 1024)
    (10 * 1024 * 1024) (10 * 1024 * 1024).

(** A sample; [uptime_seconds], a [double] nothing reads, is left out. *)
Record ResourceUsage : Type := mkUsage {
  memory_bytes : Z;
  cpu_percent : Z;
  pids_current : Z;
  disk_read_bytes : Z;
  disk_write_bytes : Z;
  network_rx_bytes : Z;
  network_tx_bytes : Z;
}.

(** [ResourceUsage usage = {};] *)
Definition zero_usage : ResourceUsage := mkUsage 0 0 0 0 0 0 0.

Module Level.
Inductive t : Type := INFO | WARNING | CRITICAL.
#[global] Instance eq_dec : EqDecision t.
Proof. solve_decision. Defined.
End Level.

Record ResourceAlert : Type := mkAlert {
  alert_level : Level.t;
  resource : string;
  alert_message : string;
  current_value : f64;
  limit_value : f64;
  alert_timestamp : Z;
}.

Record HistoryEntry : Type := mkHistory { usage : ResourceUsage; timestamp : f64 }.

(** The object; [callback] is whether [alert_callback_] is set. *)
Record ResourceMonitor : Type := mkMonitor {
  target_pid_ : Z;
  limits_ : ResourceLimits;
  running_ : bool;
  history_ : list HistoryEntry;
  callback : bool;
  prev_cpu_time_ : Z;
}.

Definition ResourceMonitor_new (target_pid : Z) (limits : ResourceLimits) : ResourceMonitor :=
  mkMonitor target_pid limits false [] false 0.

Definition set_running (b : bool) (m : ResourceMonitor) : ResourceMonitor :=
  mkMonitor (target_pid_ m) (limits_ m) b (history_ m) (callback m) (prev_cpu_time_ m).
Definition set_prev_cpu_time (t : Z) (m : ResourceMonitor) : ResourceMonitor :=
  mkMonitor (target_pid_ m) (limits_ m) (running_ m) (history_ m) (callback m) t.
Definition set_history (h : list HistoryEntry) (m : ResourceMonitor) : ResourceMonitor :=
  mkMonitor (target_pid_ m) (limits_ m) (running_ m) h (callback m) (prev_cpu_time_ m).

(** * Start and stop *)
Definition start (m : ResourceMonitor) : bool * ResourceMonitor :=
  if running_ m then (false, m) else (true, set_running true m).
Definition stop (m : ResourceMonitor) : bool * ResourceMonitor :=
  if negb (running_ m) then (true, m) else (true, set_running false m).

Definition on_alert (m : ResourceMonitor) : ResourceMonitor :=
  mkMonitor (target_pid_ m) (limits_ m) (running_ m) (history_ m) true (prev_cpu_time_ m).
Definition set_limit (limits : ResourceLimits) (m : ResourceMonitor) : bool * ResourceMonitor :=
  (true, mkMonitor (target_pid_ m) limits (running_ m) (history_ m) (callback m)
           (prev_cpu_time_ m)).

(** * Sampling *)
Section sampling.
(** The files, and [sysconf(_SC_CLK_TCK)], a positive number of ticks a second. *)
Context (fs : file_system) (clk_tck : Z).

Definition status_path (pid : Z) : string := "/proc/" +:+ to_string pid +:+ "/status".
Definition stat_path (pid : Z) : string := "/proc/" +:+ to_string pid +:+ "/stat".
Definition io_path (pid : Z) : string := "/proc/" +:+ to_string pid +:+ "/io".

(** One line of [status]: the resident set and the thread count. *)
Definition status_line (u : Z * Z) (line : string) : Z * Z :=
  let '(memory, pids) := u in
  if substr_is line 6 "VmRSS:" then (u64 (read_after 64 6 memory line * 1024), pids)
  else if substr_is line 4 "Threads:" then (memory, read_after 32 4 pids line)
  else u.

Definition read_status (pid : Z) : Z * Z :=
  match fs (status_path pid) with
  | Some contents => fold_left status_line (getlines contents) (0, 0)
  | None => (0, 0)
  end.

(** [utime] and [stime], after the 13 words before them. *)
Definition read_ticks (contents : string) : Z * Z :=
  let iss := Nat.iter 13 skip_token (istringstream (getline contents)) in
  let '(utime, iss) := read_uint 64 0 iss in
  let '(stime, _) := read_uint 64 0 iss in
  (utime, stime).

(** The share reported, and the new [prev_cpu_time_]. *)
Definition read_cpu (pid prev : Z) : Z * Z :=
  match fs (stat_path pid) with
  | Some contents =>
      let '(utime, stime) := read_ticks contents in
      let total_time := u64 (utime + stime) in
      let delta := u64 (total_time - prev) in
      (u32 (u64 (delta * 100) / clk_tck), total_time)
  | None => (0, prev)
  end.

Definition io_line (u : Z * Z) (line : string) : Z * Z :=
  let '(rd, wr) := u in
  if substr_is line 11 "read_bytes:" then (read_after 64 11 rd line, wr)
  else if substr_is line 12 "write_bytes:" then (rd, read_after 64 12 wr line)
  else u.

Definition read_io (pid : Z) : Z * Z :=
  match fs (io_path pid) with
  | Some contents => fold_left io_line (getlines contents) (0, 0)
  | None => (0, 0)
  end.

Definition read_usage (m : ResourceMonitor) : ResourceUsage * ResourceMonitor :=
  let '(memory, pids) := read_status (target_pid_ m) in
  let '(cpu, prev) := read_cpu (target_pid_ m) (prev_cpu_time_ m) in
  let '(rd, wr) := read_io (target_pid_ m) in
  (mkUsage memory cpu pids rd wr 0 0, set_prev_cpu_time prev m).

Definition get_usage (m : ResourceMonitor) : ResourceUsage * ResourceMonitor := read_usage m.

Definition is_over_limit (m : ResourceMonitor) : bool * ResourceMonitor :=
  let '(usage, m) := read_usage m in
  ((lim_memory_bytes (limits_ m) <? memory_bytes usage)
   || (lim_cpu_percent (limits_ m) <? cpu_percent usage)
   || (pids_max (limits_ m) <? pids_current usage), m).

Definition get_violations (m : ResourceMonitor) : list ResourceAlert * ResourceMonitor :=
  let '(usage, m) := read_usage m in
  ((if lim_memory_bytes (limits_ m) <? memory_bytes usage then
      [mkAlert Level.CRITICAL "memory" "Memory limit exceeded"
         (f64_of_Z (memory_bytes usage)) (f64_of_Z (lim_memory_bytes (limits_ m))) 0]
    else [])
   ++ (if lim_cpu_percent (limits_ m) <? cpu_percent usage then
         [mkAlert Level.WARNING "cpu" "CPU limit exceeded"
            (f64_of_Z (cpu_percent usage)) (f64_of_Z (lim_cpu_percent (limits_ m))) 0]
       else []), m).
End sampling.

(** * Alerts *)

(** What the local [emit_alert] hands to the callback, if one is set. *)
Definition emit_alert (m : ResourceMonitor) (now : Z) (level : Level.t)
    (resource msg : string) (current limit : Z) : list ResourceAlert :=
  if callback m
  then [mkAlert level resource msg (f64_of_Z current) (f64_of_Z limit) now] else [].

Definition memory_alert (m : ResourceMonitor) (now : Z) (u : ResourceUsage)
    : list ResourceAlert :=
  let mem_ratio := fdiv (f64_of_Z (memory_bytes u)) (f64_of_Z (lim_memory_bytes (limits_ m))) in
  if fgt mem_ratio f0_9 then
    emit_alert m now Level.CRITICAL "memory" "Memory usage critical"
      (memory_bytes u) (lim_memory_bytes (limits_ m))
  else if fgt mem_ratio f0_75 then
    emit_alert m now Level.WARNING "memory" "Memory usage high"
      (memory_bytes u) (lim_memory_bytes (limits_ m))
  else [].

Definition check_alerts (m : ResourceMonitor) (now : Z) (u : ResourceUsage)
    : list ResourceAlert :=
  memory_alert m now u
  ++ (if lim_cpu_percent (limits_ m) <? cpu_percent u then
        emit_alert m now Level.WARNING "cpu" "CPU usage exceeded"
          (cpu_percent u) (lim_cpu_percent (limits_ m))
      else [])
  ++ (if pids_max (limits_ m) <? pids_current u then
        emit_alert m now Level.CRITICAL "pids" "Process limit exceeded"
          (pids_current u) (pids_max (limits_ m))
      else []).

(** * The monitor thread and its history *)

(** Append a sample, then drop the oldest beyond 1000. *)
Definition push_history (e : HistoryEntry) (h : list HistoryEntry) : list HistoryEntry :=
  let h := h ++ [e] in
  if decide (1000 < length h)%nat then tail h else h.

(** One turn of [monitor_loop]: the alerts it raises and the new state.  [now1] and
    [now2] are the two readings of the clock. *)
Definition monitor_step (fs : file_system) (clk_tck now1 now2 : Z) (m : ResourceMonitor)
    : list ResourceAlert * ResourceMonitor :=
  let '(u, m) := read_usage fs clk_tck m in
  let m := set_history (push_history (mkHistory u (f64_of_Z now1)) (history_ m)) m in
  (check_alerts m now2 u, m).

(** [get_history]: [result.reserve(last_n)] comes before the copy. *)
Definition get_history (reserve_ok : Z → bool) (last_n : Z) (m : ResourceMonitor)
    : outcome (list HistoryEntry) :=
  let n := Z.of_nat (length (history_ m)) in
  let start := if last_n <? n then n - last_n else 0 in
  if reserve_ok last_n
  then Ret (omap (λ i, history_ m !! i) (seq (Z.to_nat start) (Z.to_nat (n - start))))
  else Throw bad_alloc.

(** * Sampling: lemmas *)
Lemma substr_is_long line n key :
  (n < String.length key)%nat → substr_is line n key = false.
Proof.
  intros Hn. apply bool_decide_eq_false. intros H.
  apply (f_equal String.length) in H. unfold substr0 in H.
  rewrite length_string_take in H. lia.
Qed.

Lemma substr_is_prefix key r : substr_is (key +:+ r) (String.length key) key = true.
Proof.
  apply bool_decide_eq_true. unfold substr0.
  induction key as [|c key IH]; [by destruct r|].
  rewrite string_app_cons. simpl. by rewrite IH.
Qed.

(** The second key is compared with four characters only: it never matches. *)
Lemma status_line_pids u line : (status_line u line).2 = u.2.
Proof.
  destruct u as [memory pids]. unfold status_line.
  rewrite (substr_is_long line 4 "Threads:") by (simpl; lia).
  by destruct (substr_is line 6 "VmRSS:").
Qed.

Lemma fold_status_pids ls u : (fold_left status_line ls u).2 = u.2.
Proof.
  revert u. induction ls as [|l ls IH]; intros u; [done|].
  simpl. by rewrite IH, status_line_pids.
Qed.

Lemma read_status_pids fs pid : (read_status fs pid).2 = 0.
Proof. unfold read_status. destruct (fs _); [by rewrite fold_status_pids|done]. Qed.

Lemma read_usage_fields fs clk m :
  (read_usage fs clk m).1 =
    mkUsage (read_status fs (target_pid_ m)).1
      (read_cpu fs clk (target_pid_ m) (prev_cpu_time_ m)).1
      0 (read_io fs (target_pid_ m)).1 (read_io fs (target_pid_ m)).2 0 0 ∧
  (read_usage fs clk m).2 =
    set_prev_cpu_time (read_cpu fs clk (target_pid_ m) (prev_cpu_time_ m)).2 m.
Proof.
  unfold read_usage. pose proof (read_status_pids fs (target_pid_ m)) as Hp.
  destruct (read_status fs (target_pid_ m)) as [mem pids]. simpl in Hp. subst.
  by destruct (read_cpu _ _ _ _), (read_io _ _).
Qed.

(** Reading the same file twice leaves nothing to report the second time. *)
Lemma read_cpu_again fs clk pid prev :
  (read_cpu fs clk pid (read_cpu fs clk pid prev).2).1 = 0 ∧
  (read_cpu fs clk pid (read_cpu fs clk pid prev).2).2 = (read_cpu fs clk pid prev).2.
Proof.
  unfold read_cpu. destruct (fs (stat_path pid)) as [s|]; [|done].
  destruct (read_ticks s) as [ut st]. simpl. rewrite Z.sub_diag.
  split; [|done]. by rewrite (wrap_small 64 0), (wrap_small 64 (0 * 100)), Zdiv_0_l by lia.
Qed.

Lemma over_limit_after_usage fs clk m :
  0 <= lim_cpu_percent (limits_ m) → 0 <= pids_max (limits_ m) →
  let '(u, m') := get_usage fs clk m in
  (is_over_limit fs clk m').1 = (lim_memory_bytes (limits_ m) <? memory_bytes u).
Proof.
  intros Hc Hp. unfold get_usage, is_over_limit.
  pose proof (read_usage_fields fs clk m) as [H1 H2].
  destruct (read_usage fs clk m) as [u m']. simpl in H1, H2. subst u m'.
  set (m' := set_prev_cpu_time _ m).
  pose proof (read_usage_fields fs clk m') as [H3 H4].
  destruct (read_usage fs clk m') as [u2 m2]. simpl in H3, H4. subst u2 m2.
  cbn [fst memory_bytes cpu_percent pids_current limits_ set_prev_cpu_time].
  change (target_pid_ m') with (target_pid_ m). change (limits_ m') with (limits_ m).
  unfold m'. cbn [prev_cpu_time_ set_prev_cpu_time]. rewrite (proj1 (read_cpu_again _ _ _ _)).
  case_Z; simpl; try done; lia.
Qed.

(** A file with one [VmRSS:] line gives that line's kilobytes, in bytes. *)
Lemma status_line_other u line :
  substr_is line 6 "VmRSS:" = false → status_line u line = u.
Proof.
  intros H. destruct u. unfold status_line. by rewrite H, (substr_is_long line 4) by (simpl; lia).
Qed.

Lemma fold_status_other ls u :
  Forall (λ l, substr_is l 6 "VmRSS:" = false) ls → fold_left status_line ls u = u.
Proof. induction 1; [done|]. simpl. by rewrite status_line_other. Qed.

Lemma status_line_rss u ws n r :
  all_space ws = true → in_uint 64 n →
  (∀ c r', r = String.String c r' → digit_of c = None) →
  status_line u ("VmRSS:" +:+ ws +:+ to_string n +:+ r) = (u64 (n * 1024), u.2).
Proof.
  intros Hws Hn Hr. destruct u as [memory pids]. unfold status_line.
  pose proof (substr_is_prefix "VmRSS:" (ws +:+ to_string n +:+ r)) as Hp.
  change (String.length "VmRSS:") with 6%nat in Hp. rewrite Hp.
  unfold read_after. pose proof (string_drop_app "VmRSS:" (ws +:+ to_string n +:+ r)) as Hd.
  change (String.length "VmRSS:") with 6%nat in Hd. rewrite Hd.
  by rewrite read_uint_number.
Qed.

(** The two tick counters are the words after the thirteenth. *)
Lemma read_ticks_spec words ut st r s :
  Forall (λ w, is_word w = true) words → length words = 13%nat →
  in_uint 64 ut → in_uint 64 st →
  free_of is_newline (unwords words +:+ to_string ut +:+ " " +:+ to_string st +:+ r) = true →
  (∀ c r', r = String.String c r' → digit_of c = None) →
  read_ticks ((unwords words +:+ to_string ut +:+ " " +:+ to_string st +:+ r)
              +:+ String.String newline s) = (ut, st).
Proof.
  intros Hw Hl Hu Hs Hn Hr. unfold read_ticks. rewrite getline_first by done.
  rewrite <-Hl, <-(string_app_nil_l (unwords words +:+ _)), skip_tokens_words by done.
  destruct words as [|w words]; [done|].
  change (String.String " "%char ?x) with (" " +:+ x).
  rewrite (read_uint_number 64 0 " " ut); [|done|done|by intros c r' [= <- _]].
  by rewrite (read_uint_number 64 0 " " st).
Qed.

(** * Properties of a monitor *)

(** C38: the share of processor time a monitor reports is the growth of utime and
    stime since its previous reading, in hundredths of the clock tick rate, with
    utime and stime read as the fourteenth and fifteenth words of the first line
    of [/proc/<pid>/stat]; the reading becomes the new reference. *)
Theorem read_usage_cpu fs clk m words ut st r s :
  fs (stat_path (target_pid_ m)) =
    Some ((unwords words +:+ to_string ut +:+ " " +:+ to_string st +:+ r)
          +:+ String.String newline s) →
  Forall (λ w, is_word w = true) words → length words = 13%nat →
  free_of is_newline (unwords words +:+ to_string ut +:+ " " +:+ to_string st +:+ r) = true →
  (∀ c r', r = String.String c r' → digit_of c = None) →
  0 <= ut → 0 <= st → 0 <= prev_cpu_time_ m <= ut + st → (ut + st) * 100 < 2 ^ 64 →
  0 < clk → (ut + st - prev_cpu_time_ m) * 100 / clk < 2 ^ 32 →
  cpu_percent (read_usage fs clk m).1 = (ut + st - prev_cpu_time_ m) * 100 / clk ∧
  prev_cpu_time_ (read_usage fs clk m).2 = ut + st.
Proof.
  intros Hfs Hw Hl Hn Hr Hu Hs Hp Hmax Hclk H32.
  pose proof (read_usage_fields fs clk m) as [-> ->].
  cbn [cpu_percent prev_cpu_time_ set_prev_cpu_time]. unfold read_cpu. rewrite Hfs.
  rewrite read_ticks_spec by (done || (unfold in_uint; lia)). cbn [fst snd].
  rewrite (wrap_small 64 (ut + st)), (wrap_small 64 (ut + st - _)) by lia.
  rewrite (wrap_small 64) by lia. split; [|done]. apply wrap_small.
  split; [apply Z.div_pos; lia|done].
Qed.

(** The memory a monitor reports is the last [VmRSS:] line of
    [/proc/<pid>/status], converted from kilobytes modulo 2^64. *)
Lemma read_usage_memory fs clk m before after ws n r :
  fs (status_path (target_pid_ m)) =
    Some (unlines (before ++ ("VmRSS:" +:+ ws +:+ to_string n +:+ r) :: after)) →
  Forall (λ l, free_of is_newline l = true)
    (before ++ ("VmRSS:" +:+ ws +:+ to_string n +:+ r) :: after) →
  Forall (λ l, substr_is l 6 "VmRSS:" = false) after →
  all_space ws = true → in_uint 64 n →
  (∀ c r', r = String.String c r' → digit_of c = None) →
  memory_bytes (read_usage fs clk m).1 = u64 (n * 1024).
Proof.
  intros Hfs Hnl Hafter Hws Hn Hr.
  pose proof (read_usage_fields fs clk m) as [-> _]. cbn [memory_bytes].
  unfold read_status. rewrite Hfs, getlines_unlines by done.
  rewrite fold_left_app. cbn [fold_left].
  by rewrite fold_status_other, status_line_rss.
Qed.

Lemma emit_alert_resource m now level r msg cur lim :
  r ≠ "pids" → Forall (λ a, resource a ≠ "pids") (emit_alert m now level r msg cur lim).
Proof. intros. unfold emit_alert. destruct (callback m); by repeat constructor. Qed.

(** The process count of a sample is always zero, because the key of its line
    is compared with a prefix that is too short: no monitor ever raises a [pids]
    alert, whatever the files say. *)
Lemma pids_never_reported fs clk now1 now2 m :
  0 <= pids_max (limits_ m) →
  pids_current (read_usage fs clk m).1 = 0 ∧
  Forall (λ a, resource a ≠ "pids") (monitor_step fs clk now1 now2 m).1.
Proof.
  intros Hp. pose proof (read_usage_fields fs clk m) as [H1 H2].
  rewrite H1. split; [done|]. unfold monitor_step.
  destruct (read_usage fs clk m) as [u m']. simpl in H1, H2. subst u m'. simpl.
  set (m' := set_history _ _). unfold check_alerts.
  change (pids_max (limits_ m')) with (pids_max (limits_ m)).
  cbn [pids_current]. rewrite (proj2 (Z.ltb_ge (pids_max (limits_ m)) 0)) by done.
  rewrite app_nil_r.
  apply Forall_app. split.
  - unfold memory_alert. do 2 (case_match; [by apply emit_alert_resource|]). done.
  - case_match; [by apply emit_alert_resource|done].
Qed.

(** C32: for memory limits up to one pebibyte the double arithmetic of the memory
    check loses nothing: a sample raises a critical alert exactly when it uses
    more than nine tenths of the limit, and a warning exactly when it uses more
    than three quarters and at most nine tenths. *)
Theorem memory_alert_exact m now u :
  0 <= memory_bytes u < 2 ^ 53 → 0 < lim_memory_bytes (limits_ m) <= 2 ^ 50 →
  memory_alert m now u =
    if 9 * lim_memory_bytes (limits_ m) <? 10 * memory_bytes u then
      emit_alert m now Level.CRITICAL "memory" "Memory usage critical"
        (memory_bytes u) (lim_memory_bytes (limits_ m))
    else if 3 * lim_memory_bytes (limits_ m) <? 4 * memory_bytes u then
      emit_alert m now Level.WARNING "memory" "Memory usage high"
        (memory_bytes u) (lim_memory_bytes (limits_ m))
    else [].
Proof. intros Hu Hl. unfold memory_alert. by rewrite ratio_gt_0_9, ratio_gt_0_75. Qed.

(** * The history *)
Lemma push_history_last_n e h h0 :
  h = last_n 1000 h0 → push_history e h = last_n 1000 (h0 ++ [e]).
Proof.
  intros ->. unfold push_history. case_decide as Hd.
  - rewrite length_app, length_last_n in Hd. cbn [length] in Hd.
    assert (Hl : last_n 1000 h0 ++ [e] = last_n 1001 (h0 ++ [e])).
    { unfold last_n. rewrite length_app. cbn [length].
      replace (length h0 + 1 - 1001)%nat with (length h0 - 1000)%nat by lia.
      by rewrite drop_app_le by lia. }
    rewrite Hl. unfold last_n. rewrite tail_drop, drop_drop, length_app. cbn [length].
    f_equal. lia.
  - rewrite length_app, length_last_n in Hd. cbn [length] in Hd.
    rewrite !last_n_all; [done| |]; rewrite ?length_app; cbn [length]; lia.
Qed.

(** The thread's turns, each under its own files and clock. *)
Fixpoint monitor_run (clk : Z) (turns : list (file_system * Z * Z)) (m : ResourceMonitor)
    : list ResourceAlert * ResourceMonitor :=
  match turns with
  | [] => ([], m)
  | (fs, now1, now2) :: turns =>
      let '(a, m) := monitor_step fs clk now1 now2 m in
      let '(b, m) := monitor_run clk turns m in
      (a ++ b, m)
  end.

(** Every sample the turns take, in order. *)
Fixpoint samples (clk : Z) (turns : list (file_system * Z * Z)) (m : ResourceMonitor)
    : list HistoryEntry :=
  match turns with
  | [] => []
  | (fs, now1, now2) :: turns =>
      let '(u, m') := read_usage fs clk m in
      mkHistory u (f64_of_Z now1) :: samples clk turns m'
  end.

Lemma samples_history clk turns h m : samples clk turns (set_history h m) = samples clk turns m.
Proof.
  revert m. induction turns as [|[[fs now1] now2] turns IH]; intros m; [done|].
  cbn [samples]. unfold read_usage. cbn [target_pid_ prev_cpu_time_ set_history].
  destruct (read_status _ _), (read_cpu _ _ _ _), (read_io _ _). f_equal.
  by rewrite <-(IH (set_prev_cpu_time _ m)).
Qed.

(** C31: however long the monitor runs, its history is the newest thousand of the
    samples it has taken, and [get_history n] returns the newest [n] of them. *)
Theorem history_newest clk turns m n :
  history_ m = [] → 0 <= n →
  history_ (monitor_run clk turns m).2 = last_n 1000 (samples clk turns m) ∧
  get_history (λ _, true) n (monitor_run clk turns m).2
    = Ret (last_n (Z.to_nat n) (last_n 1000 (samples clk turns m))).
Proof.
  intros Hm Hn.
  assert (H : ∀ m h0, history_ m = last_n 1000 h0 →
    history_ (monitor_run clk turns m).2 = last_n 1000 (h0 ++ samples clk turns m)).
  { clear m Hm. induction turns as [|[[fs now1] now2] turns IH]; intros m h0 Hh.
    { simpl. by rewrite app_nil_r. }
    cbn [monitor_run samples]. unfold monitor_step.
    pose proof (read_usage_fields fs clk m) as [_ H2].
    destruct (read_usage fs clk m) as [u m']. simpl in H2.
    assert (history_ m' = last_n 1000 h0) as Hh' by (by rewrite H2).
    specialize (IH (set_history (push_history (mkHistory u (f64_of_Z now1)) (history_ m')) m')
      (h0 ++ [mkHistory u (f64_of_Z now1)])).
    destruct (monitor_run clk turns _) as [b m2]. cbn [snd] in IH |- *.
    rewrite IH by (by apply push_history_last_n).
    by rewrite samples_history, <-(assoc_L (++)). }
  specialize (H m [] Hm). rewrite app_nil_l in H. split; [done|].
  unfold get_history. rewrite H. set (h := last_n 1000 _). f_equal.
  destruct (Z.ltb_spec n (Z.of_nat (length h))).
  - rewrite omap_lookup_seq by lia. unfold last_n. f_equal. lia.
  - rewrite omap_lookup_seq by lia. rewrite last_n_all by lia. done.
Qed.

(** * Concrete runs *)
Definition example_files : file_system := λ path,
  if bool_decide (path = "/proc/42/stat") then
    Some ("42 (sh) S 1 42 42 0 -1 4194560 100 0 0 0 7 5 0 0 20 0 1" +:+ String.String newline "")
  else if bool_decide (path = "/proc/42/status") then
    Some (unlines ["Name: sh"; "VmRSS:  2048 kB"; "Threads: 9"])
  else None.

Definition example_monitor : ResourceMonitor :=
  mkMonitor 42 default_limits true [] true 2.

Example example_usage :
  (read_usage example_files 100 example_monitor).1 = mkUsage 2097152 10 0 0 0 0 0.
Proof. vm_compute. reflexivity. Qed.

Lemma read_usage_cpu_witness :
  cpu_percent (read_usage example_files 100 example_monitor).1 = (7 + 5 - 2) * 100 / 100 ∧
  prev_cpu_time_ (read_usage example_files 100 example_monitor).2 = 7 + 5.
Proof.
  apply (read_usage_cpu example_files 100 example_monitor
    ["42"; "(sh)"; "S"; "1"; "42"; "42"; "0"; "-1"; "4194560"; "100"; "0"; "0"; "0"]
    7 5 " 0 0 20 0 1" ""); try done; try (simpl; lia).
  - repeat constructor.
  - by intros c r' [= <- _].
Defined.

Lemma read_usage_memory_witness :
  memory_bytes (read_usage example_files 100 example_monitor).1 = u64 (2048 * 1024).
Proof.
  apply (read_usage_memory example_files 100 example_monitor
    ["Name: sh"] ["Threads: 9"] "  " 2048 " kB"); try done.
  - repeat constructor.
  - repeat constructor.
  - by intros c r' [= <- _].
Defined.

Lemma pids_never_reported_witness :
  pids_current (read_usage example_files 100 example_monitor).1 = 0 ∧
  Forall (λ a, resource a ≠ "pids") (monitor_step example_files 100 1 2 example_monitor).1.
Proof. apply (pids_never_reported example_files 100 1 2 example_monitor). simpl. lia. Defined.

Lemma memory_alert_exact_witness :
  memory_alert example_monitor 7 (mkUsage (200 * 1024 * 1024) 0 0 0 0 0 0) =
    [mkAlert Level.WARNING "memory" "Memory usage high"
       (f64_of_Z 209715200) (f64_of_Z 268435456) 7].
Proof. rewrite memory_alert_exact; [reflexivity|simpl; lia|simpl; lia]. Defined.

Lemma history_newest_witness :
  let turns := [(example_files, 1, 2); (example_files, 3, 4); (example_files, 5, 6)] in
  history_ (monitor_run 100 turns example_monitor).2
    = last_n 1000 (samples 100 turns example_monitor) ∧
  get_history (λ _, true) 2 (monitor_run 100 turns example_monitor).2
    = Ret (last_n 2 (last_n 1000 (samples 100 turns example_monitor))).
Proof. apply (history_newest 100 _ example_monitor 2); [done|lia]. Defined.
