(* ===== verification/MonitorThread.v ===== *)
(** The thread of a [ResourceMonitor] (resource_monitor.cpp, [monitor_loop]) step
    by step, interleaved with the calls of its owner, and that [stop] always joins
    it. *)
From S2P Require Import Prelude CppString Float64 ProcFs ResourceMonitor.

#[local] Open Scope Z_scope.

(** * The thread *)

(** Where the thread is in its loop: at the test of [running_], about to sample,
    about to record a sample or to raise its alerts, asleep, or returned. *)
Inductive pc : Type :=
  | AtTest
  | Sampling
  | Recording (u : ResourceUsage)
  | Alerting (u : ResourceUsage)
  | Sleeping
  | Returned.

(** The object, its thread if it is joinable, and the alerts raised. *)
Record monitored : Type := mkMonitored {
  mon : ResourceMonitor;
  thread : option pc;
  raised : list ResourceAlert;
}.

(** What a step sees: the files, the clock tick rate and the clock. *)
Record Env : Type := mkEnv { fs : file_system; clk_tck : Z; now : Z }.

Definition new_monitored (pid : Z) (limits : ResourceLimits) : monitored :=
  mkMonitored (ResourceMonitor_new pid limits) None [].

(** One step of [monitor_loop]. *)
Definition thread_step (env : Env) (s : monitored) : monitored :=
  match thread s with
  | Some AtTest =>
      mkMonitored (mon s) (Some (if running_ (mon s) then Sampling else Returned)) (raised s)
  | Some Sampling =>
      let '(u, m) := read_usage (fs env) (clk_tck env) (mon s) in
      mkMonitored m (Some (Recording u)) (raised s)
  | Some (Recording u) =>
      mkMonitored
        (set_history (push_history (mkHistory u (f64_of_Z (now env))) (history_ (mon s))) (mon s))
        (Some (Alerting u)) (raised s)
  | Some (Alerting u) =>
      mkMonitored (mon s) (Some Sleeping) (raised s ++ check_alerts (mon s) (now env) u)
  | Some Sleeping => mkMonitored (mon s) (Some AtTest) (raised s)
  | Some Returned | None => s
  end.

(** [monitor_thread_.join()]: the thread runs until it returns. *)
Fixpoint join (fuel : nat) (env : nat → Env) (s : monitored) : outcome monitored :=
  match thread s, fuel with
  | Some Returned, _ => Ret (mkMonitored (mon s) None (raised s))
  | None, _ => Ret s
  | _, O => OutOfFuel
  | _, S fuel => join fuel (λ i, env (S i)) (thread_step (env 0%nat) s)
  end.

(** * The operations *)

(** [monitor_thread_ = std::thread(...)] over a thread that is joinable ends the
    program. *)
Definition start_thread (s : monitored) : outcome (bool * monitored) :=
  let '(started, m) := start (mon s) in
  if started then
    match thread s with
    | Some _ => Terminate
    | None => Ret (true, mkMonitored m (Some AtTest) (raised s))
    end
  else Ret (false, s).

(** [stop]. *)
Definition stop_thread (env : nat → Env) (s : monitored) : outcome (bool * monitored) :=
  if negb (running_ (mon s)) then Ret (true, s)
  else
    s ← join 5 env (mkMonitored (stop (mon s)).2 (thread s) (raised s));
    Ret (true, s).

(** The destructor: [stop], then the destructor of [monitor_thread_], which ends the
    program when the thread is joinable. *)
Definition ResourceMonitor_delete (env : nat → Env) (s : monitored) : outcome unit :=
  '(_, s) ← stop_thread env s;
  match thread s with Some _ => Terminate | None => Ret tt end.

Inductive op : Type :=
  | Start
  | Stop (env : nat → Env)
  | Step (env : Env)
  | GetUsage (env : Env)
  | OnAlert
  | SetLimit (limits : ResourceLimits).

Definition with_mon (m : ResourceMonitor) (s : monitored) : monitored :=
  mkMonitored m (thread s) (raised s).

Definition exec (o : op) (s : monitored) : outcome monitored :=
  match o with
  | Start => '(_, s) ← start_thread s; Ret s
  | Stop env => '(_, s) ← stop_thread env s; Ret s
  | Step env => Ret (thread_step env s)
  | GetUsage env => Ret (with_mon (get_usage (fs env) (clk_tck env) (mon s)).2 s)
  | OnAlert => Ret (with_mon (on_alert (mon s)) s)
  | SetLimit limits => Ret (with_mon (set_limit limits (mon s)).2 s)
  end.

Fixpoint exec_all (os : list op) (s : monitored) : outcome monitored :=
  match os with
  | [] => Ret s
  | o :: os => s ← exec o s; exec_all os s
  end.

(** * Stopping *)

(** The flag is set exactly while there is a thread, which has not returned. *)
Definition thread_ok (s : monitored) : Prop :=
  if running_ (mon s) then ∃ p, thread s = Some p ∧ p ≠ Returned else thread s = None.

(** The sample a thread told to stop is still to record. *)
Definition last_sample (env : nat → Env) (s : monitored) : list HistoryEntry :=
  match thread s with
  | Some Sampling =>
      [mkHistory (read_usage (fs (env 0%nat)) (clk_tck (env 0%nat)) (mon s)).1
         (f64_of_Z (now (env 1%nat)))]
  | Some (Recording u) => [mkHistory u (f64_of_Z (now (env 0%nat)))]
  | _ => []
  end.

Lemma read_usage_rest files clk m :
  running_ (read_usage files clk m).2 = running_ m ∧
  history_ (read_usage files clk m).2 = history_ m ∧
  limits_ (read_usage files clk m).2 = limits_ m.
Proof. by rewrite (proj2 (read_usage_fields files clk m)). Qed.

Lemma stop_comes_back env s :
  thread_ok s → running_ (mon s) = true →
  ∃ s', stop_thread env s = Ret (true, s') ∧ thread s' = None ∧ running_ (mon s') = false ∧
    history_ (mon s') =
      fold_left (λ h e, push_history e h) (last_sample env s) (history_ (mon s)).
Proof.
  intros Hok Hr. unfold thread_ok in Hok. rewrite Hr in Hok. destruct Hok as (p & Hp & Hne).
  unfold stop_thread, last_sample, stop. rewrite Hr, Hp. cbn [negb snd].
  destruct p as [| |u|u| |]; [| | | | |done];
    cbn [join thread thread_step mon set_running running_ set_history history_ raised
      mbind outcome_bind].
  2: { pose proof (read_usage_rest (fs (env 0%nat)) (clk_tck (env 0%nat))
         (set_running false (mon s))) as (H1 & H2 & _).
       pose proof (read_usage_fields (fs (env 0%nat)) (clk_tck (env 0%nat))
         (set_running false (mon s))) as [Hu _].
       destruct (read_usage (fs (env 0%nat)) (clk_tck (env 0%nat)) (set_running false (mon s)))
         as [u m] eqn:E. cbn [fst snd] in *.
       cbn [join thread thread_step mon set_history running_ history_ raised]. rewrite H1.
       cbn [running_ set_running join thread mbind outcome_bind].
       eexists. split; [reflexivity|]. cbn [mon thread running_ history_ fold_left set_history].
       rewrite H1, H2. split_and!; [done|done|]. do 2 f_equal. rewrite Hu.
       by rewrite (proj1 (read_usage_fields _ _ (mon s))). }
  all: eexists; split; [reflexivity|]; cbn [mon thread running_ history_ fold_left]; done.
Qed.

(** C18: [stop] always comes back.  Wherever the thread is in its loop and whatever
    it sees, it has returned after at most five of its steps; [stop] answers true,
    the object has no thread left to join, and the history has grown by the sample
    the thread was in the middle of, if any, and by no other. *)
Theorem stop_thread_joins env s :
  thread_ok s → running_ (mon s) = true →
  ∃ s', stop_thread env s = Ret (true, s') ∧ thread s' = None ∧ running_ (mon s') = false ∧
    history_ (mon s') =
      fold_left (λ h e, push_history e h) (last_sample env s) (history_ (mon s)).
Proof. apply stop_comes_back. Qed.

Lemma exec_ok o s : thread_ok s → ∃ s', exec o s = Ret s' ∧ thread_ok s'.
Proof.
  intros Hok. destruct o as [|env|env|env| |limits]; cbn [exec].
  - unfold start_thread, start. unfold thread_ok in *. destruct (running_ (mon s)) eqn:Hr.
    + eexists. split; [done|]. by rewrite Hr.
    + rewrite Hok. eexists. split; [done|]. cbn. by eexists.
  - destruct (running_ (mon s)) eqn:Hr.
    + destruct (stop_comes_back env s Hok Hr) as (s' & -> & Ht & Hf & _).
      eexists. split; [done|]. unfold thread_ok. by rewrite Hf.
    + unfold stop_thread. rewrite Hr. eexists. split; [done|exact Hok].
  - eexists. split; [done|]. unfold thread_ok, thread_step in *.
    destruct (running_ (mon s)) eqn:Hr.
    + destruct Hok as (p & -> & Hne).
      destruct p as [| |u|u| |]; cbn; rewrite ?Hr; try done; try (by eexists).
      pose proof (read_usage_rest (fs env) (clk_tck env) (mon s)) as (H1 & _ & _).
      destruct (read_usage _ _ _) as [u m]. cbn in *. rewrite H1, Hr. by eexists.
    + rewrite Hok. by rewrite Hr.
  - eexists. split; [done|]. unfold thread_ok, get_usage in *. cbn.
    by rewrite (proj1 (read_usage_rest _ _ _)).
  - by eexists.
  - by eexists.
Qed.

Lemma delete_ok env s : thread_ok s → ResourceMonitor_delete env s = Ret tt.
Proof.
  intros Hok. unfold ResourceMonitor_delete. destruct (running_ (mon s)) eqn:Hr.
  - destruct (stop_comes_back env s Hok Hr) as (s' & -> & Ht & _). cbn. by rewrite Ht.
  - unfold stop_thread. rewrite Hr. cbn. unfold thread_ok in Hok. rewrite Hr in Hok. by rewrite Hok.
Qed.

(** C17: no order of calls goes wrong.  Over any sequence of starts, stops, readings,
    changes of the limits and steps of the thread, every call comes back: a stop is
    never left waiting, no start overwrites a thread that is still joinable, and the
    object can be destroyed at any point. *)
Theorem exec_all_defined os pid limits :
  ∃ s, exec_all os (new_monitored pid limits) = Ret s ∧
    ∀ env, ResourceMonitor_delete env s = Ret tt.
Proof.
  cut (∃ s, exec_all os (new_monitored pid limits) = Ret s ∧ thread_ok s).
  { intros (s & Hs & Hok). exists s. split; [exact Hs|]. intros env. by apply delete_ok. }
  assert (H : ∀ s, thread_ok s → ∃ s', exec_all os s = Ret s' ∧ thread_ok s').
  { induction os as [|o os IH]; intros s Hs; [by exists s|].
    destruct (exec_ok o s Hs) as (s1 & H1 & Hs1). cbn. rewrite H1. by apply IH. }
  by apply H.
Qed.

(** A whole turn of the thread is [monitor_step]. *)
Lemma turn_is_monitor_step e1 e2 e3 s :
  thread s = Some AtTest → running_ (mon s) = true →
  let s' := thread_step e3 (thread_step e2 (thread_step e1 (thread_step e1 s))) in
  thread s' = Some Sleeping ∧
  (mon s', raised s') =
    (let '(alerts, m) := monitor_step (fs e1) (clk_tck e1) (now e2) (now e3) (mon s) in
     (m, raised s ++ alerts)).
Proof.
  intros Hp Hr. assert (thread_step e1 s = mkMonitored (mon s) (Some Sampling) (raised s)) as ->
    by (unfold thread_step; by rewrite Hp, Hr).
  unfold monitor_step, thread_step. cbn [thread mon].
  by destruct (read_usage _ _ _) as [u m].
Qed.

(** * A concrete run *)
Definition sample_env (t : Z) : Env := mkEnv example_files 100 t.

Definition busy : list op :=
  [Start; Step (sample_env 1); Step (sample_env 2); GetUsage (sample_env 3)].

(** The thread has a sample in hand when it is told to stop. *)
Definition in_hand : monitored :=
  mkMonitored (mkMonitor 42 default_limits true [] false 12)
    (Some (Recording (mkUsage 2097152 12 0 0 0 0 0))) [].

Lemma busy_runs : exec_all busy (new_monitored 42 default_limits) = Ret in_hand.
Proof. vm_compute. reflexivity. Qed.

Lemma stop_thread_joins_witness :
  ∃ s', stop_thread (λ i, sample_env (Z.of_nat i)) in_hand = Ret (true, s') ∧ thread s' = None ∧
    running_ (mon s') = false ∧ length (history_ (mon s')) = 1%nat.
Proof.
  destruct (stop_thread_joins (λ i, sample_env (Z.of_nat i)) in_hand) as (s' & H1 & H2 & H3 & H4).
  - by eexists.
  - reflexivity.
  - exists s'. split; [exact H1|]. split; [exact H2|]. split; [exact H3|]. rewrite H4. reflexivity.
Defined.
