(* ===== verification/ResourceManager.v ===== *)
(** [ResourceManager] (resource_monitor.hpp, resource_monitor.cpp): the monitors
    of the sandboxes by name, the usage of all of them and its totals.  Every
    operation runs under [monitors_mutex_] and is one atomic step.  A name owns
    its monitor: the program keeps no other pointer to one. *)
From S2P Require Import Prelude CppString Float64 ProcFs ResourceMonitor.

#[local] Open Scope Z_scope.

(** * Data *)
Record ResourceManager : Type := mkManager {
  monitors_ : gmap string ResourceMonitor;
  global_alert_callback_ : bool;
}.

Record SandboxUsage : Type := mkSandboxUsage {
  sandbox_id : string;
  sandbox_usage : ResourceUsage;
  over_limit : bool;
}.

Record GlobalStats : Type := mkStats {
  total_memory_used : Z;
  total_cpu_percent : Z;
  total_pids : Z;
  total_sandboxes : Z;
  sandboxes_over_limit : Z;
}.

Definition ResourceManager_new : ResourceManager := mkManager ∅ false.

Definition set_monitors (ms : gmap string ResourceMonitor) (mg : ResourceManager)
    : ResourceManager := mkManager ms (global_alert_callback_ mg).

(** * Operations *)

(** The callback set on every monitor forwards to the global one, if any. *)
Definition forward (mg : ResourceManager) (sandbox_id : string) (alerts : list ResourceAlert)
    : list (string * ResourceAlert) :=
  if global_alert_callback_ mg then (λ a, (sandbox_id, a)) <$> alerts else [].

(** An older monitor of the same name is destroyed, which stops it. *)
Definition add_monitor (sandbox_id : string) (pid : Z) (limits : ResourceLimits)
    (mg : ResourceManager) : bool * ResourceManager :=
  let monitor := on_alert (ResourceMonitor_new pid limits) in
  let '(started, monitor) := start monitor in
  (started, set_monitors (<[sandbox_id := monitor]> (monitors_ mg)) mg).

(** The result, the stopped monitor and the new state. *)
Definition remove_monitor (sandbox_id : string) (mg : ResourceManager)
    : bool * option ResourceMonitor * ResourceManager :=
  match monitors_ mg !! sandbox_id with
  | None => (false, None, mg)
  | Some m =>
      let '(_, m) := stop m in
      (true, Some m, set_monitors (delete sandbox_id (monitors_ mg)) mg)
  end.

Definition get_monitor (sandbox_id : string) (mg : ResourceManager) : option ResourceMonitor :=
  monitors_ mg !! sandbox_id.

Definition on_alert (mg : ResourceManager) : ResourceManager := mkManager (monitors_ mg) true.

(** One monitor's turn of the two loops: its usage, then its limit check, which
    samples the files once more. *)
Definition usage_and_check (files : file_system * file_system) (clk_tck : Z)
    (m : ResourceMonitor) : ResourceUsage * bool * ResourceMonitor :=
  let '(u, m) := get_usage files.1 clk_tck m in
  let '(over, m) := is_over_limit files.2 clk_tck m in
  (u, over, m).

Section loops.
(** The files each monitor's two samples see, the ticks a second, and the order in
    which the hash table is traversed. *)
Context (files : string → file_system * file_system) (clk_tck : Z).

Fixpoint all_usage_loop (ids : list string) (ms : gmap string ResourceMonitor)
    : list SandboxUsage * gmap string ResourceMonitor :=
  match ids with
  | [] => ([], ms)
  | id :: ids =>
      match ms !! id with
      | None => all_usage_loop ids ms
      | Some m =>
          let '(u, over, m) := usage_and_check (files id) clk_tck m in
          let '(result, ms) := all_usage_loop ids (<[id := m]> ms) in
          (mkSandboxUsage id u over :: result, ms)
      end
  end.

Definition get_all_usage (ids : list string) (mg : ResourceManager)
    : list SandboxUsage * ResourceManager :=
  let '(result, ms) := all_usage_loop ids (monitors_ mg) in (result, set_monitors ms mg).

Definition add_usage (stats : GlobalStats) (u : ResourceUsage) (over : bool) : GlobalStats :=
  mkStats (u64 (total_memory_used stats + memory_bytes u))
    (u32 (total_cpu_percent stats + cpu_percent u))
    (u32 (total_pids stats + pids_current u))
    (u64 (total_sandboxes stats + 1))
    (if over then u64 (sandboxes_over_limit stats + 1) else sandboxes_over_limit stats).

Fixpoint global_stats_loop (ids : list string) (stats : GlobalStats)
    (ms : gmap string ResourceMonitor) : GlobalStats * gmap string ResourceMonitor :=
  match ids with
  | [] => (stats, ms)
  | id :: ids =>
      match ms !! id with
      | None => global_stats_loop ids stats ms
      | Some m =>
          let '(u, over, m) := usage_and_check (files id) clk_tck m in
          global_stats_loop ids (add_usage stats u over) (<[id := m]> ms)
      end
  end.

Definition get_global_stats (ids : list string) (mg : ResourceManager)
    : GlobalStats * ResourceManager :=
  let '(stats, ms) := global_stats_loop ids (mkStats 0 0 0 0 0) (monitors_ mg) in
  (stats, set_monitors ms mg).

(** * The loops visit every monitor once *)

(** [ids] is a traversal of the table: each key once. *)
Definition traversal (ids : list string) (mg : ResourceManager) : Prop :=
  ids ≡ₚ (map_to_list (monitors_ mg)).*1.

(** What one turn reads and leaves, as functions of the monitor. *)
Definition read_of (id : string) (m : ResourceMonitor) : SandboxUsage :=
  let '(u, over, _) := usage_and_check (files id) clk_tck m in mkSandboxUsage id u over.
Definition after_of (id : string) (m : ResourceMonitor) : ResourceMonitor :=
  (usage_and_check (files id) clk_tck m).2.

Lemma all_usage_loop_spec ids ms :
  NoDup ids → (∀ id, id ∈ ids → is_Some (ms !! id)) →
  (all_usage_loop ids ms).1 = omap (λ id, read_of id <$> ms !! id) ids ∧
  ∀ id, (all_usage_loop ids ms).2 !! id =
    if decide (id ∈ ids) then after_of id <$> ms !! id else ms !! id.
Proof.
  intros Hnd. revert ms. induction Hnd as [|id ids Hid Hnd IH]; intros ms Hin.
  { split; [done|]. intros id. by rewrite decide_False by set_solver. }
  cbn [all_usage_loop omap list_omap]. destruct (Hin id) as [m Hm]; [set_solver|].
  rewrite Hm. cbn [fmap option_fmap option_map].
  destruct (usage_and_check (files id) clk_tck m) as [[u over] m'] eqn:E.
  destruct (IH (<[id := m']> ms)) as [IH1 IH2].
  { intros i Hi. rewrite lookup_insert_ne by set_solver. apply Hin. set_solver. }
  destruct (all_usage_loop ids _) as [result ms'] eqn:E'. cbn [fst snd] in *. split.
  - unfold read_of at 1. rewrite E. f_equal. etrans; [exact IH1|].
    apply list_omap_ext, Forall_Forall2_diag, list.Forall_forall. intros i Hi.
    by rewrite lookup_insert_ne by set_solver.
  - intros i. rewrite IH2. destruct (decide (i = id)) as [->|Hne].
    + rewrite decide_False, decide_True by set_solver. rewrite lookup_insert_eq, Hm.
      simpl. unfold after_of. by rewrite E.
    + rewrite lookup_insert_ne by done. destruct (decide (i ∈ ids)).
      * by rewrite decide_True by set_solver.
      * by rewrite decide_False by set_solver.
Qed.

(** The totals are a fold of the same readings, and the same monitors remain. *)
Lemma global_stats_loop_fold ids stats ms :
  global_stats_loop ids stats ms =
    (fold_left (λ s r, add_usage s (sandbox_usage r) (over_limit r))
       (all_usage_loop ids ms).1 stats, (all_usage_loop ids ms).2).
Proof.
  revert stats ms. induction ids as [|id ids IH]; intros stats ms; [done|].
  cbn [global_stats_loop all_usage_loop]. destruct (ms !! id) as [m|]; [|apply IH].
  destruct (usage_and_check _ _ m) as [[u over] m']. rewrite IH.
  by destruct (all_usage_loop ids _) as [result ms'].
Qed.
End loops.

(** * Sums over a table *)

(** The sum of [f] over the readings of every monitor, in no particular order. *)
Definition total (files : string → file_system * file_system) (clk_tck : Z)
    (f : SandboxUsage → Z) (ms : gmap string ResourceMonitor) : Z :=
  foldr Z.add 0 (map (f ∘ uncurry (read_of files clk_tck)) (map_to_list ms)).

Definition one_if (b : bool) : Z := if b then 1 else 0.

#[local] Instance sum_proper : Proper ((≡ₚ) ==> eq) (foldr Z.add 0).
Proof.
  induction 1; simpl; [done|by f_equal|lia|by etrans].
Qed.

Lemma fold_add_usage rs s :
  let sum f := foldr Z.add 0 (map f rs) in
  let s' := fold_left (λ s r, add_usage s (sandbox_usage r) (over_limit r)) rs s in
  u64 (total_memory_used s') = u64 (total_memory_used s + sum (memory_bytes ∘ sandbox_usage)) ∧
  u32 (total_cpu_percent s') = u32 (total_cpu_percent s + sum (cpu_percent ∘ sandbox_usage)) ∧
  u32 (total_pids s') = u32 (total_pids s + sum (pids_current ∘ sandbox_usage)) ∧
  u64 (total_sandboxes s') = u64 (total_sandboxes s + Z.of_nat (length rs)) ∧
  u64 (sandboxes_over_limit s') = u64 (sandboxes_over_limit s + sum (one_if ∘ over_limit)).
Proof.
  revert s. induction rs as [|r rs IH]; intros s; simpl.
  { by rewrite !Z.add_0_r. }
  destruct (IH (add_usage s (sandbox_usage r) (over_limit r))) as (H1 & H2 & H3 & H4 & H5).
  repeat split; (etrans; [eassumption|]); cbn.
  1-4: rewrite wrap_add_l; f_equal; lia.
  destruct (over_limit r); cbn; rewrite ?wrap_add_l; f_equal; lia.
Qed.

(** Every component of the totals is already reduced. *)
Definition stats_wf (s : GlobalStats) : Prop :=
  in_uint 64 (total_memory_used s) ∧ in_uint 32 (total_cpu_percent s) ∧
  in_uint 32 (total_pids s) ∧ in_uint 64 (total_sandboxes s) ∧
  in_uint 64 (sandboxes_over_limit s).

Lemma fold_add_usage_wf rs s :
  stats_wf s →
  stats_wf (fold_left (λ s r, add_usage s (sandbox_usage r) (over_limit r)) rs s).
Proof.
  revert s. induction rs as [|r rs IH]; intros s Hs; [done|]. apply IH.
  destruct Hs as (?&?&?&?&?).
  repeat split; cbn; try (apply wrap_range; lia).
  all: destruct (over_limit r); [apply wrap_range; lia|unfold in_uint in *; lia].
Qed.

Lemma fold_add_usage_zero rs :
  fold_left (λ s r, add_usage s (sandbox_usage r) (over_limit r)) rs (mkStats 0 0 0 0 0) =
    mkStats (u64 (foldr Z.add 0 (map (memory_bytes ∘ sandbox_usage) rs)))
      (u32 (foldr Z.add 0 (map (cpu_percent ∘ sandbox_usage) rs)))
      (u32 (foldr Z.add 0 (map (pids_current ∘ sandbox_usage) rs)))
      (u64 (Z.of_nat (length rs)))
      (u64 (foldr Z.add 0 (map (one_if ∘ over_limit) rs))).
Proof.
  pose proof (fold_add_usage rs (mkStats 0 0 0 0 0)) as (H1 & H2 & H3 & H4 & H5).
  pose proof (fold_add_usage_wf rs (mkStats 0 0 0 0 0)) as (W1 & W2 & W3 & W4 & W5).
  { unfold stats_wf, in_uint. simpl. lia. }
  cbn [total_memory_used total_cpu_percent total_pids total_sandboxes
       sandboxes_over_limit] in H1, H2, H3, H4, H5.
  rewrite ?Z.add_0_l in H1, H2, H3, H4, H5.
  rewrite <-H1, <-H2, <-H3, <-H4, <-H5. rewrite !wrap_small by done.
  by destruct (fold_left _ rs _).
Qed.

Lemma readings_permutation files clk ids mg :
  traversal ids mg →
  (all_usage_loop files clk ids (monitors_ mg)).1
    ≡ₚ uncurry (read_of files clk) <$> map_to_list (monitors_ mg).
Proof.
  intros Ht. assert (NoDup ids) as Hnd by (rewrite Ht; apply NoDup_fst_map_to_list).
  assert (∀ id, id ∈ ids → is_Some (monitors_ mg !! id)) as Hin.
  { intros id. rewrite Ht, list_elem_of_fmap. intros ([i m] & -> & Hm).
    apply elem_of_map_to_list in Hm. by eexists. }
  rewrite (proj1 (all_usage_loop_spec files clk ids (monitors_ mg) Hnd Hin)). clear Hin.
  rewrite Ht. set (l := map_to_list (monitors_ mg)).
  assert (Hl : ∀ p, p ∈ l → monitors_ mg !! p.1 = Some p.2)
    by (intros [i m] Hm; by apply elem_of_map_to_list in Hm).
  clearbody l. clear -Hl. induction l as [|[i m] l IH]; [done|].
  assert (monitors_ mg !! i = Some m) as Hi by (apply (Hl (i, m)); set_solver).
  simpl. rewrite Hi. simpl. rewrite IH by set_solver. done.
Qed.

(** * Properties of the manager *)

(** C33: whatever order the hash table is traversed in, the global statistics are
    the sums of the monitors' readings, each modulo the width of its field, the
    number of monitors and the number of those over their limit. *)
Theorem global_stats_sums files clk ids mg :
  traversal ids mg →
  (get_global_stats files clk ids mg).1 =
    mkStats (u64 (total files clk (memory_bytes ∘ sandbox_usage) (monitors_ mg)))
      (u32 (total files clk (cpu_percent ∘ sandbox_usage) (monitors_ mg)))
      (u32 (total files clk (pids_current ∘ sandbox_usage) (monitors_ mg)))
      (u64 (Z.of_nat (size (monitors_ mg))))
      (u64 (total files clk (one_if ∘ over_limit) (monitors_ mg))).
Proof.
  intros Ht. unfold get_global_stats. rewrite global_stats_loop_fold. cbn [fst].
  pose proof (readings_permutation files clk ids mg Ht) as Hp.
  destruct (all_usage_loop files clk ids (monitors_ mg)) as [rs ms]. cbn [fst snd] in *.
  rewrite fold_add_usage_zero. unfold total. rewrite Hp.
  rewrite length_fmap, !map_map, length_map_to_list. f_equal.
Qed.

(** [get_all_usage] reports every sandbox once.  Each limit check samples the
    files a second time, which makes the processor share vanish, and the process
    count is never read: when the two samples see the same files the verdict is
    that of the memory alone, however large the processor share reported next to
    it. *)
Lemma all_usage_memory_only files clk ids mg r :
  traversal ids mg →
  (∀ id, (files id).1 = (files id).2) →
  (∀ id m, monitors_ mg !! id = Some m →
    0 <= lim_cpu_percent (limits_ m) ∧ 0 <= pids_max (limits_ m)) →
  r ∈ (get_all_usage files clk ids mg).1 →
  ∃ m, monitors_ mg !! sandbox_id r = Some m ∧
    sandbox_usage r = (read_usage (files (sandbox_id r)).1 clk m).1 ∧
    over_limit r = (lim_memory_bytes (limits_ m) <? memory_bytes (sandbox_usage r)).
Proof.
  intros Ht Hf Hl. unfold get_all_usage.
  pose proof (readings_permutation files clk ids mg Ht) as Hp.
  destruct (all_usage_loop files clk ids (monitors_ mg)) as [rs ms]. cbn [fst] in *.
  rewrite Hp, list_elem_of_fmap. intros ([id m] & -> & Hm).
  apply elem_of_map_to_list in Hm. exists m. simpl.
  unfold read_of, usage_and_check. rewrite <-Hf.
  pose proof (over_limit_after_usage (files id).1 clk m
    (proj1 (Hl id m Hm)) (proj2 (Hl id m Hm))) as Ho.
  unfold get_usage in *. destruct (read_usage _ clk m) as [u m'] eqn:E.
  destruct (is_over_limit _ clk m') as [over m'']. simpl in *. by rewrite E.
Qed.

(** A monitor added under a name runs, watches that process with those limits
    and is the one [get_monitor] returns; [remove_monitor] succeeds exactly when
    the name is known, leaves its monitor stopped and forgets it; no other name
    is touched. *)
Lemma manager_map id pid limits mg :
  let '(started, mg1) := add_monitor id pid limits mg in
  let '(removed, stopped, mg2) := remove_monitor id mg in
  started = true ∧
  get_monitor id mg1 = Some (mkMonitor pid limits true [] true 0) ∧
  removed = bool_decide (is_Some (get_monitor id mg)) ∧
  (∀ m, stopped = Some m → running_ m = false) ∧
  get_monitor id mg2 = None ∧
  ∀ id', id' ≠ id → get_monitor id' mg1 = get_monitor id' mg ∧
                    get_monitor id' mg2 = get_monitor id' mg.
Proof.
  unfold add_monitor, remove_monitor, get_monitor. cbn.
  destruct (monitors_ mg !! id) as [m|] eqn:Hm; cbn; rewrite ?lookup_insert_eq, ?lookup_delete_eq.
  - unfold stop. destruct (running_ m) eqn:Hr; cbn; repeat split; eauto;
      try (intros; simplify_eq/=; done); try apply lookup_delete_eq;
      try (by rewrite lookup_insert_ne); by rewrite lookup_delete_ne.
  - repeat split; try done. by rewrite lookup_insert_ne.
Qed.

(** * Concrete runs *)
Definition example_manager : ResourceManager :=
  let '(_, mg) := add_monitor "job-1" 42 default_limits ResourceManager_new in
  let '(_, mg) := add_monitor "job-2" 7 default_limits mg in mg.

Lemma example_traversal : traversal ["job-1"; "job-2"] example_manager.
Proof. vm_compute. apply perm_swap || reflexivity. Qed.

Lemma global_stats_sums_witness :
  (get_global_stats (λ _, (example_files, example_files)) 100 ["job-1"; "job-2"]
     example_manager).1 = mkStats 2097152 12 0 2 0.
Proof. rewrite global_stats_sums by apply example_traversal. vm_compute. reflexivity. Defined.

Lemma example_limits id m :
  monitors_ example_manager !! id = Some m → limits_ m = default_limits.
Proof.
  change (monitors_ example_manager) with
    (<["job-2" := mkMonitor 7 default_limits true [] true 0]>
       (<["job-1" := mkMonitor 42 default_limits true [] true 0]>
          (∅ : gmap string ResourceMonitor))).
  rewrite !lookup_insert_Some, lookup_empty. naive_solver.
Qed.

Lemma all_usage_memory_only_witness :
  let files := λ _ : string, (example_files, example_files) in
  let r := mkSandboxUsage "job-1" (mkUsage 2097152 12 0 0 0 0 0) false in
  ∃ m, monitors_ example_manager !! "job-1" = Some m ∧
    sandbox_usage r = (read_usage example_files 100 m).1 ∧
    over_limit r = (lim_memory_bytes (limits_ m) <? 2097152).
Proof.
  intros files r.
  apply (all_usage_memory_only files 100 ["job-1"; "job-2"] example_manager r).
  - apply example_traversal.
  - done.
  - intros id m Hm. rewrite (example_limits id m Hm). simpl. lia.
  - vm_compute. apply list_elem_of_here.
Defined.
