(* ===== verification/Supervisor.v ===== *)
(** [ProcessSupervisor] (process_supervisor.hpp, process_supervisor.cpp): the
    table of processes, their monitor threads, the restart logic and the
    watchdog.  A step is atomic; the threads interleave between steps, under a
    sequentially consistent memory.  What a step reads from the system is its
    [Env]: the result of [fork], the answer of [waitpid], the clock and the files. *)
From S2P Require Import Prelude CppString ProcFs.

#[local] Open Scope Z_scope.

(** * Data *)
Module RestartPolicy.
Inductive t : Type := NEVER | ON_FAILURE | ALWAYS.
#[global] Instance eq_dec : EqDecision t.
Proof. solve_decision. Defined.
End RestartPolicy.

Record ProcessConfig : Type := mkConfig {
  cfg_name : string;
  command : string;
  args : list string;
  working_dir : string;
  environment : list (string * string);
  restart_policy : RestartPolicy.t;
  max_restarts : Z;
  restart_delay_ms : Z;
  memory_limit_bytes : Z;
  cfg_cpu_percent : Z;
  timeout_seconds : Z;
  enable_health_check : bool;
  health_check_interval_ms : Z;
  health_check_command : string;
}.

(** The default member initialisers. *)
Definition default_config (name command : string) : ProcessConfig :=
  mkConfig name command [] "/" [] RestartPolicy.ON_FAILURE 3 1000
    (256 * 1024 * 1024) 50 300 false 5000 "".

Module Status.
Inductive t : Type := STOPPED | STARTING | RUNNING | RESTARTING | FAILED.
#[global] Instance eq_dec : EqDecision t.
Proof. solve_decision. Defined.
End Status.

Record ProcessState : Type := mkState {
  status : Status.t;
  pid : Z;
  exit_code : Z;
  start_time : Z;
  restart_count : Z;
  last_error : string;
  cpu_time_ms : Z;
  memory_bytes : Z;
}.

Definition ProcessState_default : ProcessState := mkState Status.STOPPED (-1) 0 0 0 "" 0 0.

Module EventType.
Inductive t : Type := STARTED | STOPPED | CRASHED | RESTARTED | HEALTH_CHECK_FAILED.
#[global] Instance eq_dec : EqDecision t.
Proof. solve_decision. Defined.
End EventType.

Record ProcessEvent : Type := mkEvent {
  ev_type : EventType.t;
  process_name : string;
  ev_pid : Z;
  ev_exit_code : Z;
  ev_timestamp : Z;
  ev_message : string;
}.

(** A [std::thread] object: without a thread, or with one that is about to test
    [running], in the body of its loop, asleep before a restart, or done and not yet
    joined. *)
Module Thread.
Inductive t : Type := NotStarted | AtLoop | InBody | Restarting | Finished.
#[global] Instance eq_dec : EqDecision t.
Proof. solve_decision. Defined.
Definition joinable (th : t) : bool := bool_decide (th ≠ NotStarted).
End Thread.

Record ProcessEntry : Type := mkEntry {
  config : ProcessConfig;
  state : ProcessState;
  monitor_thread : Thread.t;
  running : bool;
  logs : list string;
}.

(** The system calls of the parent whose order matters. *)
Inductive call : Type :=
  | Fork (result : Z)
  | Kill (target signal : Z)
  | Sleep (ms : Z).

Definition SIGKILL : Z := 9.
Definition SIGTERM : Z := 15.

(** The object, the events its callback received and the calls made so far. *)
Record ProcessSupervisor : Type := mkSupervisor {
  processes_ : gmap string ProcessEntry;
  mutex_held : bool;
  event_callback_ : bool;
  watchdog_thread_ : Thread.t;
  watchdog_running_ : bool;
  events : list ProcessEvent;
  calls : list call;
}.

Definition ProcessSupervisor_new : ProcessSupervisor :=
  mkSupervisor ∅ false false Thread.NotStarted false [] [].

(** What the system answers during one step. *)
Record Env : Type := mkEnv {
  fork_result : Z;
  errno : Z;
  wait_status : option Z;
  now : Z;
  files : file_system;
}.

(** * Updates *)
Definition set_processes (p : gmap string ProcessEntry) (s : ProcessSupervisor) :=
  mkSupervisor p (mutex_held s) (event_callback_ s) (watchdog_thread_ s)
    (watchdog_running_ s) (events s) (calls s).
Definition set_held (b : bool) (s : ProcessSupervisor) :=
  mkSupervisor (processes_ s) b (event_callback_ s) (watchdog_thread_ s)
    (watchdog_running_ s) (events s) (calls s).
Definition set_watchdog (t : Thread.t) (b : bool) (s : ProcessSupervisor) :=
  mkSupervisor (processes_ s) (mutex_held s) (event_callback_ s) t b (events s) (calls s).
Definition did (c : call) (s : ProcessSupervisor) :=
  mkSupervisor (processes_ s) (mutex_held s) (event_callback_ s) (watchdog_thread_ s)
    (watchdog_running_ s) (events s) (calls s ++ [c]).
Definition put_event (e : ProcessEvent) (s : ProcessSupervisor) :=
  mkSupervisor (processes_ s) (mutex_held s) (event_callback_ s) (watchdog_thread_ s)
    (watchdog_running_ s) (events s ++ [e]) (calls s).

(** Writing one entry. *)
Definition put (name : string) (e : ProcessEntry) (s : ProcessSupervisor) :=
  set_processes (<[name := e]> (processes_ s)) s.

Definition with_status (st : Status.t) (p : ProcessState) :=
  mkState st (pid p) (exit_code p) (start_time p) (restart_count p) (last_error p)
    (cpu_time_ms p) (memory_bytes p).
Definition with_error (msg : string) (p : ProcessState) :=
  mkState (status p) (pid p) (exit_code p) (start_time p) (restart_count p) msg
    (cpu_time_ms p) (memory_bytes p).
Definition with_restarts (n : Z) (p : ProcessState) :=
  mkState (status p) (pid p) (exit_code p) (start_time p) n (last_error p)
    (cpu_time_ms p) (memory_bytes p).
Definition with_exit (c : Z) (p : ProcessState) :=
  mkState (status p) (pid p) c (start_time p) (restart_count p) (last_error p)
    (cpu_time_ms p) (memory_bytes p).
Definition with_pid (i t : Z) (p : ProcessState) :=
  mkState (status p) i (exit_code p) t (restart_count p) (last_error p)
    (cpu_time_ms p) (memory_bytes p).
Definition with_memory (m : Z) (p : ProcessState) :=
  mkState (status p) (pid p) (exit_code p) (start_time p) (restart_count p)
    (last_error p) (cpu_time_ms p) m.

Definition on_state (f : ProcessState → ProcessState) (e : ProcessEntry) :=
  mkEntry (config e) (f (state e)) (monitor_thread e) (running e) (logs e).
Definition set_thread (t : Thread.t) (e : ProcessEntry) :=
  mkEntry (config e) (state e) t (running e) (logs e).
Definition set_running (b : bool) (e : ProcessEntry) :=
  mkEntry (config e) (state e) (monitor_thread e) b (logs e).

Definition is_running (e : ProcessEntry) : bool :=
  bool_decide (status (state e) = Status.RUNNING).

(** * The mutex

    [std::lock_guard]: locking a mutex the same thread holds is undefined. *)
Definition locked {A} (body : ProcessSupervisor → outcome (A * ProcessSupervisor))
    (s : ProcessSupervisor) : outcome (A * ProcessSupervisor) :=
  if mutex_held s then Undefined
  else '(a, s) ← body (set_held true s); Ret (a, set_held false s).

(** * Events *)
Definition emit_event (now : Z) (type : EventType.t) (name : string) (pid exit_code : Z)
    (msg : string) (s : ProcessSupervisor) : ProcessSupervisor :=
  if event_callback_ s
  then put_event (mkEvent type name pid exit_code now msg) s else s.

Definition on_event (s : ProcessSupervisor) : ProcessSupervisor :=
  mkSupervisor (processes_ s) (mutex_held s) true (watchdog_thread_ s)
    (watchdog_running_ s) (events s) (calls s).

(** * The wait status *)
Definition WEXITSTATUS (st : Z) : Z := Z.shiftr (Z.land st 65280) 8.

(** * The child *)
Inductive child_call : Type :=
  | Chdir (dir : string)
  | Setenv (key value : string)
  | Setrlimit_AS (limit : Z)
  | Setrlimit_NPROC (limit : Z)
  | Execvp (file : string) (argv : list string)
  | Exit (code : Z).

(** What the child does, in order; [Exit] is reached when [execvp] fails. *)
Definition child (c : ProcessConfig) : list child_call :=
  (if bool_decide (working_dir c = "") then [] else [Chdir (working_dir c)])
  ++ map (λ '(k, v), Setenv k v) (environment c)
  ++ [Setrlimit_AS (memory_limit_bytes c); Setrlimit_NPROC 1;
      Execvp (command c) (command c :: args c); Exit 127].

(** * Starting a process *)
Section supervisor.
Context (strerror : Z → string).

(** [monitor_thread.join()], by whoever calls [spawn_process]. *)
Definition joiner : Type := string → ProcessSupervisor → outcome ProcessSupervisor.

Definition spawn_process (join : joiner) (env : Env) (name : string) (s : ProcessSupervisor)
    : outcome (bool * ProcessSupervisor) :=
  e ← access (processes_ s !! name);
  let e := on_state (with_restarts 0 ∘ with_status Status.STARTING) e in
  let s := did (Fork (fork_result env)) s in
  if fork_result env <? 0 then
    Ret (false, put name (on_state (with_error (strerror (errno env))
                                    ∘ with_status Status.FAILED) e) s)
  else
    let e := on_state (with_pid (fork_result env) (now env)
                       ∘ with_status Status.RUNNING) e in
    let s := put name (set_running true e) s in
    s ← (if Thread.joinable (monitor_thread e) then join name s else Ret s);
    e ← access (processes_ s !! name);
    let s := put name (set_thread Thread.AtLoop e) s in
    Ret (true, emit_event (now env) EventType.STARTED name (fork_result env) 0 "" s).

(** * The end of a process *)

(** [handle_exit] up to the sleep before a restart, and whether it goes on to one.
    The thread sleeps without the mutex, so others see what is recorded here. *)
Definition exit_recorded (env : Env) (name : string) (st : Z) (s : ProcessSupervisor)
    : outcome (bool * ProcessSupervisor) :=
  e ← access (processes_ s !! name);
  let code := WEXITSTATUS st in
  let e := set_running false (on_state (with_status Status.STOPPED ∘ with_exit code) e) in
  let success := code =? 0 in
  let s := put name e s in
  let s := emit_event (now env) (if success then EventType.STOPPED else EventType.CRASHED)
             name (pid (state e)) code "" s in
  if negb success && negb (bool_decide (restart_policy (config e) = RestartPolicy.NEVER)) then
    if restart_count (state e) <? max_restarts (config e) then
      let n := u64 (restart_count (state e) + 1) in
      let s := put name (on_state (with_status Status.RESTARTING ∘ with_restarts n) e) s in
      let s := emit_event (now env) EventType.RESTARTED name (-1) 0
                 ("Restart attempt " +:+ to_string n) s in
      Ret (true, did (Sleep (restart_delay_ms (config e))) s)
    else
      Ret (false, put name (on_state (with_error ("Exceeded max restarts (" +:+
                                        to_string (max_restarts (config e)) +:+ ")")
                                      ∘ with_status Status.FAILED) e) s)
  else Ret (false, s).

(** The whole of [handle_exit], as the watchdog runs it under the mutex; the monitor
    thread runs it in two steps. *)
Definition handle_exit (join : joiner) (env : Env) (name : string) (st : Z)
    (s : ProcessSupervisor) : outcome ProcessSupervisor :=
  '(restarts, s) ← exit_recorded env name st s;
  if (restarts : bool) then '(_, s) ← spawn_process join env name s; Ret s else Ret s.

(** * The monitor thread of a process *)

(** A thread that joins itself: [std::thread::join] throws. *)
Definition join_self : joiner := λ _ _, Throw resource_deadlock_would_occur.

(** An exception that leaves the function of a thread. *)
Definition in_thread {A} (m : outcome A) : outcome A :=
  match m with Throw _ => Terminate | m => m end.

(** [while (entry->running)] *)
Definition monitor_test (name : string) (s : ProcessSupervisor) : outcome ProcessSupervisor :=
  e ← access (processes_ s !! name);
  Ret (put name (set_thread (if running e then Thread.InBody else Thread.Finished) e) s).

(** The thread returns from [monitor_process]. *)
Definition monitor_return (name : string) (s : ProcessSupervisor) : outcome ProcessSupervisor :=
  e ← access (processes_ s !! name);
  Ret (put name (set_thread Thread.Finished e) s).

Definition memory_line (memory : Z) (line : string) : Z :=
  if substr_is line 6 "VmRSS:" then u64 (read_after 64 6 memory line * 1024) else memory.

(** [uptime > entry->config.timeout_seconds * 1000], the product at 32 bits. *)
Definition timed_out (now : Z) (e : ProcessEntry) : bool :=
  let uptime := u64 (now - start_time (state e)) in
  (0 <? timeout_seconds (config e)) && (u32 (timeout_seconds (config e) * 1000) <? uptime).

(** The body of the loop, up to the next test. *)
Definition monitor_body (env : Env) (name : string) (s : ProcessSupervisor)
    : outcome ProcessSupervisor :=
  e ← access (processes_ s !! name);
  match wait_status env with
  | Some st =>
      '(restarts, s) ← exit_recorded env name st s;
      if (restarts : bool) then
        e ← access (processes_ s !! name);
        Ret (put name (set_thread Thread.Restarting e) s)
      else monitor_return name s
  | None =>
      if timed_out (now env) e then
        monitor_return name (did (Kill (pid (state e)) SIGKILL) s)
      else
        let memory :=
          match files env ("/proc/" +:+ to_string (pid (state e)) +:+ "/status") with
          | Some contents => fold_left memory_line (getlines contents) (memory_bytes (state e))
          | None => memory_bytes (state e)
          end in
        Ret (put name (set_thread Thread.AtLoop (on_state (with_memory memory) e)) s)
  end.

(** The end of [handle_exit] after the sleep, and the return of the thread: the thread
    joins itself unless [fork] fails. *)
Definition monitor_restart (env : Env) (name : string) (s : ProcessSupervisor)
    : outcome ProcessSupervisor :=
  '(_, s) ← in_thread (spawn_process join_self env name s);
  monitor_return name s.

(** One step of the thread; none when there is no thread or it is done. *)
Definition monitor_step (env : Env) (name : string) (s : ProcessSupervisor)
    : outcome ProcessSupervisor :=
  e ← access (processes_ s !! name);
  match monitor_thread e with
  | Thread.AtLoop => monitor_test name s
  | Thread.InBody => monitor_body env name s
  | Thread.Restarting => monitor_restart env name s
  | _ => Ret s
  end.

(** Joining another thread: it runs, under the given answers, until it is done. *)
Fixpoint join_other (script : list Env) (name : string) (s : ProcessSupervisor)
    : outcome ProcessSupervisor :=
  e ← access (processes_ s !! name);
  if bool_decide (monitor_thread e = Thread.Finished) then
    Ret (put name (set_thread Thread.NotStarted e) s)
  else
    match script with
    | [] => Blocked
    | env :: script => s ← monitor_step env name s; join_other script name s
    end.

(** * Operations *)
Definition add_process (cfg : ProcessConfig) : ProcessSupervisor → outcome (bool * ProcessSupervisor) :=
  locked (λ s,
    match processes_ s !! cfg_name cfg with
    | Some _ => Ret (false, s)
    | None =>
        let e := mkEntry cfg (with_status Status.STOPPED ProcessState_default)
                   Thread.NotStarted false [] in
        Ret (true, put (cfg_name cfg) e s)
    end).

(** [start]; [script] is what the old monitor thread sees while it is joined. *)
Definition start (script : list Env) (env : Env) (name : string)
    : ProcessSupervisor → outcome (bool * ProcessSupervisor) :=
  locked (λ s,
    match processes_ s !! name with
    | None => Ret (false, s)
    | Some e =>
        if is_running e then Ret (false, s)
        else spawn_process (join_other script) env name s
    end).

(** Steps of the other threads, each of the monitor thread of the named process. *)
Fixpoint others (steps : list (string * Env)) (s : ProcessSupervisor)
    : outcome ProcessSupervisor :=
  match steps with
  | [] => Ret s
  | (name, env) :: steps => s ← monitor_step env name s; others steps s
  end.

(** The wait of [stop]: one element per turn, the time elapsed and what the other
    threads do during the sleep. *)
Fixpoint stop_loop (timeout_ms : Z) (polls : list (Z * list (string * Env))) (name : string)
    (s : ProcessSupervisor) : outcome ProcessSupervisor :=
  e ← access (processes_ s !! name);
  if is_running e then
    match polls with
    | [] => OutOfFuel
    | (elapsed, steps) :: polls =>
        if timeout_ms <? elapsed then Ret (did (Kill (pid (state e)) SIGKILL) s)
        else s ← others steps s; stop_loop timeout_ms polls name s
    end
  else Ret s.

Definition stop (timeout_ms : Z) (polls : list (Z * list (string * Env))) (name : string)
    : ProcessSupervisor → outcome (bool * ProcessSupervisor) :=
  locked (λ s,
    match processes_ s !! name with
    | None => Ret (false, s)
    | Some e =>
        if negb (is_running e) then Ret (false, s)
        else
          let s := did (Kill (pid (state e)) SIGTERM) (put name (set_running false e) s) in
          s ← stop_loop timeout_ms polls name s;
          e ← access (processes_ s !! name);
          Ret (true, put name (on_state (with_status Status.STOPPED) e) s)
    end).

(** [restart]: the answer of [stop] is dropped. *)
Definition restart polls script env name (s : ProcessSupervisor)
    : outcome (bool * ProcessSupervisor) :=
  '(_, s) ← stop 5000 polls name s;
  start script env name s.

(** The destruction of an entry destroys its thread object. *)
Definition destroy_entry (e : ProcessEntry) : outcome unit :=
  if Thread.joinable (monitor_thread e) then Terminate else Ret tt.

Definition remove_process polls (name : string)
    : ProcessSupervisor → outcome (bool * ProcessSupervisor) :=
  locked (λ s,
    match processes_ s !! name with
    | None => Ret (false, s)
    | Some e =>
        s ← (if is_running e then '(_, s) ← stop 5000 polls name s; Ret s else Ret s);
        e ← access (processes_ s !! name);
        _ ← destroy_entry e;
        Ret (true, set_processes (delete name (processes_ s)) s)
    end).

(** One turn of the loop over the table, whose order is a parameter. *)
Definition stop_one (s : ProcessSupervisor) (name : string) : ProcessSupervisor :=
  match processes_ s !! name with
  | Some e =>
      if is_running e
      then did (Kill (pid (state e)) SIGTERM) (put name (set_running false e) s) else s
  | None => s
  end.

Definition stop_all (ids : list string) : ProcessSupervisor → outcome (bool * ProcessSupervisor) :=
  locked (λ s, Ret (true, fold_left stop_one ids s)).

(** * Queries *)
Definition get_state (name : string) : ProcessSupervisor → outcome (ProcessState * ProcessSupervisor) :=
  locked (λ s,
    Ret (match processes_ s !! name with
         | Some e => state e
         | None => ProcessState_default
         end, s)).

Definition get_all_states (ids : list string)
    : ProcessSupervisor → outcome (list (string * ProcessState) * ProcessSupervisor) :=
  locked (λ s,
    Ret (omap (λ name, (λ e, (name, state e)) <$> processes_ s !! name) ids, s)).

Record ProcessInfo : Type := mkInfo {
  info_name : string;
  info_state : ProcessState;
  info_config : ProcessConfig;
  uptime_ms : Z;
  recent_logs : list string;
}.

Definition get_info (now : Z) (name : string)
    : ProcessSupervisor → outcome (option ProcessInfo * ProcessSupervisor) :=
  locked (λ s,
    Ret ((λ e, mkInfo name (state e) (config e)
                 (if 0 <? start_time (state e) then u64 (now - start_time (state e)) else 0)
                 (logs e)) <$> processes_ s !! name, s)).

(** * The watchdog *)
Definition start_watchdog (s : ProcessSupervisor) : outcome (bool * ProcessSupervisor) :=
  if watchdog_running_ s then Ret (false, s)
  else if Thread.joinable (watchdog_thread_ s) then Terminate
  else Ret (true, set_watchdog Thread.AtLoop true s).

(** One process: the status is decoded here and once more by [handle_exit]. *)
Definition watchdog_one (envs : string → Env * list Env) (name : string)
    (s : ProcessSupervisor) : outcome ProcessSupervisor :=
  match processes_ s !! name with
  | Some e =>
      if is_running e && (0 <? pid (state e)) then
        match wait_status (envs name).1 with
        | Some st =>
            in_thread (handle_exit (join_other (envs name).2) (envs name).1 name
                         (WEXITSTATUS st) s)
        | None => Ret s
        end
      else Ret s
  | None => Ret s
  end.

Fixpoint watchdog_loop (envs : string → Env * list Env) (ids : list string)
    (s : ProcessSupervisor) : outcome ProcessSupervisor :=
  match ids with
  | [] => Ret s
  | name :: ids => s ← watchdog_one envs name s; watchdog_loop envs ids s
  end.

(** A turn of the watchdog's thread: it tests the flag, sleeps, then takes the
    mutex for the whole table. *)
Definition watchdog_turn (envs : string → Env * list Env) (ids : list string)
    (s : ProcessSupervisor) : outcome ProcessSupervisor :=
  if watchdog_running_ s then
    '(_, s) ← locked (λ s, s ← watchdog_loop envs ids s; Ret (tt, s)) s;
    Ret s
  else Ret (set_watchdog Thread.Finished false s).

(** What the watchdog still does once its flag is off: the rest of the turn it is in,
    if it is past the test of the flag. *)
Definition watchdog_last (turn : option ((string → Env * list Env) * list string))
    (s : ProcessSupervisor) : outcome ProcessSupervisor :=
  match turn with
  | Some (envs, ids) =>
      '(_, s) ← locked (λ s, s ← watchdog_loop envs ids s; Ret (tt, s)) s;
      Ret (set_watchdog Thread.Finished false s)
  | None => Ret (set_watchdog Thread.Finished false s)
  end.

(** The join lets the watchdog finish: [turn] is what it still does. *)
Definition stop_watchdog (turn : ProcessSupervisor → outcome ProcessSupervisor)
    (s : ProcessSupervisor) : outcome (bool * ProcessSupervisor) :=
  let s := set_watchdog (watchdog_thread_ s) false s in
  if Thread.joinable (watchdog_thread_ s) then
    s ← turn s; Ret (true, set_watchdog Thread.NotStarted false s)
  else Ret (true, s).

(** The destructor: its body, then that of every entry. *)
Definition destroy (ids : list string) (turn : ProcessSupervisor → outcome ProcessSupervisor)
    (s : ProcessSupervisor) : outcome unit :=
  '(_, s) ← stop_all ids s;
  '(_, s) ← stop_watchdog turn s;
  if forallb (λ '(_, e), negb (Thread.joinable (monitor_thread e))) (map_to_list (processes_ s))
  then Ret tt else Terminate.
End supervisor.

(** * The reachable states *)

(** Everything that can change the object: the operations, the steps of the
    monitor threads and the turns of the watchdog. *)
Inductive op : Type :=
  | Add (cfg : ProcessConfig)
  | Remove (polls : list (Z * list (string * Env))) (name : string)
  | Start (script : list Env) (env : Env) (name : string)
  | Stop (timeout_ms : Z) (polls : list (Z * list (string * Env))) (name : string)
  | Restart (polls : list (Z * list (string * Env))) (script : list Env) (env : Env)
      (name : string)
  | StopAll (ids : list string)
  | OnEvent
  | StartWatchdog
  | StopWatchdog (turn : option ((string → Env * list Env) * list string))
  | Monitor (env : Env) (name : string)
  | Watchdog (envs : string → Env * list Env) (ids : list string).

Definition answer {A} (m : outcome (A * ProcessSupervisor)) : outcome ProcessSupervisor :=
  '(_, s) ← m; Ret s.

Section reachable.
Context (strerror : Z → string).

Definition exec (o : op) (s : ProcessSupervisor) : outcome ProcessSupervisor :=
  match o with
  | Add cfg => answer (add_process cfg s)
  | Remove polls name => answer (remove_process strerror polls name s)
  | Start script env name => answer (start strerror script env name s)
  | Stop timeout_ms polls name => answer (stop strerror timeout_ms polls name s)
  | Restart polls script env name => answer (restart strerror polls script env name s)
  | StopAll ids => answer (stop_all ids s)
  | OnEvent => Ret (on_event s)
  | StartWatchdog => answer (start_watchdog s)
  | StopWatchdog turn => answer (stop_watchdog (watchdog_last strerror turn) s)
  | Monitor env name => monitor_step strerror env name s
  | Watchdog envs ids => watchdog_turn strerror envs ids s
  end.

Inductive reachable : ProcessSupervisor → Prop :=
  | reach_new : reachable ProcessSupervisor_new
  | reach_exec s o s' : reachable s → exec o s = Ret s' → reachable s'.

(** What every entry satisfies between steps.  The restart counter is one only while
    the thread is asleep before a restart. *)
Record entry_wf (e : ProcessEntry) : Prop := mkEntryWf {
  wf_restarts : if decide (monitor_thread e = Thread.Restarting)
    then 0 <= restart_count (state e) <= 1 else restart_count (state e) = 0;
  wf_exit : 0 <= exit_code (state e) < 256;
  wf_settled : status (state e) ≠ Status.STARTING;
  wf_restarting : status (state e) = Status.RESTARTING → monitor_thread e = Thread.Restarting;
  wf_pid : status (state e) = Status.RUNNING → 0 <= pid (state e);
  wf_failed : status (state e) = Status.FAILED →
    max_restarts (config e) <= 0 ∨ ∃ n, last_error (state e) = strerror n;
}.

Definition table_wf (s : ProcessSupervisor) : Prop :=
  map_Forall (λ _, entry_wf) (processes_ s).

(** A step that keeps the table well formed and the mutex as it was. *)
Definition keeps {A} (m : outcome (A * ProcessSupervisor)) (s : ProcessSupervisor) : Prop :=
  ∀ a s', m = Ret (a, s') → table_wf s' ∧ mutex_held s' = mutex_held s.
Definition keeps1 (m : outcome ProcessSupervisor) (s : ProcessSupervisor) : Prop :=
  ∀ s', m = Ret s' → table_wf s' ∧ mutex_held s' = mutex_held s.

Lemma WEXITSTATUS_range st : 0 <= WEXITSTATUS st < 256.
Proof.
  unfold WEXITSTATUS. change 65280 with (Z.shiftl (Z.ones 8) 8).
  assert (Z.shiftr (Z.land st (Z.shiftl (Z.ones 8) 8)) 8 = Z.land (Z.shiftr st 8) (Z.ones 8)) as ->.
  { apply Z.bits_inj'. intros n Hn.
    rewrite Z.shiftr_spec, !Z.land_spec, Z.shiftl_spec, Z.shiftr_spec by lia.
    do 2 f_equal. lia. }
  rewrite Z.land_ones by lia. apply Z.mod_pos_bound. lia.
Qed.

Lemma table_wf_put name e s : table_wf s → entry_wf e → table_wf (put name e s).
Proof. intros Hs He. by apply map_Forall_insert_2. Qed.

Lemma table_wf_lookup name e s : table_wf s → processes_ s !! name = Some e → entry_wf e.
Proof. intros Hs He. exact (Hs name e He). Qed.

(** What an entry satisfies when no restart is pending, whatever its thread does. *)
Record settled (e : ProcessEntry) : Prop := mkSettled {
  settled_restarts : restart_count (state e) = 0;
  settled_exit : 0 <= exit_code (state e) < 256;
  settled_status : status (state e) ≠ Status.STARTING ∧ status (state e) ≠ Status.RESTARTING;
  settled_pid : status (state e) = Status.RUNNING → 0 <= pid (state e);
  settled_failed : status (state e) = Status.FAILED →
    max_restarts (config e) <= 0 ∨ ∃ n, last_error (state e) = strerror n;
}.

Lemma settled_wf t e : settled e → entry_wf (set_thread t e).
Proof.
  intros [H1 H2 [H3 H4] H5 H6]. constructor; cbn; [case_decide; lia|done..|intros H; by destruct H4|done|done].
Qed.

Lemma wf_settled_entry e :
  entry_wf e → monitor_thread e ≠ Thread.Restarting → settled e.
Proof.
  intros [H1 H2 H3 H4 H5 H6] Ht. rewrite decide_False in H1 by done.
  constructor; [done..| |done|done]. split; [done|]. intros H. by apply Ht, H4.
Qed.

Lemma settled_same e : settled e → entry_wf e.
Proof. intros H. destruct e as [c p t r l]. exact (settled_wf t _ H). Qed.

Lemma entry_wf_thread t e :
  entry_wf e → monitor_thread e ≠ Thread.Restarting → entry_wf (set_thread t e).
Proof. intros H Ht. by apply settled_wf, wf_settled_entry. Qed.

(** The parts of an entry the invariant does not speak of. *)
Lemma entry_wf_memory m e : entry_wf e → entry_wf (on_state (with_memory m) e).
Proof. by intros []; constructor. Qed.
Lemma entry_wf_set_running b e : entry_wf e → entry_wf (set_running b e).
Proof. by intros []; constructor. Qed.
Lemma entry_wf_stopped e :
  entry_wf e → entry_wf (on_state (with_status Status.STOPPED) e).
Proof. by intros []; constructor. Qed.
Lemma entry_wf_exited st e :
  entry_wf e →
  entry_wf (set_running false (on_state (with_status Status.STOPPED
                                         ∘ with_exit (WEXITSTATUS st)) e)).
Proof. intros []. pose proof (WEXITSTATUS_range st). by constructor. Qed.

Lemma table_wf_did c s : table_wf (did c s) ↔ table_wf s.
Proof. done. Qed.

Lemma table_wf_emit now type name pid code msg s :
  table_wf (emit_event now type name pid code msg s) ↔ table_wf s.
Proof. unfold emit_event. by destruct (event_callback_ s). Qed.

Lemma mutex_emit now type name pid code msg s :
  mutex_held (emit_event now type name pid code msg s) = mutex_held s.
Proof. unfold emit_event. by destruct (event_callback_ s). Qed.

Lemma processes_emit now type name pid code msg s :
  processes_ (emit_event now type name pid code msg s) = processes_ s.
Proof. unfold emit_event. by destruct (event_callback_ s). Qed.

Lemma calls_emit now type name pid code msg s :
  calls (emit_event now type name pid code msg s) = calls s.
Proof. unfold emit_event. by destruct (event_callback_ s). Qed.

(** * Every step keeps the invariant *)

(** A join that keeps the table well formed and leaves no restart pending. *)
Definition good_join (join : joiner) (name : string) : Prop :=
  ∀ s s', table_wf s → join name s = Ret s' →
    table_wf s' ∧ mutex_held s' = mutex_held s ∧
    ∀ e, processes_ s' !! name = Some e → monitor_thread e ≠ Thread.Restarting.

Lemma access_Ret name s e : access (processes_ s !! name) = Ret e → processes_ s !! name = Some e.
Proof. by destruct (processes_ s !! name); intros; simplify_eq/=. Qed.

Lemma spawn_keeps join env name s :
  good_join join name → table_wf s → keeps (spawn_process strerror join env name s) s.
Proof.
  intros Hj Hs b s' H. unfold spawn_process in H. apply bind_Ret in H as (e & He%access_Ret & H).
  pose proof (table_wf_lookup name e s Hs He) as [_ Hx _ _ _ _].
  destruct (Z.ltb_spec (fork_result env) 0) as [Hf|Hf].
  - injection H as <- <-. split; [|done]. apply table_wf_put; [done|]. apply settled_same.
    constructor; cbn; try done. by eauto.
  - set (e1 := set_running true _) in H.
    assert (settled e1) as He1 by (constructor; cbn; done).
    assert (Hput : table_wf (put name e1 (did (Fork (fork_result env)) s)))
      by (apply table_wf_put; [done|by apply settled_same]).
    apply bind_Ret in H as (s2 & Hs2 & H). apply bind_Ret in H as (e2 & He2%access_Ret & H).
    injection H as <- <-. rewrite table_wf_emit, mutex_emit.
    assert (table_wf s2 ∧ mutex_held s2 = mutex_held s ∧ settled e2) as (Hw & Hm & H2).
    { destruct (Thread.joinable _).
      - destruct (Hj _ _ Hput Hs2) as (Hw & Hm & Ht). split_and!; [done..|].
        apply wf_settled_entry; [by apply (table_wf_lookup name _ s2)|by apply Ht].
      - injection Hs2 as <-. cbn in He2. rewrite lookup_insert_eq in He2.
        injection He2 as <-. done. }
    split; [|done]. by apply table_wf_put; [|apply settled_wf].
Qed.

(** A restart is recorded only when one can be counted. *)
Lemma exit_recorded_keeps env name st s b s' :
  table_wf s → exit_recorded env name st s = Ret (b, s') →
  (∀ e, processes_ s !! name = Some e →
     monitor_thread e ≠ Thread.Restarting ∨ WEXITSTATUS st = 0) →
  mutex_held s' = mutex_held s ∧
  ∃ e e', processes_ s !! name = Some e ∧ processes_ s' !! name = Some e' ∧
    monitor_thread e' = monitor_thread e ∧
    (if b then WEXITSTATUS st ≠ 0 ∧ table_wf (put name (set_thread Thread.Restarting e') s')
     else table_wf s').
Proof.
  intros Hs H Hth. unfold exit_recorded in H. apply bind_Ret in H as (e & He%access_Ret & H).
  pose proof (table_wf_lookup name e s Hs He) as Hwf.
  pose proof (entry_wf_exited st e Hwf) as He1.
  set (e1 := set_running false _) in *.
  set (s1 := emit_event _ _ name _ _ _ (put name e1 s)) in *.
  assert (table_wf s1 ∧ mutex_held s1 = mutex_held s ∧ processes_ s1 !! name = Some e1)
    as (Hs1 & Hm1 & Hp1).
  { unfold s1. rewrite table_wf_emit, mutex_emit, processes_emit.
    split; [by apply table_wf_put|]. split; [done|]. apply lookup_insert_eq. }
  clearbody s1. specialize (Hth e He). case_match eqn:Hc.
  2: { injection H as <- <-. split; [done|]. by exists e, e1. }
  apply andb_prop in Hc as [Hc%negb_true_iff%Z.eqb_neq _].
  destruct Hth as [Hth|?]; [|done].
  destruct (wf_settled_entry e1 He1 Hth) as [h1 h2 [h3 h4] h5 h6].
  case_match eqn:Hlt; injection H as <- <-.
  - cbn. rewrite mutex_emit, processes_emit. split; [done|]. eexists e, _. split; [done|].
    cbn. rewrite lookup_insert_eq. split; [reflexivity|]. split; [done|]. split; [done|].
    unfold table_wf. cbn. rewrite processes_emit. cbn. rewrite insert_insert_eq.
    apply map_Forall_insert_2; [|exact Hs1].
    cbn in h1. constructor; cbn; try done. rewrite h1, decide_True by done. done.
  - split; [done|]. eexists e, _. cbn. rewrite lookup_insert_eq.
    split; [done|]. split; [reflexivity|]. split; [done|]. apply table_wf_put; [done|].
    apply settled_same. constructor; cbn; try done. intros _. left. rewrite h1 in Hlt. by apply Z.ltb_ge in Hlt.
Qed.

Lemma join_self_good name : good_join join_self name.
Proof. by intros s s' _ H. Qed.

Lemma in_thread_Ret {A} (m : outcome A) a : in_thread m = Ret a → m = Ret a.
Proof. by destruct m. Qed.

Lemma monitor_return_keeps name s :
  table_wf s → (∀ e, processes_ s !! name = Some e → settled e) → keeps1 (monitor_return name s) s.
Proof.
  intros Hs Ht s' H. unfold monitor_return in H. apply bind_Ret in H as (e & He%access_Ret & H).
  injection H as <-. split; [|done]. apply table_wf_put; [done|]. by apply settled_wf, Ht.
Qed.

Lemma monitor_step_keeps env name s :
  table_wf s → keeps1 (monitor_step strerror env name s) s.
Proof.
  intros Hs s' H. unfold monitor_step in H. apply bind_Ret in H as (e & He%access_Ret & H).
  pose proof (table_wf_lookup name e s Hs He) as Hwf.
  destruct (monitor_thread e) eqn:Hth; [by injection H as <-|..|by injection H as <-].
  - unfold monitor_test in H. rewrite He in H. cbn in H. injection H as <-. split; [|done].
    apply table_wf_put; [done|]. apply entry_wf_thread; [done|by rewrite Hth].
  - unfold monitor_body in H. rewrite He in H. cbn [access mbind outcome_bind] in H.
    destruct (wait_status env) as [st|].
    + apply bind_Ret in H as ([b s1] & H1 & H).
      destruct (exit_recorded_keeps env name st s b s1 Hs H1) as (Hm & e0 & e1 & He0 & He1 & Hth1 & Hb).
      { intros e0 He0. left. simplify_eq. by rewrite Hth. }
      simplify_eq. destruct b; [rewrite He1 in H; injection H as <-; by destruct Hb|].
      rewrite <-Hm. revert H. apply monitor_return_keeps; [done|].
      intros e' He'. simplify_eq. apply wf_settled_entry; [by apply (table_wf_lookup name _ s1)|].
      by rewrite Hth1, Hth.
    + assert (settled e) as Hst by (apply wf_settled_entry; [done|by rewrite Hth]).
      case_match.
      * revert H. apply (monitor_return_keeps name (did (Kill (pid (state e)) SIGKILL) s)); [done|].
        intros e' He'. cbn in He'. by simplify_eq.
      * injection H as <-. split; [|done]. apply table_wf_put; [done|].
        apply entry_wf_thread; [by apply entry_wf_memory|cbn; by rewrite Hth].
  - unfold monitor_restart in H. apply bind_Ret in H as ([b s1] & H1%in_thread_Ret & H).
    pose proof (spawn_keeps join_self env name s (join_self_good name) Hs b s1 H1) as [Hs1 <-].
    revert H. apply monitor_return_keeps; [done|]. intros e1 He1.
    unfold spawn_process in H1. rewrite He in H1. cbn [access mbind outcome_bind] in H1.
    destruct (fork_result env <? 0).
    + injection H1 as _ <-. cbn in He1. rewrite lookup_insert_eq in He1. injection He1 as <-.
      destruct Hwf. constructor; cbn; try done. by eauto.
    + cbn [monitor_thread on_state] in H1. rewrite Hth in H1. done.
Qed.

Lemma keeps1_trans m f s :
  keeps1 m s → (∀ s1, table_wf s1 → keeps1 (f s1) s1) → keeps1 (s1 ← m; f s1) s.
Proof.
  intros Hm Hf s' H. apply bind_Ret in H as (s1 & H1 & H).
  destruct (Hm s1 H1) as [Hs1 <-]. by apply Hf.
Qed.

Lemma join_other_good script name : good_join (join_other strerror script) name.
Proof.
  induction script as [|env script IH]; intros s s' Hs H; cbn in H;
    apply bind_Ret in H as (e & He%access_Ret & H);
    pose proof (table_wf_lookup name e s Hs He) as Hwf; case_bool_decide as Ht; [|done| |].
  1,2: injection H as <-; split; [apply table_wf_put, entry_wf_thread; [done..|by rewrite Ht]|];
    split; [done|]; cbn; rewrite lookup_insert_eq; by intros e' [= <-].
  apply bind_Ret in H as (s1 & H1 & H).
  destruct (monitor_step_keeps env name s Hs s1 H1) as [Hs1 <-]. by apply IH.
Qed.

Lemma others_keeps steps s : table_wf s → keeps1 (others strerror steps s) s.
Proof.
  revert s. induction steps as [|[name env] steps IH]; intros s Hs.
  - by intros s' [= <-].
  - apply (keeps1_trans _ _ s); [by apply monitor_step_keeps|apply IH].
Qed.

Lemma stop_loop_keeps t polls name s :
  table_wf s → keeps1 (stop_loop strerror t polls name s) s.
Proof.
  revert s. induction polls as [|[elapsed steps] polls IH]; intros s Hs s' H; cbn in H;
    apply bind_Ret in H as (e & He & H); (case_match; [|by simplify_eq]); [done|].
  case_match; [by simplify_eq|]. revert H.
  apply (keeps1_trans _ _ s); [by apply others_keeps|apply IH].
Qed.

Lemma locked_keeps {A} (body : ProcessSupervisor → outcome (A * ProcessSupervisor)) s :
  (∀ s, table_wf s → keeps (body s) s) → table_wf s → keeps (locked body s) s.
Proof.
  intros Hb Hs a s' H. unfold locked in H. destruct (mutex_held s) eqn:Hm; [done|].
  apply bind_Ret in H as ([b s1] & H1 & H). injection H as <- <-.
  by destruct (Hb (set_held true s) Hs _ _ H1) as [H2 H3].
Qed.

Lemma answer_keeps {A} (m : outcome (A * ProcessSupervisor)) s : keeps m s → keeps1 (answer m) s.
Proof.
  intros Hm s' H. apply bind_Ret in H as ([a s1] & H1 & H). simplify_eq. by eapply Hm.
Qed.

Lemma stop_keeps t polls name s : table_wf s → keeps (stop strerror t polls name s) s.
Proof.
  apply locked_keeps. clear s. intros s Hs b s' H.
  destruct (processes_ s !! name) as [e|] eqn:E; [|by simplify_eq].
  case_match; [by simplify_eq|]. apply bind_Ret in H as (s1 & H1 & H).
  apply stop_loop_keeps in H1 as [Hs1 Hm1].
  2: { apply table_wf_did, table_wf_put; [done|].
       by apply entry_wf_set_running, (table_wf_lookup name _ s). }
  apply bind_Ret in H as (e1 & He1 & H). injection H as <- <-.
  destruct (processes_ s1 !! name) eqn:E1; simplify_eq/=. split; [|done].
  by apply table_wf_put, entry_wf_stopped, (table_wf_lookup name _ s1).
Qed.

Lemma start_keeps script env name s : table_wf s → keeps (start strerror script env name s) s.
Proof.
  apply locked_keeps. clear s. intros s Hs b s' H.
  destruct (processes_ s !! name) as [e|] eqn:E; [|by simplify_eq].
  case_match; [by simplify_eq|]. revert H. by apply spawn_keeps; [apply join_other_good|].
Qed.

Lemma restart_keeps polls script env name s :
  table_wf s → keeps (restart strerror polls script env name s) s.
Proof.
  intros Hs b s' H. apply bind_Ret in H as ([b1 s1] & H1 & H).
  destruct (stop_keeps _ _ _ _ Hs _ _ H1) as [Hs1 <-]. revert H. by apply start_keeps.
Qed.

Lemma add_keeps cfg s : table_wf s → keeps (add_process cfg s) s.
Proof.
  apply locked_keeps. clear s. intros s Hs b s' H.
  destruct (processes_ s !! cfg_name cfg); [by simplify_eq|]. injection H as <- <-.
  split; [|done]. apply table_wf_put; [done|]. constructor; cbn; try done; lia || (by split).
Qed.

Lemma remove_keeps polls name s : table_wf s → keeps (remove_process strerror polls name s) s.
Proof.
  apply locked_keeps. clear s. intros s Hs b s' H.
  destruct (processes_ s !! name) as [e|] eqn:E; [|by simplify_eq].
  apply bind_Ret in H as (s1 & H1 & H).
  assert (table_wf s1 ∧ mutex_held s1 = mutex_held s) as [Hs1 Hm1].
  { destruct (is_running e); [|by simplify_eq].
    revert H1. apply (answer_keeps _ s), stop_keeps; done. }
  apply bind_Ret in H as (e1 & _ & H). apply bind_Ret in H as (u & _ & H).
  simplify_eq/=. split; [by apply map_Forall_delete|done].
Qed.

Lemma stop_all_keeps ids s : table_wf s → keeps (stop_all ids s) s.
Proof.
  apply locked_keeps. clear s. intros s Hs b s' [= <- <-].
  revert s Hs. induction ids as [|id ids IH]; intros s Hs; [done|]. cbn.
  assert (table_wf (stop_one s id) ∧ mutex_held (stop_one s id) = mutex_held s) as [H <-].
  { unfold stop_one. destruct (processes_ s !! id) as [e|] eqn:E; [|done].
    case_match; [|done]. split; [|done].
    by apply table_wf_put, entry_wf_set_running, (table_wf_lookup id _ s). }
  by apply IH.
Qed.

Lemma WEXITSTATUS_small st : 0 <= st < 256 → WEXITSTATUS st = 0.
Proof.
  intros Hst. unfold WEXITSTATUS. change 65280 with (Z.shiftl (Z.ones 8) 8).
  apply Z.bits_inj'. intros n Hn.
  rewrite Z.shiftr_spec, Z.land_spec, Z.bits_0 by lia. apply andb_false_intro1.
  destruct (Z.eq_dec st 0) as [->|]; [apply Z.bits_0|].
  apply Z.bits_above_log2; [lia|]. assert (Z.log2 st < 8); [|lia]. apply Z.log2_lt_pow2; lia.
Qed.

Lemma watchdog_loop_keeps envs ids s :
  table_wf s → keeps1 (watchdog_loop strerror envs ids s) s.
Proof.
  revert s. induction ids as [|id ids IH]; intros s Hs.
  { by intros s' [= <-]. }
  apply (keeps1_trans _ _ s); [|apply IH]. intros s' H. unfold watchdog_one in H.
  destruct (processes_ s !! id) as [e|]; [|by injection H as <-].
  case_match; [|by injection H as <-]. destruct (wait_status _) as [st|]; [|by injection H as <-].
  apply in_thread_Ret in H. unfold handle_exit in H. apply bind_Ret in H as ([b s1] & H1 & H).
  assert (WEXITSTATUS (WEXITSTATUS st) = 0) as Hz by apply WEXITSTATUS_small, WEXITSTATUS_range.
  destruct (exit_recorded_keeps (envs id).1 id (WEXITSTATUS st) s b s1 Hs H1) as (Hm & e1 & e2 & _ & _ & _ & Hb);
    [by right|]. destruct b; [by destruct Hb|]. by injection H as <-.
Qed.

Lemma watchdog_locked_keeps envs ids s :
  table_wf s → keeps (locked (λ s, s ← watchdog_loop strerror envs ids s; Ret (tt, s)) s) s.
Proof.
  apply locked_keeps. clear s. intros s Hs u s' H. apply bind_Ret in H as (s1 & H1 & H).
  simplify_eq/=. by apply (watchdog_loop_keeps envs ids s Hs).
Qed.

Lemma exec_keeps o s : table_wf s → keeps1 (exec o s) s.
Proof.
  intros Hs. destruct o; cbn.
  - by apply answer_keeps, add_keeps.
  - by apply answer_keeps, remove_keeps.
  - by apply answer_keeps, start_keeps.
  - by apply answer_keeps, stop_keeps.
  - by apply answer_keeps, restart_keeps.
  - by apply answer_keeps, stop_all_keeps.
  - by intros s' [= <-].
  - apply answer_keeps. intros b s' H. unfold start_watchdog in H.
    by repeat case_match; simplify_eq/=.
  - apply answer_keeps. intros b s' H. unfold stop_watchdog in H.
    case_match; [|by injection H as <- <-]. apply bind_Ret in H as (s1 & H1 & H).
    injection H as <- <-. destruct turn as [[envs ids]|]; [|by injection H1 as <-].
    apply bind_Ret in H1 as ([u s2] & H1 & H2). injection H2 as <-.
    by apply (watchdog_locked_keeps envs ids (set_watchdog (watchdog_thread_ s) false s) Hs u s2 H1).
  - by apply monitor_step_keeps.
  - unfold watchdog_turn. case_match; [|by intros s' [= <-]].
    by apply (answer_keeps (locked _ s)), watchdog_locked_keeps.
Qed.

Lemma reachable_inv s : reachable s → table_wf s ∧ mutex_held s = false.
Proof.
  induction 1 as [|s o s' _ [IH1 IH2] H].
  - split; [|done]. apply map_Forall_empty.
  - destruct (exec_keeps o s IH1 s' H) as [H1 H2]. by rewrite H2.
Qed.

(** C9: in every state the object can reach, through any interleaving of its
    operations, its monitor threads and its watchdog, no lock is left held and no
    process is left starting; a process is found restarting only while its monitor
    thread is asleep before the restart; every exit code fits a byte; the restart
    counter of every process is zero, or at most one during that sleep, so the limit
    on restarts never counts: a process is failed only when [fork] failed or its limit
    is zero. *)
Theorem reachable_wf s name e :
  reachable s → processes_ s !! name = Some e →
  mutex_held s = false ∧
  status (state e) ≠ Status.STARTING ∧
  (status (state e) = Status.RESTARTING → monitor_thread e = Thread.Restarting) ∧
  0 <= exit_code (state e) < 256 ∧
  0 <= restart_count (state e) <= 1 ∧
  (monitor_thread e ≠ Thread.Restarting → restart_count (state e) = 0) ∧
  (status (state e) = Status.RUNNING → 0 <= pid (state e)) ∧
  (status (state e) = Status.FAILED →
     max_restarts (config e) <= 0 ∨ ∃ n, last_error (state e) = strerror n).
Proof.
  intros Hs He. destruct (reachable_inv s Hs) as [Hw Hm].
  destruct (table_wf_lookup name e s Hw He) as [H1 ? ? ? ? ?].
  split_and!; try done; case_decide; try done; lia.
Qed.
End reachable.

(** * Properties of single operations *)
Section properties.
Context (strerror : Z → string).

(** C25: restarting a crashed process kills the daemon.  When the monitor thread
    of a process with a restart policy and restarts left reaps a non-zero exit
    code, it announces a restart and goes to sleep with the process marked as
    restarting; and in any later state in which it is still asleep, whatever else has
    happened, its next step, if [fork] succeeds, joins the thread itself inside
    [spawn_process]: the exception leaves the thread and [std::terminate] is called. *)
Theorem monitor_restart_terminates env name st s e :
  processes_ s !! name = Some e →
  monitor_thread e = Thread.InBody →
  wait_status env = Some st → WEXITSTATUS st ≠ 0 →
  restart_policy (config e) ≠ RestartPolicy.NEVER →
  restart_count (state e) < max_restarts (config e) →
  (∃ s1 e1, monitor_step strerror env name s = Ret s1 ∧ processes_ s1 !! name = Some e1 ∧
     monitor_thread e1 = Thread.Restarting ∧ status (state e1) = Status.RESTARTING ∧
     restart_count (state e1) = u64 (restart_count (state e) + 1) ∧
     calls s1 = calls s ++ [Sleep (restart_delay_ms (config e))]) ∧
  (∀ env2 s2 e2, processes_ s2 !! name = Some e2 → monitor_thread e2 = Thread.Restarting →
     0 <= fork_result env2 → monitor_step strerror env2 name s2 = Terminate).
Proof.
  intros He Ht Hw Hst Hp Hr. split.
  - unfold monitor_step. rewrite He. cbn [access mbind outcome_bind]. rewrite Ht.
    unfold monitor_body. rewrite He. cbn [access mbind outcome_bind]. rewrite Hw.
    unfold exit_recorded. rewrite He. cbn.
    rewrite (proj2 (Z.eqb_neq _ _) Hst), bool_decide_false, (proj2 (Z.ltb_lt _ _) Hr) by done.
    cbn. rewrite processes_emit. cbn.
    rewrite lookup_insert_eq. cbn. eexists _, _. split; [reflexivity|]. cbn.
    rewrite lookup_insert_eq. split; [reflexivity|]. cbn. split_and!; [done..|].
    rewrite !calls_emit. cbn. by rewrite calls_emit.
  - intros env2 s2 e2 He2 Ht2 Hf. unfold monitor_step. rewrite He2.
    cbn [access mbind outcome_bind]. rewrite Ht2. unfold monitor_restart, spawn_process.
    rewrite He2. cbn [access mbind outcome_bind]. rewrite (proj2 (Z.ltb_ge _ _) Hf).
    cbn [monitor_thread on_state]. rewrite Ht2. done.
Qed.

(** C35: [remove_process] works only on a process that was never started.  It
    answers false for an unknown name; on a running process it calls [stop], which
    locks the mutex it already holds; on any other process that has run it
    destroys a joinable thread. *)
Theorem remove_process_outcome polls name s :
  mutex_held s = false →
  remove_process strerror polls name s =
    match processes_ s !! name with
    | None => Ret (false, s)
    | Some e =>
        if is_running e then Undefined
        else if Thread.joinable (monitor_thread e) then Terminate
        else Ret (true, set_processes (delete name (processes_ s)) s)
    end.
Proof.
  intros Hm. unfold remove_process, locked. rewrite Hm. cbn.
  destruct (processes_ s !! name) as [e|] eqn:He; cbn.
  - destruct (is_running e); [done|]. cbn. rewrite He. cbn. unfold destroy_entry.
    destruct (Thread.joinable _); [done|]. destruct s; simplify_eq/=. by f_equal.
  - destruct s; simplify_eq/=. by f_equal.
Qed.

(** Whatever the wait status, a process the watchdog reaps is recorded as
    having exited with code zero: the exit code is decoded twice.  A crash is
    reported as a normal stop and the restart policy is not consulted. *)
Lemma watchdog_reports_success envs name st s e :
  processes_ s !! name = Some e → is_running e = true → 0 < pid (state e) →
  wait_status (envs name).1 = Some st →
  watchdog_one strerror envs name s =
    Ret (emit_event (now (envs name).1) EventType.STOPPED name (pid (state e)) 0 ""
           (put name (set_running false
              (on_state (with_status Status.STOPPED ∘ with_exit 0) e)) s)).
Proof.
  intros He Hr Hp Hw. unfold watchdog_one. rewrite He, Hr, (proj2 (Z.ltb_lt _ _) Hp), Hw.
  cbn. unfold handle_exit, exit_recorded. rewrite He.
  pose proof (WEXITSTATUS_range st) as Hst. by rewrite (WEXITSTATUS_small (WEXITSTATUS st)).
Qed.

Lemma entry_of_put name e s : processes_ (put name e s) !! name = Some e.
Proof. apply lookup_insert_eq. Qed.

(** A monitor thread outside its loop body goes no further once [running] is off. *)
Definition asleep (name : string) (p : ProcessState) (cs : list call)
    (s : ProcessSupervisor) : Prop :=
  calls s = cs ∧ ∃ e, processes_ s !! name = Some e ∧ state e = p ∧ running e = false ∧
    monitor_thread e ≠ Thread.InBody ∧ monitor_thread e ≠ Thread.Restarting.

Lemma asleep_others name p cs steps s :
  asleep name p cs s → Forall (λ st : string * Env, st.1 = name) steps →
  ∃ s', others strerror steps s = Ret s' ∧ asleep name p cs s'.
Proof.
  intros Hs Hst. revert s Hs. induction Hst as [|[n env] steps Hn _ IH]; intros s Hs.
  { by exists s. }
  cbn in Hn. subst n. destruct Hs as (Hc & e & He & Hp & Hr & Ht & Ht2).
  cbn [others]. unfold monitor_step. rewrite He. cbn.
  destruct (monitor_thread e) eqn:Hth; try done; cbn.
  - apply IH. split; [done|]. exists e. rewrite Hth. done.
  - unfold monitor_test. rewrite He. cbn. rewrite Hr. apply IH. split; [done|].
    eexists. split; [apply entry_of_put|]. done.
  - apply IH. split; [done|]. exists e. rewrite Hth. done.
Qed.

Lemma stop_loop_asleep t polls name p cs s :
  asleep name p cs s → status p = Status.RUNNING →
  Forall (λ poll, Forall (λ st : string * Env, st.1 = name) poll.2) polls →
  Exists (λ poll, t < poll.1) polls →
  ∃ s', stop_loop strerror t polls name s = Ret s' ∧
        asleep name p (cs ++ [Kill (pid p) SIGKILL]) s'.
Proof.
  intros Hs Hrun Hf Hx. revert s Hs.
  induction Hf as [|[elapsed steps] polls Hst _ IH]; intros s Hs; [by inversion Hx|].
  pose proof Hs as (Hc & e & He & Hp & Hr & Ht). subst p cs.
  cbn [stop_loop]. rewrite He. cbn. unfold is_running. rewrite bool_decide_true by done.
  destruct (Z.ltb_spec t elapsed).
  - eexists. split; [done|]. split; [done|]. by exists e.
  - destruct (asleep_others name _ _ steps s Hs Hst) as (s1 & -> & Hs1).
    apply IH; [|done]. inversion Hx; simplify_eq/=; [lia|done].
Qed.

(** C24: [stop] on a process whose monitor thread is not in the middle of its loop
    body (nor asleep before a restart, when the process does not run) never sees the process exit, however soon it does: the thread leaves at
    its next test without reaping it.  The call waits for the whole timeout, sends
    [SIGKILL] after [SIGTERM], and leaves the exit code as it was. *)
Theorem stop_times_out t polls name s e :
  mutex_held s = false → processes_ s !! name = Some e →
  status (state e) = Status.RUNNING →
  monitor_thread e ≠ Thread.InBody → monitor_thread e ≠ Thread.Restarting →
  Forall (λ poll, Forall (λ st : string * Env, st.1 = name) poll.2) polls →
  Exists (λ poll, t < poll.1) polls →
  ∃ s' e', stop strerror t polls name s = Ret (true, s') ∧
    processes_ s' !! name = Some e' ∧
    state e' = with_status Status.STOPPED (state e) ∧
    calls s' = calls s ++ [Kill (pid (state e)) SIGTERM; Kill (pid (state e)) SIGKILL].
Proof.
  intros Hm He Hrun Ht Ht2 Hf Hx. unfold stop, locked. rewrite Hm. cbn. rewrite He.
  unfold is_running at 1. rewrite bool_decide_true by done. cbn.
  destruct (stop_loop_asleep t polls name (state e) (calls s ++ [Kill (pid (state e)) SIGTERM])
    (did (Kill (pid (state e)) SIGTERM) (put name (set_running false e) (set_held true s))))
    as (s1 & -> & Hc & e1 & He1 & Hp & _); try done.
  { split; [done|]. eexists. split; [apply entry_of_put|]. done. }
  cbn. rewrite He1. cbn. eexists _, _. split; [done|]. split; [apply entry_of_put|].
  split; [by cbn; rewrite Hp|]. cbn. rewrite Hc. by rewrite <-(assoc_L (++)).
Qed.

Lemma stop_one_threads ids s name :
  monitor_thread <$> processes_ (fold_left stop_one ids s) !! name
    = monitor_thread <$> processes_ s !! name.
Proof.
  revert s. induction ids as [|id ids IH]; intros s; [done|]. cbn. rewrite IH.
  unfold stop_one. destruct (processes_ s !! id) as [e|] eqn:He; [|done].
  destruct (is_running e); [|done]. cbn.
  destruct (decide (id = name)) as [->|]; [by rewrite lookup_insert_eq, He|].
  by rewrite lookup_insert_ne.
Qed.

Lemma stop_one_watchdog ids s :
  watchdog_thread_ (fold_left stop_one ids s) = watchdog_thread_ s.
Proof.
  revert s. induction ids as [|id ids IH]; intros s; [done|]. cbn. rewrite IH.
  unfold stop_one. destruct (processes_ s !! id); [|done]. by destruct (is_running _).
Qed.

(** C36: without a watchdog, the destructor of a supervisor returns when no process
    was ever started, and calls [std::terminate] as soon as one was, running or
    not: no operation joins a monitor thread for good. *)
Theorem destroy_outcome ids turn s :
  mutex_held s = false → watchdog_thread_ s = Thread.NotStarted →
  (destroy ids turn s = Ret tt ↔
     ∀ name e, processes_ s !! name = Some e → monitor_thread e = Thread.NotStarted) ∧
  (destroy ids turn s = Terminate ↔
     ∃ name e, processes_ s !! name = Some e ∧ monitor_thread e ≠ Thread.NotStarted).
Proof.
  intros Hm Hw. unfold destroy, stop_all, locked. rewrite Hm. cbn.
  unfold stop_watchdog. cbn. rewrite stop_one_watchdog. cbn. rewrite Hw.
  change (Thread.joinable Thread.NotStarted) with false. cbn.
  set (p := processes_ (fold_left stop_one ids (set_held true s))).
  assert (Hp : ∀ name, monitor_thread <$> p !! name = monitor_thread <$> processes_ s !! name)
    by (intros name; exact (stop_one_threads ids (set_held true s) name)).
  clearbody p. clear -Hp.
  assert (Hall : forallb (λ '(_, e), negb (Thread.joinable (monitor_thread e))) (map_to_list p)
    = true ↔ ∀ name e, processes_ s !! name = Some e → monitor_thread e = Thread.NotStarted).
  { rewrite forallb_forall. setoid_rewrite <-list_elem_of_In. split.
    - intros H name e He. specialize (Hp name). rewrite He in Hp.
      destruct (p !! name) as [e'|] eqn:He'; [|done]. cbn in Hp. injection Hp as <-.
      apply elem_of_map_to_list, H in He'. unfold Thread.joinable in He'.
      apply negb_true_iff, bool_decide_eq_false in He'. by apply dec_stable.
    - intros H [name e] He%elem_of_map_to_list. specialize (Hp name). rewrite He in Hp.
      destruct (processes_ s !! name) as [e'|] eqn:He'; [|done]. cbn in Hp. injection Hp as Hp.
      rewrite Hp, (H name e' He'). done. }
  destruct (forallb _ _); split; split; try done.
  - intros _. by apply Hall.
  - intros (name & e & He & Hne). exfalso. exact (Hne (proj1 Hall eq_refl name e He)).
  - intros H. by apply Hall in H.
  - intros _. destruct (decide (map_Forall
      (λ _ e, monitor_thread e = Thread.NotStarted) (processes_ s))) as [H|H].
    + by apply Hall in H.
    + apply map_not_Forall in H as (name & e & He & Hne); [|apply _]. by exists name, e.
Qed.

(** A monitor thread in its loop body kills a process that has outlived its
    timeout, the milliseconds being computed at 32 bits, and leaves it recorded as
    running with no thread to reap it; a timeout of zero never fires, and up to
    4294967 seconds the product is exact. *)
Lemma monitor_timeout env name s e :
  processes_ s !! name = Some e → monitor_thread e = Thread.InBody →
  wait_status env = None →
  let limit := u32 (timeout_seconds (config e) * 1000) in
  let up := u64 (now env - start_time (state e)) in
  (0 <= timeout_seconds (config e) <= 4294967 → limit = timeout_seconds (config e) * 1000) ∧
  if (0 <? timeout_seconds (config e)) && (limit <? up) then
    monitor_step strerror env name s =
      Ret (put name (set_thread Thread.Finished e) (did (Kill (pid (state e)) SIGKILL) s))
  else
    ∃ memory, monitor_step strerror env name s =
      Ret (put name (set_thread Thread.AtLoop (on_state (with_memory memory) e)) s).
Proof.
  intros He Ht Hw limit up. split; [intros; apply wrap_small; lia|].
  unfold monitor_step. rewrite He. cbn. rewrite Ht. unfold monitor_body. rewrite He. cbn.
  rewrite Hw. unfold timed_out. fold limit up. destruct ((0 <? _) && _).
  - unfold monitor_return. cbn. by rewrite He.
  - by eexists.
Qed.

(** Joining a thread that is done, when there is one. *)
Lemma join_idle script name th e s :
  th = monitor_thread e →
  monitor_thread e = Thread.NotStarted ∨ monitor_thread e = Thread.Finished →
  (if Thread.joinable th
   then join_other strerror script name (put name e s) else Ret (put name e s))
    = Ret (put name (set_thread Thread.NotStarted e) s).
Proof.
  intros -> [Ht|Ht]; rewrite Ht.
  - change (Thread.joinable Thread.NotStarted) with false. by destruct e; simplify_eq/=.
  - change (Thread.joinable Thread.Finished) with true.
    destruct script; cbn; rewrite lookup_insert_eq; cbn; rewrite Ht; cbn;
      unfold put; cbn; by rewrite insert_insert_eq.
Qed.

(** C34: [start] answers false for an unknown process and for a running one,
    whatever its monitor thread is doing; a failed [fork] leaves the process failed
    with the system's message, again whatever the thread does; and when the process
    is forked and its previous monitor thread is done, or there was none, it runs
    under the new pid with a fresh monitor thread, the previous one joined. *)
Theorem start_spec script env name s :
  mutex_held s = false →
  (∀ e, processes_ s !! name = Some e → is_running e = false → 0 <= fork_result env →
     monitor_thread e = Thread.NotStarted ∨ monitor_thread e = Thread.Finished) →
  start strerror script env name s =
    match processes_ s !! name with
    | None => Ret (false, s)
    | Some e =>
        if is_running e then Ret (false, s)
        else if fork_result env <? 0 then
          Ret (false, put name (on_state (λ p, mkState Status.FAILED (pid p) (exit_code p)
                          (start_time p) 0 (strerror (errno env)) (cpu_time_ms p)
                          (memory_bytes p)) e) (did (Fork (fork_result env)) s))
        else
          Ret (true, emit_event (now env) EventType.STARTED name (fork_result env) 0 ""
                 (put name (mkEntry (config e) (mkState Status.RUNNING (fork_result env)
                      (exit_code (state e)) (now env) 0 (last_error (state e))
                      (cpu_time_ms (state e)) (memory_bytes (state e)))
                      Thread.AtLoop true (logs e)) (did (Fork (fork_result env)) s)))
    end.
Proof.
  intros Hm Hth. unfold start, locked. rewrite Hm. cbn.
  destruct (processes_ s !! name) as [e|] eqn:He; cbn.
  2: { by destruct s; simplify_eq/=. }
  destruct (is_running e) eqn:Hr; cbn; [by destruct s; simplify_eq/=|].
  unfold spawn_process. change (processes_ (set_held true s)) with (processes_ s).
  rewrite He. cbn [access mbind outcome_bind].
  destruct (Z.ltb_spec (fork_result env) 0); [by destruct s; simplify_eq/=|].
  erewrite (bind_eq (if Thread.joinable _ then _ else _)) by (apply join_idle; cbn; [reflexivity|by apply Hth]).
  cbn. rewrite lookup_insert_eq. cbn. unfold put, emit_event. cbn. rewrite insert_insert_eq.
  destruct s; simplify_eq/=. by destruct event_callback_0.
Qed.
End properties.

(** * Concrete runs *)
Definition no_strerror : Z → string := λ _, "error".

Definition quiet (now : Z) : Env := mkEnv 100 0 None now (λ _, None).
Definition reaps (st now : Z) : Env := mkEnv 101 0 (Some st) now (λ _, None).

Definition web : ProcessEntry :=
  mkEntry (default_config "web" "/bin/web")
    (mkState Status.RUNNING 100 0 5 0 "" 0 0) Thread.AtLoop true [].

(** After [on_event], [add_process] and [start]. *)
Definition one_process (e : ProcessEntry) : ProcessSupervisor :=
  mkSupervisor {["web" := e]} false true Thread.NotStarted false
    [mkEvent EventType.STARTED "web" 100 0 5 ""] [Fork 100].

Definition after (os : list op) : outcome ProcessSupervisor :=
  foldl (λ m o, s ← m; exec no_strerror o s) (Ret ProcessSupervisor_new) os.

Example start_run :
  after [OnEvent; Add (default_config "web" "/bin/web"); Start [] (quiet 5) "web"]
  = Ret (one_process web).
Proof. vm_compute. reflexivity. Qed.

(** The crash of a process that may restart takes the whole daemon down. *)
Example crash_run :
  after [OnEvent; Add (default_config "web" "/bin/web"); Start [] (quiet 5) "web";
         Monitor (quiet 6) "web"; Monitor (reaps 256 505) "web"; Monitor (quiet 1505) "web"]
  = Terminate.
Proof. vm_compute. reflexivity. Qed.

(** In the second before that, the process is seen restarting, for the first time. *)
Example crash_seen :
  (λ s, (λ e, (status (state e), restart_count (state e))) <$> processes_ s !! "web")
    <$> after [OnEvent; Add (default_config "web" "/bin/web"); Start [] (quiet 5) "web";
         Monitor (quiet 6) "web"; Monitor (reaps 256 505) "web"]
  = Ret (Some (Status.RESTARTING, 1)).
Proof. vm_compute. reflexivity. Qed.

(** The same crash, seen by the watchdog first, passes for a normal stop. *)
Example watchdog_run :
  events <$> after [OnEvent; Add (default_config "web" "/bin/web"); Start [] (quiet 5) "web";
         StartWatchdog; Watchdog (λ _, (reaps 256 505, [])) ["web"]]
  = Ret [mkEvent EventType.STARTED "web" 100 0 5 "";
         mkEvent EventType.STOPPED "web" 100 0 505 ""].
Proof. vm_compute. reflexivity. Qed.

Lemma reachable_after os s : after os = Ret s → reachable no_strerror s.
Proof.
  unfold after. revert s. induction os as [|o os IH] using rev_ind; intros s.
  - intros [= <-]. constructor.
  - rewrite foldl_app. cbn. intros (s1 & H1 & H2)%bind_Ret.
    econstructor; [by apply IH|exact H2].
Qed.

Lemma reachable_wf_witness :
  restart_count (state web) = 0 ∧ 0 <= pid (state web).
Proof.
  destruct (reachable_wf no_strerror (one_process web) "web" web
    (reachable_after _ _ start_run) eq_refl) as (_ & _ & _ & _ & _ & H1 & H2 & _).
  split; [apply H1; discriminate|exact (H2 eq_refl)].
Defined.

Lemma monitor_restart_terminates_witness :
  ∃ s1 e1, monitor_step no_strerror (reaps 256 505) "web" (one_process (set_thread Thread.InBody web))
      = Ret s1 ∧ processes_ s1 !! "web" = Some e1 ∧ status (state e1) = Status.RESTARTING ∧
    monitor_step no_strerror (quiet 1505) "web" s1 = Terminate.
Proof.
  destruct (monitor_restart_terminates no_strerror (reaps 256 505) "web" 256
    (one_process (set_thread Thread.InBody web)) (set_thread Thread.InBody web))
    as [(s1 & e1 & H1 & H2 & H3 & H4 & _) H]; try done.
  exists s1, e1. split; [exact H1|]. split; [exact H2|]. split; [exact H4|].
  by apply (H (quiet 1505) s1 e1).
Defined.

Lemma remove_process_outcome_witness :
  remove_process no_strerror [] "web" (one_process web) = Undefined ∧
  remove_process no_strerror [] "web"
    (one_process (on_state (with_status Status.STOPPED) web)) = Terminate ∧
  remove_process no_strerror [] "db" (one_process web) = Ret (false, one_process web).
Proof. split_and!; by rewrite remove_process_outcome. Defined.

Lemma watchdog_reports_success_witness :
  watchdog_one no_strerror (λ _, (reaps 256 505, [])) "web" (one_process web) =
    Ret (emit_event 505 EventType.STOPPED "web" 100 0 ""
           (put "web" (set_running false
              (on_state (with_status Status.STOPPED ∘ with_exit 0) web)) (one_process web))).
Proof.
  by apply (watchdog_reports_success no_strerror (λ _, (reaps 256 505, [])) "web" 256
    (one_process web) web).
Defined.

(** The process exits at once; the call still takes the full timeout. *)
Lemma stop_times_out_witness :
  ∃ s' e', stop no_strerror 5000
      [(0, [("web", reaps 0 6); ("web", reaps 0 506)]); (2500, []); (5001, [])] "web"
      (one_process web) = Ret (true, s') ∧
    processes_ s' !! "web" = Some e' ∧
    state e' = with_status Status.STOPPED (state web) ∧
    calls s' = [Fork 100; Kill 100 SIGTERM; Kill 100 SIGKILL].
Proof.
  apply (stop_times_out no_strerror 5000 _ "web" (one_process web) web); try done.
  - repeat constructor.
  - do 2 apply Exists_cons_tl. by apply Exists_cons_hd.
Defined.

Lemma destroy_outcome_witness :
  destroy ["web"] Ret (one_process web) = Terminate ∧
  destroy [] Ret ProcessSupervisor_new = Ret tt.
Proof.
  split.
  - apply (destroy_outcome ["web"] Ret (one_process web)); try done. by exists "web", web.
  - by apply (destroy_outcome [] Ret ProcessSupervisor_new).
Defined.

Lemma monitor_timeout_witness :
  monitor_step no_strerror (quiet 300006) "web" (one_process (set_thread Thread.InBody web)) =
    Ret (put "web" (set_thread Thread.Finished (set_thread Thread.InBody web))
           (did (Kill 100 SIGKILL) (one_process (set_thread Thread.InBody web)))).
Proof.
  exact (proj2 (monitor_timeout no_strerror (quiet 300006) "web"
    (one_process (set_thread Thread.InBody web)) (set_thread Thread.InBody web)
    eq_refl eq_refl eq_refl)).
Defined.

Lemma start_spec_witness :
  ∃ s', start no_strerror [] (quiet 700) "web"
          (one_process (set_thread Thread.Finished
             (on_state (with_status Status.STOPPED ∘ with_restarts 1) web))) = Ret (true, s') ∧
    calls s' = [Fork 100; Fork 100] ∧
    (restart_count ∘ state <$> processes_ s' !! "web") = Some 0.
Proof.
  rewrite start_spec.
  - eexists. split; [reflexivity|]. by vm_compute.
  - done.
  - intros e. vm_compute. intros [= <-] _ _. by right.
Defined.
