(* ===== verification/Lifecycle.v ===== *)
(** The life of a supervised process (process_supervisor.hpp, process_supervisor.cpp)
    as an abstract machine: what each call, and each step of a thread, may do to one
    name, whatever happens to the others.  Every run of the detailed model is a path
    of this machine, with the events the callback hears. *)
From S2P Require Import Prelude Supervisor.

#[local] Open Scope Z_scope.

(** * The machine *)

(** A process is down, up, waiting for a restart, or given up; and its monitor thread
    is gone, watches it, or has a restart pending. *)
Inductive phase : Type := Down | Up | Waiting | Failed.
Inductive reporter : Type := Gone | Watching | Pending.

(** The configuration, the phase, the pid of the last process started, the thread. *)
Record life : Type := mkLife {
  life_config : ProcessConfig;
  life_phase : phase;
  life_pid : Z;
  life_reporter : reporter;
}.

(** A name is free, or carries a life. *)
Definition view : Type := option life.

(** An event as the callback hears it: its type, pid and exit code. *)
Definition notice : Type := EventType.t * Z * Z.

(** What is made of the end of the process [p]: the events, the phase, the thread. *)
Definition verdict (c : ProcessConfig) (p st : Z) : list notice * phase * reporter :=
  let code := WEXITSTATUS st in
  if code =? 0 then ([(EventType.STOPPED, p, 0)], Down, Gone)
  else if bool_decide (restart_policy c = RestartPolicy.NEVER)
  then ([(EventType.CRASHED, p, code)], Down, Gone)
  else if max_restarts c <=? 0 then ([(EventType.CRASHED, p, code)], Failed, Gone)
  else ([(EventType.CRASHED, p, code); (EventType.RESTARTED, -1, 0)], Waiting, Pending).

(** A step of the monitor thread.  None brings a process up. *)
Inductive tick (env : Env) : life → list notice → life → Prop :=
  | tick_idle x : tick env x [] x
  | tick_leaves c ph p : tick env (mkLife c ph p Watching) [] (mkLife c ph p Gone)
  | tick_reaps c ph p st l ph' r' :
      wait_status env = Some st → verdict c p st = (l, ph', r') →
      tick env (mkLife c ph p Watching) l (mkLife c ph' p r')
  | tick_not_restarted c ph p :
      fork_result env < 0 → tick env (mkLife c ph p Pending) [] (mkLife c Failed p Gone).

Inductive ticks : life → list notice → life → Prop :=
  | ticks_refl x : ticks x [] x
  | ticks_step env x1 l1 x2 l2 x3 : tick env x1 l1 x2 → ticks x2 l2 x3 → ticks x1 (l1 ++ l2) x3.

(** What an operation may do to the name [i].  Only [add_process] gives a name a
    configuration, only [start] and [restart] bring a process up, and only under the
    pid of the [fork] they made; an end is reported under the pid of the process. *)
Inductive move (i : string) : op → view → list notice → view → Prop :=
  | move_same o v : move i o v [] v
  | move_add cfg : cfg_name cfg = i → move i (Add cfg) None [] (Some (mkLife cfg Down (-1) Gone))
  | move_remove polls c ph p :
      ph ≠ Up → move i (Remove polls i) (Some (mkLife c ph p Gone)) [] None
  | move_fork_fails script env c ph p r :
      ph ≠ Up → fork_result env < 0 →
      move i (Start script env i) (Some (mkLife c ph p r)) [] (Some (mkLife c Failed p r))
  | move_started script env c ph p r l ph' :
      ph ≠ Up → 0 <= fork_result env →
      ticks (mkLife c Up (fork_result env) r) l (mkLife c ph' (fork_result env) Gone) →
      move i (Start script env i) (Some (mkLife c ph p r))
        (l ++ [(EventType.STARTED, fork_result env, 0)])
        (Some (mkLife c ph' (fork_result env) Watching))
  | move_stop t polls c p r l ph' r' :
      ticks (mkLife c Up p r) l (mkLife c ph' p r') →
      move i (Stop t polls i) (Some (mkLife c Up p r)) l (Some (mkLife c Down p r'))
  | move_stop_other t polls n x l x' :
      n ≠ i → ticks x l x' → move i (Stop t polls n) (Some x) l (Some x')
  | move_restart polls script env n v l1 v1 l2 v2 :
      move i (Stop 5000 polls n) v l1 v1 → move i (Start script env n) v1 l2 v2 →
      move i (Restart polls script env n) v (l1 ++ l2) v2
  | move_monitor env x l x' : tick env x l x' → move i (Monitor env i) (Some x) l (Some x')
  | move_watchdog envs ids c p r :
      move i (Watchdog envs ids) (Some (mkLife c Up p r)) [(EventType.STOPPED, p, 0)]
        (Some (mkLife c Down p r))
  | move_last_turn envs ids c p r :
      move i (StopWatchdog (Some (envs, ids))) (Some (mkLife c Up p r))
        [(EventType.STOPPED, p, 0)] (Some (mkLife c Down p r)).

(** A run of operations, seen from the name [i]. *)
Inductive path (i : string) : list op → view → list notice → view → Prop :=
  | path_nil v : path i [] v [] v
  | path_cons o os v1 l1 v2 l2 v3 :
      move i o v1 l1 v2 → path i os v2 l2 v3 → path i (o :: os) v1 (l1 ++ l2) v3.

(** * What the machine excludes *)
Lemma ticks_kept x l x' :
  ticks x l x' → life_config x' = life_config x ∧ life_pid x' = life_pid x ∧
    (life_phase x ≠ Up → life_phase x' ≠ Up).
Proof.
  induction 1 as [|env x1 l1 x2 l2 x3 Ht _ (-> & -> & IH)]; [done|].
  destruct Ht as [|c ph p|c ph p st l ph' r' _ Hv|c ph p _]; (split; [done|]); (split; [done|]);
    intros Hne; apply IH; [exact Hne|exact Hne| |done].
  cbn. unfold verdict in Hv. repeat case_match; by injection Hv as <- <- <-.
Qed.

Lemma ticks_one env x l x' : tick env x l x' → ticks x l x'.
Proof. intros H. rewrite <-(app_nil_r l). eapply ticks_step; [exact H|apply ticks_refl]. Qed.

Lemma ticks_trans x1 l1 x2 l2 x3 : ticks x1 l1 x2 → ticks x2 l2 x3 → ticks x1 (l1 ++ l2) x3.
Proof.
  induction 1 as [|env x l x' l' x'' Ht _ IH]; [done|]. intros H.
  rewrite <-(assoc_L (++)). eapply ticks_step; [exact Ht|by apply IH].
Qed.

Definition up (v : view) : Prop := ∃ x, v = Some x ∧ life_phase x = Up.
Definition starts (i : string) (o : op) : Prop :=
  match o with Start _ _ n | Restart _ _ _ n => n = i | _ => False end.
Definition removes (i : string) (o : op) : Prop :=
  match o with Remove _ n => n = i | _ => False end.

Lemma up_Some x : up (Some x) ↔ life_phase x = Up.
Proof. split; [by intros (y & [= <-] & H)|by exists x]. Qed.

Lemma move_up i o v l v' : move i o v l v' → ¬ starts i o → ¬ up v → ¬ up v'.
Proof.
  induction 1 as [o v|cfg Hi|polls c ph p Hp|script env c ph p r Hp Hf
    |script env c ph p r l ph' Hp Hf Ht|t polls c p r l ph' r' Ht|t polls n x l x' Hn Ht
    |polls script env n v l1 v1 l2 v2 _ IH1 H2 IH2|env x l x' Ht|envs ids c p r|envs ids c p r];
    intros Hs Hu; rewrite ?up_Some in *; cbn [life_phase] in *; try done.
  - intros (y & H & _). discriminate H.
  - apply ticks_kept in Ht as (_ & _ & Hk). by apply Hk.
  - apply IH2; [exact Hs|]. apply IH1; [by intros []|exact Hu].
  - apply ticks_one, ticks_kept in Ht as (_ & _ & Hk). by apply Hk.
Qed.

(** Nothing but a call that starts it brings a process up: no restart is automatic. *)
Lemma path_up i os v l v' :
  path i os v l v' → Forall (λ o, ¬ starts i o) os → ¬ up v → ¬ up v'.
Proof.
  induction 1 as [|o os v1 l1 v2 l2 v3 Hm _ IH]; intros Hos Hu; [done|].
  apply Forall_cons in Hos as [Ho Hos]. apply IH; [done|]. by eapply move_up.
Qed.

Lemma move_config i o x l v' :
  move i o (Some x) l v' → ¬ removes i o → ∃ x', v' = Some x' ∧ life_config x' = life_config x.
Proof.
  intros H. remember (Some x) as v eqn:E. revert x E.
  induction H as [o v|cfg Hi|polls c ph p Hp|script env c ph p r Hp Hf
    |script env c ph p r l ph' Hp Hf Ht|t polls c p r l ph' r' Ht|t polls n x l x' Hn Ht
    |polls script env n v l1 v1 l2 v2 _ IH1 H2 IH2|env x l x' Ht|envs ids c p r|envs ids c p r];
    intros y E Hr; simplify_eq/=; try (by eexists); try done.
  - eexists. split; [done|]. by apply ticks_kept in Ht as [? _].
  - destruct (IH1 y eq_refl Hr) as (x1 & -> & <-). by apply IH2.
  - eexists. split; [done|]. by apply ticks_one, ticks_kept in Ht as [? _].
Qed.

(** The configuration is kept until the process is removed. *)
Lemma path_config i os x l v' :
  path i os (Some x) l v' → Forall (λ o, ¬ removes i o) os →
  ∃ x', v' = Some x' ∧ life_config x' = life_config x.
Proof.
  intros H. remember (Some x) as v eqn:E. revert x E.
  induction H as [|o os v1 l1 v2 l2 v3 Hm _ IH]; intros x -> Hos; [by eexists|].
  apply Forall_cons in Hos as [Ho Hos]. apply move_config in Hm as (x2 & -> & <-); [|done].
  by apply IH.
Qed.

(** * The supervisor seen through it *)
Definition phase_of (st : Status.t) : phase :=
  match st with
  | Status.RUNNING => Up
  | Status.RESTARTING => Waiting
  | Status.FAILED => Failed
  | Status.STOPPED | Status.STARTING => Down
  end.

Definition reporter_of (th : Thread.t) : reporter :=
  match th with
  | Thread.NotStarted | Thread.Finished => Gone
  | Thread.AtLoop | Thread.InBody => Watching
  | Thread.Restarting => Pending
  end.

Definition entry_view (e : ProcessEntry) : life :=
  mkLife (config e) (phase_of (status (state e))) (pid (state e)) (reporter_of (monitor_thread e)).
Definition view_of (name : string) (s : ProcessSupervisor) : view :=
  entry_view <$> processes_ s !! name.

Definition notice_of (name : string) (e : ProcessEvent) : option notice :=
  if decide (process_name e = name) then Some (ev_type e, ev_pid e, ev_exit_code e) else None.
Definition heard (name : string) (s : ProcessSupervisor) : list notice :=
  omap (notice_of name) (events s).

(** What happens to each name from [s] to [s'], in terms of views and of what is
    heard, when there is a callback. *)
Definition relation : Type := string → view → list notice → view → Prop.

Definition follows (R : relation) (s s' : ProcessSupervisor) : Prop :=
  event_callback_ s' = true ∧
  ∀ i, ∃ l, R i (view_of i s) l (view_of i s') ∧ heard i s' = heard i s ++ l.

Definition stay : relation := λ _ v l v', v' = v ∧ l = [].
Definition only (name : string) (R : view → list notice → view → Prop) : relation :=
  λ i v l v', if decide (i = name) then R v l v' else stay i v l v'.
Definition seq (R1 R2 : relation) : relation :=
  λ i v l v', ∃ l1 v1 l2, l = l1 ++ l2 ∧ R1 i v l1 v1 ∧ R2 i v1 l2 v'.

Definition Tick (env : Env) : view → list notice → view → Prop :=
  λ v l v', ∃ x x', v = Some x ∧ v' = Some x' ∧ tick env x l x'.
Definition Ticks : view → list notice → view → Prop :=
  λ v l v', match v, v' with
            | Some x, Some x' => ticks x l x'
            | None, None => l = []
            | _, _ => False
            end.

Lemma follows_impl (R R' : relation) s s' :
  (∀ i v l v', R i v l v' → R' i v l v') → follows R s s' → follows R' s s'.
Proof. intros HR [Hc H]. split; [done|]. intros i. destruct (H i) as (l & Hl & Hh). exists l. auto. Qed.

Lemma follows_seq R1 R2 s1 s2 s3 :
  follows R1 s1 s2 → follows R2 s2 s3 → follows (seq R1 R2) s1 s3.
Proof.
  intros [_ H1] [Hc H2]. split; [done|]. intros i.
  destruct (H1 i) as (l1 & Hl1 & Hh1), (H2 i) as (l2 & Hl2 & Hh2).
  exists (l1 ++ l2). split; [by exists l1, (view_of i s2), l2|]. by rewrite Hh2, Hh1, (assoc_L (++)).
Qed.

Lemma follows_same s s' :
  event_callback_ s = true → event_callback_ s' = event_callback_ s →
  (∀ i, view_of i s' = view_of i s) → events s' = events s → follows stay s s'.
Proof.
  intros H1 H2 Hp He. split; [by rewrite H2|]. intros i. exists []. unfold heard. rewrite He.
  split; [by split|]. by rewrite app_nil_r.
Qed.

(** Writing one entry, with the events that go with it. *)
Lemma follows_one (R : view → list notice → view → Prop) name e0 e l s s' :
  processes_ s !! name = Some e0 → processes_ s' = <[name := e]> (processes_ s) →
  event_callback_ s' = true →
  (∀ i, heard i s' = heard i s ++ if decide (i = name) then l else []) →
  R (Some (entry_view e0)) l (Some (entry_view e)) → follows (only name R) s s'.
Proof.
  intros He0 Hp Hc Hh Hl. split; [done|]. intros i. exists (if decide (i = name) then l else []).
  split; [|apply Hh]. unfold view_of, only. rewrite Hp. case_decide as Hi.
  - subst. by rewrite lookup_insert_eq, He0.
  - by rewrite lookup_insert_ne by done.
Qed.

Lemma follows_put (R : view → list notice → view → Prop) name e0 e s :
  event_callback_ s = true → processes_ s !! name = Some e0 →
  R (Some (entry_view e0)) [] (Some (entry_view e)) → follows (only name R) s (put name e s).
Proof.
  intros Hc He0 Hl. apply (follows_one R name e0 e [] s); [done..| |done].
  intros i. unfold heard. cbn. case_decide; by rewrite app_nil_r.
Qed.

Lemma heard_emit now type name p code msg s i :
  event_callback_ s = true →
  heard i (emit_event now type name p code msg s) =
    heard i s ++ if decide (i = name) then [(type, p, code)] else [].
Proof.
  intros Hc. unfold heard, emit_event. rewrite Hc. cbn. rewrite omap_app. cbn.
  unfold notice_of at 2. cbn.
  destruct (decide (name = i)) as [->|Hne]; [by rewrite decide_True by done|].
  by rewrite (decide_False (P := i = name)) by congruence.
Qed.

Lemma heard_put name e s i : heard i (put name e s) = heard i s.
Proof. done. Qed.
Lemma heard_did c s i : heard i (did c s) = heard i s.
Proof. done. Qed.

Lemma callback_emit now type name p code msg s :
  event_callback_ (emit_event now type name p code msg s) = event_callback_ s.
Proof. unfold emit_event. by destruct (event_callback_ s) eqn:E. Qed.

(** * The threads *)
Section threads.
Context (strerror : Z → string).

(** An end that is recorded is reported and judged as [verdict] says. *)
Lemma exit_recorded_verdict env name st s b s' e :
  processes_ s !! name = Some e → event_callback_ s = true → restart_count (state e) = 0 →
  exit_recorded env name st s = Ret (b, s') →
  ∃ e' l r, processes_ s' = <[name := e']> (processes_ s) ∧ event_callback_ s' = true ∧
    (∀ i, heard i s' = heard i s ++ if decide (i = name) then l else []) ∧
    config e' = config e ∧ pid (state e') = pid (state e) ∧
    monitor_thread e' = monitor_thread e ∧ r = (if b then Pending else Gone) ∧
    verdict (config e) (pid (state e)) st = (l, phase_of (status (state e')), r).
Proof.
  intros He Hc H0 H. unfold exit_recorded in H. rewrite He in H. cbn [access mbind outcome_bind] in H.
  unfold verdict. set (code := WEXITSTATUS st) in *. set (e1 := set_running false _) in H.
  change (pid (state e1)) with (pid (state e)) in H.
  change (restart_policy (config e1)) with (restart_policy (config e)) in H.
  change (max_restarts (config e1)) with (max_restarts (config e)) in H.
  change (restart_count (state e1)) with (restart_count (state e)) in H. rewrite H0 in H.
  destruct (Z.eqb_spec code 0) as [Hz|Hz]; cbn [negb andb] in H.
  { injection H as <- <-. exists e1, [(EventType.STOPPED, pid (state e), 0)], Gone.
    rewrite processes_emit, callback_emit. split_and!; try done.
    intros i. by rewrite heard_emit, heard_put, Hz. }
  case_bool_decide as Hpol; cbn [negb] in H.
  { injection H as <- <-. exists e1, [(EventType.CRASHED, pid (state e), code)], Gone.
    rewrite processes_emit, callback_emit. split_and!; try done.
    intros i. by rewrite heard_emit, heard_put. }
  rewrite Z.leb_antisym. destruct (0 <? max_restarts (config e)); injection H as <- <-; cbn [negb].
  - eexists _, [(EventType.CRASHED, pid (state e), code); (EventType.RESTARTED, -1, 0)], _.
    split; [|split; [|split; [intros i|]]].
    + cbn. rewrite processes_emit. cbn. rewrite processes_emit. cbn. by rewrite insert_insert_eq.
    + cbn. rewrite callback_emit. cbn. by rewrite callback_emit.
    + rewrite heard_did, heard_emit by (cbn; by rewrite callback_emit).
      rewrite heard_put, heard_emit, heard_put by done. rewrite <-(assoc_L (++)). by case_decide.
    + split_and!; reflexivity.
  - eexists _, [(EventType.CRASHED, pid (state e), code)], _.
    split; [|split; [|split; [intros i|]]].
    + cbn. rewrite processes_emit. cbn. by rewrite insert_insert_eq.
    + cbn. by rewrite callback_emit.
    + by rewrite heard_put, heard_emit, heard_put.
    + split_and!; reflexivity.
Qed.

(** The invariant of the detailed model, and a callback. *)
Definition ready (s : ProcessSupervisor) : Prop :=
  table_wf strerror s ∧ event_callback_ s = true.

Lemma follows_ready R s s' : table_wf strerror s' → follows R s s' → ready s'.
Proof. by intros Hw [Hc _]. Qed.

Lemma monitor_step_follows env name s s' :
  ready s → monitor_step strerror env name s = Ret s' → follows (only name (Tick env)) s s'.
Proof.
  intros [Hw Hc] H. unfold monitor_step in H. apply bind_Ret in H as (e & He%access_Ret & H).
  assert (Hidle : Tick env (Some (entry_view e)) [] (Some (entry_view e)))
    by (eexists _, _; split_and!; [done..|apply tick_idle]).
  assert (Hgone : reporter_of (monitor_thread e) = Watching →
    Tick env (Some (entry_view e)) [] (Some (entry_view (set_thread Thread.Finished e))))
    by (intros Hr; eexists _, _; split_and!; [done..|unfold entry_view; rewrite Hr; apply tick_leaves]).
  pose proof (table_wf_lookup strerror name e s Hw He) as Hwf.
  destruct (monitor_thread e) eqn:Hth.
  1,5: injection H as <-; apply (follows_one (Tick env) name e e []);
    [done|by rewrite insert_id|done|intros i; case_decide; by rewrite app_nil_r|done].
  - unfold monitor_test in H. rewrite He in H. cbn in H. injection H as <-.
    apply (follows_put _ name e); [done..|]. destruct (running e); [|by apply Hgone].
    unfold entry_view. cbn. rewrite Hth. eexists _, _. split_and!; [done..|apply tick_idle].
  - unfold monitor_body in H. rewrite He in H. cbn [access mbind outcome_bind] in H.
    destruct (wait_status env) as [st|] eqn:Hst.
    + apply bind_Ret in H as ([b s1] & H1 & H).
      destruct (exit_recorded_verdict env name st s b s1 e He Hc) as
        (e' & l & r & Hp & Hc1 & Hh & Hcfg & Hpid & Hth' & Hr & Hv); [|exact H1|].
      { apply (wf_settled_entry strerror); [done|by rewrite Hth]. }
      assert (∃ th, processes_ s' = <[name := set_thread th e']> (processes_ s) ∧
        event_callback_ s' = true ∧ (∀ i, heard i s' = heard i s1) ∧ reporter_of th = r)
        as (th & Hp' & Hc' & Hh' & Hrep).
      { destruct b; [|unfold monitor_return in H]; rewrite Hp, lookup_insert_eq in H; cbn in H;
          injection H as <-; [exists Thread.Restarting|exists Thread.Finished]; cbn;
          by rewrite Hp, insert_insert_eq. }
      apply (follows_one _ name e (set_thread th e') l); [done..| |].
      * intros i. by rewrite Hh', Hh.
      * eexists _, _. split_and!; [done..|]. unfold entry_view. cbn. rewrite Hth, Hcfg, Hpid, Hrep.
        by eapply tick_reaps.
    + case_match.
      * unfold monitor_return in H. cbn in H. rewrite He in H. cbn in H. injection H as <-.
        apply (follows_one _ name e (set_thread Thread.Finished e) []); [done..| |by apply Hgone].
        intros i. case_decide; by rewrite app_nil_r.
      * injection H as <-. apply (follows_put _ name e); [done..|].
        unfold entry_view. cbn. rewrite Hth. eexists _, _. split_and!; [done..|apply tick_idle].
  - unfold monitor_restart in H. apply bind_Ret in H as ([b s1] & H1%in_thread_Ret & H).
    unfold spawn_process in H1. rewrite He in H1. cbn [access mbind outcome_bind] in H1.
    destruct (Z.ltb_spec (fork_result env) 0) as [Hf|Hf].
    + injection H1 as _ <-. unfold monitor_return in H. cbn in H. rewrite lookup_insert_eq in H.
      cbn in H. injection H as <-. eapply (follows_one _ name e _ []).
      * done.
      * cbn. by rewrite insert_insert_eq.
      * done.
      * intros i. case_decide; by rewrite app_nil_r.
      * eexists _, _. split_and!; [done..|]. unfold entry_view. cbn. rewrite Hth.
        by apply tick_not_restarted.
    + cbn [monitor_thread on_state] in H1. rewrite Hth in H1. done.
Qed.

Lemma monitor_step_ready env name s s' :
  ready s → monitor_step strerror env name s = Ret s' → ready s'.
Proof.
  intros Hs H. pose proof (monitor_step_follows env name s s' Hs H).
  apply (follows_ready (only name (Tick env)) s); [|done]. by eapply monitor_step_keeps, H; apply Hs.
Qed.

Lemma Ticks_refl v : Ticks v [] v.
Proof. destruct v; [apply ticks_refl|done]. Qed.

Lemma Ticks_trans v1 l1 v2 l2 v3 : Ticks v1 l1 v2 → Ticks v2 l2 v3 → Ticks v1 (l1 ++ l2) v3.
Proof. destruct v1, v2, v3; cbn; try done; [apply ticks_trans|by intros -> ->]. Qed.

Lemma Tick_Ticks env v l v' : Tick env v l v' → Ticks v l v'.
Proof. intros (x & x' & -> & -> & H). by apply ticks_one in H. Qed.

(** What the joined thread of one name does. *)
Definition joining (name : string) : relation := only name Ticks.
(** What the monitor threads of all names do. *)
Definition working : relation := λ _, Ticks.

Lemma joining_working name i v l v' : joining name i v l v' → working i v l v'.
Proof. unfold joining, only. case_decide; [done|]. intros [-> ->]. apply Ticks_refl. Qed.

Lemma joining_trans name i v l v' : seq (joining name) (joining name) i v l v' → joining name i v l v'.
Proof.
  intros (l1 & v1 & l2 & -> & H1 & H2). unfold joining, only in *. case_decide.
  - by eapply Ticks_trans.
  - by destruct H1 as [-> ->], H2 as [-> ->].
Qed.

Lemma working_trans i v l v' : seq working working i v l v' → working i v l v'.
Proof. intros (l1 & v1 & l2 & -> & H1 & H2). by eapply Ticks_trans. Qed.

Lemma monitor_step_joining env name s s' :
  ready s → monitor_step strerror env name s = Ret s' → follows (joining name) s s'.
Proof.
  intros Hs H. eapply follows_impl; [|by eapply monitor_step_follows]. intros i v l v'.
  unfold joining, only. case_decide; [apply Tick_Ticks|done].
Qed.

Lemma join_other_follows script name s s' :
  ready s → join_other strerror script name s = Ret s' →
  follows (joining name) s s' ∧
  ∃ e, processes_ s' !! name = Some e ∧ reporter_of (monitor_thread e) = Gone.
Proof.
  revert s. induction script as [|env script IH]; intros s Hs H; cbn in H;
    apply bind_Ret in H as (e & He%access_Ret & H); case_bool_decide as Ht; [|done| |].
  1,2: injection H as <-; split;
    [apply (follows_put _ name e); [apply Hs|done|unfold entry_view; cbn; rewrite Ht; apply ticks_refl]
    |eexists; cbn; by rewrite lookup_insert_eq].
  apply bind_Ret in H as (s1 & H1 & H). destruct (IH s1) as [Hf Hr]; [by eapply monitor_step_ready|done|].
  split; [|exact Hr]. eapply follows_impl; [apply joining_trans|].
  eapply follows_seq; [by eapply monitor_step_joining|exact Hf].
Qed.

Lemma others_follows steps s s' :
  ready s → others strerror steps s = Ret s' → follows working s s' ∧ ready s'.
Proof.
  revert s. induction steps as [|[name env] steps IH]; intros s Hs H; cbn in H.
  - injection H as <-. split; [|done]. eapply follows_impl; [|by apply follows_same; [apply Hs|..]].
    intros i v l v' [-> ->]. apply Ticks_refl.
  - apply bind_Ret in H as (s1 & H1 & H). destruct (IH s1) as [Hf Hr]; [by eapply monitor_step_ready|done|].
    split; [|exact Hr]. eapply follows_impl; [apply working_trans|]. eapply follows_seq; [|exact Hf].
    eapply follows_impl; [apply (joining_working name)|]. by eapply monitor_step_joining.
Qed.

Lemma stop_loop_follows t polls name s s' :
  ready s → stop_loop strerror t polls name s = Ret s' → follows working s s' ∧ ready s'.
Proof.
  assert (Hstay : ∀ s s', ready s → (∀ i, view_of i s' = view_of i s) → events s' = events s →
    event_callback_ s' = event_callback_ s → follows working s s').
  { intros s1 s2 [_ Hc] H1 H2 H3. eapply follows_impl; [|by apply follows_same].
    intros i v l v' [-> ->]. apply Ticks_refl. }
  revert s. induction polls as [|[elapsed steps] polls IH]; intros s Hs H; cbn in H;
    apply bind_Ret in H as (e & He & H);
    (case_match; [|injection H as <-; split; [by apply Hstay|done]]); [done|].
  case_match; [injection H as <-; split; [by apply Hstay|done]|].
  apply bind_Ret in H as (s1 & Hs1 & H).
  destruct (others_follows steps s s1 Hs Hs1) as [Hf1 Hr1]. destruct (IH s1 Hr1 H) as [Hf Hr].
  split; [|exact Hr]. eapply follows_impl; [apply working_trans|]. by eapply follows_seq.
Qed.
End threads.

(** * Operations *)
Section operations.
Context (strerror : Z → string).

Lemma ready_put name e s :
  ready strerror s → entry_wf strerror e → ready strerror (put name e s).
Proof. intros [Hw Hc] He. split; [by apply table_wf_put|exact Hc]. Qed.

(** [locked] shows nothing of the mutex to the machine. *)
Lemma locked_follows {A} (R : relation) (body : ProcessSupervisor → outcome (A * ProcessSupervisor)) s s' :
  (∀ s s', ready strerror s → answer (body s) = Ret s' → follows R s s') →
  ready strerror s → answer (locked body s) = Ret s' → follows R s s'.
Proof.
  intros Hb Hs H. unfold answer, locked in H. destruct (mutex_held s); [done|].
  apply bind_Ret in H as ([a s1] & H & [= <-]). apply bind_Ret in H as ([a' s2] & H & [= _ <-]).
  apply (Hb (set_held true s) s2); [exact Hs|]. unfold answer. by rewrite H.
Qed.

Lemma stays R s s' :
  (∀ i v, R i v [] v) → ready strerror s → (∀ i, view_of i s' = view_of i s) →
  events s' = events s → event_callback_ s' = event_callback_ s → follows R s s'.
Proof.
  intros HR [_ Hc] Hv He Hc'. eapply follows_impl; [|by apply follows_same].
  intros i v l v' [-> ->]. apply HR.
Qed.

Lemma phase_not_up e : is_running e = false → phase_of (status (state e)) ≠ Up.
Proof. unfold is_running. intros H%bool_decide_eq_false. by destruct (status (state e)). Qed.

Lemma phase_up e : is_running e = true → phase_of (status (state e)) = Up.
Proof. unfold is_running. by intros ->%bool_decide_eq_true. Qed.

Lemma start_follows script env name s s' :
  ready strerror s → answer (start strerror script env name s) = Ret s' →
  follows (λ i, move i (Start script env name)) s s'.
Proof.
  apply locked_follows. clear s s'. intros s s' Hs H. unfold answer in H.
  assert (Hstay : follows (λ i, move i (Start script env name)) s s)
    by (apply stays; [intros; apply move_same|done..]).
  destruct (processes_ s !! name) as [e|] eqn:He; [|by injection H as <-].
  destruct (is_running e) eqn:Hr; [by injection H as <-|].
  apply bind_Ret in H as ([b s2] & H & [= <-]). clear Hstay. pose proof (phase_not_up e Hr) as Hup.
  unfold spawn_process in H. rewrite He in H. cbn [access mbind outcome_bind] in H.
  pose proof Hs as [Hw Hc]. destruct (Z.ltb_spec (fork_result env) 0) as [Hf|Hf].
  - injection H as _ <-.
    apply (follows_impl (only name (move name (Start script env name)))).
    { unfold only. intros i v l v'. case_decide; [by subst|intros [-> ->]; apply move_same]. }
    apply (follows_one _ name e (on_state (with_error (strerror (errno env)) ∘ with_status Status.FAILED)
      (on_state (with_restarts 0 ∘ with_status Status.STARTING) e)) []); [done..| |].
    + intros i. case_decide; by rewrite app_nil_r.
    + by apply move_fork_fails.
  - set (e1 := set_running true _) in H. set (s1 := put name e1 _) in H.
    apply bind_Ret in H as (s3 & H3 & H). apply bind_Ret in H as (e3 & He3%access_Ret & H).
    injection H as _ <-.
    assert (Hs1 : ready strerror s1).
    { split; [|done]. apply (table_wf_put strerror); [done|]. apply (settled_same strerror).
      destruct (table_wf_lookup strerror name e s Hw He). constructor; cbn; done. }
    assert (Hj : follows (joining name) s1 s3 ∧ reporter_of (monitor_thread e3) = Gone).
    { destruct (Thread.joinable _) eqn:Ht.
      - destruct (join_other_follows strerror script name s1 s3 Hs1 H3) as [Hf3 (e' & He' & Hr')].
        split; [exact Hf3|]. by simplify_eq.
      - injection H3 as <-. split.
        + apply stays; [|done..]. intros i v. unfold joining, only. case_decide; [apply Ticks_refl|by split].
        + unfold s1 in He3. cbn in He3. rewrite lookup_insert_eq in He3. injection He3 as <-.
          unfold Thread.joinable in Ht. apply bool_decide_eq_false, dec_stable in Ht.
          unfold e1. cbn in *. by rewrite Ht. }
    destruct Hj as [[Hc3 Hj] Hgone]. split; [by rewrite callback_emit|]. intros i.
    destruct (Hj i) as (l & Hl & Hh).
    exists (l ++ if decide (i = name) then [(EventType.STARTED, fork_result env, 0)] else []).
    rewrite heard_emit by done. rewrite heard_put, Hh, <-(assoc_L (++)). change (heard i s1) with (heard i s).
    split; [|done]. unfold joining, only, view_of in *. rewrite processes_emit. unfold s1 in Hl. cbn in Hl |- *.
    destruct (decide (i = name)) as [->|Hne].
    + rewrite lookup_insert_eq, He3 in Hl. rewrite lookup_insert_eq, He. cbn in Hl |- *.
      pose proof (ticks_kept _ _ _ Hl) as (Hk1 & Hk2 & _).
      unfold entry_view in *. cbn in *. rewrite Hgone, Hk1, Hk2 in Hl. rewrite Hk1, Hk2.
      by eapply move_started.
    + rewrite lookup_insert_ne in Hl |- * by done. destruct Hl as [-> ->]. apply move_same.
Qed.

Lemma stop_follows t polls name s s' :
  ready strerror s → answer (stop strerror t polls name s) = Ret s' →
  follows (λ i, move i (Stop t polls name)) s s'.
Proof.
  apply locked_follows. clear s s'. intros s s' Hs H. unfold answer in H.
  assert (Hstay : follows (λ i, move i (Stop t polls name)) s s)
    by (apply stays; [intros; apply move_same|done..]).
  destruct (processes_ s !! name) as [e|] eqn:He; [|by injection H as <-].
  destruct (is_running e) eqn:Hr; cbn [negb] in H; [|by injection H as <-]. clear Hstay.
  apply bind_Ret in H as ([b s2] & H & [= <-]). apply bind_Ret in H as (s1 & H1 & H).
  apply bind_Ret in H as (e1 & He1%access_Ret & H). injection H as _ <-.
  set (s0 := did _ _) in H1. assert (Hs0 : ready strerror s0).
  { apply (ready_put name (set_running false e) s Hs), entry_wf_set_running.
    by apply (table_wf_lookup strerror name e s); [apply Hs|]. }
  destruct (stop_loop_follows strerror t polls name s0 s1 Hs0 H1) as [[Hc Hf] _].
  split; [done|]. intros i. destruct (Hf i) as (l & Hl & Hh). exists l.
  rewrite heard_put, Hh. change (heard i s0) with (heard i s). split; [|done]. unfold working, Ticks, view_of in *. cbn in *.
  destruct (decide (i = name)) as [->|Hne].
  - rewrite lookup_insert_eq, He1 in *. rewrite He. cbn in *.
    pose proof (ticks_kept _ _ _ Hl) as (Hk1 & Hk2 & _). unfold entry_view in *. cbn in *.
    rewrite (phase_up e Hr), Hk1, Hk2 in *. by eapply move_stop.
  - rewrite !lookup_insert_ne in * by done.
    destruct (processes_ s !! i), (processes_ s1 !! i); cbn in *; try done.
    + by apply move_stop_other.
    + subst. apply move_same.
Qed.

Lemma restart_follows polls script env name s s' :
  ready strerror s → answer (restart strerror polls script env name s) = Ret s' →
  follows (λ i, move i (Restart polls script env name)) s s'.
Proof.
  intros Hs H. unfold answer, restart in H. apply bind_Ret in H as ([b s2] & H & [= <-]).
  apply bind_Ret in H as ([b1 s1] & H1 & H2).
  assert (Hf : follows (λ i, move i (Stop 5000 polls name)) s s1)
    by (apply stop_follows; [done|unfold answer; by rewrite H1]).
  eapply follows_impl; [|eapply follows_seq; [exact Hf|apply (start_follows script env name)]].
  - intros i v l v' (l1 & v1 & l2 & -> & Hm1 & Hm2). by eapply move_restart.
  - eapply follows_ready, Hf. by apply (stop_keeps strerror 5000 polls name s (proj1 Hs) b1 s1).
  - unfold answer. by rewrite H2.
Qed.

Lemma add_follows cfg s s' :
  ready strerror s → answer (add_process cfg s) = Ret s' → follows (λ i, move i (Add cfg)) s s'.
Proof.
  apply locked_follows. clear s s'. intros s s' Hs H. unfold answer in H.
  destruct (processes_ s !! cfg_name cfg) as [e|] eqn:E; cbn in H; injection H as <-;
    [by apply stays; [intros; apply move_same|done..]|].
  split; [apply Hs|]. intros i. exists []. rewrite heard_put, app_nil_r. split; [|done].
  unfold view_of. cbn. destruct (decide (i = cfg_name cfg)) as [->|Hne].
  - rewrite lookup_insert_eq, E. by apply move_add.
  - rewrite lookup_insert_ne by done. apply move_same.
Qed.

(** Only a process that was never started leaves the table: the stop of a running
    one would lock the mutex again. *)
Lemma remove_follows polls name s s' :
  ready strerror s → answer (remove_process strerror polls name s) = Ret s' →
  follows (λ i, move i (Remove polls name)) s s'.
Proof.
  intros Hs H. unfold answer, remove_process, locked in H.
  destruct (mutex_held s) eqn:Hm; [done|].
  apply bind_Ret in H as ([b s1] & H & [= <-]). apply bind_Ret in H as ([b2 s2] & H & [= _ <-]).
  cbn in H. destruct (processes_ s !! name) as [e|] eqn:E;
    [|injection H as _ <-; by apply stays; [intros; apply move_same|done..]].
  destruct (is_running e) eqn:Hr; [by unfold stop, locked in H|].
  cbn [mbind outcome_bind] in H. cbn in H. rewrite E in H. cbn [access mbind outcome_bind] in H.
  apply bind_Ret in H as (u & Hd & [= _ <-]). split; [apply Hs|]. intros i. exists [].
  rewrite app_nil_r. split; [|done]. unfold view_of. cbn.
  destruct (decide (i = name)) as [->|Hne].
  - rewrite lookup_delete_eq, E. unfold destroy_entry, Thread.joinable in Hd. case_bool_decide as Ht; [done|].
    cbn. unfold entry_view. rewrite Ht. by apply move_remove, phase_not_up.
  - rewrite lookup_delete_ne by done. apply move_same.
Qed.

Lemma stop_all_follows ids s s' :
  ready strerror s → answer (stop_all ids s) = Ret s' → follows (λ i, move i (StopAll ids)) s s'.
Proof.
  apply locked_follows. clear s s'. intros s s' Hs [= <-].
  assert (H : (∀ i, view_of i (fold_left stop_one ids s) = view_of i s) ∧
    events (fold_left stop_one ids s) = events s ∧
    event_callback_ (fold_left stop_one ids s) = event_callback_ s).
  { clear Hs. revert s. induction ids as [|id ids' IH]; intros s; [done|].
    change (fold_left stop_one (id :: ids') s) with (fold_left stop_one ids' (stop_one s id)).
    destruct (IH (stop_one s id)) as (H1 & -> & ->). split.
    - intros i. rewrite H1. unfold stop_one. destruct (processes_ s !! id) as [e|] eqn:E; [|done].
      case_match; [|done]. unfold view_of. cbn. destruct (decide (i = id)) as [->|].
      + by rewrite lookup_insert_eq, E.
      + by rewrite lookup_insert_ne.
    - unfold stop_one. destruct (processes_ s !! id); [|done]. by case_match. }
  destruct H as (H1 & H2 & H3). apply stays; [intros; apply move_same|done..].
Qed.

(** Every process the watchdog reaps is reported as having ended well. *)
Definition swept : relation := λ i v l v',
  (v' = v ∧ l = []) ∨
  ∃ c p r, v = Some (mkLife c Up p r) ∧ l = [(EventType.STOPPED, p, 0)] ∧ v' = Some (mkLife c Down p r).

Lemma swept_trans i v l v' : seq swept swept i v l v' → swept i v l v'.
Proof.
  intros (l1 & v1 & l2 & -> & [[-> ->]|(c & p & r & -> & -> & ->)] & [[-> ->]|(c' & p' & r' & Hv & -> & ->)]).
  - by left.
  - right. by exists c', p', r'.
  - right. by exists c, p, r.
  - discriminate Hv.
Qed.

Lemma watchdog_one_follows envs id s s' :
  ready strerror s → watchdog_one strerror envs id s = Ret s' → follows swept s s'.
Proof.
  intros Hs H. assert (Hstay : follows swept s s) by (apply stays; [by left|done..]).
  unfold watchdog_one in H. destruct (processes_ s !! id) as [e|] eqn:E; [|by injection H as <-].
  case_match eqn:Hr; [|by injection H as <-]. apply andb_prop in Hr as [Hr Hp%Z.ltb_lt].
  destruct (wait_status _) as [st|] eqn:Hw; [|by injection H as <-]. clear Hstay.
  pose proof (watchdog_reports_success strerror envs id st s e E Hr Hp Hw) as Hone.
  unfold watchdog_one in Hone. rewrite E, Hr, (proj2 (Z.ltb_lt _ _) Hp), Hw in Hone.
  cbn [andb] in Hone. rewrite Hone in H. injection H as <-.
  apply (follows_impl (only id (swept id))).
  { unfold only. intros i v l v'. case_decide; [by subst|by left]. }
  apply (follows_one _ id e (set_running false (on_state (with_status Status.STOPPED ∘ with_exit 0) e))
    [(EventType.STOPPED, pid (state e), 0)]); [done| | | |].
  - by rewrite processes_emit.
  - rewrite callback_emit. apply Hs.
  - intros i. rewrite heard_emit, heard_put by apply Hs. done.
  - right. eexists _, _, _. unfold entry_view. cbn. by rewrite (phase_up e Hr).
Qed.

Lemma watchdog_loop_follows envs ids s s' :
  ready strerror s → watchdog_loop strerror envs ids s = Ret s' → follows swept s s'.
Proof.
  revert s. induction ids as [|id ids IH]; intros s Hs H; cbn in H.
  { injection H as <-. by apply stays; [by left|done..]. }
  apply bind_Ret in H as (s1 & H1 & H). pose proof (watchdog_one_follows envs id s s1 Hs H1) as Hf.
  eapply follows_impl; [apply swept_trans|]. eapply follows_seq; [exact Hf|]. apply IH; [|done].
  eapply follows_ready, Hf. apply (watchdog_loop_keeps strerror envs [id] s (proj1 Hs)). cbn.
  by rewrite H1.
Qed.

Lemma watchdog_locked_follows envs ids s u s' :
  ready strerror s →
  locked (λ s, s ← watchdog_loop strerror envs ids s; Ret (u, s)) s = Ret (tt, s') →
  follows swept s s'.
Proof.
  intros Hs H. unfold locked in H. destruct (mutex_held s); [done|].
  apply bind_Ret in H as ([u' s1] & H & [= -> <-]). apply bind_Ret in H as (s2 & H & [= _ <-]).
  exact (watchdog_loop_follows envs ids (set_held true s) s2 Hs H).
Qed.

Lemma exec_follows o s s' :
  ready strerror s → exec strerror o s = Ret s' → follows (λ i, move i o) s s'.
Proof.
  intros Hs H. assert (Hstay : ∀ s', (∀ i, view_of i s' = view_of i s) → events s' = events s →
      event_callback_ s' = event_callback_ s → follows (λ i, move i o) s s')
    by (intros; apply stays; [intros; apply move_same|done..]).
  destruct o as [cfg|polls name|script env name|t polls name|polls script env name|ids| | |turn|env name|envs ids];
    cbn in H.
  - by apply add_follows.
  - by apply remove_follows.
  - by apply start_follows.
  - by apply stop_follows.
  - by apply restart_follows.
  - by apply stop_all_follows.
  - injection H as <-. apply Hstay; [done..|]. symmetry. apply Hs.
  - unfold answer, start_watchdog in H. destruct (watchdog_running_ s); [by injection H as <-; apply Hstay|].
    destruct (Thread.joinable _); [done|]. injection H as <-. by apply Hstay.
  - unfold answer, stop_watchdog in H. destruct (Thread.joinable _); [|by injection H as <-; apply Hstay].
    apply bind_Ret in H as ([b s1] & H & [= <-]). apply bind_Ret in H as (s2 & H & [= _ <-]).
    destruct turn as [[envs ids]|]; cbn in H; [|by injection H as <-; apply Hstay].
    apply bind_Ret in H as ([[] s3] & H & [= <-]).
    eapply follows_impl; [|exact (watchdog_locked_follows envs ids
      (set_watchdog (watchdog_thread_ s) false s) tt s3 Hs H)].
    intros i v l v' [[-> ->]|(c & p & r & -> & -> & ->)]; [apply move_same|apply move_last_turn].
  - eapply follows_impl; [|by apply (monitor_step_follows strerror env name)].
    unfold only. intros i v l v'. case_decide; [subst|intros [-> ->]; apply move_same].
    intros (x & x' & -> & -> & Ht). by apply move_monitor.
  - unfold watchdog_turn in H. destruct (watchdog_running_ s); [|by injection H as <-; apply Hstay].
    apply bind_Ret in H as ([[] s3] & H & [= <-]).
    eapply follows_impl; [|exact (watchdog_locked_follows envs ids s tt s3 Hs H)].
    intros i v l v' [[-> ->]|(c & p & r & -> & -> & ->)]; [apply move_same|apply move_watchdog].
Qed.

(** Any sequence of operations and steps of the threads. *)
Fixpoint exec_all (os : list op) (s : ProcessSupervisor) : outcome ProcessSupervisor :=
  match os with
  | [] => Ret s
  | o :: os => s ← exec strerror o s; exec_all os s
  end.

(** C8: the supervisor keeps to the life of a process.  In any interleaving of
    operations, monitor threads and watchdog after the callback is set, as [main]
    does, what is heard of a name and what becomes of it is a path of the abstract
    machine, move by move of the operations that were made: only [add_process] gives
    the name a configuration and only [remove_process] takes it away; only a [start]
    or a [restart] of that very name brings a process up, under the pid of its [fork];
    the monitor thread reports an end under the pid of the process, once, with the
    code of its wait status and the verdict of its restart policy, and a restart it
    announces never brings the process up; the watchdog reports a process that is up
    as having ended with zero; nothing else is heard. *)
Theorem supervisor_refines os s name :
  exec_all (OnEvent :: os) ProcessSupervisor_new = Ret s →
  path name os None (heard name s) (view_of name s).
Proof.
  intros H. cbn in H.
  assert (Hall : ∀ os s0 s, ready strerror s0 → exec_all os s0 = Ret s →
    follows (λ i, path i os) s0 s).
  { clear. intros os. induction os as [|o os IH]; intros s0 s Hs H; cbn in H.
    - injection H as <-. apply stays; [intros; apply path_nil|done..].
    - apply bind_Ret in H as (s1 & H1 & H). pose proof (exec_follows o s0 s1 Hs H1) as Hf.
      eapply follows_impl; [|eapply follows_seq; [exact Hf|apply IH; [|exact H]]].
      + intros i v l v' (l1 & v1 & l2 & -> & Hm & Hp). by eapply path_cons.
      + eapply follows_ready, Hf. by apply (exec_keeps strerror o s0 (proj1 Hs) s1). }
  destruct (Hall os (on_event ProcessSupervisor_new) s) as [_ Hf]; [|exact H|].
  { split; [apply map_Forall_empty|done]. }
  destruct (Hf name) as (l & Hl & ->). exact Hl.
Qed.
End operations.

(** * A start that does not come back *)
Section blocking.
Context (strerror : Z → string).

(** The old monitor thread has taken over a process started at [t]. *)
Record adopted (c : ProcessConfig) (t : Z) (name : string) (s : ProcessSupervisor) : Prop := {
  adopted_entry : ∃ e, processes_ s !! name = Some e ∧ config e = c ∧
    start_time (state e) = t ∧ running e = true ∧
    (monitor_thread e = Thread.AtLoop ∨ monitor_thread e = Thread.InBody);
}.

(** The process neither ends nor outlives its timeout. *)
Definition lasts (c : ProcessConfig) (t : Z) (env : Env) : Prop :=
  wait_status env = None ∧
  (timeout_seconds c <= 0 ∨ u64 (now env - t) <= u32 (timeout_seconds c * 1000)).

Lemma lasts_not_timed_out c t env e :
  lasts c t env → config e = c → start_time (state e) = t → timed_out (now env) e = false.
Proof.
  intros [_ Ht] <- <-. unfold timed_out. apply andb_false_iff.
  destruct Ht; [left|right]; apply Z.ltb_ge; lia.
Qed.

Lemma monitor_step_adopted c t env name s :
  lasts c t env → adopted c t name s →
  ∃ s', monitor_step strerror env name s = Ret s' ∧ adopted c t name s'.
Proof.
  intros Hl [(e & He & Hc & Ht & Hr & Hth)]. unfold monitor_step. rewrite He.
  cbn [access mbind outcome_bind]. destruct Hth as [Hth|Hth]; rewrite Hth.
  - unfold monitor_test. rewrite He. cbn [access mbind outcome_bind].
    eexists. split; [done|]. constructor. rewrite Hr.
    exists (set_thread Thread.InBody e). cbn. rewrite lookup_insert_eq. by split_and!; [..|right].
  - unfold monitor_body. rewrite He. cbn [access mbind outcome_bind]. rewrite (proj1 Hl).
    rewrite (lasts_not_timed_out c t env e Hl Hc Ht).
    eexists. split; [done|]. constructor. eexists. cbn. rewrite lookup_insert_eq.
    split; [done|]. by split_and!; [..|left].
Qed.

Lemma join_adopted c t script name s :
  Forall (lasts c t) script → adopted c t name s → join_other strerror script name s = Blocked.
Proof.
  intros Hall. revert s. induction Hall as [|env script Hl _ IH]; intros s Hs;
    pose proof Hs as [(e & He & _ & _ & _ & Hth)]; cbn [join_other]; rewrite He;
    cbn [access mbind outcome_bind]; rewrite bool_decide_false by (destruct Hth; congruence);
    [done|].
  destruct (monitor_step_adopted c t env name s Hl Hs) as (s' & -> & Hs'). by apply IH.
Qed.

(** C19: a process can be started only once its last monitor thread has noticed the
    end of the one before.  When that thread is still in its loop, [start] sets the
    flag the thread tests before joining it: the thread takes the new process over,
    and for as long as that process neither ends nor outlives its timeout [start]
    does not come back, holding the mutex of the table, whatever time passes. *)
Theorem start_blocks script env name s e :
  mutex_held s = false → processes_ s !! name = Some e → is_running e = false →
  0 <= fork_result env →
  monitor_thread e = Thread.AtLoop ∨ monitor_thread e = Thread.InBody →
  Forall (lasts (config e) (now env)) script →
  start strerror script env name s = Blocked.
Proof.
  intros Hm He Hr Hf Hth Hall. unfold start, locked. rewrite Hm.
  change (processes_ (set_held true s)) with (processes_ s). rewrite He, Hr.
  unfold spawn_process. change (processes_ (set_held true s)) with (processes_ s). rewrite He.
  cbn [access mbind outcome_bind]. rewrite (proj2 (Z.ltb_ge (fork_result env) 0)) by done.
  assert (∀ f, Thread.joinable (monitor_thread (on_state f (on_state f e))) = true) as Hj.
  { intros f. apply bool_decide_eq_true. cbn. destruct Hth; congruence. }
  unfold Thread.joinable in *. cbn [on_state monitor_thread] in *.
  rewrite (Hj (λ p, p)), (join_adopted (config e) (now env)); [done|done|].
  constructor. eexists. cbn. rewrite lookup_insert_eq. by split_and!.
Qed.
End blocking.

(** * Concrete runs *)

(** A process that crashes and may not be restarted. *)
Definition once : ProcessConfig :=
  let c := default_config "job" "/bin/job" in
  mkConfig (cfg_name c) (command c) (args c) (working_dir c) (environment c)
    RestartPolicy.NEVER (max_restarts c) (restart_delay_ms c) (memory_limit_bytes c)
    (cfg_cpu_percent c) (timeout_seconds c) (enable_health_check c)
    (health_check_interval_ms c) (health_check_command c).

Definition life_of_job : list op :=
  [Add once; Start [] (quiet 5) "job"; Monitor (quiet 6) "job"; Monitor (reaps 256 505) "job"].

Lemma life_of_job_runs :
  ∃ s, exec_all no_strerror (OnEvent :: life_of_job) ProcessSupervisor_new = Ret s ∧
    heard "job" s = [(EventType.STARTED, 100, 0); (EventType.CRASHED, 100, 1)] ∧
    view_of "job" s = Some (mkLife once Down 100 Gone).
Proof. eexists. split; [vm_compute; reflexivity|]. split; vm_compute; reflexivity. Qed.

Lemma supervisor_refines_witness :
  path "job" life_of_job None [(EventType.STARTED, 100, 0); (EventType.CRASHED, 100, 1)]
    (Some (mkLife once Down 100 Gone)).
Proof.
  destruct life_of_job_runs as (s & Hs & Hh & Hv).
  pose proof (supervisor_refines no_strerror life_of_job s "job" Hs) as H.
  rewrite Hh, Hv in H. exact H.
Defined.

(** A process stopped by its timeout, its thread not having looked yet, is started
    again; the new process lives for a second, then ends. *)
Definition stopped_web : ProcessSupervisor :=
  one_process (set_running false (on_state (with_status Status.STOPPED) web)).

Lemma start_blocks_witness :
  start no_strerror [quiet 7; quiet 507; quiet 1007] (quiet 6) "web" stopped_web = Blocked.
Proof.
  apply (start_blocks no_strerror [quiet 7; quiet 507; quiet 1007] (quiet 6) "web" stopped_web
    (set_running false (on_state (with_status Status.STOPPED) web))).
  - reflexivity.
  - reflexivity.
  - reflexivity.
  - by vm_compute.
  - by left.
  - repeat (apply Forall_cons_2; [split; [reflexivity|right; by vm_compute]|]).
    apply Forall_nil_2.
Defined.

(** When it has ended, [start] says that it runs. *)
Example start_after_the_end :
  (λ '(started, s), (started, heard "web" s, view_of "web" s))
    <$> start no_strerror [quiet 7; reaps 0 507] (quiet 6) "web" stopped_web
  = Ret (true, [(EventType.STARTED, 100, 0); (EventType.STOPPED, 100, 0); (EventType.STARTED, 100, 0)],
         Some (mkLife (config web) Down 100 Watching)).
Proof. vm_compute. reflexivity. Qed.
