(* ===== verification/Sandbox.v ===== *)
(** [Sandbox] (sandbox.hpp, sandbox.cpp) and [Seccomp] (seccomp.cpp): running a
    command in a child of its own namespaces.  The parent's [run] is a function
    from the answers of the system to its result and the sequence of calls it
    makes, the function it is given running between the reads; the child's
    [child_entry] is the sequence of calls it makes and the filter it installs
    before the last of them. *)
From S2P Require Import Prelude CppString.

#[local] Open Scope Z_scope.

(** * Data *)
Record SandboxConfig : Type := mkConfig {
  id : string;
  rootfs : string;
  memory_limit_bytes : Z;
  cpu_quota_us : Z;
  cpu_period_us : Z;
  pids_limit : Z;
  enable_network : bool;
  enable_seccomp : bool;
}.

Definition default_config (id : string) : SandboxConfig :=
  mkConfig id "/" (256 * 1024 * 1024) 100000 100000 64 false true.

Record ExecResult : Type := mkResult {
  exit_code : Z;
  duration_ms : Z;
  out : string;
  err : string;
}.

(** [ExecResult result{};] *)
Definition ExecResult_zero : ExecResult := mkResult 0 0 "" "".

Record Sandbox : Type := mkSandbox {
  config_ : SandboxConfig;
  cgroup_path_ : string;
  child_pid_ : Z;
  pipe_fd_ : Z * Z;
}.

Definition Sandbox_new (config : SandboxConfig) : Sandbox := mkSandbox config "" (-1) (-1, -1).

(** * The system *)

(** The calls that acquire or release something, start the child, or hand a chunk
    of output to the caller. *)
Inductive call : Type :=
  | CPipe (r w : Z)
  | CMalloc
  | CFree
  | CClone (flags : Z)
  | CClose (fd : Z)
  | CRmdir (path : string)
  | CWaitpid (pid : Z)
  | COutput (chunk : string).

(** What the pipe holds when [read] is called: some bytes, the end of the file, or
    an error. *)
Inductive rx : Type := RData (chunk : string) | REof | RFail.

(** What becomes of [waitpid]: it returns once the child has ended, with its status,
    fails at once, or waits for a child that never ends. *)
Inductive waited : Type := Reaped (status : Z) | WaitFails | NeverEnds.
#[global] Instance waited_eq_dec : EqDecision waited.
Proof. solve_decision. Defined.

(** The answers: the pipe's descriptors, whether memory is left, the pid or the
    [errno] of [clone], the reads, the wait, and the clock before and after. *)
Record Env : Type := mkEnv {
  pipe_answer : option (Z * Z);
  malloc_answer : bool;
  clone_answer : Z + Z;
  reads : list rx;
  wait_answer : waited;
  time_start : Z;
  time_end : Z;
}.

Definition CLONE_NEWPID : Z := 0x20000000.
Definition CLONE_NEWNET : Z := 0x40000000.
Definition SIGCHLD : Z := 17.

(** * The wait status *)
Definition WIFEXITED (st : Z) : bool := Z.land st 127 =? 0.
Definition WEXITSTATUS (st : Z) : Z := Z.shiftr (Z.land st 65280) 8.
Definition WTERMSIG (st : Z) : Z := Z.land st 127.
(** [((signed char) ((status & 0x7f) + 1) >> 1) > 0] *)
Definition WIFSIGNALED (st : Z) : bool := 0 <? Z.shiftr (sint 8 (Z.land st 127 + 1)) 1.

Definition exit_code_of (st : Z) : Z :=
  if WIFEXITED st then WEXITSTATUS st
  else if WIFSIGNALED st then 128 + WTERMSIG st
  else -1.

(** * The parent *)

(** [if (fd >= 0) close(fd); fd = -1;] *)
Definition close_fd (fd : Z) : list call := if 0 <=? fd then [CClose fd] else [].

(** What it does, and the object it leaves. *)
Definition cleanup (s : Sandbox) : list call * Sandbox :=
  ((if (1 <? String.length (cgroup_path_ s))%nat
    then [CRmdir ("/sys/fs/cgroup" +:+ cgroup_path_ s)] else [])
   ++ close_fd (pipe_fd_ s).1 ++ close_fd (pipe_fd_ s).2,
   mkSandbox (config_ s) (cgroup_path_ s) (child_pid_ s) (-1, -1)).

(** [sizeof(buf) - 1] *)
Definition READ_MAX : nat := N.to_nat 4095.

(** [read(pipe_fd_[0], buf, sizeof(buf) - 1)]: the bytes read, none at the end of
    the file, no value for an error; what does not fit the buffer stays in the
    pipe. *)
Definition sys_read (rs : list rx) : outcome (option string * list rx) :=
  match rs with
  | [] => Blocked
  | RData bs :: rs =>
      if decide (String.length bs ≤ READ_MAX)%nat then Ret (Some bs, rs)
      else Ret (Some (string_take READ_MAX bs), RData (string_drop READ_MAX bs) :: rs)
  | REof :: _ => Ret (Some "", rs)
  | RFail :: rs => Ret (None, rs)
  end.

(** Every turn of the loop takes a byte or an answer. *)
Definition read_fuel (rs : list rx) : nat :=
  foldr (λ r n, (match r with RData bs => S (String.length bs) | _ => 1 end + n)%nat) 1%nat rs.

Definition concat (chunks : list string) : string := foldr String.append "" chunks.

Section reading.
(** [output_fn], a function or none, on the state [X] of its owner. *)
Context {X : Type} (output_fn : option (string → X → outcome X)).

Definition hand (chunk : string) (x : X) : outcome X :=
  match output_fn with Some f => f chunk x | None => Ret x end.

(** The loop reading the pipe: the chunks, in order, each handed out before the next
    is read; it waits for ever when the reads never end. *)
Fixpoint read_chunks (fuel : nat) (rs : list rx) (x : X) : outcome (list string * X) :=
  match fuel with
  | O => OutOfFuel
  | S fuel =>
      '(n, rs) ← sys_read rs;
      match n with
      | None | Some "" => Ret ([], x)
      | Some chunk =>
          x ← hand chunk x;
          '(chunks, x) ← read_chunks fuel rs x;
          Ret (chunk :: chunks, x)
      end
  end.

Definition read_loop (rs : list rx) (x : X) : outcome (list string * X) :=
  read_chunks (read_fuel rs) rs x.

(** All the chunks, one after the other. *)
Fixpoint hand_all (chunks : list string) (x : X) : outcome X :=
  match chunks with
  | [] => Ret x
  | chunk :: chunks => x ← hand chunk x; hand_all chunks x
  end.

(** A function that always comes back. *)
Definition comes_back : Prop := ∀ chunk x, ∃ x', hand chunk x = Ret x'.
End reading.

(** A function that only listens. *)
Definition silent (chunk : string) (x : unit) : outcome unit := Ret x.

Lemma silent_comes_back : comes_back (Some silent).
Proof. intros chunk x. by exists x. Qed.

Lemma hand_all_silent chunks x : hand_all (Some silent) chunks x = Ret x.
Proof. by induction chunks. Qed.

(** The status [waitpid] leaves in a variable that was 0. *)
Definition sys_waitpid (answer : waited) : outcome Z :=
  match answer with Reaped st => Ret st | WaitFails => Ret 0 | NeverEnds => Blocked end.

Section run.
Context (strerror : Z → string) {X : Type}.

Definition clone_flags (c : SandboxConfig) : Z :=
  Z.lor (Z.lor CLONE_NEWPID SIGCHLD) (if enable_network c then 0 else CLONE_NEWNET).

(** [run]: the result, the object, the calls, and the state [output_fn] leaves. *)
Definition run (env : Env) (output_fn : option (string → X → outcome X)) (s : Sandbox) (x : X)
    : outcome (ExecResult * Sandbox * list call * X) :=
  let s := mkSandbox (config_ s) ("/devops-" +:+ id (config_ s)) (child_pid_ s) (pipe_fd_ s) in
  match pipe_answer env with
  | None => Ret (mkResult (-1) 0 "" "pipe() failed", s, [], x)
  | Some (r, w) =>
      let s := mkSandbox (config_ s) (cgroup_path_ s) (child_pid_ s) (r, w) in
      let calls := [CPipe r w] in
      if negb (malloc_answer env) then
        let '(cs, s) := cleanup s in
        Ret (mkResult (-1) 0 "" "failed to allocate child stack", s, calls ++ cs, x)
      else
        let calls := calls ++ [CMalloc; CClone (clone_flags (config_ s))] in
        match clone_answer env with
        | inr errno =>
            let s := mkSandbox (config_ s) (cgroup_path_ s) (-1) (r, w) in
            let '(cs, s) := cleanup s in
            Ret (mkResult (-1) 0 "" ("clone() failed: " +:+ strerror errno), s,
                 calls ++ [CFree] ++ cs, x)
        | inl pid =>
            let s := mkSandbox (config_ s) (cgroup_path_ s) pid (r, -1) in
            '(chunks, x) ← read_loop output_fn (reads env) x;
            status ← sys_waitpid (wait_answer env);
            let result := mkResult (exit_code_of status)
              (time_end env - time_start env) (concat chunks) "" in
            let '(cs, s) := cleanup s in
            Ret (result, s,
                 calls ++ [CClose w]
                 ++ (match output_fn with Some _ => COutput <$> chunks | None => [] end)
                 ++ [CWaitpid pid; CFree] ++ cs, x)
        end
  end.

(** The destructor. *)
Definition destroy (s : Sandbox) : list call := (cleanup s).1.

(** [run] on other systems than Linux, where [cleanup] does nothing. *)
Definition run_stub (s : Sandbox) : ExecResult * Sandbox :=
  (mkResult (-1) 0 "" "sandbox only supported on Linux (use Docker or VM for macOS)", s).
End run.

(** * The child *)
Inductive child_call : Type :=
  | Mkdir (path : string)
  | WriteFile (path contents : string)
  | OpenFails (path : string)
  | LoadFilter (allowed : list Z)
  | Dup2 (fd target : Z)
  | CloseFd (fd : Z)
  | Execl (argv : list string)
  | ExitGroup (code : Z).

(** The names of [install_allowlist]. *)
Definition allowlist : list string := [
  "read"; "write"; "close"; "openat"; "lseek"; "poll"; "ppoll";
  "select"; "pselect6"; "pipe"; "pipe2";
  "mmap"; "munmap"; "mprotect"; "mremap"; "brk";
  "execve"; "exit"; "exit_group";
  "getpid"; "getppid"; "getuid"; "geteuid"; "getgid"; "getegid";
  "getrandom"; "futex"; "rseq"; "set_robust_list"; "set_tid_address";
  "fstat"; "newfstatat"; "statfs"; "fstatfs";
  "faccessat"; "faccessat2"; "readlinkat"; "getcwd"; "chdir"; "uname";
  "getdents64"; "ioctl"; "arch_prctl"; "prctl";
  "rt_sigaction"; "rt_sigprocmask"; "sigaltstack";
  "clock_gettime"; "nanosleep";
  "clone"; "wait4"; "waitid"; "fcntl"; "dup2"; "dup3";
  "prlimit64"; "getrlimit"; "setrlimit"; "getrusage"].

Section child.
(** [seccomp_syscall_resolve_name], no value for the names unknown on the target,
    the pid the child sees, and the files [fopen] opens for writing. *)
Context (resolve : string → option Z) (getpid : Z) (opens : string → bool).

(** [write_file]: the calls, and the number of characters printed or -1. *)
Definition write_file (path contents : string) : list child_call * Z :=
  if opens path then ([WriteFile path contents], Z.of_nat (String.length contents))
  else ([OpenFails path], -1).

(** [allow_syscall] adds a rule for a name that resolves. *)
Definition allow_syscall (ctx : list Z) (name : string) : list Z :=
  match resolve name with Some sys => ctx ++ [sys] | None => ctx end.

Definition install_allowlist (ctx : list Z) : list Z := fold_left allow_syscall allowlist ctx.

(** Everything the child does with a filter that allows [allowed]; [init] and [load]
    are whether [seccomp_init] and [seccomp_load] succeed, and [ExitGroup] is
    reached when [execl] fails. *)
Definition child_calls (allowed : list Z) (cfg : SandboxConfig) (cgroup_path command : string) (pipe_fd : Z)
    (init load : bool) : list child_call :=
  let cg_base := "/sys/fs/cgroup" +:+ cgroup_path in
  [Mkdir cg_base]
  ++ (write_file (cg_base +:+ "/memory.max") (to_string (memory_limit_bytes cfg))).1
  ++ (write_file (cg_base +:+ "/cpu.max")
        (to_string (cpu_quota_us cfg) +:+ " " +:+ to_string (cpu_period_us cfg))).1
  ++ (write_file (cg_base +:+ "/pids.max") (to_string (pids_limit cfg))).1
  ++ (write_file (cg_base +:+ "/cgroup.procs") (to_string getpid)).1
  ++ (if enable_seccomp cfg && init && load then [LoadFilter allowed] else [])
  ++ [Dup2 pipe_fd 1; Dup2 pipe_fd 2; CloseFd pipe_fd;
      Execl ["sh"; "-c"; command]; ExitGroup 127].

Definition child_entry := child_calls (install_allowlist []).

(** The rest of the process, [libc] giving the numbers of the system calls behind each
    call, under a filter whose default action kills: the calls made, and whether it
    was killed. *)
Definition permitted (filter : option (list Z)) (sys : Z) : bool :=
  match filter with Some allowed => bool_decide (sys ∈ allowed) | None => true end.

Fixpoint execute (libc : child_call → list Z) (filter : option (list Z)) (cs : list child_call)
    : list child_call * bool :=
  match cs with
  | [] => ([], false)
  | c :: cs =>
      if forallb (permitted filter) (libc c) then
        let filter := match c with LoadFilter allowed => Some allowed | _ => filter end in
        let '(done, killed) := execute libc filter cs in (c :: done, killed)
      else ([], true)
  end.

(** [Seccomp::install_default_filter]: the names of its rules. *)
Definition default_filter : list string := [
  "read"; "write"; "exit"; "exit_group"; "brk"; "mmap"; "munmap"; "close"; "fstat";
  "clock_gettime"; "rt_sigaction"; "rt_sigprocmask"; "clone"; "execve"; "wait4";
  "dup2"; "fcntl"].

(** [init] and [load] are whether [seccomp_init] and [seccomp_load] succeed. *)
Definition install_default_filter (init load : bool) : bool * option (list string) :=
  if negb init then (false, None)
  else if load then (true, Some default_filter) else (false, None).
End child.

(** * Resources *)

(** The descriptors open and the blocks allocated in the parent; no value once a
    call closes what is not open or frees what is not allocated. *)
Definition effect (c : call) (st : gset Z * nat) : option (gset Z * nat) :=
  let '(fds, blocks) := st in
  match c with
  | CPipe r w => Some ({[r; w]} ∪ fds, blocks)
  | CClose fd => if decide (fd ∈ fds) then Some (fds ∖ {[fd]}, blocks) else None
  | CMalloc => Some (fds, S blocks)
  | CFree => match blocks with S n => Some (fds, n) | O => None end
  | _ => Some (fds, blocks)
  end.

Fixpoint effects (cs : list call) (st : gset Z * nat) : option (gset Z * nat) :=
  match cs with
  | [] => Some st
  | c :: cs => st ← effect c st; effects cs st
  end.

Lemma effects_app cs1 cs2 st : effects (cs1 ++ cs2) st = (st ← effects cs1 st; effects cs2 st).
Proof.
  revert st. induction cs1 as [|c cs1 IH]; intros st; [done|]. cbn.
  destruct (effect c st); [apply IH|done].
Qed.

Lemma effects_output chunks st : effects (COutput <$> chunks) st = Some st.
Proof.
  induction chunks as [|c chunks IH]; [done|]. cbn. by destruct st.
Qed.

(** Between runs no descriptor is held. *)
Definition idle (s : Sandbox) : Prop := pipe_fd_ s = (-1, -1).

(** A pipe the kernel may return while [fds] are open. *)
Definition fresh_pipe (env : Env) (fds : gset Z) : Prop :=
  ∀ r w, pipe_answer env = Some (r, w) → 0 <= r ∧ 0 <= w ∧ r ≠ w ∧ (r ∉ fds) ∧ (w ∉ fds).

Lemma cleanup_idle s : idle (cleanup s).2.
Proof. done. Qed.

(** What [cleanup] does when it holds [r], and [w] unless it was closed before. *)
Lemma cleanup_effects s fds n r w :
  pipe_fd_ s = (r, w) → 0 <= r → r ∉ fds → r ≠ w → (0 <= w → w ∉ fds) →
  effects (cleanup s).1 ((if 0 <=? w then {[r; w]} else {[r]}) ∪ fds, n) = Some (fds, n).
Proof.
  intros Hp Hr Hrf Hrw Hwf. unfold cleanup, close_fd. cbn. rewrite Hp. cbn.
  rewrite (proj2 (Z.leb_le 0 r)) by done.
  assert (Hdir : ∀ st, effects (if (1 <? String.length (cgroup_path_ s))%nat
    then [CRmdir ("/sys/fs/cgroup" +:+ cgroup_path_ s)] else []) st = Some st)
    by (intros []; by case_match).
  rewrite effects_app, Hdir. cbn. destruct (Z.leb_spec 0 w) as [Hw|Hw]; cbn.
  - rewrite decide_True by set_solver. cbn. rewrite decide_True by set_solver. cbn.
    do 2 f_equal. specialize (Hwf Hw). apply leibniz_equiv. set_solver.
  - rewrite decide_True by set_solver. cbn. do 2 f_equal. apply leibniz_equiv. set_solver.
Qed.

Section properties.
Context (strerror : Z → string).

Definition finishes (r : rx) : bool :=
  match r with RData chunk => bool_decide (chunk = "") | _ => true end.

(** What arrives before a read ends the loop, at the end of the file or with an
    error: nothing that follows is read. *)
Fixpoint arrived (rs : list rx) : string :=
  match rs with
  | RData bs :: rs => if bool_decide (bs = "") then "" else bs +:+ arrived rs
  | _ => ""
  end.

(** The loop on reads that never end it. *)
Definition waits {X} (output_fn : option (string → X → outcome X)) (fuel : nat) (rs : list rx) : Prop :=
  ∀ x, (comes_back output_fn → read_chunks output_fn fuel rs x = Blocked) ∧
    ∀ r, read_chunks output_fn fuel rs x ≠ Ret r.

(** The loop on reads that give the given chunks. *)
Definition gives (chunks : list string) (fuel : nat) (rs : list rx) : Prop :=
  ∀ (X : Type) (output_fn : option (string → X → outcome X)) x,
    read_chunks output_fn fuel rs x = (x ← hand_all output_fn chunks x; Ret (chunks, x)).

(** A turn that reads [chunk], which is not empty, and leaves [rs']. *)
Lemma turn_gives chunk chunks fuel rs rs' :
  chunk ≠ "" → sys_read rs = Ret (Some chunk, rs') → gives chunks fuel rs' →
  gives (chunk :: chunks) (S fuel) rs.
Proof.
  intros Hne Hr Hg X fn x. cbn [read_chunks hand_all]. rewrite Hr. cbn [mbind outcome_bind].
  destruct chunk as [|c t]; [done|]. destruct (hand fn _ x) as [x1| | | | |]; try done.
  cbn [mbind outcome_bind]. rewrite (Hg X fn x1). by destruct (hand_all fn chunks x1).
Qed.

Lemma turn_waits {X} (fn : option (string → X → outcome X)) chunk fuel rs rs' :
  chunk ≠ "" → sys_read rs = Ret (Some chunk, rs') → waits fn fuel rs' → waits fn (S fuel) rs.
Proof.
  intros Hne Hr Hw x. cbn [read_chunks]. rewrite Hr. cbn [mbind outcome_bind].
  destruct chunk as [|c t]; [done|]. split.
  - intros Hcb. destruct (Hcb (String.String c t) x) as [x1 ->]. cbn [mbind outcome_bind].
    by rewrite (proj1 (Hw x1) Hcb).
  - intros r. destruct (hand fn _ x) as [x1| | | | |]; try done. cbn [mbind outcome_bind].
    destruct (read_chunks fn fuel rs' x1) as [[]| | | | |] eqn:E; try done.
    by destruct (proj2 (Hw x1) _ E).
Qed.

(** What a turn on data that is there reads, and what that leaves. *)
Lemma sys_read_data bs rs :
  bs ≠ "" → ∃ chunk rest, sys_read (RData bs :: rs) = Ret (Some chunk, rest) ∧
    (0 < String.length chunk ≤ READ_MAX)%nat ∧ chunk +:+ arrived rest = bs +:+ arrived rs ∧
    (Exists (λ r, finishes r = true) rest ↔ Exists (λ r, finishes r = true) rs) ∧
    (read_fuel rest < read_fuel (RData bs :: rs))%nat.
Proof.
  intros Hne. assert (0 < READ_MAX)%nat as Hmax by (unfold READ_MAX; lia).
  assert (0 < String.length bs)%nat as Hlen by (destruct bs; [done|cbn; lia]).
  change (read_fuel (RData bs :: rs)) with (S (String.length bs + read_fuel rs)).
  cbn [sys_read]. destruct (decide _) as [Hle|Hgt].
  { exists bs, rs. split_and!; try done; lia. }
  assert (String.length (string_drop READ_MAX bs) = String.length bs - READ_MAX)%nat as Hd.
  { pose proof (string_take_drop READ_MAX bs) as Hs. apply (f_equal String.length) in Hs.
    rewrite length_string_app, length_string_take in Hs. lia. }
  assert (string_drop READ_MAX bs ≠ "") as Hdne
    by (intros He; rewrite He in Hd; cbn [String.length] in Hd; lia).
  eexists _, _. split; [done|]. rewrite length_string_take. cbn [arrived].
  rewrite bool_decide_false by done.
  change (read_fuel (RData (string_drop READ_MAX bs) :: rs))
    with (S (String.length (string_drop READ_MAX bs) + read_fuel rs)).
  split; [lia|]. split; [by rewrite <-string_app_assoc, string_take_drop|].
  split; [|lia]. rewrite Exists_cons. cbn [finishes]. rewrite bool_decide_false by done.
  split; [by intros [?|?]|by right].
Qed.

Lemma read_chunks_spec fuel rs :
  (read_fuel rs ≤ fuel)%nat →
  (Exists (λ r, finishes r = true) rs →
   ∃ chunks, gives chunks fuel rs ∧ concat chunks = arrived rs ∧
     Forall (λ c, 0 < String.length c ≤ READ_MAX)%nat chunks) ∧
  (¬ Exists (λ r, finishes r = true) rs →
   ∀ (X : Type) (output_fn : option (string → X → outcome X)), waits output_fn fuel rs).
Proof.
  revert rs. induction fuel as [|fuel IH]; intros rs Hf.
  { destruct rs as [|[] rs]; cbn in Hf; lia. }
  assert (Hend : ∀ n rs', sys_read rs = Ret (n, rs') → n = None ∨ n = Some "" →
    gives [] (S fuel) rs).
  { intros n rs' Hr Hn X fn x. cbn [read_chunks]. rewrite Hr. by destruct Hn as [-> | ->]. }
  destruct rs as [|[bs| |] rs].
  { split; [intros Hx; by inversion Hx|]. intros _ X fn x. by split. }
  2-3: split; [intros _; exists []; split; [eapply Hend; [reflexivity|auto]|done]
    |intros Hn; destruct Hn; by apply Exists_cons_hd].
  destruct (decide (bs = "")) as [->|Hne].
  { split; [intros _; exists []; split; [eapply Hend; [reflexivity|by right]|done]|].
    intros Hn. destruct Hn. by apply Exists_cons_hd. }
  destruct (sys_read_data bs rs Hne) as (chunk & rest & Hr & Hc & Ha & Hiff & Hfuel).
  assert (Exists (λ r, finishes r = true) (RData bs :: rs) ↔
          Exists (λ r, finishes r = true) rs) as Hiff2.
  { rewrite Exists_cons. cbn [finishes]. rewrite bool_decide_false by done.
    split; [by intros [?|?]|by right]. }
  assert (chunk ≠ "") as Hcne by (intros ->; cbn in Hc; lia).
  destruct (IH rest ltac:(lia)) as [IH1 IH2]. rewrite Hiff2, <-Hiff. cbn [arrived].
  rewrite bool_decide_false by done. split.
  - intros Hx. destruct (IH1 Hx) as (chunks & Hg & Hcat & Hall). exists (chunk :: chunks).
    split; [by eapply turn_gives|]. split; [|by constructor].
    cbn [concat foldr]. fold (concat chunks). by rewrite Hcat, Ha.
  - intros Hx X fn. eapply turn_waits; [exact Hcne|exact Hr|by apply IH2].
Qed.

(** Whenever [run] returns, what it acquired has been released. *)
Lemma run_effects {X} env (output_fn : option (string → X → outcome X)) s x fds n result s' calls x' :
  idle s → fresh_pipe env fds → run strerror env output_fn s x = Ret (result, s', calls, x') →
  effects calls (fds, n) = Some (fds, n) ∧ idle s' ∧
  effects (destroy s') (fds, n) = Some (fds, n).
Proof.
  intros Hi Hf.
  assert (Hd : ∀ p c i, effects (destroy (cleanup (mkSandbox c p i (-1, -1))).2) (fds, n)
    = Some (fds, n)) by (intros p c i; cbn; by case_match).
  intros Hrun. unfold run in Hrun. destruct (pipe_answer env) as [[r w]|] eqn:Hp.
  2: { injection Hrun as <- <- <- _. split; [done|]. split; [exact Hi|].
       unfold destroy, cleanup, close_fd. cbn. rewrite Hi. cbn. by case_match. }
  destruct (Hf r w Hp) as (H1 & H2 & H3 & H4 & H5). cbn in Hrun.
  destruct (malloc_answer env); cbn in Hrun.
  2: { injection Hrun as <- <- <- _. split; [|split; [done|apply Hd]].
       pose proof (cleanup_effects (mkSandbox (config_ s) ("/devops-" +:+ id (config_ s))
         (child_pid_ s) (r, w)) fds n r w eq_refl) as Hc.
       rewrite (proj2 (Z.leb_le 0 w)) in Hc by done. by apply Hc. }
  destruct (clone_answer env) as [pid|errno].
  - apply bind_Ret in Hrun as ([chunks x1] & _ & Hrun).
    apply bind_Ret in Hrun as (status & _ & Hrun). cbn in Hrun. injection Hrun as <- <- <- _.
    split; [|split; [done|apply Hd]].
    cbn. rewrite decide_True by set_solver. cbn. rewrite effects_app.
    assert (effects (match output_fn with Some _ => COutput <$> chunks | None => [] end)
      (({[r; w]} ∪ fds) ∖ {[w]}, S n) = Some (({[r; w]} ∪ fds) ∖ {[w]}, S n)) as ->
      by (destruct output_fn; [apply effects_output|done]). cbn.
    replace (({[r; w]} ∪ fds) ∖ {[w]}) with ({[r]} ∪ fds) by (apply leibniz_equiv; set_solver).
    apply (cleanup_effects (mkSandbox (config_ s) ("/devops-" +:+ id (config_ s)) pid (r, -1))
      fds n r (-1)); try done; lia.
  - injection Hrun as <- <- <- _. split; [|split; [done|apply Hd]].
    pose proof (cleanup_effects (mkSandbox (config_ s) ("/devops-" +:+ id (config_ s))
      (-1) (r, w)) fds n r w eq_refl) as Hc.
    rewrite (proj2 (Z.leb_le 0 w)) in Hc by done. by apply Hc.
Qed.
End properties.

(** The low seven bits of a status and its second byte. *)
Lemma land_127 hi b : 0 <= b < 128 → Z.land (hi * 128 + b) 127 = b.
Proof.
  intros Hb. change 127 with (Z.ones 7). rewrite Z.land_ones by lia.
  rewrite Z.add_comm, Z_mod_plus_full. by apply Z.mod_small.
Qed.

Lemma WEXITSTATUS_div st : WEXITSTATUS st = (st / 256) mod 256.
Proof.
  unfold WEXITSTATUS. change 65280 with (Z.shiftl (Z.ones 8) 8).
  change 256 with (2 ^ 8). rewrite <-Z.shiftr_div_pow2, <-Z.land_ones by lia.
  apply Z.bits_inj'. intros k Hk.
  rewrite Z.shiftr_spec, !Z.land_spec, Z.shiftl_spec, Z.shiftr_spec by lia.
  do 2 f_equal. lia.
Qed.

Lemma exit_code_of_exited c : 0 <= c < 256 → exit_code_of (c * 256) = c.
Proof.
  intros Hc. unfold exit_code_of, WIFEXITED.
  pose proof (land_127 (c * 2) 0 ltac:(lia)) as Hl.
  replace (c * 2 * 128 + 0) with (c * 256) in Hl by lia. rewrite Hl. cbn.
  rewrite WEXITSTATUS_div, Z.div_mul by lia. by apply Z.mod_small.
Qed.

(** The signal macro is true exactly for the signals 1 to 126. *)
Lemma WIFSIGNALED_spec st :
  WIFSIGNALED st = (0 <? Z.land st 127) && (Z.land st 127 <? 127).
Proof.
  unfold WIFSIGNALED. set (b := Z.land st 127).
  assert (0 <= b < 128) as Hb.
  { unfold b. change 127 with (Z.ones 7). rewrite Z.land_ones by lia.
    apply Z.mod_pos_bound. lia. }
  unfold sint. rewrite wrap_small by lia. rewrite Z.shiftr_div_pow2 by lia.
  change (2 ^ (8 - 1)) with 128. change (2 ^ 8) with 256. change (2 ^ 1) with 2.
  clearbody b. destruct (Z.eq_dec b 127) as [->|]; [reflexivity|].
  rewrite (proj2 (Z.ltb_lt (b + 1) 128)) by lia.
  assert (0 < (b + 1) / 2 ↔ 0 < b) as Hd by (Z.to_euclidean_division_equations; lia).
  case_Z; simpl; try done; tauto || lia.
Qed.

Lemma exit_code_of_signaled sig core :
  0 < sig < 127 → 0 <= core → exit_code_of (core * 128 + sig) = 128 + sig.
Proof.
  intros Hs Hc. unfold exit_code_of, WIFEXITED, WTERMSIG.
  rewrite WIFSIGNALED_spec, (land_127 core sig) by lia.
  by rewrite (proj2 (Z.eqb_neq sig 0)), !(proj2 (Z.ltb_lt _ _)) by lia.
Qed.

Lemma exit_code_of_zero st : exit_code_of st = 0 ↔ WIFEXITED st = true ∧ WEXITSTATUS st = 0.
Proof.
  unfold exit_code_of. destruct (WIFEXITED st) eqn:He; [naive_solver|].
  rewrite WIFSIGNALED_spec. unfold WTERMSIG.
  destruct (Z.ltb_spec 0 (Z.land st 127)); cbn; [|split; [done|by intros []]].
  destruct (_ <? 127); split; try done; try lia; by intros [].
Qed.
(** * The output *)

(** The chunks a run handed out. *)
Definition chunks_of (cs : list call) : list string :=
  omap (λ c, match c with COutput chunk => Some chunk | _ => None end) cs.

Lemma chunks_of_app cs1 cs2 : chunks_of (cs1 ++ cs2) = chunks_of cs1 ++ chunks_of cs2.
Proof. apply omap_app. Qed.

Lemma chunks_of_output chunks : chunks_of (COutput <$> chunks) = chunks.
Proof. unfold chunks_of. induction chunks as [|c cs IH]; [done|]. cbn. by rewrite IH. Qed.

Lemma chunks_of_cleanup s : chunks_of (cleanup s).1 = [].
Proof. unfold cleanup, close_fd. cbn. repeat case_match; done. Qed.

Lemma hand_all_none {X} chunks (x : X) : hand_all None chunks x = Ret x.
Proof. by induction chunks. Qed.

Lemma hand_all_returns {X} (fn : option (string → X → outcome X)) chunks x :
  comes_back fn → ∃ x', hand_all fn chunks x = Ret x'.
Proof.
  intros Hc. revert x. induction chunks as [|c chunks IH]; intros x; [by exists x|].
  cbn [hand_all]. destruct (Hc c x) as [x1 ->]. apply IH.
Qed.

(** Whether there is a function to hand the output to. *)
Definition handed {X} (fn : option (string → X → outcome X)) : bool :=
  match fn with Some _ => true | None => false end.

(** No child comes into being. *)
Definition no_child (env : Env) : Prop :=
  pipe_answer env = None ∨ malloc_answer env = false ∨ ∃ errno, clone_answer env = inr errno.

Lemma child_or_not env :
  no_child env ∨
  ∃ r w pid, pipe_answer env = Some (r, w) ∧ malloc_answer env = true ∧ clone_answer env = inl pid.
Proof.
  unfold no_child. destruct (pipe_answer env) as [[r w]|], (malloc_answer env),
    (clone_answer env) as [pid|e]; eauto 10.
Qed.

Section runs.
Context (strerror : Z → string).

Lemma run_no_child env s :
  no_child env →
  ∃ result s' calls, exit_code result = -1 ∧ chunks_of calls = [] ∧
    ∀ (X : Type) (fn : option (string → X → outcome X)) x,
      run strerror env fn s x = Ret (result, s', calls, x).
Proof.
  intros Hno. unfold run. destruct (pipe_answer env) as [[r w]|] eqn:Hp.
  2: { exists (mkResult (-1) 0 "" "pipe() failed"). by eexists _, []. }
  cbn [config_ cgroup_path_ child_pid_]. destruct (malloc_answer env) eqn:Hm; cbn [negb].
  - destruct Hno as [?|[?|[errno He]]]; [congruence..|]. rewrite He.
    match goal with |- context [cleanup ?s] => pose proof (chunks_of_cleanup s) as Hcl;
      destruct (cleanup s) as [cs s'] end.
    cbn [fst] in Hcl. eexists (mkResult (-1) 0 "" _), _, _. split; [done|].
    split; [|intros; reflexivity]. rewrite !chunks_of_app, Hcl. done.
  - match goal with |- context [cleanup ?s] => pose proof (chunks_of_cleanup s) as Hcl;
      destruct (cleanup s) as [cs s'] end.
    cbn [fst] in Hcl. eexists (mkResult (-1) 0 "" _), _, _. split; [done|].
    split; [|intros; reflexivity]. rewrite !chunks_of_app, Hcl. done.
Qed.

(** What a run with a child comes to when its output ends. *)
Lemma run_child env s r w pid chunks :
  pipe_answer env = Some (r, w) → malloc_answer env = true → clone_answer env = inl pid →
  gives chunks (read_fuel (reads env)) (reads env) →
  ∃ s' calls, (∀ b : bool, chunks_of (calls b) = if b then chunks else []) ∧
    ∀ (X : Type) (fn : option (string → X → outcome X)) x,
      run strerror env fn s x =
        (x ← hand_all fn chunks x; status ← sys_waitpid (wait_answer env);
         Ret (mkResult (exit_code_of status) (time_end env - time_start env) (concat chunks) "",
              s', calls (handed fn), x)).
Proof.
  intros Hp Hm Hc Hg.
  pose proof (chunks_of_cleanup (mkSandbox (config_ s) ("/devops-" +:+ id (config_ s)) pid
    (r, -1))) as Hcl.
  destruct (cleanup (mkSandbox (config_ s) ("/devops-" +:+ id (config_ s)) pid (r, -1)))
    as [cs s'] eqn:E. cbn [fst] in Hcl.
  exists s', (λ b : bool, ([CPipe r w] ++ [CMalloc; CClone (clone_flags (config_ s))])
    ++ [CClose w] ++ (if b then COutput <$> chunks else []) ++ [CWaitpid pid; CFree] ++ cs).
  split.
  - intros b. rewrite !chunks_of_app, Hcl.
    change (chunks_of [CPipe r w]) with (@nil string).
    change (chunks_of [CMalloc; CClone (clone_flags (config_ s))]) with (@nil string).
    change (chunks_of [CClose w]) with (@nil string).
    change (chunks_of [CWaitpid pid; CFree]) with (@nil string).
    cbn [app]. rewrite !app_nil_r. destruct b; [apply chunks_of_output|done].
  - intros X fn x. unfold run. rewrite Hp, Hm, Hc. cbn [negb config_ cgroup_path_ child_pid_].
    unfold read_loop. rewrite (Hg X fn x).
    destruct (hand_all fn chunks x); try done. cbn [mbind outcome_bind].
    destruct (sys_waitpid (wait_answer env)); try done. cbn [mbind outcome_bind].
    rewrite E. by destruct fn.
Qed.

(** With or without a child, [run] does what its function does on the chunks and
    returns, once the reads end and the child does. *)
Lemma run_ends env s :
  Exists (λ r, finishes r = true) (reads env) → wait_answer env ≠ NeverEnds →
  ∃ result s' calls, Forall (λ c, String.length c ≤ READ_MAX)%nat (chunks_of (calls true)) ∧
    ∀ (X : Type) (fn : option (string → X → outcome X)) x,
      run strerror env fn s x =
        (x ← hand_all fn (chunks_of (calls true)) x; Ret (result, s', calls (handed fn), x)).
Proof.
  intros Hx Hw.
  destruct (child_or_not env) as [Hno|(r & w & pid & Hp & Hm & Hc)].
  { destruct (run_no_child env s Hno) as (result & s' & calls & _ & Hcs & Hr).
    exists result, s', (λ _, calls). rewrite Hcs. split; [constructor|]. intros X fn x.
    by rewrite Hr. }
  destruct (proj1 (read_chunks_spec _ (reads env) (Nat.le_refl _)) Hx) as (chunks & Hg & _ & Hall).
  destruct (run_child env s r w pid chunks Hp Hm Hc Hg) as (s' & calls & Hcs & Hr).
  destruct (sys_waitpid (wait_answer env)) as [st| | | | |] eqn:Hst;
    try (by destruct (wait_answer env)).
  eexists _, s', calls. rewrite (Hcs true). split.
  - eapply Forall_impl; [exact Hall|]. intros c [_ ?]. done.
  - intros X fn x. rewrite Hr. by destruct (hand_all fn chunks x).
Qed.

(** A run that returned had a child that ended, or none. *)
Lemma run_returned {X} env (fn : option (string → X → outcome X)) s x v :
  run strerror env fn s x = Ret v →
  no_child env ∨
  (∃ pid, clone_answer env = inl pid) ∧ Exists (λ r, finishes r = true) (reads env) ∧
    wait_answer env ≠ NeverEnds.
Proof.
  unfold run. intros H. destruct (pipe_answer env) as [[r w]|] eqn:Hp; [|by left; left].
  cbn [config_ cgroup_path_ child_pid_] in H.
  destruct (malloc_answer env) eqn:Hm; [|by left; right; left]. cbn [negb] in H.
  destruct (clone_answer env) as [pid|e] eqn:Hc; [|left; right; right; by eexists].
  right. split; [by eexists|]. apply bind_Ret in H as (cx & Hr & H). split.
  - destruct (decide (Exists (λ r, finishes r = true) (reads env))) as [|Hn]; [done|].
    by destruct (proj2 (proj2 (read_chunks_spec _ (reads env) (Nat.le_refl _)) Hn X fn x) _ Hr).
  - intros He. destruct cx as [chunks x1]. by rewrite He in H.
Qed.

(** The function runs between the reads, and what it does there is what it would do
    afterwards: a run that returns handed it the chunks in order, and with any
    other function does the same. *)
Lemma run_handed {X} env (f : string → X → outcome X) s x result s' cs x' :
  run strerror env (Some f) s x = Ret (result, s', cs, x') →
  hand_all (Some f) (chunks_of cs) x = Ret x' ∧
  Forall (λ c, String.length c ≤ READ_MAX)%nat (chunks_of cs) ∧
  ∀ (Y : Type) (g : string → Y → outcome Y) y,
    run strerror env (Some g) s y = (y ← hand_all (Some g) (chunks_of cs) y; Ret (result, s', cs, y)).
Proof.
  intros H. destruct (run_returned _ _ _ _ _ H) as [Hno|(_ & Hx & Hw)].
  - destruct (run_no_child env s Hno) as (r0 & s0 & c0 & _ & Hcs & Hr).
    rewrite Hr in H. injection H as <- <- <- <-. rewrite Hcs. split; [done|].
    split; [constructor|]. intros Y g y. by rewrite Hr.
  - destruct (run_ends env s Hx Hw) as (r0 & s0 & c0 & Hall & Hr).
    rewrite Hr in H. apply bind_Ret in H as (x1 & H1 & [= <- <- <- <-]). cbn [handed].
    split; [done|]. split; [done|]. intros Y g y. by rewrite Hr.
Qed.

(** C10: the output of a command is not lost, reordered or repeated.  [arrived] is
    what comes through the pipe before the end of the file or a read error.  However
    the kernel cuts it, there are chunks of one to 4095 bytes which put together are
    exactly [arrived], and so is the output [run] returns: the function it is given,
    whatever that is, is called on each of them in order, and then [run] waits for
    the child, returning if it ends and never returning if it does not.  When no
    read ends the stream, [run] never returns, with any function that does. *)
Theorem run_output env s r w pid :
  pipe_answer env = Some (r, w) → malloc_answer env = true → clone_answer env = inl pid →
  (Exists (λ x, finishes x = true) (reads env) →
   ∃ chunks result s' calls, concat chunks = arrived (reads env) ∧
     Forall (λ c, 0 < String.length c ≤ 4095)%nat chunks ∧
     out result = arrived (reads env) ∧ chunks_of calls = chunks ∧
     ∀ (X : Type) (f : string → X → outcome X) x,
       run strerror env (Some f) s x =
         (x' ← hand_all (Some f) chunks x;
          if decide (wait_answer env = NeverEnds) then Blocked else Ret (result, s', calls, x'))) ∧
  (¬ Exists (λ x, finishes x = true) (reads env) →
   ∀ (X : Type) (f : string → X → outcome X) x,
     comes_back (Some f) → run strerror env (Some f) s x = Blocked).
Proof.
  intros Hp Hm Hc. destruct (read_chunks_spec _ (reads env) (Nat.le_refl _)) as [H1 H2].
  split; intros Hx.
  - destruct (H1 Hx) as (chunks & Hg & Ha & Hall).
    destruct (run_child env s r w pid chunks Hp Hm Hc Hg) as (s' & calls & Hcs & Hr).
    exists chunks, (mkResult (exit_code_of (default 0 (match wait_answer env with
      Reaped st => Some st | _ => None end))) (time_end env - time_start env) (concat chunks) "").
    exists s', (calls true). split; [done|]. split; [exact Hall|]. split; [exact Ha|].
    split; [exact (Hcs true)|].
    intros X f x. rewrite Hr. destruct (hand_all (Some f) chunks x); try done.
    cbn [mbind outcome_bind handed]. by destruct (wait_answer env).
  - intros X f x Hcb. unfold run. rewrite Hp, Hm, Hc. cbn [negb]. unfold read_loop.
    by rewrite (proj1 (H2 Hx X (Some f) x) Hcb).
Qed.

(** C11: once the child has closed the pipe and ended, or if there is none, [run]
    returns, with a function that does, and on every branch it has released what it
    acquired, each descriptor and the stack exactly once: the parent's descriptors
    and allocations are those it started with, and the destructor has nothing left to
    close. *)
Theorem run_releases {X} env (output_fn : option (string → X → outcome X)) s x fds n :
  idle s → fresh_pipe env fds → comes_back output_fn →
  no_child env ∨ Exists (λ r, finishes r = true) (reads env) ∧ wait_answer env ≠ NeverEnds →
  ∃ result s' calls x', run strerror env output_fn s x = Ret (result, s', calls, x') ∧
    effects calls (fds, n) = Some (fds, n) ∧ idle s' ∧
    effects (destroy s') (fds, n) = Some (fds, n).
Proof.
  intros Hi Hf Hcb He.
  assert (∃ result s' calls x', run strerror env output_fn s x = Ret (result, s', calls, x'))
    as (result & s' & calls & x' & Hr).
  { destruct He as [(result & s' & calls & _ & _ & Hr)%(run_no_child env s)|[Hx Hw]].
    - rewrite Hr. by eexists _, _, _, _.
    - destruct (run_ends env s Hx Hw) as (result & s' & calls & _ & ->).
      destruct (hand_all_returns output_fn (chunks_of (calls true)) x Hcb) as [x' ->].
      by eexists _, _, _, _. }
  exists result, s', calls, x'. split; [done|]. by eapply run_effects.
Qed.

(** C12: the exit code [run] reports: an exit status of the child's, 128 plus the
    signal that killed it with or without a core dump, -1 whenever there was no
    child, the pipe, the stack or the child itself having failed; it is zero only for
    a child that exited with zero or could not be waited for, and then the output is
    everything that arrived. *)
Theorem run_exit_code {X} env (output_fn : option (string → X → outcome X)) s x result s' calls x' :
  run strerror env output_fn s x = Ret (result, s', calls, x') →
  (∀ c, ¬ no_child env → 0 <= c < 256 → wait_answer env = Reaped (c * 256) →
     exit_code result = c) ∧
  (∀ sig core, ¬ no_child env → 0 < sig < 127 → 0 <= core →
     wait_answer env = Reaped (core * 128 + sig) → exit_code result = 128 + sig) ∧
  (no_child env → exit_code result = -1) ∧
  (exit_code result = 0 →
     (∃ pid, clone_answer env = inl pid) ∧
     (wait_answer env = WaitFails ∨
      ∃ st, wait_answer env = Reaped st ∧ WIFEXITED st = true ∧ WEXITSTATUS st = 0) ∧
     out result = arrived (reads env)).
Proof.
  intros H. destruct (child_or_not env) as [Hno|(r & w & pid & Hp & Hm & Hc)].
  { destruct (run_no_child env s Hno) as (r0 & s0 & c0 & He & _ & Hr).
    rewrite Hr in H. injection H as <- _ _ _. rewrite He. split_and!; by intros. }
  destruct (run_returned _ _ _ _ _ H) as [[?|[?|[e ?]]]|(_ & Hx & Hw)]; [congruence..|].
  destruct (proj1 (read_chunks_spec _ (reads env) (Nat.le_refl _)) Hx) as (chunks & Hg & Ha & _).
  destruct (run_child env s r w pid chunks Hp Hm Hc Hg) as (s0 & c0 & _ & Hr).
  rewrite Hr in H. apply bind_Ret in H as (x1 & _ & H). apply bind_Ret in H as (st & Hst & H).
  injection H as <- _ _ _. cbn [exit_code out]. split_and!.
  - intros c _ Hc' Hw'. rewrite Hw' in Hst. injection Hst as <-. by apply exit_code_of_exited.
  - intros sig core _ Hs Hcore Hw'. rewrite Hw' in Hst. injection Hst as <-.
    by apply exit_code_of_signaled.
  - intros [?|[?|[e ?]]]; congruence.
  - intros Hz%exit_code_of_zero. split; [by eexists|]. split; [|done].
    destruct (wait_answer env) as [st'| |]; [right|by left|done].
    injection Hst as ->. by exists st.
Qed.
End runs.

(** * The child under its filter *)
Section filter.
Context (resolve : string → option Z).

Lemma elem_of_install names ctx n :
  n ∈ fold_left (allow_syscall resolve) names ctx ↔
    n ∈ ctx ∨ ∃ name, name ∈ names ∧ resolve name = Some n.
Proof.
  revert ctx. induction names as [|a names IH]; intros ctx; cbn; [set_solver|].
  rewrite IH. unfold allow_syscall. destruct (resolve a) as [m|] eqn:Ha; set_solver.
Qed.

Lemma elem_of_allowed n :
  n ∈ install_allowlist resolve [] ↔ ∃ name, name ∈ allowlist ∧ resolve name = Some n.
Proof.
  unfold install_allowlist. rewrite elem_of_install. split; [|by right].
  by intros [Hn%not_elem_of_nil|Hn].
Qed.

(** The C library of the target: the system calls behind each call. *)
Context (libc : child_call → list Z).

(** Calls the filter permits, none of which replaces it, are all made. *)
Definition plain (filter : option (list Z)) (c : child_call) : Prop :=
  Forall (λ sys, permitted filter sys = true) (libc c) ∧
  match c with LoadFilter _ => False | _ => True end.

Lemma execute_plain filter cs1 cs2 :
  Forall (plain filter) cs1 →
  execute libc filter (cs1 ++ cs2) =
    (cs1 ++ (execute libc filter cs2).1, (execute libc filter cs2).2).
Proof.
  induction 1 as [|c cs1 [Hp Hc] _ IH].
  { cbn [app]. by destruct (execute libc filter cs2). }
  cbn [app execute].
  assert (forallb (permitted filter) (libc c) = true) as ->.
  { apply forallb_forall. rewrite list.Forall_forall in Hp. intros n Hn.
    by apply Hp, list_elem_of_In. }
  destruct c; try done; by rewrite IH.
Qed.

(** Without a filter everything is permitted. *)
Lemma plain_none c : match c with LoadFilter _ => False | _ => True end → plain None c.
Proof. intros Hc. split; [|done]. by apply list.Forall_forall. Qed.

Lemma write_file_plain opens path contents :
  Forall (plain None) (write_file opens path contents).1.
Proof. unfold write_file. destruct (opens path); repeat constructor; by apply list.Forall_forall. Qed.

(** The end of the child's work, with the filter it has then. *)
Lemma child_calls_execute allowed getpid opens cfg cgroup_path command pipe_fd init load :
  let tail := [Dup2 pipe_fd 1; Dup2 pipe_fd 2; CloseFd pipe_fd;
               Execl ["sh"; "-c"; command]; ExitGroup 127] in
  (enable_seccomp cfg && init && load = true → Forall (plain (Some allowed)) tail) →
  let cs := child_calls getpid opens allowed cfg cgroup_path command pipe_fd init load in
  execute libc None cs = (cs, false).
Proof.
  intros tail Hall cs. unfold cs, child_calls. fold tail.
  rewrite execute_plain by (constructor; [by apply plain_none|constructor]).
  do 4 (rewrite execute_plain by apply write_file_plain).
  assert (Ht : ∀ f, Forall (plain f) tail → execute libc f tail = (tail, false)).
  { intros f Hf. rewrite <-(app_nil_r tail) at 1. rewrite execute_plain by done.
    cbn [execute fst snd]. by rewrite app_nil_r. }
  assert (Hn : execute libc None tail = (tail, false)).
  { apply Ht. repeat constructor; by apply list.Forall_forall. }
  clearbody tail. destruct (enable_seccomp cfg && init && load).
  - cbn [app execute].
    assert (forallb (permitted None) (libc (LoadFilter allowed)) = true) as ->
      by (by apply forallb_forall).
    by rewrite Ht by (by apply Hall).
  - cbn [app]. by rewrite Hn.
Qed.

(** What the manuals say of the four functions the child calls under the filter: the
    system calls they are made of, by name.  [dup2] is [dup3] where there is no such
    system call, and [fcntl] when both descriptors are the same. *)
Definition made_of (c : child_call) : list string :=
  match c with
  | Dup2 _ _ => ["dup2"; "dup3"; "fcntl"]
  | CloseFd _ => ["close"]
  | Execl _ => ["execve"]
  | ExitGroup _ => ["exit_group"]
  | _ => []
  end.

Definition documented : Prop :=
  ∀ c sys, made_of c ≠ [] → sys ∈ libc c → ∃ name, name ∈ made_of c ∧ resolve name = Some sys.

Lemma made_of_allowed c name : name ∈ made_of c → name ∈ allowlist.
Proof.
  intros Hn. apply (bool_decide_unpack _). unfold allowlist. destruct c; cbn in Hn; set_unfold; try done.
  all: by repeat destruct Hn as [->|Hn].
Qed.

Lemma documented_plain c :
  documented → made_of c ≠ [] → plain (Some (install_allowlist resolve [])) c.
Proof.
  intros Hd Hc. split; [|by destruct c]. apply list.Forall_forall. intros sys Hs.
  destruct (Hd c sys Hc Hs) as (name & Hn & Hr). apply bool_decide_eq_true, elem_of_allowed.
  exists name. split; [by eapply made_of_allowed|done].
Qed.

Lemma permitted_installed sys :
  permitted (Some (install_allowlist resolve [])) sys = true ↔
    ∃ name, name ∈ allowlist ∧ resolve name = Some sys.
Proof. rewrite <-elem_of_allowed. apply bool_decide_eq_true. Qed.

(** One number the filter excludes is enough. *)
Lemma execute_killed filter c cs sys :
  sys ∈ libc c → permitted filter sys = false → execute libc filter (c :: cs) = ([], true).
Proof.
  intros Hs Hp. cbn [execute]. destruct (forallb _ (libc c)) eqn:E; [|done].
  rewrite forallb_forall in E. specialize (E sys (proj1 (list_elem_of_In _ _) Hs)). congruence.
Qed.

(** C26: the filter the child installs lets it finish its own work, and nothing off
    the list.  On any target, whatever numbers its names have and whichever of them
    it lacks, with a C library made of the documented system calls, and whether the
    filter can be set up or not, the child makes all its calls to the end: it
    redirects its output to the pipe and reaches the shell, or the exit after it.
    The filter permits exactly the numbers of the names of the list that exist on
    the target, and a process under it that makes any other call is killed there. *)
Theorem child_under_filter getpid opens cfg cgroup_path command pipe_fd init load :
  documented →
  let cs := child_entry resolve getpid opens cfg cgroup_path command pipe_fd init load in
  let filter := Some (install_allowlist resolve []) in
  execute libc None cs = (cs, false) ∧
  (∀ sys, permitted filter sys = true ↔ ∃ name, name ∈ allowlist ∧ resolve name = Some sys) ∧
  ∀ c cs sys, sys ∈ libc c → (∀ name, name ∈ allowlist → resolve name ≠ Some sys) →
    execute libc filter (c :: cs) = ([], true).
Proof.
  intros Hd. cbv zeta. split; [|split].
  - unfold child_entry. apply child_calls_execute. intros _.
    repeat (apply Forall_cons_2; [by apply documented_plain|]). apply Forall_nil_2.
  - exact permitted_installed.
  - intros c cs sys Hs Hno. apply (execute_killed _ c cs sys Hs).
    apply not_true_iff_false. rewrite permitted_installed. intros (name & Hn & Hr).
    by destruct (Hno name Hn).
Qed.

(** A failure to set the filter up is ignored: the child then runs the command without
    one, whatever the configuration asks for. *)
Lemma seccomp_failure_ignored getpid opens cfg cgroup_path command pipe_fd init load :
  init && load = false →
  let cs := child_entry resolve getpid opens cfg cgroup_path command pipe_fd init load in
  (∀ allowed, LoadFilter allowed ∉ cs) ∧ Execl ["sh"; "-c"; command] ∈ cs ∧
  execute libc None cs = (cs, false).
Proof.
  intros Hf. cbv zeta.
  assert (enable_seccomp cfg && init && load = false) as Hoff
    by (by rewrite <-andb_assoc, Hf, andb_false_r).
  split; [|split].
  - assert (Hw : ∀ path contents allowed, LoadFilter allowed ∉ (write_file opens path contents).1).
    { intros. unfold write_file. case_match; cbn; by intros [?|?%not_elem_of_nil]%elem_of_cons. }
    intros allowed. unfold child_entry, child_calls. rewrite Hoff, !elem_of_app.
    intros [H|[H|[H|[H|[H|[H|H]]]]]]; try by eapply Hw.
    all: repeat (apply elem_of_cons in H as [?|H]; [done|]); by apply not_elem_of_nil in H.
  - unfold child_entry, child_calls. do 6 (apply elem_of_app; right).
    do 3 (apply elem_of_cons; right). apply elem_of_cons. by left.
  - unfold child_entry. apply child_calls_execute. intros ?. congruence.
Qed.
End filter.

(** The sandbox allows everything the stand-alone filter allows. *)
Lemma default_filter_subset : default_filter ⊆ allowlist.
Proof.
  assert (forallb (λ n, bool_decide (n ∈ allowlist)) default_filter = true) as H
    by (vm_compute; reflexivity).
  intros n Hn. rewrite forallb_forall in H. apply list_elem_of_In, H in Hn.
  by apply bool_decide_eq_true in Hn.
Qed.

Example socket_calls_excluded :
  Forall (λ n, n ∉ allowlist)
    ["socket"; "connect"; "bind"; "listen"; "accept"; "sendto"; "recvfrom"; "ptrace"; "mount"].
Proof. apply (bool_decide_unpack _). vm_compute. exact I. Qed.

(** * The descriptors the command runs with

    The child starts with the parent's descriptors; no call of the daemon asks for
    one to be closed on [execve]. *)
Definition child_effect (fds : gset Z) (c : child_call) : gset Z :=
  match c with
  | Dup2 _ target => {[target]} ∪ fds
  | CloseFd fd => fds ∖ {[fd]}
  | _ => fds
  end.

(** Every descriptor of the daemon but the write end of the pipe, the connection to
    the server included, is open in the command: the filter keeps it from making
    sockets, not from writing to that one. *)
Lemma child_keeps_descriptors allowed getpid opens cfg cgroup_path command pipe_fd init load fds x :
  x ∈ fds → x ≠ pipe_fd →
  x ∈ fold_left child_effect (child_calls getpid opens allowed cfg cgroup_path command pipe_fd init load) fds.
Proof.
  intros Hx Hne. unfold child_calls.
  assert (∀ path contents fds, fold_left child_effect (write_file opens path contents).1 fds = fds)
    as Hw by (intros; unfold write_file; by case_match).
  rewrite !fold_left_app, !Hw.
  destruct (enable_seccomp cfg && init && load); cbn; set_solver.
Qed.

(** * Concrete runs *)

Definition echo_env : Env :=
  mkEnv (Some (5, 6)) true (inl 77) [RData "hello"; RData " world"; REof] (Reaped 0) 10 35.

Definition echo_sandbox : Sandbox := Sandbox_new (default_config "7").

Example echo_run :
  run (λ _, "") echo_env (Some (λ chunk n, Ret (String.length chunk + n)%nat)) echo_sandbox 0%nat =
    Ret (mkResult 0 25 "hello world" "",
         mkSandbox (default_config "7") "/devops-7" 77 (-1, -1),
         [CPipe 5 6; CMalloc; CClone 0x60000011; CClose 6; COutput "hello"; COutput " world";
          CWaitpid 77; CFree; CRmdir "/sys/fs/cgroup/devops-7"; CClose 5], 11%nat).
Proof. vm_compute. reflexivity. Qed.

Lemma run_releases_witness :
  ∃ result s' calls x', run (λ _, "") echo_env (Some silent) echo_sandbox tt = Ret (result, s', calls, x') ∧
    effects calls ({[0; 1; 2]}, 3%nat) = Some ({[0; 1; 2]}, 3%nat) ∧ idle s' ∧
    effects (destroy s') ({[0; 1; 2]}, 3%nat) = Some ({[0; 1; 2]}, 3%nat).
Proof.
  apply run_releases.
  - done.
  - intros r w [= <- <-]. split_and!; try lia; set_solver.
  - exact silent_comes_back.
  - right. split; [|discriminate]. do 2 apply Exists_cons_tl. by apply Exists_cons_hd.
Defined.

(** A child killed by [SIGKILL] with a core dump, and a pipe that cannot be had. *)
Lemma run_exit_code_witness :
  (∃ result s' calls,
     run (λ _, "") (mkEnv (Some (5, 6)) true (inl 77) [REof] (Reaped 137) 0 0) None echo_sandbox tt
       = Ret (result, s', calls, tt) ∧ exit_code result = 128 + 9) ∧
  ∃ result s' calls,
    run (λ _, "") (mkEnv None true (inl 77) [REof] (Reaped 0) 0 0) None echo_sandbox tt
      = Ret (result, s', calls, tt) ∧ exit_code result = -1.
Proof.
  split; eexists _, _, _; (split; [reflexivity|]).
  - refine (proj1 (proj2 (run_exit_code (λ _, "")
      (mkEnv (Some (5, 6)) true (inl 77) [REof] (Reaped 137) 0 0) None echo_sandbox tt _ _ _ tt
      eq_refl)) 9 1 _ _ _ eq_refl); [|lia..].
    by intros [?|[?|[e ?]]].
  - refine (proj1 (proj2 (proj2 (run_exit_code (λ _, "")
      (mkEnv None true (inl 77) [REof] (Reaped 0) 0 0) None echo_sandbox tt _ _ _ tt
      eq_refl))) _). by left.
Defined.

(** Numbers for the names of the list but [dup2], as on a target that lacks it, and
    one more; a C library made of them. *)
Definition resolve_sample (name : string) : option Z :=
  if bool_decide (name = "dup2") then None
  else Z.of_nat ∘ fst <$> list_find (λ x, x = name) (allowlist ++ ["socket"]).

Definition libc_sample (c : child_call) : list Z :=
  match c with
  | Dup2 _ _ => option_list (resolve_sample "dup3")
  | CloseFd _ => option_list (resolve_sample "close")
  | Execl _ => option_list (resolve_sample "execve")
  | ExitGroup _ => option_list (resolve_sample "exit_group")
  | _ => option_list (resolve_sample "socket")
  end.

Lemma child_under_filter_witness :
  let filter := Some (install_allowlist resolve_sample []) in
  (execute libc_sample None
     (child_entry resolve_sample 1 (λ _, true) (default_config "7") "/devops-7" "true" 6 true true)).2 = false ∧
  permitted filter (Z.of_nat (length allowlist)) = false ∧
  execute libc_sample filter [Mkdir "x"] = ([], true).
Proof.
  destruct (child_under_filter resolve_sample libc_sample 1 (λ _, true) (default_config "7")
    "/devops-7" "true" 6 true true) as (H1 & H2 & H3).
  - assert (Hone : ∀ name sys, sys ∈ option_list (resolve_sample name) → resolve_sample name = Some sys).
    { intros name sys. destruct (resolve_sample name); cbn [option_list]; set_solver. }
    intros c sys Hc Hs. destruct c; try done; apply Hone in Hs; eexists; (split; [|exact Hs]);
      unfold made_of; set_solver.
  - assert (Hno : ∀ name, name ∈ allowlist →
      resolve_sample name ≠ Some (Z.of_nat (length allowlist))).
    { apply list.Forall_forall, (bool_decide_unpack _). vm_compute. exact I. }
    split; [by rewrite H1|]. split.
    + apply not_true_iff_false. rewrite H2. intros (name & Hn & Hr). by destruct (Hno name Hn).
    + apply (H3 (Mkdir "x") [] (Z.of_nat (length allowlist))); [|exact Hno].
      apply (bool_decide_unpack _). vm_compute. exact I.
Defined.

(** More than a buffer arrives at once. *)
Lemma run_output_witness :
  let bs := String.concat "" (replicate 5000 "x") in
  let env := mkEnv (Some (5, 6)) true (inl 77) [RData bs; REof] (Reaped 0) 0 0 in
  ∃ result s' calls,
    run (λ _, "") env (Some (λ chunk l, Ret (l ++ [String.length chunk]))) echo_sandbox []
      = Ret (result, s', calls, [4095; 905]%nat) ∧
    concat (chunks_of calls) = bs ∧ out result = bs.
Proof.
  intros bs env.
  destruct (run_output (λ _, "") env echo_sandbox 5 6 77 eq_refl eq_refl eq_refl) as [H _].
  destruct H as (chunks & result & s' & calls & Hc & _ & Ho & Hcs & Hr).
  { apply Exists_cons_tl. by apply Exists_cons_hd. }
  specialize (Hr _ (λ chunk l, Ret (l ++ [String.length chunk])) []).
  assert (arrived (reads env) = bs) as Harr by (vm_compute; reflexivity).
  rewrite Harr in Hc, Ho. subst chunks. exists result, s', calls. split; [|by split].
  assert (run (λ _, "") env (Some (λ chunk l, Ret (l ++ [String.length chunk]))) echo_sandbox []
    = Ret (mkResult 0 0 bs "", mkSandbox (default_config "7") "/devops-7" 77 (-1, -1),
           [CPipe 5 6; CMalloc; CClone 0x60000011; CClose 6; COutput (string_take READ_MAX bs);
            COutput (string_drop READ_MAX bs);
            CWaitpid 77; CFree; CRmdir "/sys/fs/cgroup/devops-7"; CClose 5], [4095; 905]%nat)) as He
    by (vm_compute; reflexivity).
  rewrite He in Hr. rewrite He.
  symmetry in Hr. apply bind_Ret in Hr as (x' & _ & Hr).
  rewrite decide_False in Hr by done. by injection Hr as -> -> -> ->.
Defined.

(** A command that closes its output and goes on for ever. *)
Example run_waits :
  run (λ _, "") (mkEnv (Some (5, 6)) true (inl 77) [REof] NeverEnds 0 0) (Some silent) echo_sandbox tt
    = Blocked.
Proof. reflexivity. Qed.

(** The stub fails without a child and holds nothing. *)
Example stub_fails :
  run_stub echo_sandbox =
    (mkResult (-1) 0 "" "sandbox only supported on Linux (use Docker or VM for macOS)",
     echo_sandbox).
Proof. reflexivity. Qed.
