(* ===== verification/Smoke.v ===== *)
(** The smoke programs (sandbox_smoke.cpp, cross_stub_main.cpp): five commands run
    in a sandbox with the exit code and output expected of each, and the check of
    the stub for other systems. *)
From S2P Require Import Prelude CppString Sandbox.

#[local] Open Scope Z_scope.

Definition eol : string := String.String (Ascii.ascii_of_nat 10) "".
Definition quote : string := String.String (Ascii.ascii_of_nat 34) "".

Section smoke.
Context (strerror : Z → string).

(** * sandbox_smoke.cpp *)

(** [check], on what the system answers to the command [cmd]: 0 or 1, and the text
    it prints. *)
Definition check (answers : string → Env) (name : string) (cfg : SandboxConfig) (cmd : string)
    (want_exit : Z) (expect_in_stdout : string) : outcome (Z * string) :=
  '(r, box, _, _) ← run strerror (answers cmd) (X := unit) None (Sandbox_new cfg) tt;
  let ok := (exit_code r =? want_exit) && contains (out r) expect_in_stdout in
  let line := (if ok then "  ok   " else "  FAIL ")
    +:+ name +:+ " [exit=" +:+ to_string (exit_code r) +:+ " want=" +:+ to_string want_exit
    +:+ ", " +:+ to_string (duration_ms r) +:+ "ms, stdout=" +:+ quote +:+ out r +:+ quote
    +:+ "]" +:+ eol in
  Ret (if ok then 0 else 1,
       line +:+ (if ok then "" else "        stderr: " +:+ err r +:+ eol)).

Definition base : SandboxConfig := default_config "smoke".
Definition no_sec : SandboxConfig :=
  mkConfig (id base) (rootfs base) (memory_limit_bytes base) (cpu_quota_us base)
    (cpu_period_us base) (pids_limit base) (enable_network base) false.

(** The checks of [main], in order. *)
Definition checks : list (string * SandboxConfig * string * Z * string) := [
  ("seccomp-on  printf", base, "printf 'hello-from-sandbox\n'", 0, "hello-from-sandbox");
  ("seccomp-on  builtin  1+2", base, "echo $((1 + 2))", 0, "3");
  ("seccomp-off printf", no_sec, "printf 'hello-from-sandbox\n'", 0, "hello-from-sandbox");
  ("exit code    42", base, "exit 42", 42, "");
  ("nonzero      false", base, "false", 1, "")].

(** The statements [fails += check(...)], the [k]-th on the [k]-th answers. *)
Fixpoint run_all (answers : nat → string → Env) (k : nat)
    (cs : list (string * SandboxConfig * string * Z * string)) (fails : Z) (text : string)
    : outcome (Z * string) :=
  match cs with
  | [] => Ret (fails, text)
  | (name, cfg, cmd, want, expect) :: cs =>
      '(f, line) ← check (answers k) name cfg cmd want expect;
      run_all answers (S k) cs (fails + f) (text +:+ line)
  end.

(** [main]: the exit code and the text printed. *)
Definition smoke_main (answers : nat → string → Env) : outcome (Z * string) :=
  '(fails, text) ← run_all answers 0 checks 0 "";
  Ret (if fails =? 0 then 0 else 1,
       text +:+ (if fails =? 0 then "PASS" else "FAIL") +:+ " sandbox_smoke ("
       +:+ to_string fails +:+ " failures)" +:+ eol).

(** * cross_stub_main.cpp *)
Definition stub_main : Z :=
  let '(r, _) := run_stub (Sandbox_new (default_config "")) in
  if negb (exit_code r =? -1) then 1
  else if negb (contains (err r) "sandbox only supported on Linux") then 2
  else 0.

Lemma stub_main_passes : stub_main = 0.
Proof. vm_compute. reflexivity. Qed.

(** * What a smoke run says *)

(** The child ran [cmd] and came to the exit code [want] with [expect] in its
    output. *)
Definition as_expected (env : Env) (want : Z) (expect : string) : Prop :=
  (∃ p pid, pipe_answer env = Some p ∧ malloc_answer env = true ∧ clone_answer env = inl pid) ∧
  (∃ st, sys_waitpid (wait_answer env) = Ret st ∧ exit_code_of st = want) ∧
  contains (arrived (reads env)) expect = true.

(** The command closes its output and ends. *)
Definition done_with (env : Env) : Prop :=
  Exists (λ x, finishes x = true) (reads env) ∧ wait_answer env ≠ NeverEnds.

Lemma check_spec answers name cfg cmd want expect :
  0 <= want → done_with (answers cmd) →
  ∃ f text, check answers name cfg cmd want expect = Ret (f, text) ∧
    (f = 0 ∨ f = 1) ∧ (f = 0 ↔ as_expected (answers cmd) want expect).
Proof.
  intros Hw [Hx Hends]. set (env := answers cmd) in *. unfold check. fold env.
  destruct (child_or_not env) as [Hno|(r & w & pid & Hp & Hm & Hc)].
  { destruct (run_no_child strerror env (Sandbox_new cfg) Hno) as (r & s' & cs & He & _ & ->).
    cbn [mbind outcome_bind]. rewrite He, (proj2 (Z.eqb_neq (-1) want)) by lia.
    eexists _, _. split; [done|]. split; [by right|]. split; [done|].
    intros [(p & pid & Hp & Hm & Hc) _]. destruct Hno as [?|[?|[e ?]]]; congruence. }
  destruct (proj1 (read_chunks_spec _ (reads env) (Nat.le_refl _)) Hx) as (chunks & Hg & Ha & _).
  destruct (run_child strerror env (Sandbox_new cfg) r w pid chunks Hp Hm Hc Hg) as (s' & cs & _ & ->).
  rewrite hand_all_none. cbn [mbind outcome_bind].
  destruct (sys_waitpid (wait_answer env)) as [st| | | | |] eqn:Hst; try (by destruct (wait_answer env)).
  cbn [mbind outcome_bind exit_code out]. rewrite Ha. eexists _, _. split; [done|].
  unfold as_expected. rewrite Hst, Hp, Hm, Hc.
  destruct (Z.eqb_spec (exit_code_of st) want) as [He|He]; cbn [andb].
  2: { split; [by right|]. split; [done|]. by intros (_ & (st' & [= ->] & ?) & _). }
  destruct (contains _ expect) eqn:Hcon.
  - split; [by left|]. split; [|done]. intros _. split; [by eexists _, _|].
    split; [by exists st|done].
  - split; [by right|]. split; [done|]. intros (_ & _ & ?). congruence.
Qed.

Lemma run_all_spec answers cs k fails text :
  0 <= fails → Forall (λ c, 0 <= c.1.2) cs →
  (∀ i c, cs !! i = Some c → done_with (answers (k + i)%nat c.1.1.2)) →
  ∃ f text', run_all answers k cs fails text = Ret (f, text') ∧ fails <= f ∧
    (f = fails ↔ ∀ i c, cs !! i = Some c → as_expected (answers (k + i)%nat c.1.1.2) c.1.2 c.2).
Proof.
  intros Hf Hw. revert k fails text Hf.
  induction Hw as [|[[[[name cfg] cmd] want] expect] cs Hc _ IH]; intros k fails text Hf Hx.
  { eexists _, _. split; [done|]. split; [lia|]. split; [|done]. by intros _ i c. }
  cbn [run_all]. cbn in Hc.
  destruct (check_spec (answers k) name cfg cmd want expect Hc) as (f & line & -> & Hf01 & Hiff).
  { specialize (Hx 0%nat _ eq_refl). by rewrite Nat.add_0_r in Hx. }
  cbn [mbind outcome_bind].
  destruct (IH (S k) (fails + f) (text +:+ line)) as (g & text' & -> & Hle & Hg); [lia| |].
  { intros i c Hi. specialize (Hx (S i) c Hi). by rewrite Nat.add_succ_r in Hx. }
  exists g, text'. split; [done|]. split; [lia|]. split.
  - intros -> [|i] c Hi.
    + injection Hi as <-. rewrite Nat.add_0_r. apply Hiff. lia.
    + rewrite Nat.add_succ_r. apply (proj1 Hg); [lia|done].
  - intros Hall. assert (f = 0) as ->.
    { apply Hiff. specialize (Hall 0%nat _ eq_refl). by rewrite Nat.add_0_r in Hall. }
    rewrite (proj2 Hg); [lia|]. intros i c Hi. specialize (Hall (S i) c Hi).
    by rewrite Nat.add_succ_r in Hall.
Qed.

(** C40: the smoke program is a faithful test: when every child closes its output and
    ends, it ends with 0 or 1, and with 0 exactly when each of the five commands got a
    child, came to the exit code expected of it and printed the text expected. *)
Theorem smoke_main_verdict answers :
  (∀ k c, checks !! k = Some c → done_with (answers k c.1.1.2)) →
  ∃ code text, smoke_main answers = Ret (code, text) ∧ (code = 0 ∨ code = 1) ∧
    (code = 0 ↔ ∀ k c, checks !! k = Some c → as_expected (answers k c.1.1.2) c.1.2 c.2).
Proof.
  intros Hx. destruct (run_all_spec answers checks 0 0 "") as (f & text & H & Hle & Hiff);
    [lia|by repeat constructor|done|].
  unfold smoke_main. rewrite H. cbn [mbind outcome_bind]. eexists _, _. split; [done|].
  destruct (Z.eqb_spec f 0) as [He|He].
  - split; [by left|]. split; [|done]. intros _. by apply Hiff.
  - split; [by right|]. split; [done|]. intros Hall. destruct He. by apply Hiff.
Qed.
End smoke.

(** * A concrete run *)
Definition good_answers (k : nat) (cmd : string) : Env :=
  let '(text, code) := nth k [("hello-from-sandbox" +:+ eol, 0); ("3" +:+ eol, 0);
    ("hello-from-sandbox" +:+ eol, 0); ("", 42); ("", 1)] ("", 0) in
  mkEnv (Some (5, 6)) true (inl 77) [RData text; REof] (Reaped (code * 256)) 0 1.

Lemma smoke_main_verdict_witness :
  ∃ text, smoke_main (λ _, "") good_answers = Ret (0, text).
Proof.
  destruct (smoke_main_verdict (λ _, "") good_answers) as (code & text & H & _ & Hiff).
  { intros k c Hk. do 5 (destruct k as [|k];
      [injection Hk as <-; split; [apply Exists_cons_tl; by apply Exists_cons_hd|discriminate]|]).
    discriminate Hk. }
  exists text. rewrite H. do 2 f_equal. apply Hiff. intros k c Hk.
  do 5 (destruct k as [|k];
    [injection Hk as <-; split; [eexists _, _; split; [reflexivity|split; reflexivity]|];
     split; [eexists; split; [reflexivity|]|]; vm_compute; reflexivity|]).
  discriminate Hk.
Defined.
