(* ===== verification/Options.v ===== *)
(** The command line of the daemon (main.cpp): [parse_num] and [parse_args].
    [getopt_long] belongs to the C library: what it returns, one option character
    and its argument at a time, is the input of [parse_args]. *)
From Stdlib Require Import Ascii.
From S2P Require Import Prelude CppString.

#[local] Open Scope Z_scope.

(** * Data *)
Record Options : Type := mkOptions {
  host : string;
  port : Z;
  sandbox_id : string;
  target_type : string;
  metrics_port : Z;
  use_seccomp : bool;
  max_restarts : Z;
  help : bool;
}.

Definition Options_default : Options :=
  mkOptions "127.0.0.1" 1234 "cpp-sandbox-1" "local" 9090 true 3 false.

(** * Parsing *)

(** [parse_num<T>] for an unsigned [T] of [w] bits. *)
Definition parse_num (w : Z) (raw : string) : Result Z :=
  let '(ec, value, rest) := from_chars w raw in
  match ec with
  | no_error =>
      if bool_decide (rest = "") then Ok value
      else Err (mkError Econfig ("invalid number '" +:+ raw +:+ "'"))
  | _ => Err (mkError Econfig ("invalid number '" +:+ raw +:+ "'"))
  end.

Definition invalid (flag optarg : string) : Error :=
  mkError Econfig ("invalid " +:+ flag +:+ " '" +:+ optarg +:+ "'").

(** One turn of the loop: [inr] is a return from the function. *)
Definition parse_option (o : Options) (opt : Ascii.ascii) (optarg : string)
    : Options + Result Options :=
  if bool_decide (opt = "h"%char) then
    inl (mkOptions optarg (port o) (sandbox_id o) (target_type o) (metrics_port o)
           (use_seccomp o) (max_restarts o) (help o))
  else if bool_decide (opt = "i"%char) then
    inl (mkOptions (host o) (port o) optarg (target_type o) (metrics_port o)
           (use_seccomp o) (max_restarts o) (help o))
  else if bool_decide (opt = "t"%char) then
    inl (mkOptions (host o) (port o) (sandbox_id o) optarg (metrics_port o)
           (use_seccomp o) (max_restarts o) (help o))
  else if bool_decide (opt = "n"%char) then
    inl (mkOptions (host o) (port o) (sandbox_id o) (target_type o) (metrics_port o)
           false (max_restarts o) (help o))
  else if bool_decide (opt = "H"%char) then
    inr (Ok (mkOptions (host o) (port o) (sandbox_id o) (target_type o) (metrics_port o)
               (use_seccomp o) (max_restarts o) true))
  else if bool_decide (opt = "p"%char) then
    match parse_num 64 optarg with
    | Ok v =>
        if 65535 <? v then inr (Err (invalid "--port" optarg))
        else inl (mkOptions (host o) (u16 v) (sandbox_id o) (target_type o) (metrics_port o)
                    (use_seccomp o) (max_restarts o) (help o))
    | Err _ => inr (Err (invalid "--port" optarg))
    end
  else if bool_decide (opt = "m"%char) then
    match parse_num 64 optarg with
    | Ok v =>
        if 65535 <? v then inr (Err (invalid "--metrics-port" optarg))
        else inl (mkOptions (host o) (port o) (sandbox_id o) (target_type o) (u16 v)
                    (use_seccomp o) (max_restarts o) (help o))
    | Err _ => inr (Err (invalid "--metrics-port" optarg))
    end
  else if bool_decide (opt = "r"%char) then
    match parse_num 32 optarg with
    | Ok v =>
        inl (mkOptions (host o) (port o) (sandbox_id o) (target_type o) (metrics_port o)
               (use_seccomp o) v (help o))
    | Err _ => inr (Err (invalid "--max-restarts" optarg))
    end
  else inr (Err (mkError Econfig "bad flag")).

Fixpoint parse_loop (o : Options) (opts : list (Ascii.ascii * string)) : Result Options :=
  match opts with
  | [] => Ok o
  | (opt, optarg) :: opts =>
      match parse_option o opt optarg with
      | inl o => parse_loop o opts
      | inr r => r
      end
  end.

Definition parse_args (opts : list (Ascii.ascii * string)) : Result Options :=
  parse_loop Options_default opts.

(** * Lemmas *)
Lemma parse_num_to_string w z : in_uint w z → parse_num w (to_string z) = Ok z.
Proof.
  intros [Hz Hw]. unfold parse_num. rewrite from_chars_to_string by done.
  by rewrite (proj2 (Z.ltb_lt z (2 ^ w))).
Qed.

Lemma parse_num_range w raw v : 0 <= w → parse_num w raw = Ok v → in_uint w v.
Proof.
  intros Hw. unfold parse_num, from_chars.
  destruct (span_digits raw) as [[|d ds] rest] eqn:Es; [done|].
  destruct (dec_value 0 (d :: ds) <? 2 ^ w) eqn:Hlt; [|done].
  case_bool_decide; [|done]. intros [= <-].
  apply Z.ltb_lt in Hlt. split; [|done].
  apply (dec_value_nonneg 0 (d :: ds)); [done|]. pose proof (span_digits_nonneg raw) as Hn.
  by rewrite Es in Hn.
Qed.

(** The numeric fields fit their types. *)
Definition options_wf (o : Options) : Prop :=
  in_uint 16 (port o) ∧ in_uint 16 (metrics_port o) ∧ in_uint 32 (max_restarts o).

Lemma parse_option_wf o opt optarg :
  options_wf o →
  match parse_option o opt optarg with
  | inl o' | inr (Ok o') => options_wf o'
  | inr (Err e) => code e = Econfig
  end.
Proof.
  intros (H1 & H2 & H3). unfold parse_option.
  repeat case_bool_decide; try done.
  - destruct (parse_num 64 optarg) as [v|] eqn:E; [|done]. case_Z; [done|].
    split_and!; cbn; try done. apply wrap_range. lia.
  - destruct (parse_num 64 optarg) as [v|] eqn:E; [|done]. case_Z; [done|].
    split_and!; cbn; try done. apply wrap_range. lia.
  - destruct (parse_num 32 optarg) as [v|] eqn:E; [|done].
    split_and!; cbn; try done. by apply (parse_num_range 32 optarg).
Qed.

Lemma parse_loop_wf opts o :
  options_wf o →
  match parse_loop o opts with Ok o' => options_wf o' | Err e => code e = Econfig end.
Proof.
  revert o. induction opts as [|[opt optarg] opts IH]; intros o Ho; [done|]. cbn.
  pose proof (parse_option_wf o opt optarg Ho) as Hw.
  destruct (parse_option o opt optarg) as [o'|[o'|e]]; [by apply IH|done|done].
Qed.

(** The arguments that ask for [o]. *)
Definition unparse (o : Options) : list (Ascii.ascii * string) :=
  [("h"%char, host o); ("p"%char, to_string (port o)); ("i"%char, sandbox_id o);
   ("t"%char, target_type o); ("m"%char, to_string (metrics_port o));
   ("r"%char, to_string (max_restarts o))]
  ++ (if use_seccomp o then [] else [("n"%char, "")])
  ++ (if help o then [("H"%char, "")] else []).

Lemma parse_port o z :
  in_uint 16 z →
  parse_option o "p"%char (to_string z) =
    inl (mkOptions (host o) z (sandbox_id o) (target_type o) (metrics_port o)
           (use_seccomp o) (max_restarts o) (help o)).
Proof.
  intros Hz. unfold parse_option. cbn [bool_decide]. rewrite parse_num_to_string
    by (unfold in_uint in *; lia). cbn. case_Z; [unfold in_uint in *; lia|].
  by rewrite wrap_small.
Qed.

Lemma parse_metrics_port o z :
  in_uint 16 z →
  parse_option o "m"%char (to_string z) =
    inl (mkOptions (host o) (port o) (sandbox_id o) (target_type o) z
           (use_seccomp o) (max_restarts o) (help o)).
Proof.
  intros Hz. unfold parse_option. cbn [bool_decide]. rewrite parse_num_to_string
    by (unfold in_uint in *; lia). cbn. case_Z; [unfold in_uint in *; lia|].
  by rewrite wrap_small.
Qed.

Lemma parse_restarts o z :
  in_uint 32 z →
  parse_option o "r"%char (to_string z) =
    inl (mkOptions (host o) (port o) (sandbox_id o) (target_type o) (metrics_port o)
           (use_seccomp o) z (help o)).
Proof.
  intros Hz. unfold parse_option. cbn [bool_decide].
  rewrite (parse_num_to_string 32 z) by done. reflexivity.
Qed.

(** An option that is accepted changes the options and nothing else. *)
Lemma parse_loop_next o o' opt optarg opts :
  parse_option o opt optarg = inl o' →
  parse_loop o ((opt, optarg) :: opts) = parse_loop o' opts.
Proof. intros H. cbn [parse_loop]. by rewrite H. Qed.

(** C37: the command line says what was meant: for every set of options whose
    numbers fit their types, parsing the arguments that ask for it gives it back,
    and whatever the arguments are, parsing either gives ports below 2^16 and a
    restart limit below 2^32 or a configuration error. *)
Theorem parse_args_roundtrip o opts :
  options_wf o →
  parse_args (unparse o) = Ok o ∧
  match parse_args opts with Ok o' => options_wf o' | Err e => code e = Econfig end.
Proof.
  intros (H1 & H2 & H3). split.
  - unfold parse_args, unparse. cbn [app].
    erewrite parse_loop_next by reflexivity.
    erewrite parse_loop_next by (by apply parse_port).
    do 2 erewrite parse_loop_next by reflexivity.
    erewrite parse_loop_next by (by apply parse_metrics_port).
    erewrite parse_loop_next by (by apply parse_restarts).
    destruct o as [h p i t m [] r []]; reflexivity.
  - apply parse_loop_wf. unfold options_wf, in_uint. cbn. lia.
Qed.

Lemma parse_args_roundtrip_witness :
  parse_args [("h"%char, "redis"); ("p"%char, "6379"); ("i"%char, "a"); ("t"%char, "vm");
              ("m"%char, "0"); ("r"%char, "4294967295"); ("n"%char, "")]
    = Ok (mkOptions "redis" 6379 "a" "vm" 0 false 4294967295 false).
Proof.
  apply (parse_args_roundtrip
    (mkOptions "redis" 6379 "a" "vm" 0 false 4294967295 false) []).
  unfold options_wf, in_uint. cbn. lia.
Defined.

(** Numbers that are not accepted. *)
Example bad_ports :
  (λ s, is_err (parse_args [("p"%char, s)])) <$>
    ["65536"; "-1"; "+1"; " 1"; "1 "; ""; "0x10"; "18446744073709551616"; "65535"]
  = [true; true; true; true; true; true; true; true; false].
Proof. vm_compute. reflexivity. Qed.
