(* ===== verification/Daemon.v ===== *)
(** The daemon (main.cpp): the polling loop that takes a job from the server, runs
    it in a sandbox and reports it, composed from the client, the sandbox, the log
    and the metrics; the callback of the supervisor and the registered health
    checks.  One turn of the loop is a function of what the system answers during
    it. *)
From S2P Require Import Prelude Bytes CppString Float64 ProcFs StdMap.
From S2P Require Import Wire RedisClient LogAggregator Metrics Sandbox.
From S2P Require Import ResourceMonitor ResourceManager Supervisor HealthMonitor.

#[local] Open Scope Z_scope.

(** * State *)
Abbreviation exporter := (@Metrics.MetricsExporter (gmap string)).

(** What the user and the clock see: text on the two streams, and pauses. *)
Inductive io : Type := Out (text : string) | ErrOut (text : string) | SleepMs (n : Z).

(** The variables of [main] that the loop changes, the network, the calls made for
    the sandboxes, and the console. *)
Record Daemon : Type := mkDaemon {
  net_ : net;
  log_agg : LogAggregator;
  metrics : exporter;
  jobs_completed : Z;
  jobs_failed : Z;
  calls : list Sandbox.call;
  console : list io;
}.

(** What does not change: the client's descriptor and the options in use. *)
Record Settings : Type := mkSettings {
  fd : Z;
  sandbox_id : string;
  use_seccomp : bool;
}.

(** The answers of one turn: the sandbox's, the clock of the log entries, and the
    time the job took. *)
Record Turn : Type := mkTurn {
  sandbox_env : Sandbox.Env;
  clock : nat → Z;
  duration_ms : Z;
}.

(** What a turn came to. *)
Inductive turn_result : Type :=
  | Idle
  | ServerError
  | Malformed
  | Ran (job_id : string) (chunks : list string) (exit_code duration_ms : Z).

Definition with_net (w : net) (d : Daemon) : Daemon :=
  mkDaemon w (log_agg d) (metrics d) (jobs_completed d) (jobs_failed d) (calls d) (console d).
Definition with_log (l : LogAggregator) (d : Daemon) : Daemon :=
  mkDaemon (net_ d) l (metrics d) (jobs_completed d) (jobs_failed d) (calls d) (console d).
Definition with_metrics (m : exporter) (d : Daemon) : Daemon :=
  mkDaemon (net_ d) (log_agg d) m (jobs_completed d) (jobs_failed d) (calls d) (console d).
Definition with_counts (c f : Z) (d : Daemon) : Daemon :=
  mkDaemon (net_ d) (log_agg d) (metrics d) c f (calls d) (console d).
Definition called (cs : list Sandbox.call) (d : Daemon) : Daemon :=
  mkDaemon (net_ d) (log_agg d) (metrics d) (jobs_completed d) (jobs_failed d)
    (calls d ++ cs) (console d).
Definition say (e : io) (d : Daemon) : Daemon :=
  mkDaemon (net_ d) (log_agg d) (metrics d) (jobs_completed d) (jobs_failed d)
    (calls d) (console d ++ [e]).

Definition eol : string := String.String (Ascii.ascii_of_nat 10) "".

(** The label sets [{{k, v}, ...}]. *)
Definition label_set (ls : list (string * string)) : gmap string string :=
  fold_left (λ m p, map_assign p.1 p.2 m) ls map_new.

Section daemon.
Context (strerror : Z → string) (reserve_ok : Z → bool) (cfg : Settings).

(** [(void)redis.command(...)]: the answer is dropped. *)
Definition ignore (command : net → outcome (Result Response * net)) (d : Daemon)
    : outcome Daemon :=
  '(_, w) ← command (net_ d); Ret (with_net w d).

(** The function handed to [Sandbox::run], after [k] chunks. *)
Definition on_output (t : Turn) (job_id : string) (line : string) (s : nat * Daemon)
    : outcome (nat * Daemon) :=
  let '(k, d) := s in
  let truncated := substr0 line 1000 in
  d ← ignore (job_log strerror reserve_ok (fd cfg) job_id truncated) d;
  l ← push_raw (clock t (1 + k)) ("sandbox:" +:+ job_id) line (log_agg d);
  Ret (S k, with_log l d).

(** The configuration of a job's sandbox. *)
Definition job_config (job_id target : string) : SandboxConfig :=
  let c := Sandbox.default_config job_id in
  Sandbox.mkConfig (Sandbox.id c) (rootfs c) (Sandbox.memory_limit_bytes c) (cpu_quota_us c)
    (cpu_period_us c) (pids_limit c) (bool_decide (target = "network")) (use_seccomp cfg).

(** After the sandbox: report, count, measure and log. *)
Definition report (t : Turn) (job_id target : string) (exit_code : Z) (n : nat) (d : Daemon)
    : outcome Daemon :=
  d ← ignore (job_result strerror reserve_ok (fd cfg) job_id exit_code (duration_ms t)) d;
  let m := Metrics.counter "sandbox.jobs_completed_total" (f64_of_Z 1)
             (label_set [("target", target); ("exit_code", to_string exit_code)]) (metrics d) in
  let m := Metrics.histogram "sandbox.execution_duration_ms" (f64_of_Z (duration_ms t))
             (label_set []) m in
  let now := clock t (1 + n) in
  let '(c, f, l) :=
    if exit_code =? 0 then
      (u64 (jobs_completed d + 1), jobs_failed d,
       LogAggregator.push now "scheduler" "info"
         ("job " +:+ job_id +:+ " PASSED (" +:+ to_string (duration_ms t) +:+ "ms)") (log_agg d))
    else
      (jobs_completed d, u64 (jobs_failed d + 1),
       LogAggregator.push now "scheduler" "error"
         ("job " +:+ job_id +:+ " FAILED (exit=" +:+ to_string exit_code +:+ ")") (log_agg d)) in
  let m := Metrics.gauge "sandbox.jobs_completed" (f64_of_Z c) (label_set []) m in
  let m := Metrics.gauge "sandbox.jobs_failed" (f64_of_Z f) (label_set []) m in
  ignore (sandbox_release strerror reserve_ok (fd cfg) (sandbox_id cfg))
    (with_counts c f (with_log l (with_metrics m d))).

(** A job, from its claim to its release. *)
Definition run_job (t : Turn) (job_id job_name target command : string) (d : Daemon)
    : outcome (turn_result * Daemon) :=
  let d := with_log (LogAggregator.push (clock t 0) "scheduler" "info"
             ("running job: " +:+ job_id +:+ " (" +:+ job_name +:+ ")") (log_agg d)) d in
  let d := with_metrics (Metrics.counter "sandbox.jobs_started_total" (f64_of_Z 1)
             (label_set [("target", target)]) (metrics d)) d in
  d ← ignore (sandbox_claim strerror reserve_ok (fd cfg) (sandbox_id cfg) job_id) d;
  d ← ignore (job_log strerror reserve_ok (fd cfg) job_id "sandbox: starting execution") d;
  '(result, sandbox, cs, (k, d)) ←
    Sandbox.run strerror (sandbox_env t) (Some (on_output t job_id))
      (Sandbox_new (job_config job_id target)) (0%nat, d);
  d ← report t job_id target (Sandbox.exit_code result) k d;
  let status := if Sandbox.exit_code result =? 0 then "PASSED" else "FAILED" in
  let d := say (Out ("[sandbox] job " +:+ job_id +:+ " " +:+ status +:+ " (exit="
             +:+ to_string (Sandbox.exit_code result) +:+ ", " +:+ to_string (duration_ms t)
             +:+ "ms)" +:+ eol)) d in
  (* the sandbox is destroyed at the end of the turn *)
  Ret (Ran job_id (chunks_of cs) (Sandbox.exit_code result) (duration_ms t),
       called (cs ++ Sandbox.destroy sandbox) (say (SleepMs 100) d)).

(** One turn of [while (g_running)]. *)
Definition turn (t : Turn) (d : Daemon) : outcome (turn_result * Daemon) :=
  '(job_resp, w) ← job_next strerror reserve_ok (fd cfg) (net_ d);
  let d := with_net w d in
  match job_resp with
  | Err _ => Ret (Idle, say (SleepMs 500) d)
  | Ok r =>
      if is_nil r then Ret (Idle, say (SleepMs 500) d)
      else if is_error r then
        Ret (ServerError,
             say (SleepMs 1000)
               (say (ErrOut ("[sandbox] job_next error: " +:+ err_msg r +:+ eol)) d))
      else
        match as_arr r with
        | a0 :: a1 :: a2 :: a3 :: _ :: _ =>
            run_job t (as_str a0) (as_str a1) (as_str a2) (as_str a3) d
        | _ => Ret (Malformed, say (ErrOut ("[sandbox] malformed job response" +:+ eol)) d)
        end
  end.

(** The turns until the signal. *)
Fixpoint main_loop (ts : list Turn) (d : Daemon) : outcome (list turn_result * Daemon) :=
  match ts with
  | [] => Ret ([], d)
  | t :: ts =>
      '(r, d) ← turn t d;
      '(rs, d) ← main_loop ts d;
      Ret (r :: rs, d)
  end.

(** [sandbox_register] before the loop: whether the daemon goes on. *)
Definition register (target_type addr : string) (d : Daemon) : outcome (bool * Daemon) :=
  '(reg, w) ← sandbox_register strerror reserve_ok (fd cfg) (sandbox_id cfg) target_type addr
                (net_ d);
  Ret (match reg with Ok r => negb (is_error r) | Err _ => false end, with_net w d).
End daemon.

(** * The callback of the supervisor *)
Definition event_type_str (e : EventType.t) : string :=
  match e with
  | EventType.STARTED => "STARTED"
  | EventType.STOPPED => "STOPPED"
  | EventType.CRASHED => "CRASHED"
  | EventType.RESTARTED => "RESTARTED"
  | EventType.HEALTH_CHECK_FAILED => "HEALTH_FAIL"
  end.

Definition on_process_event (now : Z) (e : ProcessEvent) (d : Daemon) : Daemon :=
  let type_str := event_type_str (ev_type e) in
  with_metrics
    (Metrics.counter "supervisor.events_total" (f64_of_Z 1) (label_set [("type", type_str)])
       (metrics d))
    (with_log (LogAggregator.push now "supervisor" type_str
       (process_name e +:+ ": pid=" +:+ to_string (ev_pid e)
        +:+ " exit=" +:+ to_string (ev_exit_code e)) (log_agg d)) d).

(** * The health checks *)
Section checks.
(** What the sampling of the resource manager sees, and its traversal. *)
Context (files : string → file_system * file_system) (clk_tck : Z)
        (order : ResourceManager → list string).

Definition redis_check : HealthCheckFn (W := ResourceManager) := λ w, (true, "ok", w).
Definition sandbox_check : HealthCheckFn (W := ResourceManager) := λ w, (true, "running", w).
Definition resources_check : HealthCheckFn (W := ResourceManager) := λ w,
  let '(stats, w) := get_global_stats files clk_tck (order w) w in
  if 0 <? sandboxes_over_limit stats then
    (false, to_string (sandboxes_over_limit stats) +:+ " sandboxes over limit", w)
  else (true, "ok", w).

Definition main_health (now : Z) : @HealthMonitor (gmap string) ResourceManager :=
  set_interval_ms 5000
    (register_check now "resources" resources_check
      (register_check now "sandbox" sandbox_check
        (register_check now "redis" redis_check HealthMonitor_new))).
End checks.

(** * The requests of a job *)
Section protocol.
Context (strerror : Z → string) (reserve_ok : Z → bool) (cfg : Settings).
Hypothesis fd_open : 0 <= fd cfg.

(** A request short enough for its frame. *)
Definition fits (args : list string) : Prop := request_size args < 2 ^ 32.

(** The kernel takes the frames of [reqs], each in any pieces. *)
Inductive takes : list (list string) → list tx → list tx → Prop :=
  | takes_nil s : takes [] s s
  | takes_cons req reqs s s1 s2 :
      fits req → accepting s (request_size req) s1 → takes reqs s1 s2 →
      takes (req :: reqs) s s2.

Lemma send_takes req reqs w r w' tx' :
  takes (req :: reqs) (tx_script w) tx' →
  RedisClient.send strerror reserve_ok (fd cfg) req w = Ret (r, w') →
  sent w' = sent w ++ encode_request req ∧ takes reqs (tx_script w') tx'.
Proof.
  intros Ht H. inversion Ht as [|? ? ? s1 ? Hfit Hacc Ht1]; subst.
  rewrite (send_writes strerror reserve_ok (fd cfg) req w s1) in H by done.
  apply read_frame_outgoing in H. by injection H as -> ->.
Qed.

(** What the peer has been sent by [d']: the requests [reqs] more than by [d], on any
    connection that takes them and whatever is answered. *)
Definition requested (d : Daemon) (reqs : list (list string)) (d' : Daemon) : Prop :=
  ∀ rest tx', takes (reqs ++ rest) (tx_script (net_ d)) tx' →
    sent (net_ d') = sent (net_ d) ++ List.flat_map encode_request reqs ∧
    takes rest (tx_script (net_ d')) tx'.

Lemma requested_nil d : requested d [] d.
Proof. intros rest tx' Ht. split; [|done]. cbn. by rewrite app_nil_r. Qed.

Lemma requested_trans d1 l1 d2 l2 d3 :
  requested d1 l1 d2 → requested d2 l2 d3 → requested d1 (l1 ++ l2) d3.
Proof.
  intros H1 H2 rest tx' Ht. rewrite <-(assoc_L (++)) in Ht. apply H1 in Ht as [Hs Ht].
  apply H2 in Ht as [Hs2 Ht]. split; [|done]. by rewrite Hs2, Hs, flat_map_app, (assoc_L (++)).
Qed.

Lemma send_requested req w r w' d :
  RedisClient.send strerror reserve_ok (fd cfg) req w = Ret (r, w') →
  requested (with_net w d) [req] (with_net w' d).
Proof.
  intros H rest tx' Ht. cbn [with_net net_] in *. destruct (send_takes _ _ _ _ _ _ Ht H) as [Hs Ht'].
  split; [|done]. cbn. by rewrite app_nil_r.
Qed.

Lemma ignore_requested args d d' :
  ignore (RedisClient.send strerror reserve_ok (fd cfg) args) d = Ret d' →
  requested d [args] d'.
Proof.
  unfold ignore. intros ([r w] & H & [= <-])%bind_Ret.
  exact (send_requested args (net_ d) r w d H).
Qed.
End protocol.

(** The requests of a job that was taken, in order. *)
Definition job_requests (sid job_id : string) (chunks : list string) (exit_code duration_ms : Z)
    : list (list string) :=
  [["sandbox claim"; sid; job_id]; ["job log"; job_id; "sandbox: starting execution"]]
  ++ ((λ chunk, ["job log"; job_id; substr0 chunk 1000]) <$> chunks)
  ++ [["job result"; job_id; to_string exit_code; to_string duration_ms];
      ["sandbox release"; sid]].

Section jobs.
Context (strerror : Z → string) (reserve_ok : Z → bool) (cfg : Settings).

(** What the sandbox makes of a command: the chunks of its output, the exit code,
    and the system calls of the run and of the destructor. *)
Definition job_outcome (t : Turn) (job_id target : string)
    : list string * Z * list Sandbox.call :=
  match Sandbox.run strerror (sandbox_env t) (Some silent)
          (Sandbox_new (job_config cfg job_id target)) tt with
  | Ret (result, sandbox, cs, _) => (chunks_of cs, Sandbox.exit_code result, cs ++ Sandbox.destroy sandbox)
  | _ => ([], 0, [])
  end.

(** A run that returned is the one [job_outcome] speaks of, with the output handed
    to the daemon. *)
Lemma run_outcome t job_id target result sb cs k d k' d' :
  Sandbox.run strerror (sandbox_env t) (Some (on_output strerror reserve_ok cfg t job_id))
    (Sandbox_new (job_config cfg job_id target)) (k, d) = Ret (result, sb, cs, (k', d')) →
  job_outcome t job_id target = (chunks_of cs, Sandbox.exit_code result, cs ++ Sandbox.destroy sb) ∧
  hand_all (Some (on_output strerror reserve_ok cfg t job_id)) (chunks_of cs) (k, d) = Ret (k', d') ∧
  Sandbox.run strerror (sandbox_env t) (Some silent) (Sandbox_new (job_config cfg job_id target)) tt
    = Ret (result, sb, cs, tt).
Proof.
  intros (Hh & _ & Hg)%run_handed. specialize (Hg unit silent tt).
  rewrite hand_all_silent in Hg. cbn [mbind outcome_bind] in Hg.
  unfold job_outcome. by rewrite Hg.
Qed.

Section connected.
Hypothesis fd_open : 0 <= fd cfg.

Local Abbreviation ignored := (ignore_requested strerror reserve_ok cfg fd_open).

Lemma on_outputs_requested t job_id k lines d k' d' :
  hand_all (Some (on_output strerror reserve_ok cfg t job_id)) lines (k, d) = Ret (k', d') →
  requested d ((λ l, ["job log"; job_id; substr0 l 1000]) <$> lines) d'.
Proof.
  revert k d. induction lines as [|l lines IH]; intros k d H; cbn [hand_all] in H.
  { injection H as <- <-. apply requested_nil. }
  apply bind_Ret in H as ([k1 d1] & H1 & H). unfold hand, on_output in H1.
  apply bind_Ret in H1 as (d2 & H2 & H1). apply bind_Ret in H1 as (lg & _ & [= <- <-]).
  apply ignored in H2. rewrite fmap_cons. apply (requested_trans d [_] d2 _ d' H2).
  exact (IH (S k) (with_log lg d2) H).
Qed.
End connected.

(** What the loop counts and measures is not touched by the output of a job. *)
Lemma on_outputs_counts t job_id k lines d k' d' :
  hand_all (Some (on_output strerror reserve_ok cfg t job_id)) lines (k, d) = Ret (k', d') →
  metrics d' = metrics d ∧ jobs_completed d' = jobs_completed d ∧
  jobs_failed d' = jobs_failed d ∧ calls d' = calls d.
Proof.
  revert k d. induction lines as [|l lines IH]; intros k d H; cbn [hand_all] in H.
  { by injection H as <- <-. }
  apply bind_Ret in H as ([k1 d1] & H1 & H). apply IH in H as (-> & -> & -> & ->).
  unfold hand, on_output, ignore in H1.
  apply bind_Ret in H1 as (d2 & H2 & H1). apply bind_Ret in H2 as ([r w] & _ & [= <-]).
  by apply bind_Ret in H1 as (lg & _ & [= <- <-]).
Qed.

(** How a job that ended with [code] is counted. *)
Definition counted (code : Z) (d d' : Daemon) : Prop :=
  jobs_completed d' = (if code =? 0 then u64 (jobs_completed d + 1) else jobs_completed d) ∧
  jobs_failed d' = (if code =? 0 then jobs_failed d else u64 (jobs_failed d + 1)).

Lemma report_counted t job_id target code n d d' :
  report strerror reserve_ok cfg t job_id target code n d = Ret d' →
  counted code d d' ∧
  length (Metrics.metrics_ (metrics d')) = (length (Metrics.metrics_ (metrics d)) + 4)%nat.
Proof.
  unfold report, ignore, counted. intros H. apply bind_Ret in H as (d1 & H1 & H).
  apply bind_Ret in H1 as ([r w] & _ & [= <-]).
  destruct (code =? 0); apply bind_Ret in H as ([r2 w2] & _ & [= <-]); cbn;
    rewrite !length_app; cbn; (split; [done|lia]).
Qed.

Lemma report_requested t job_id target code n d d' :
  0 <= fd cfg →
  report strerror reserve_ok cfg t job_id target code n d = Ret d' →
  requested d [["job result"; job_id; to_string code; to_string (duration_ms t)];
               ["sandbox release"; sandbox_id cfg]] d'.
Proof.
  intros Hfd H. unfold report in H. apply bind_Ret in H as (d1 & H1 & H).
  apply ignore_requested in H1; [|done].
  refine (requested_trans d [_] d1 [_] d' H1 _).
  destruct (code =? 0); apply ignore_requested in H; done.
Qed.

Lemma run_job_counted t job_id job_name target command d r d' :
  run_job strerror reserve_ok cfg t job_id job_name target command d = Ret (r, d') →
  let '(chunks, code, cs) := job_outcome t job_id target in
  r = Ran job_id chunks code (duration_ms t) ∧ counted code d d' ∧
  length (Metrics.metrics_ (metrics d')) = (length (Metrics.metrics_ (metrics d)) + 5)%nat.
Proof.
  intros H. unfold run_job in H.
  apply bind_Ret in H as (d1 & H1 & H). apply bind_Ret in H as (d2 & H2 & H).
  apply bind_Ret in H as ([[[result sb] cs] [k d3]] & Hrun & H).
  apply bind_Ret in H as (d4 & H4 & H). injection H as <- <-.
  apply run_outcome in Hrun as (-> & H3 & _). split; [done|].
  pose proof (on_outputs_counts _ _ _ _ _ _ _ H3) as (Hm3 & Hc3 & Hf3 & _).
  pose proof (report_counted _ _ _ _ _ _ _ H4) as ([Hc4 Hf4] & Hm4).
  assert (Hsame : ∀ c da db, ignore c da = Ret db →
    metrics db = metrics da ∧ jobs_completed db = jobs_completed da ∧
    jobs_failed db = jobs_failed da).
  { intros c da db Hi. unfold ignore in Hi. by apply bind_Ret in Hi as ([r w] & _ & [= <-]). }
  destruct (Hsame _ _ _ H1) as (Hm1 & Hc1 & Hf1), (Hsame _ _ _ H2) as (Hm2 & Hc2 & Hf2).
  split.
  - unfold counted. cbn [jobs_completed jobs_failed called say].
    rewrite Hc4, Hf4, Hc3, Hf3, Hc2, Hf2, Hc1, Hf1. done.
  - cbn [metrics called say]. rewrite Hm4, Hm3, Hm2, Hm1. cbn. rewrite length_app. cbn. lia.
Qed.

Lemma run_job_requested t job_id job_name target command d r d' :
  0 <= fd cfg →
  run_job strerror reserve_ok cfg t job_id job_name target command d = Ret (r, d') →
  let '(chunks, code, cs) := job_outcome t job_id target in
  requested d (job_requests (sandbox_id cfg) job_id chunks code (duration_ms t)) d'.
Proof.
  intros Hfd H. unfold run_job in H.
  apply bind_Ret in H as (d1 & H1 & H). apply bind_Ret in H as (d2 & H2 & H).
  apply bind_Ret in H as ([[[result sb] cs] [k d3]] & Hrun & H).
  apply bind_Ret in H as (d4 & H4 & H). injection H as _ <-.
  apply run_outcome in Hrun as (-> & H3 & _).
  apply ignore_requested in H1; [|done]. apply ignore_requested in H2; [|done].
  apply on_outputs_requested in H3; [|done]. apply report_requested in H4; [|done].
  exact (requested_trans _ [_] _ _ _ H1 (requested_trans _ [_] _ _ _ H2
    (requested_trans _ _ _ _ _ H3 H4))).
Qed.
End jobs.

(** * Properties of the loop *)
Section loop.
Context (strerror : Z → string) (reserve_ok : Z → bool) (cfg : Settings).

(** The requests of one turn. *)
Definition turn_requests (r : turn_result) : list (list string) :=
  ["job next"] ::
  match r with
  | Ran job_id chunks exit_code duration_ms =>
      job_requests (sandbox_id cfg) job_id chunks exit_code duration_ms
  | _ => []
  end.

(** What one turn adds to the counters and to the metrics. *)
Definition passed (r : turn_result) : Z :=
  match r with Ran _ _ code _ => if code =? 0 then 1 else 0 | _ => 0 end.
Definition failed (r : turn_result) : Z :=
  match r with Ran _ _ code _ => if code =? 0 then 0 else 1 | _ => 0 end.
Definition measured (r : turn_result) : nat := match r with Ran _ _ _ _ => 5 | _ => 0 end.

(** The job a response describes: its identifier, name, target and command. *)
Definition job_of (v : Response) : option (string * string * string * string) :=
  if is_nil v || is_error v then None
  else match as_arr v with
       | a0 :: a1 :: a2 :: a3 :: _ :: _ => Some (as_str a0, as_str a1, as_str a2, as_str a3)
       | _ => None
       end.

(** A turn by its first response: a job, or nothing but words and a pause. *)
Lemma turn_cases t d r d' :
  turn strerror reserve_ok cfg t d = Ret (r, d') →
  ∃ resp w, job_next strerror reserve_ok (fd cfg) (net_ d) = Ret (resp, w) ∧
    match match resp with Ok v => job_of v | Err _ => None end with
    | Some (job_id, name, target, command) =>
        run_job strerror reserve_ok cfg t job_id name target command (with_net w d) = Ret (r, d')
    | None =>
        net_ d' = w ∧ metrics d' = metrics d ∧ jobs_completed d' = jobs_completed d ∧
        jobs_failed d' = jobs_failed d ∧ calls d' = calls d ∧
        r = match resp with
            | Ok v => if is_nil v then Idle else if is_error v then ServerError else Malformed
            | Err _ => Idle
            end
    end.
Proof.
  intros H. unfold turn in H. apply bind_Ret in H as ([resp w] & Hn & H).
  exists resp, w. split; [done|]. destruct resp as [v|e]; [|by injection H as <- <-].
  unfold job_of. destruct (is_nil v); [by injection H as <- <-|].
  destruct (is_error v); [by injection H as <- <-|]. cbn [orb].
  destruct (as_arr v) as [|a0 [|a1 [|a2 [|a3 [|a4 l]]]]]; try (by injection H as <- <-).
  exact H.
Qed.

(** What a turn is to tell the server, when the response to its first request is
    [resp]. *)
Definition told (t : Turn) (resp : Result Response) : list (list string) :=
  ["job next"] ::
  match match resp with Ok v => job_of v | Err _ => None end with
  | Some (job_id, name, target, command) =>
      let '(chunks, code, _) := job_outcome strerror cfg t job_id target in
      job_requests (sandbox_id cfg) job_id chunks code (duration_ms t)
  | None => []
  end.

(** C7: what the server is told.  A turn that comes back has asked for a job, and on
    a connection that takes the requests the protocol asks for, each in any pieces,
    the bytes sent are exactly those requests: the one for a job and, if the response
    to it is an array of at least five elements, neither nil nor an error, the claim
    of the job it names, the notice of its start, one log line of at most 1000 bytes
    for each chunk of output the sandbox gave of its command, in order, the exit code
    the sandbox gave, with the duration, and the release of the sandbox, whatever the
    server answers to those; after any other response, or none, nothing more. *)
Theorem turn_protocol t d r d' :
  0 <= fd cfg → turn strerror reserve_ok cfg t d = Ret (r, d') →
  ∃ resp w, job_next strerror reserve_ok (fd cfg) (net_ d) = Ret (resp, w) ∧
    ∀ tx', takes (told t resp) (tx_script (net_ d)) tx' →
      sent (net_ d') = sent (net_ d) ++ List.flat_map encode_request (told t resp) ∧
      tx_script (net_ d') = tx'.
Proof.
  intros Hfd H. destruct (turn_cases t d r d' H) as (resp & w & Hn & Hr).
  exists resp, w. split; [done|].
  assert (requested d (told t resp) d') as Hreq.
  { pose proof (send_requested strerror reserve_ok cfg Hfd _ _ _ _ d Hn) as H0.
    assert (with_net (net_ d) d = d) as Hd by (by destruct d). rewrite Hd in H0.
    unfold told. destruct (match resp with Ok v => job_of v | Err _ => None end)
      as [[[[job_id name] target] command]|].
    - apply run_job_requested in Hr; [|done]. destruct (job_outcome _ _ _ _ _) as [[chunks code] cs].
      exact (requested_trans d [_] _ _ _ H0 Hr).
    - destruct Hr as (Hw & _). unfold requested in *. rewrite Hw. exact H0. }
  intros tx' Ht. rewrite <-(app_nil_r (told t resp)) in Ht. apply Hreq in Ht as [Hs Ht].
  split; [done|]. by inversion Ht.
Qed.

Lemma turn_counts t d r d' :
  turn strerror reserve_ok cfg t d = Ret (r, d') →
  u64 (jobs_completed d') = u64 (jobs_completed d + passed r) ∧
  u64 (jobs_failed d') = u64 (jobs_failed d + failed r) ∧
  length (Metrics.metrics_ (metrics d')) = (length (Metrics.metrics_ (metrics d)) + measured r)%nat.
Proof.
  intros H. destruct (turn_cases t d r d' H) as (resp & w & Hn & Hr).
  destruct (match resp with Ok v => job_of v | Err _ => None end)
    as [[[[job_id name] target] command]|].
  - pose proof (run_job_counted strerror reserve_ok cfg _ _ _ _ _ _ _ _ Hr) as Hj.
    destruct (job_outcome _ _ _ _ _) as [[chunks code] cs].
    destruct Hj as (-> & [Hc Hf] & Hm). cbn in Hc, Hf, Hm.
    rewrite Hc, Hf, Hm. unfold passed, failed, measured.
    destruct (code =? 0); rewrite ?Z.add_0_r; split_and!; try done;
      unfold wrap; by rewrite Zmod_mod.
  - destruct Hr as (_ & -> & -> & -> & _ & ->).
    assert (∀ b1 b2 : bool, let r := if b1 then Idle else if b2 then ServerError else Malformed in
      passed r = 0 ∧ failed r = 0 ∧ measured r = 0%nat) as Hz by (by intros [] []).
    destruct resp as [v|e]; [destruct (Hz (is_nil v) (is_error v)) as (-> & -> & ->)|cbn];
      by rewrite !Z.add_0_r, Nat.add_0_r.
Qed.

(** Over any run of the loop the two counters grow by the number of jobs that
    ended with exit code zero and by the number of the others, modulo 2^64; the
    turns that ran no job change neither.  The metrics are never aggregated: every
    job leaves five more samples behind. *)
Lemma main_loop_counts ts d rs d' :
  main_loop strerror reserve_ok cfg ts d = Ret (rs, d') →
  length rs = length ts ∧
  u64 (jobs_completed d') = u64 (jobs_completed d + foldr Z.add 0 (map passed rs)) ∧
  u64 (jobs_failed d') = u64 (jobs_failed d + foldr Z.add 0 (map failed rs)) ∧
  length (Metrics.metrics_ (metrics d')) =
    (length (Metrics.metrics_ (metrics d)) + foldr Nat.add 0%nat (map measured rs))%nat.
Proof.
  revert d rs. induction ts as [|t ts IH]; intros d rs H; cbn in H.
  { injection H as <- <-. cbn. rewrite !Z.add_0_r, Nat.add_0_r. done. }
  apply bind_Ret in H as ([r d1] & H1 & H). apply bind_Ret in H as ([rs' d2] & H2 & [= <- <-]).
  destruct (turn_counts t d r d1 H1) as (Hc & Hf & Hm).
  destruct (IH d1 rs' H2) as (Hl & Hc2 & Hf2 & Hm2). cbn.
  rewrite Hl, Hc2, Hf2, Hm2, Hm. split_and!; [done| | |lia].
  - rewrite <-wrap_add_l, Hc, wrap_add_l. f_equal. lia.
  - rewrite <-wrap_add_l, Hf, wrap_add_l. f_equal. lia.
Qed.
End loop.

(** * The checks registered by [main] *)

(** Two of the three checks always pass: whatever happens to the connection or to
    the sandbox, they report [ok] and [running]. *)
Lemma main_checks files clk_tck order now0 now w :
  get_all (check_all now (main_health files clk_tck order now0) w).1 =
    [HealthMonitor.mkStatus "redis" true "ok" now;
     (let '(ok, msg, _) := resources_check files clk_tck order w in
      check_status now "resources" ok msg);
     HealthMonitor.mkStatus "sandbox" true "running" now].
Proof.
  change (check_all now _ w) with
    (let '(m, w') := run_checks now
       [("redis", redis_check); ("resources", resources_check files clk_tck order);
        ("sandbox", sandbox_check)]
       (statuses_ (main_health files clk_tck order now0)) w in
     (set_statuses m (main_health files clk_tck order now0), w')).
  cbn [run_checks redis_check sandbox_check].
  destruct (resources_check files clk_tck order w) as [[ok msg] w'].
  reflexivity.
Qed.

(** * Concrete runs *)
Definition test_settings : Settings := mkSettings 3 "sb" true.

Definition test_turn : Turn :=
  mkTurn (Sandbox.mkEnv (Some (5, 6)) true (inl 77) [Sandbox.RData "hi"; REof] (Reaped 0) 0 9) Z.of_nat 9.

(** The server answers with a job, then with nil to everything else. *)
Definition job_response : Response :=
  rArr [rStr "j1"; rStr "build"; rStr "local"; rStr "true"; rNil].

Definition nil_frame : RedisClient.rx := RedisClient.RData (frame (encode_response rNil)).

Definition test_daemon (first : Response) : Daemon :=
  mkDaemon (mkNet [] (replicate 6 (TAccept (2 ^ 32)))
              (RedisClient.RData (frame (encode_response first)) :: replicate 5 nil_frame) 0)
    LogAggregator_new Metrics.MetricsExporter_new 0 0 [] [].

Abbreviation test_run first :=
  (turn (λ _, "") (λ _, true) test_settings test_turn (test_daemon first)).

Example job_runs :
  fst <$> test_run job_response = Ret (Ran "j1" ["hi"] 0 9) ∧
  (λ p, (jobs_completed p.2, jobs_failed p.2)) <$> test_run job_response = Ret (1, 0).
Proof. split; vm_compute; reflexivity. Qed.

(** A job of four fields, all the loop uses, is dropped: it has been taken from the
    queue, and nothing more is sent. *)
Example short_job_dropped :
  (λ p, (p.1, sent (net_ p.2))) <$> test_run (rArr [rStr "j1"; rStr "build"; rStr "local"; rStr "true"])
  = Ret (Malformed, encode_request ["job next"]).
Proof. vm_compute. reflexivity. Qed.

Lemma test_turn_returns :
  ∃ d', turn (λ _, "") (λ _, true) test_settings test_turn (test_daemon job_response)
          = Ret (Ran "j1" ["hi"] 0 9, d').
Proof.
  pose proof (proj1 job_runs) as H.
  destruct (turn _ _ _ _ _) as [[r d']| | | | |]; try discriminate H.
  exists d'. cbn in H. by injection H as ->.
Qed.

(** A kernel that takes every frame whole. *)
Lemma takes_whole reqs s :
  Forall fits reqs → takes reqs (replicate (length reqs) (TAccept (2 ^ 32)) ++ s) s.
Proof.
  induction 1 as [|req reqs Hf _ IH]; [apply takes_nil|]. cbn [length replicate app].
  eapply takes_cons; [exact Hf| |exact IH]. unfold fits in Hf.
  assert (0 < request_size req) by
    (unfold request_size; pose proof (size_nonneg (encode_args req)); lia).
  apply accepting_more; [lia|done|].
  replace (request_size req - Z.min (2 ^ 32) (request_size req)) with 0 by lia.
  apply accepting_done.
Qed.

Lemma turn_protocol_witness :
  ∃ d', turn (λ _, "") (λ _, true) test_settings test_turn (test_daemon job_response)
          = Ret (Ran "j1" ["hi"] 0 9, d') ∧
    sent (net_ d') = List.flat_map encode_request
      (["job next"] :: job_requests "sb" "j1" ["hi"] 0 9).
Proof.
  destruct test_turn_returns as [d' E]. exists d'. split; [exact E|].
  destruct (turn_protocol (λ _, "") (λ _, true) test_settings test_turn
    (test_daemon job_response) (Ran "j1" ["hi"] 0 9) d' ltac:(cbn; lia) E) as (resp & w & Hn & H).
  assert (resp = Ok job_response) as ->.
  { assert (fst <$> job_next (λ _, "") (λ _, true) (fd test_settings)
      (net_ (test_daemon job_response)) = Ret (Ok job_response)) as Hn' by (vm_compute; reflexivity).
    rewrite Hn in Hn'. by injection Hn'. }
  refine (proj1 (H [] _)). apply (takes_whole (["job next"] :: job_requests "sb" "j1" ["hi"] 0 9) []).
  repeat (apply Forall_cons_2; [vm_compute; reflexivity|]). apply Forall_nil_2.
Defined.

Lemma test_loop_returns :
  ∃ d', main_loop (λ _, "") (λ _, true) test_settings [test_turn] (test_daemon job_response)
          = Ret ([Ran "j1" ["hi"] 0 9], d').
Proof.
  destruct test_turn_returns as [d' E]. exists d'. cbn [main_loop]. by rewrite E.
Qed.

Lemma main_loop_counts_witness :
  ∃ d', main_loop (λ _, "") (λ _, true) test_settings [test_turn] (test_daemon job_response)
          = Ret ([Ran "j1" ["hi"] 0 9], d') ∧
    length (Metrics.metrics_ (metrics d')) =
      (length (Metrics.metrics_ (metrics (test_daemon job_response))) + 5)%nat.
Proof.
  destruct test_loop_returns as [d' E]. exists d'. split; [exact E|].
  exact (proj2 (proj2 (proj2 (main_loop_counts (λ _, "") (λ _, true) test_settings
    [test_turn] (test_daemon job_response) [Ran "j1" ["hi"] 0 9] d' E)))).
Defined.
