(* ===== verification/Session.v ===== *)
(** The daemon against a server that answers: what a run of the polling loop is at
    the level of messages.  The network is taken away: a turn is a function of the
    response to its first request, and the theorem is that the loop on bytes, with
    any splitting of the two streams, does what that function says. *)
From S2P Require Import Prelude Bytes CppString Float64 StdMap.
From S2P Require Import Wire RedisClient LogAggregator Metrics Sandbox Daemon.

#[local] Open Scope Z_scope.

(** * The abstract turn *)
Section abstract.
Context (strerror : Z → string) (cfg : Settings).

Definition turn_answer (t : Turn) (v : Response) : turn_result :=
  match job_of v with
  | Some (job_id, name, target, _) =>
      let '(chunks, code, _) := job_outcome strerror cfg t job_id target in
      Ran job_id chunks code (duration_ms t)
  | None => if is_nil v then Idle else if is_error v then ServerError else Malformed
  end.

(** The level and the text a line of output is logged with. *)
Definition level_text (line : string) : string * string :=
  match detect_level line with Ret p => p | _ => ("info", line) end.

(** What a turn writes to the log, records, calls and shows. *)
Definition chunk_ops (t : Turn) (job_id : string) (k : nat) (chunks : list string)
    : list LogAggregator.op :=
  imap (λ i c, OPush (clock t (1 + (k + i))) ("sandbox:" +:+ job_id)
                 (level_text c).1 (level_text c).2) chunks.

Definition turn_log (t : Turn) (v : Response) : list LogAggregator.op :=
  match job_of v with
  | Some (job_id, name, target, _) =>
      let '(chunks, code, _) := job_outcome strerror cfg t job_id target in
      [OPush (clock t 0) "scheduler" "info" ("running job: " +:+ job_id +:+ " (" +:+ name +:+ ")")]
      ++ chunk_ops t job_id 0 chunks ++
      [if code =? 0 then
         OPush (clock t (1 + length chunks)) "scheduler" "info"
           ("job " +:+ job_id +:+ " PASSED (" +:+ to_string (duration_ms t) +:+ "ms)")
       else
         OPush (clock t (1 + length chunks)) "scheduler" "error"
           ("job " +:+ job_id +:+ " FAILED (exit=" +:+ to_string code +:+ ")")]
  | None => []
  end.

(** [c] and [f] are the counters after the turn. *)
Definition turn_metrics (t : Turn) (v : Response) (c f : Z)
    : list (Metrics.Metric (M := gmap string)) :=
  match job_of v with
  | Some (job_id, name, target, _) =>
      let '(_, code, _) := job_outcome strerror cfg t job_id target in
      [mkMetric "sandbox.jobs_started_total" MetricType.Counter (f64_of_Z 1)
         (label_set [("target", target)]);
       mkMetric "sandbox.jobs_completed_total" MetricType.Counter (f64_of_Z 1)
         (label_set [("target", target); ("exit_code", to_string code)]);
       mkMetric "sandbox.execution_duration_ms" MetricType.Histogram
         (f64_of_Z (duration_ms t)) (label_set []);
       mkMetric "sandbox.jobs_completed" MetricType.Gauge (f64_of_Z c) (label_set []);
       mkMetric "sandbox.jobs_failed" MetricType.Gauge (f64_of_Z f) (label_set [])]
  | None => []
  end.

Definition turn_calls (t : Turn) (v : Response) : list Sandbox.call :=
  match job_of v with
  | Some (job_id, name, target, _) => (job_outcome strerror cfg t job_id target).2
  | None => []
  end.

Definition turn_console (t : Turn) (v : Response) : list io :=
  match turn_answer t v with
  | Idle => [SleepMs 500]
  | ServerError => [ErrOut ("[sandbox] job_next error: " +:+ err_msg v +:+ eol); SleepMs 1000]
  | Malformed => [ErrOut ("[sandbox] malformed job response" +:+ eol)]
  | Ran job_id _ code dur =>
      [Out ("[sandbox] job " +:+ job_id +:+ " " +:+ (if code =? 0 then "PASSED" else "FAILED")
         +:+ " (exit=" +:+ to_string code +:+ ", " +:+ to_string dur +:+ "ms)" +:+ eol);
       SleepMs 100]
  end.

(** The daemon after the turn, on the network [w]. *)
Definition after_turn (t : Turn) (v : Response) (w : net) (d : Daemon) : Daemon :=
  let r := turn_answer t v in
  let c := if passed r =? 1 then u64 (jobs_completed d + 1) else jobs_completed d in
  let f := if failed r =? 1 then u64 (jobs_failed d + 1) else jobs_failed d in
  mkDaemon w (LogAggregator.run (turn_log t v) (log_agg d))
    (mkExporter (metrics_ (metrics d) ++ turn_metrics t v c f)) c f
    (calls d ++ turn_calls t v) (console d ++ turn_console t v).
End abstract.

(** * A connection that carries a conversation *)

(** A response a server can send, and the bytes of several. *)
Definition sound (v : Response) : Prop :=
  wf_response v ∧ size (encode_response v) <= MAX_FRAME.
Definition replies (vs : list Response) : list byte :=
  List.flat_map (λ v, frame (encode_response v)) vs.

(** The requests [reqs] will be taken and answered by [vs], in order; [tx'] and
    the bytes [more] are what is left then. *)
Record ready (reqs : list (list string)) (vs : list Response) (more : list byte)
    (tx' : list tx) (rx' : list RedisClient.rx) (w : net) : Prop := mkReady {
  ready_takes : takes reqs (tx_script w) tx';
  ready_replies : incoming (rx_script w) (replies vs ++ more) rx';
  ready_sound : Forall sound vs;
  ready_length : length vs = length reqs;
}.

(** Computing on the fields of a daemon. *)
Ltac fields := cbv beta iota zeta delta [net_ log_agg metrics jobs_completed jobs_failed calls console with_net
  with_log with_metrics with_counts called say metrics_ Metrics.counter Metrics.gauge
  Metrics.histogram Metrics.push mbind outcome_bind fst snd].

Section exchange.
Context (strerror : Z → string) (reserve_ok : Z → bool) (cfg : Settings).
Hypothesis fd_open : 0 <= fd cfg.
Hypothesis memory : ∀ n, 0 <= n <= MAX_FRAME → reserve_ok n = true.
Context (more : list byte) (tx' : list tx) (rx' : list RedisClient.rx).

Local Abbreviation rdy := (λ reqs vs w, ready reqs vs more tx' rx' w).

(** What has been sent, and what can still be. *)
Definition carried (w : net) (reqs : list (list string)) (w' : net) : Prop :=
  sent w' = sent w ++ List.flat_map encode_request reqs.

Lemma carried_trans w1 l1 w2 l2 w3 :
  carried w1 l1 w2 → carried w2 l2 w3 → carried w1 (l1 ++ l2) w3.
Proof. unfold carried. intros H1 H2. by rewrite H2, H1, flat_map_app, (assoc_L (++)). Qed.

Lemma send_ready req reqs vs w :
  rdy (req :: reqs) vs w →
  ∃ v w', head vs = Some v ∧
    RedisClient.send strerror reserve_ok (fd cfg) req w = Ret (Ok v, w') ∧
    carried w [req] w' ∧ rdy reqs (drop 1 vs) w'.
Proof.
  intros [Ht Hr Hs Hl]. destruct vs as [|v vs]; [done|].
  apply Forall_cons in Hs as [[Hwf Hsz] Hs]. inversion Ht as [|? ? ? s1 ? Hfit Hacc Ht1]; subst.
  change (replies (v :: vs)) with (frame (encode_response v) ++ replies vs) in Hr.
  rewrite <-(assoc_L (++)) in Hr.
  assert (parse_body reserve_ok (encode_response v) = Ret (Ok v)) as Hp.
  { pose proof (parse_body_complete reserve_ok v []) as Hp. rewrite app_nil_r in Hp.
    apply Hp; [unfold MAX_FRAME in Hsz; lia| |done]. intros n Hn. apply memory. lia. }
  destruct (send_frame strerror reserve_ok (fd cfg) req (encode_response v) (Ok v)
    (replies vs ++ more) w s1 rx' fd_open Hfit Hsz Hacc Hp Hr) as (s & Hin & Hsend).
  eexists v, _. split; [done|]. split; [exact Hsend|].
  split; [unfold carried; cbn; by rewrite app_nil_r|].
  change (drop 1 (v :: vs)) with vs. constructor; cbn; [done..|]. cbn in Hl. lia.
Qed.

Lemma ignore_ready req reqs vs d :
  rdy (req :: reqs) vs (net_ d) →
  ∃ w', ignore (RedisClient.send strerror reserve_ok (fd cfg) req) d = Ret (with_net w' d) ∧
    carried (net_ d) [req] w' ∧ rdy reqs (drop 1 vs) w'.
Proof.
  intros Hr. destruct (send_ready req reqs vs (net_ d) Hr) as (v & w' & _ & Hs & Hc & Hr').
  exists w'. unfold ignore. by rewrite Hs.
Qed.

Lemma run_app ops1 ops2 l :
  LogAggregator.run (ops1 ++ ops2) l = LogAggregator.run ops2 (LogAggregator.run ops1 l).
Proof. apply fold_left_app. Qed.

(** ** A job *)
Lemma push_raw_level_text now src line l :
  (String.length line ≤ READ_MAX)%nat →
  push_raw now src line l = Ret (LogAggregator.push now src (level_text line).1 (level_text line).2 l).
Proof.
  intros Hl. unfold push_raw, level_text.
  destruct (detect_level_total line) as (lvl & ->); [unfold READ_MAX in Hl; lia|done].
Qed.

Lemma chunk_ops_cons t job_id k line lines :
  chunk_ops t job_id k (line :: lines) =
    OPush (clock t (1 + k)) ("sandbox:" +:+ job_id) (level_text line).1 (level_text line).2
    :: chunk_ops t job_id (S k) lines.
Proof.
  unfold chunk_ops. rewrite imap_cons, Nat.add_0_r. f_equal. apply imap_ext.
  intros i c _. cbn. by rewrite Nat.add_succ_r.
Qed.

Lemma on_outputs_ready t job_id k lines reqs vs d :
  Forall (λ c, String.length c ≤ READ_MAX)%nat lines →
  rdy (((λ l, ["job log"; job_id; substr0 l 1000]) <$> lines) ++ reqs) vs (net_ d) →
  ∃ w', hand_all (Some (on_output strerror reserve_ok cfg t job_id)) lines (k, d)
      = Ret ((k + length lines)%nat,
             with_net w' (with_log (LogAggregator.run (chunk_ops t job_id k lines) (log_agg d)) d)) ∧
    carried (net_ d) ((λ l, ["job log"; job_id; substr0 l 1000]) <$> lines) w' ∧
    rdy reqs (drop (length lines) vs) w'.
Proof.
  intros Hall. revert k vs d. induction Hall as [|line lines Hl _ IH]; intros k vs d Hr.
  { exists (net_ d). split; [cbn; rewrite Nat.add_0_r; by destruct d|].
    split; [unfold carried; cbn; by rewrite app_nil_r|]. by rewrite drop_0. }
  rewrite fmap_cons in Hr. apply ignore_ready in Hr as (w1 & H1 & Hc1 & Hr1).
  set (d1 := with_log (LogAggregator.push (clock t (1 + k)) ("sandbox:" +:+ job_id)
    (level_text line).1 (level_text line).2 (log_agg (with_net w1 d))) (with_net w1 d)).
  assert (on_output strerror reserve_ok cfg t job_id line (k, d) = Ret (S k, d1)) as Hone.
  { unfold on_output, job_log. rewrite H1. cbn [mbind outcome_bind].
    by rewrite push_raw_level_text by done. }
  cbn [hand_all hand]. rewrite Hone. cbn [mbind outcome_bind].
  destruct (IH (S k) (drop 1 vs) d1 Hr1) as (w2 & -> & Hc2 & Hr2).
  exists w2. split.
  - rewrite chunk_ops_cons. cbn [length]. by rewrite Nat.add_succ_r.
  - split; [exact (carried_trans _ [_] _ _ _ Hc1 Hc2)|]. by rewrite drop_drop in Hr2.
Qed.

Lemma report_ready t job_id target code n reqs vs d :
  rdy (["job result"; job_id; to_string code; to_string (duration_ms t)]
       :: ["sandbox release"; sandbox_id cfg] :: reqs) vs (net_ d) →
  ∃ w', report strerror reserve_ok cfg t job_id target code n d = Ret
      (let c := if code =? 0 then u64 (jobs_completed d + 1) else jobs_completed d in
       let f := if code =? 0 then jobs_failed d else u64 (jobs_failed d + 1) in
       mkDaemon w'
         (LogAggregator.run
           [if code =? 0 then
              OPush (clock t (1 + n)) "scheduler" "info"
                ("job " +:+ job_id +:+ " PASSED (" +:+ to_string (duration_ms t) +:+ "ms)")
            else
              OPush (clock t (1 + n)) "scheduler" "error"
                ("job " +:+ job_id +:+ " FAILED (exit=" +:+ to_string code +:+ ")")] (log_agg d))
         (mkExporter (metrics_ (metrics d) ++
           [mkMetric "sandbox.jobs_completed_total" MetricType.Counter (f64_of_Z 1)
              (label_set [("target", target); ("exit_code", to_string code)]);
            mkMetric "sandbox.execution_duration_ms" MetricType.Histogram
              (f64_of_Z (duration_ms t)) (label_set []);
            mkMetric "sandbox.jobs_completed" MetricType.Gauge (f64_of_Z c) (label_set []);
            mkMetric "sandbox.jobs_failed" MetricType.Gauge (f64_of_Z f) (label_set [])]))
         c f (calls d) (console d)) ∧
    carried (net_ d) [["job result"; job_id; to_string code; to_string (duration_ms t)];
                      ["sandbox release"; sandbox_id cfg]] w' ∧
    rdy reqs (drop 2 vs) w'.
Proof.
  intros Hr. apply ignore_ready in Hr as (w1 & H1 & Hc1 & Hr1).
  unfold report. unfold job_result at 1. rewrite H1. cbn [mbind outcome_bind].
  destruct (code =? 0).
  all: match goal with |- context [ignore _ ?d2] =>
    destruct (ignore_ready _ _ _ d2 Hr1) as (w2 & H2 & Hc2 & Hr2) end.
  all: exists w2; unfold sandbox_release; rewrite H2.
  all: split; [|split; [exact (carried_trans _ [_] _ _ _ Hc1 Hc2)|by rewrite drop_drop in Hr2]].
  all: fields.
  all: by rewrite <-!(assoc_L (++)).
Qed.

Lemma run_job_ready t v job_id name target command reqs vs d :
  job_of v = Some (job_id, name, target, command) →
  Exists (λ x, finishes x = true) (reads (sandbox_env t)) → wait_answer (sandbox_env t) ≠ NeverEnds →
  (let '(chunks, code, _) := job_outcome strerror cfg t job_id target in
   rdy (job_requests (sandbox_id cfg) job_id chunks code (duration_ms t) ++ reqs) vs (net_ d)) →
  ∃ w', run_job strerror reserve_ok cfg t job_id name target command d
      = Ret (turn_answer strerror cfg t v, after_turn strerror cfg t v w' d) ∧
    let '(chunks, code, _) := job_outcome strerror cfg t job_id target in
    carried (net_ d) (job_requests (sandbox_id cfg) job_id chunks code (duration_ms t)) w' ∧
    rdy reqs (drop (4 + length chunks) vs) w'.
Proof.
  intros Hj Hx Hends. destruct d as [w l [ms] c f cs0 io0].
  destruct (run_ends strerror (sandbox_env t) (Sandbox_new (job_config cfg job_id target)) Hx Hends)
    as (result & sb & calls & Hlen & Hrun). set (cs := calls true) in *.
  unfold after_turn, turn_answer, turn_log, turn_metrics, turn_calls, turn_console, turn_answer.
  rewrite Hj. unfold job_outcome. rewrite (Hrun unit (Some silent) tt), hand_all_silent.
  cbn [mbind outcome_bind handed]. fold cs. set (chunks := chunks_of cs) in *.
  set (code := Sandbox.exit_code result). intros Hr. unfold job_requests in Hr.
  rewrite <-!(assoc_L (++)) in Hr. unfold run_job. fields.
  match goal with |- context [ignore _ ?d1] =>
    destruct (ignore_ready _ _ _ d1 Hr) as (w1 & H1 & Hc1 & Hr1) end.
  unfold sandbox_claim at 1. rewrite H1. fields.
  match goal with |- context [ignore _ ?d2] =>
    destruct (ignore_ready _ _ _ d2 Hr1) as (w2 & H2 & Hc2 & Hr2) end.
  unfold job_log at 1. rewrite H2. fields. rewrite Hrun.
  match goal with |- context [hand_all _ _ (0%nat, ?d3)] =>
    destruct (on_outputs_ready t job_id 0 chunks _ _ d3 Hlen Hr2) as (w3 & -> & Hc3 & Hr3) end.
  cbn [handed]. fields. fold cs. fold chunks. fold code. rewrite Nat.add_0_l.
  match goal with |- context [report _ _ _ _ _ _ _ _ ?d4] =>
    destruct (report_ready t job_id target code (length chunks) _ _ d4 Hr3)
      as (w4 & -> & Hc4 & Hr4) end.
  fields. exists w4. split.
  - cbn [passed failed]. rewrite !run_app, <-!(assoc_L (++)).
    destruct (code =? 0); cbn [Z.eqb Pos.eqb app]; reflexivity.
  - split.
    + exact (carried_trans _ [_] _ _ _ Hc1 (carried_trans _ [_] _ _ _ Hc2
        (carried_trans _ _ _ _ _ Hc3 Hc4))).
    + rewrite !drop_drop in Hr4. replace (4 + length chunks)%nat with
        (1 + (1 + (length chunks + 2)))%nat by lia.
      rewrite <-!drop_drop. by rewrite <-!drop_drop in Hr4.
Qed.

(** ** A turn *)
Lemma turn_ready t v reqs vs d :
  Exists (λ x, finishes x = true) (reads (sandbox_env t)) → wait_answer (sandbox_env t) ≠ NeverEnds →
  head vs = Some v →
  rdy (turn_requests cfg (turn_answer strerror cfg t v) ++ reqs) vs (net_ d) →
  ∃ w', turn strerror reserve_ok cfg t d
      = Ret (turn_answer strerror cfg t v, after_turn strerror cfg t v w' d) ∧
    carried (net_ d) (turn_requests cfg (turn_answer strerror cfg t v)) w' ∧
    rdy reqs (drop (length (turn_requests cfg (turn_answer strerror cfg t v))) vs) w'.
Proof.
  intros Hx Hends Hv Hr. unfold turn_requests in Hr. cbn [app] in Hr.
  destruct (send_ready _ _ _ _ Hr) as (v' & w1 & Hv' & Hs & Hc1 & Hr1).
  rewrite Hv in Hv'. injection Hv' as <-. unfold turn, job_next. rewrite Hs.
  cbn [mbind outcome_bind].
  destruct (job_of v) as [[[[job_id name] target] command]|] eqn:Hj.
  - assert (turn_answer strerror cfg t v =
      Ran job_id (job_outcome strerror cfg t job_id target).1.1
        (job_outcome strerror cfg t job_id target).1.2 (duration_ms t)) as Ha.
    { unfold turn_answer. rewrite Hj. by destruct (job_outcome _ _ _ _ _) as [[? ?] ?]. }
    rewrite Ha in Hr1. unfold job_of in Hj.
    destruct (is_nil v) eqn:Hn; [done|]. destruct (is_error v) eqn:He; [done|]. cbn [orb] in Hj.
    destruct (as_arr v) as [|a0 [|a1 [|a2 [|a3 [|a4 l]]]]] eqn:Harr; try discriminate Hj.
    injection Hj as <- <- <- <-.
    destruct (run_job_ready t v (as_str a0) (as_str a1) (as_str a2) (as_str a3) reqs (drop 1 vs)
      (with_net w1 d)) as (w2 & -> & H2); [unfold job_of; by rewrite Hn, He, Harr|done|done| |].
    { by destruct (job_outcome _ _ _ _ _) as [[? ?] ?]. }
    exists w2. split; [done|]. rewrite Ha.
    destruct (job_outcome _ _ _ _ _) as [[chunks code] cs]. destruct H2 as [Hc2 Hr2].
    split; [exact (carried_trans _ [_] _ _ _ Hc1 Hc2)|].
    rewrite drop_drop in Hr2. cbn [turn_requests length fst snd]. unfold job_requests.
    rewrite !length_app, length_fmap. cbn [length].
    by replace (S (2 + (length chunks + 2)))%nat with (1 + (4 + length chunks))%nat by lia.
  - assert (Hreqs : turn_requests cfg (turn_answer strerror cfg t v) = [["job next"]]).
    { unfold turn_answer. rewrite Hj. by destruct (is_nil v), (is_error v). }
    rewrite Hreqs. exists w1.
    assert (match turn_answer strerror cfg t v with
            | Ran job_id chunks code dur => job_requests (sandbox_id cfg) job_id chunks code dur
            | _ => [] end = []) as Hnil
      by (unfold turn_requests in Hreqs; by injection Hreqs).
    rewrite Hnil in Hr1. split; [|by split].
    unfold after_turn, turn_answer, turn_log, turn_metrics, turn_calls, turn_console, turn_answer.
    rewrite Hj. unfold job_of in Hj. rewrite !app_nil_r.
    destruct (is_nil v); [by destruct d as [? ? [?]]|].
    destruct (is_error v); [destruct d as [? ? [?]]; cbn; unfold say; cbn; by rewrite <-(assoc_L (++))|].
    cbn [orb] in Hj. destruct (as_arr v) as [|a0 [|a1 [|a2 [|a3 [|a4 l]]]]]; try discriminate Hj;
      by destruct d as [? ? [?]].
Qed.
End exchange.

(** * The loop *)

(** A turn, the response to its first request, and those to the others. *)
Record exchange : Type := mkExchange {
  ex_turn : Turn;
  ex_first : Response;
  ex_rest : list Response;
}.

Section loop.
Context (strerror : Z → string) (cfg : Settings).

Definition results (xs : list exchange) : list turn_result :=
  (λ x, turn_answer strerror cfg (ex_turn x) (ex_first x)) <$> xs.
Definition requests (xs : list exchange) : list (list string) :=
  List.flat_map (turn_requests cfg) (results xs).
Definition responses (xs : list exchange) : list Response :=
  List.flat_map (λ x, ex_first x :: ex_rest x) xs.

(** The daemon after all of them, on the network [w]. *)
Definition after_all (xs : list exchange) (w : net) (d : Daemon) : Daemon :=
  with_net w
    (fold_left (λ d x, after_turn strerror cfg (ex_turn x) (ex_first x) (net_ d) d) xs d).

(** Every request of the turn has its response, and what runs in its sandbox closes
    its output and ends. *)
Definition complete (x : exchange) : Prop :=
  length (ex_rest x) =
    pred (length (turn_requests cfg (turn_answer strerror cfg (ex_turn x) (ex_first x)))) ∧
  Exists (λ r, finishes r = true) (reads (sandbox_env (ex_turn x))) ∧
  wait_answer (sandbox_env (ex_turn x)) ≠ NeverEnds.

Lemma after_turn_net t v w w0 d :
  after_turn strerror cfg t v w (with_net w0 d) = after_turn strerror cfg t v w d.
Proof. done. Qed.

(** The network of the daemon plays no part in the abstract turns. *)
Lemma after_all_net xs w w0 d : after_all xs w (with_net w0 d) = after_all xs w d.
Proof.
  unfold after_all. revert w0 d. induction xs as [|x xs IH]; intros w0 d; [done|].
  cbn [fold_left]. rewrite after_turn_net.
  exact (IH w0 (after_turn strerror cfg (ex_turn x) (ex_first x) (net_ d) d)).
Qed.

Lemma after_all_cons x xs w w0 d :
  after_all xs w (after_turn strerror cfg (ex_turn x) (ex_first x) w0 d) = after_all (x :: xs) w d.
Proof.
  exact (after_all_net xs w w0 (after_turn strerror cfg (ex_turn x) (ex_first x) (net_ d) d)).
Qed.

Lemma length_responses xs : Forall complete xs → length (responses xs) = length (requests xs).
Proof.
  induction 1 as [|y ys [Hy _] _ IHy]; [done|]. unfold requests, responses in *.
  cbn [results fmap list_fmap List.flat_map] in *. rewrite !length_app, IHy. cbn [length].
  rewrite Hy. by destruct (turn_answer _ _ _ _).
Qed.

Lemma main_loop_ready reserve_ok xs reqs vs more tx' rx' d :
  0 <= fd cfg → (∀ n, 0 <= n <= MAX_FRAME → reserve_ok n = true) → Forall complete xs →
  ready (requests xs ++ reqs) (responses xs ++ vs) more tx' rx' (net_ d) →
  ∃ w', main_loop strerror reserve_ok cfg (ex_turn <$> xs) d = Ret (results xs, after_all xs w' d) ∧
    carried (net_ d) (requests xs) w' ∧ ready reqs vs more tx' rx' w'.
Proof.
  intros Hfd Hmem Hc. revert d. induction Hc as [|x xs (Hlen & Hx & Hends) Hc IH]; intros d Hr.
  { exists (net_ d). split; [by destruct d|]. split; [|done].
    unfold carried. cbn. by rewrite app_nil_r. }
  set (r := turn_answer strerror cfg (ex_turn x) (ex_first x)) in *.
  assert (length (ex_first x :: ex_rest x) = length (turn_requests cfg r)) as Hl
    by (cbn [length]; rewrite Hlen; by destruct r).
  change (responses (x :: xs)) with ((ex_first x :: ex_rest x) ++ responses xs) in Hr.
  change (requests (x :: xs)) with (turn_requests cfg r ++ requests xs) in Hr |- *.
  rewrite <-!(assoc_L (++)) in Hr.
  destruct (turn_ready strerror reserve_ok cfg Hfd Hmem more tx' rx' (ex_turn x) (ex_first x)
    (requests xs ++ reqs) ((ex_first x :: ex_rest x) ++ responses xs ++ vs) d Hx Hends eq_refl Hr)
    as (w1 & H1 & Hc1 & Hr1).
  fold r in H1, Hc1, Hr1. rewrite <-Hl, drop_app_length in Hr1.
  destruct (IH (after_turn strerror cfg (ex_turn x) (ex_first x) w1 d) Hr1) as (w2 & H2 & Hc2 & Hr2).
  exists w2. rewrite fmap_cons. cbn [main_loop]. rewrite H1. cbn [mbind outcome_bind].
  rewrite H2. cbn [mbind outcome_bind]. rewrite after_all_cons. split; [done|].
  split; [exact (carried_trans _ _ _ _ _ Hc1 Hc2)|done].
Qed.

(** Nothing left to say. *)
Lemma ready_nil vs more tx' rx' w :
  ready [] vs more tx' rx' w → tx_script w = tx' ∧ incoming (rx_script w) more rx'.
Proof.
  intros [Ht Hr _ Hl]. destruct vs; [|done]. by inversion Ht.
Qed.

(** C5: the loop on bytes refines the loop on messages.  Suppose that every request
    is taken and answered by a sound response, both streams cut in any way, that no
    reservation up to the frame limit fails, and that the command of every job closes
    its output and ends (a command that does not holds the loop for ever: C10).  Then
    a run of the loop comes back: every turn is exactly what its first response asks
    for, the server has been sent exactly the requests of the jobs, in order, what it
    answered to the others makes no difference, and the log, the metrics, the
    counters, the sandboxes and the console are those of the turns one after the
    other; the bytes that follow are left unread. *)
Theorem main_loop_refines reserve_ok xs more tx' rx' d :
  0 <= fd cfg → (∀ n, 0 <= n <= MAX_FRAME → reserve_ok n = true) →
  Forall complete xs → Forall sound (responses xs) →
  takes (requests xs) (tx_script (net_ d)) tx' →
  incoming (rx_script (net_ d)) (replies (responses xs) ++ more) rx' →
  ∃ w', main_loop strerror reserve_ok cfg (ex_turn <$> xs) d = Ret (results xs, after_all xs w' d) ∧
    sent w' = sent (net_ d) ++ List.flat_map encode_request (requests xs) ∧
    tx_script w' = tx' ∧ incoming (rx_script w') more rx'.
Proof.
  intros Hfd Hmem Hc Hs Ht Hr.
  destruct (main_loop_ready reserve_ok xs [] [] more tx' rx' d Hfd Hmem Hc) as (w' & H & Hsent & Hw).
  { rewrite !app_nil_r. constructor; [done..|]. by apply length_responses. }
  exists w'. apply ready_nil in Hw as []. by split_and!.
Qed.
End loop.

(** * What the sandboxes of a run leave behind *)
(** Calls that give back all they take, and close nothing else. *)
Definition balanced (cs : list call) (fds : gset Z) (blocks : nat) : Prop :=
  effects cs (fds, blocks) = Some (fds, blocks).

Section resources.
Context (strerror : Z → string) (reserve_ok : Z → bool) (cfg : Settings).

Lemma ignore_calls c d d' : ignore c d = Ret d' → calls d' = calls d.
Proof. unfold ignore. intros H. by apply bind_Ret in H as ([r w] & _ & [= <-]). Qed.

Lemma report_calls t job_id target code n d d' :
  report strerror reserve_ok cfg t job_id target code n d = Ret d' → calls d' = calls d.
Proof.
  unfold report. intros H. apply bind_Ret in H as (d1 & H1%ignore_calls & H). rewrite <-H1.
  destruct (code =? 0); by apply ignore_calls in H as ->.
Qed.

Lemma turn_effects t d r d' fds n :
  fresh_pipe (sandbox_env t) fds → turn strerror reserve_ok cfg t d = Ret (r, d') →
  ∃ cs, calls d' = calls d ++ cs ∧ effects cs (fds, n) = Some (fds, n).
Proof.
  intros Hf H. destruct (turn_cases strerror reserve_ok cfg t d r d' H) as (resp & w & _ & Hj).
  destruct (match resp with Ok v => job_of v | Err _ => None end)
    as [[[[job_id name] target] command]|].
  2: { destruct Hj as (_ & _ & _ & _ & -> & _). exists []. by rewrite app_nil_r. }
  unfold run_job in Hj.
  apply bind_Ret in Hj as (d1 & H1%ignore_calls & Hj). apply bind_Ret in Hj as (d2 & H2%ignore_calls & Hj).
  apply bind_Ret in Hj as ([[[result sb] cs] [k d3]] & Hrun & Hj).
  apply run_outcome in Hrun as (_ & H3 & Hrun). apply on_outputs_counts in H3 as (_ & _ & _ & H3).
  apply bind_Ret in Hj as (d4 & H4%report_calls & Hj). injection Hj as _ <-.
  exists (cs ++ Sandbox.destroy sb). cbn [calls called say]. rewrite H4, H3, H2, H1. split; [done|].
  destruct (run_effects strerror (sandbox_env t) (Some silent)
    (Sandbox_new (job_config cfg job_id target)) tt fds n result sb cs tt eq_refl Hf Hrun)
    as (He & _ & Hd).
  by rewrite effects_app, He.
Qed.

(** C20: jobs leak nothing.  Whatever the server and the kernel do, over any number of
    turns that come back, with jobs or without, every descriptor and every block
    taken for a sandbox is given back exactly once, by the run or by the destructor:
    the daemon's descriptors and allocations are those it had before. *)
Theorem main_loop_leaks_nothing ts d rs d' fds n :
  Forall (λ t, fresh_pipe (sandbox_env t) fds) ts →
  main_loop strerror reserve_ok cfg ts d = Ret (rs, d') →
  ∃ cs, calls d' = calls d ++ cs ∧ balanced cs fds n.
Proof.
  unfold balanced. intros Hf. revert d rs. induction Hf as [|t ts Ht _ IH]; intros d rs H; cbn in H.
  { injection H as <- <-. exists []. by rewrite app_nil_r. }
  apply bind_Ret in H as ([r d1] & H1 & H). apply bind_Ret in H as ([rs' d2] & H2 & [= <- <-]).
  destruct (turn_effects t d r d1 fds n Ht H1) as (cs1 & Hc1 & He1).
  destruct (IH d1 rs' H2) as (cs2 & Hc2 & He2).
  exists (cs1 ++ cs2). rewrite Hc2, Hc1, (assoc_L (++)). split; [done|].
  by rewrite effects_app, He1.
Qed.
End resources.

(** * A concrete run *)
Lemma incoming_all c s : c ≠ [] → incoming (RedisClient.RData c :: s) c s.
Proof.
  intros Hc. pose proof (incoming_chunk c s [] s Hc (incoming_done s)) as H.
  by rewrite app_nil_r in H.
Qed.

(** No job, then one, then an error. *)
Definition test_session : list exchange :=
  [mkExchange test_turn rNil [];
   mkExchange test_turn job_response (replicate 5 rNil);
   mkExchange test_turn (rError 1 "busy") []].

Definition test_start : Daemon :=
  mkDaemon
    (mkNet [] (replicate 8 (TAccept (2 ^ 32)))
       [RedisClient.RData (take 11 (replies (responses test_session)));
        RedisClient.RData (drop 11 (replies (responses test_session)) ++ [x07])] 0)
    LogAggregator_new MetricsExporter_new 0 0 [] [].

Lemma test_session_sound : Forall sound (responses test_session).
Proof.
  assert (∀ s : string, s ∈ ["j1"; "build"; "local"; "true"; "busy"] →
    in_uint 32 (size (Bytes.bytes s))) as Hs.
  { intros s Hs. set_unfold. destruct Hs as [->|[->|[->|[->|[->|[]]]]]]; by vm_compute. }
  assert (Forall wf_response (responses test_session)) as Hwf.
  { unfold test_session, responses, job_response. cbn [List.flat_map replicate app ex_first ex_rest].
    repeat constructor; try (by apply Hs; set_solver); vm_compute; try done; by intros [=]. }
  assert (Forall (λ v, size (encode_response v) <= MAX_FRAME) (responses test_session)) as Hsz.
  { apply list.Forall_forall. intros v Hv. apply Z.leb_le.
    assert (forallb (λ v, size (encode_response v) <=? MAX_FRAME) (responses test_session) = true)
      as Hb by (vm_compute; reflexivity).
    rewrite forallb_forall in Hb. by apply Hb, list_elem_of_In. }
  rewrite list.Forall_forall in Hwf, Hsz. apply list.Forall_forall. intros v Hv.
  split; [by apply Hwf|by apply Hsz].
Qed.

Lemma test_session_complete : Forall (complete (λ _, "") test_settings) test_session.
Proof.
  repeat (apply Forall_cons_2;
    [split; [vm_compute; reflexivity|split; [by apply Exists_cons_tl, Exists_cons_hd|discriminate]]|]).
  apply Forall_nil_2.
Qed.

Lemma main_loop_refines_witness :
  ∃ w', main_loop (λ _, "") (λ n, n <=? MAX_FRAME) test_settings (replicate 3 test_turn) test_start
      = Ret ([Idle; Ran "j1" ["hi"] 0 9; ServerError],
             after_all (λ _, "") test_settings test_session w' test_start) ∧
    sent w' = List.flat_map encode_request
      ([["job next"]; ["job next"]] ++ job_requests "sb" "j1" ["hi"] 0 9 ++ [["job next"]]) ∧
    tx_script w' = [] ∧ incoming (rx_script w') [x07] [].
Proof.
  apply (main_loop_refines (λ _, "") test_settings (λ n, n <=? MAX_FRAME) test_session [x07] [] []
    test_start).
  - by vm_compute.
  - intros n [_ Hn]. by apply Z.leb_le.
  - exact test_session_complete.
  - exact test_session_sound.
  - apply (takes_whole (requests (λ _, "") test_settings test_session) []).
    repeat (apply Forall_cons_2; [vm_compute; reflexivity|]). apply Forall_nil_2.
  - pose proof (incoming_chunk (take 11 (replies (responses test_session)))
      [RedisClient.RData (drop 11 (replies (responses test_session)) ++ [x07])]
      (drop 11 (replies (responses test_session)) ++ [x07]) []) as H.
    rewrite (assoc_L (++)), take_drop in H. apply H.
    + by vm_compute.
    + apply incoming_all. by vm_compute.
Defined.

Lemma test_fresh : fresh_pipe (sandbox_env test_turn) {[0; 1; 2; 3]}.
Proof. intros r w [= <- <-]. split_and!; try lia; set_solver. Qed.

Lemma main_loop_leaks_nothing_witness :
  ∃ d' cs, main_loop (λ _, "") (λ _, true) test_settings [test_turn] (test_daemon job_response)
      = Ret ([Ran "j1" ["hi"] 0 9], d') ∧ calls d' = calls (test_daemon job_response) ++ cs ∧
    effects cs ({[0; 1; 2; 3]}, 7%nat) = Some ({[0; 1; 2; 3]}, 7%nat).
Proof.
  destruct test_loop_returns as [d' E].
  destruct (main_loop_leaks_nothing (λ _, "") (λ _, true) test_settings [test_turn]
    (test_daemon job_response) [Ran "j1" ["hi"] 0 9] d' {[0; 1; 2; 3]} 7%nat) as (cs & H1 & H2).
  - apply Forall_cons_2; [exact test_fresh|apply Forall_nil_2].
  - exact E.
  - exists d', cs. split; [exact E|]. split; [exact H1|exact H2].
Defined.
