(* ===== verification/Main.v ===== *)
(** [main] (main.cpp): the command line, the objects and their order of
    construction and destruction, the health thread, the connection, the
    registration, the polling loop until a signal, and the shutdown, on every
    path to an exit code. *)
From S2P Require Import Prelude Bytes CppString Float64 StdMap.
From S2P Require Import Wire RedisClient LogAggregator Metrics Supervisor Sandbox Options.
From S2P Require Import ProcFs ResourceMonitor ResourceManager HealthMonitor Daemon Session.

#[local] Open Scope Z_scope.

(** * What happens *)

(** The objects of [main], in the order of their construction. *)
Inductive object : Type := OMetrics | OServer | OHealth | OLog | OResources | OSupervisor | ORedis.

Inductive event : Type :=
  | Io (e : io)
  | Construct (o : object)
  | Destroy (o : object)
  | HealthStarts
  | HealthJoined.

(** The answers of the system to one execution: the arguments, as [getopt_long]
    returns them, the process identifier, the sockets, the connection, and the signals
    that came before the loop and during each of its turns.

    For the health thread: the files it sees, the clock tick rate, the traversal of
    the monitors, the clock when the checks are registered, at each of the steps the
    thread takes before it is joined, and then; and what unlocking a mutex that is not
    locked comes to, which the language leaves undefined and an implementation may let
    pass. *)
Record Env : Type := mkEnv {
  argv0 : string;
  args : list (Ascii.ascii * string);
  getpid : Z;
  metrics_socket : Z;
  bind_ok : bool;
  listen_ok : bool;
  conn : connect_env;
  traffic : net;
  signals : list Z;
  turns : list (Turn * list Z);
  proc_files : string → file_system * file_system;
  clk_tck : Z;
  traversal : ResourceManager → list string;
  registered_at : Z;
  health_clock : list Z;
  joined_at : Z;
  double_unlock : outcome unit;
}.

(** How the process ends: its exit code, what happened, the descriptors it leaves,
    and the daemon at the end of the loop if it was reached. *)
Record exit : Type := mkExit {
  code : Z;
  events : list event;
  open_fds : fd_table;
  final : option Daemon;
}.

(** * The program *)

(** The handler of [SIGINT] and [SIGTERM], on [g_running]. *)
Definition signal_handler (g_running sig : Z) : Z := 0.

Definition print_usage (prog : string) : string :=
  "Usage: " +:+ prog +:+ " [options]" +:+ eol
  +:+ "  -h, --host HOST       Redis host (default: 127.0.0.1)" +:+ eol
  +:+ "  -p, --port PORT       Redis port (default: 1234)" +:+ eol
  +:+ "  -i, --id ID           Sandbox ID (default: auto)" +:+ eol
  +:+ "  -t, --type TYPE       Target type (default: local)" +:+ eol
  +:+ "  -m, --metrics-port    Prometheus port (default: 9090)" +:+ eol
  +:+ "  -n, --no-seccomp      Disable seccomp filter" +:+ eol
  +:+ "  --max-restarts N      Max restarts on failure (default: 3)" +:+ eol
  +:+ "  --help                Show this help" +:+ eol.

(** The health monitor as [main] sets it up, on a manager without monitors. *)
Definition health0 (e : Env) : HealthMonitor (M := gmap string) (W := ResourceManager) :=
  main_health (proc_files e) (clk_tck e) (traversal e) (registered_at e).

(** [health_monitor.stop()], or its destructor: the thread, which has run by itself
    since it was started, is told to stop and joined. *)
Definition health_join (e : Env) : outcome unit :=
  match
    s ← thread_run (health_clock e) (started (health0 e) ResourceManager_new);
    HealthMonitor.stop_and_join (joined_at e) s
  with
  | Ret _ => Ret tt
  | Undefined => double_unlock e
  | Throw x => Throw x
  | Terminate => Terminate
  | Blocked => Blocked
  | OutOfFuel => OutOfFuel
  end.

(** It depends on whether the thread has begun a turn. *)
Lemma health_join_eq e :
  health_join e = match health_clock e with [] => Ret tt | _ :: _ => double_unlock e end.
Proof. unfold health_join. rewrite stop_after_run. by destruct (health_clock e). Qed.

(** The address of [metrics] in the frame of [main]. *)
Definition metrics_address : Z := 4096.

Section main.
Context (strerror : Z → string) (reserve_ok : Z → bool).

(** [while (g_running)]: the turns end with the first test after a signal; a script
    that runs out is a signal that never comes. *)
Fixpoint poll (cfg : Settings) (g_running : Z) (ts : list (Turn * list Z)) (d : Daemon)
    : outcome (list turn_result * Daemon) :=
  if g_running =? 0 then Ret ([], d)
  else
    match ts with
    | [] => Blocked
    | (t, sigs) :: ts =>
        '(r, d) ← turn strerror reserve_ok cfg t d;
        '(rs, d) ← poll cfg (fold_left signal_handler sigs g_running) ts d;
        Ret (r :: rs, d)
    end.

(** The end of the scope of [main]: the destructors, in the opposite order; that of
    the health monitor joins its thread unless [stop] has. *)
Definition closing (joined : bool) : list event :=
  [Destroy ORedis; Destroy OSupervisor; Destroy OResources; Destroy OLog]
  ++ (if joined then [] else [HealthJoined])
  ++ [Destroy OHealth; Destroy OServer; Destroy OMetrics].

Definition unwind (e : Env) (joined : bool) (redis : RedisClient) (supervisor : ProcessSupervisor)
    (server : MetricsServer) (fds : fd_table) : outcome (list event * fd_table) :=
  let fds := RedisClient_delete redis fds in
  _ ← Supervisor.destroy [] (λ s, Ret s) supervisor;
  _ ← (if joined then Ret tt else health_join e);
  let '(_, fds) := Metrics.stop server fds in
  Ret (closing joined, fds).

Definition sandbox_id_of (e : Env) (o : Options) : string :=
  if bool_decide (Options.sandbox_id o = "") then "cpp-sandbox-" +:+ to_string (getpid e)
  else Options.sandbox_id o.

Definition banner (e : Env) (o : Options) : string :=
  "[sandbox] id=" +:+ sandbox_id_of e o +:+ " type=" +:+ target_type o +:+ " host=" +:+ host o
  +:+ ":" +:+ to_string (port o) +:+ " metrics=" +:+ to_string (metrics_port o)
  +:+ " seccomp=" +:+ (if Options.use_seccomp o then "true" else "false") +:+ eol.

Definition settings (e : Env) (o : Options) (redis : RedisClient) : Settings :=
  mkSettings (fd_ redis) (sandbox_id_of e o) (Options.use_seccomp o).

Definition addr_of (o : Options) : string := host o +:+ ":" +:+ to_string (port o).

(** Up to the construction of the client; [ok] is whether the metrics server
    listens. *)
Definition opening (e : Env) (o : Options) (ok : bool) : list event :=
  [Io (Out (banner e o))]
  ++ (Construct <$> [OMetrics; OServer; OHealth; OLog; OResources; OSupervisor])
  ++ (if ok then
        [Io (Out ("[sandbox] metrics on :" +:+ to_string (metrics_port o) +:+ "/metrics" +:+ eol))]
      else [])
  ++ [HealthStarts; Construct ORedis].

(** The daemon before its first turn. *)
Definition Daemon_new (w : net) : Daemon :=
  mkDaemon w LogAggregator_new MetricsExporter_new 0 0 [] [].

Definition summary (d : Daemon) : string :=
  "[sandbox] completed: " +:+ to_string (jobs_completed d) +:+ " jobs, "
  +:+ to_string (jobs_failed d) +:+ " failed" +:+ eol.

(** The loop and the shutdown, of a daemon that is registered. *)
Definition serve (e : Env) (cfg : Settings) (redis : RedisClient) (supervisor : ProcessSupervisor)
    (server : MetricsServer) (ev : list event) (d : Daemon) (fds : fd_table)
    : outcome exit :=
  '(_, d) ← poll cfg (fold_left signal_handler (signals e) 1) (turns e) d;
  _ ← health_join e;
  let '(server, fds) := Metrics.stop server fds in
  '(_, supervisor) ← Supervisor.stop_all [] supervisor;
  let '(redis, fds) := close redis fds in
  '(ev', fds) ← unwind e true redis supervisor server fds;
  Ret (mkExit 0
    (ev ++ (Io <$> console d)
     ++ [Io (Out ("[sandbox] shutting down..." +:+ eol)); HealthJoined; Io (Out (summary d))]
     ++ ev')
    fds (Some d)).

(** From the options to the registration. *)
Definition start_up (e : Env) (o : Options) (fds : fd_table) : outcome exit :=
  let server := Metrics.set_exporter (Some metrics_address)
                  (MetricsServer_new (metrics_port o)) in
  let '(ok, server, fds) := Metrics.start (metrics_socket e) (bind_ok e) (listen_ok e) server fds in
  let supervisor := Supervisor.on_event ProcessSupervisor_new in
  let ev := opening e o ok in
  let '(r, redis, fds) := connect strerror (conn e) (host o) (port o) RedisClient_new fds in
  match r with
  | Err err =>
      '(ev', fds) ← unwind e false redis supervisor server fds;
      Ret (mkExit 1
        (ev ++ [Io (ErrOut ("[sandbox] failed to connect to " +:+ addr_of o +:+ ": "
                            +:+ Prelude.message err +:+ eol))] ++ ev') fds None)
  | Ok _ =>
      let ev := ev ++ [Io (Out ("[sandbox] connected to Redis" +:+ eol))] in
      let cfg := settings e o redis in
      '(registered, d) ← register strerror reserve_ok cfg (target_type o) (addr_of o)
                           (Daemon_new (traffic e));
      if (registered : bool) then
        serve e cfg redis supervisor server
          (ev ++ [Io (Out ("[sandbox] registered" +:+ eol));
                  Io (Out ("[sandbox] polling for jobs..." +:+ eol))]) d fds
      else
        '(ev', fds) ← unwind e false redis supervisor server fds;
        Ret (mkExit 1
          (ev ++ [Io (ErrOut ("[sandbox] failed to register" +:+ eol))] ++ ev') fds None)
  end.

Definition main (e : Env) (fds : fd_table) : outcome exit :=
  match parse_args (args e) with
  | Err err =>
      Ret (mkExit 1 [Io (ErrOut (print_usage (argv0 e)));
                     Io (ErrOut ("[sandbox] " +:+ Prelude.message err +:+ eol))] fds None)
  | Ok o =>
      if help o then Ret (mkExit 0 [Io (ErrOut (print_usage (argv0 e)))] fds None)
      else start_up e o fds
  end.

(** * The paths to an exit *)

(** The metrics server before it starts. *)
Definition server0 (o : Options) : MetricsServer :=
  Metrics.set_exporter (Some metrics_address) (MetricsServer_new (metrics_port o)).

(** The end of a daemon that was registered. *)
Definition exit_served (e : Env) (o : Options) (ok : bool) (server : MetricsServer)
    (redis : RedisClient) (fds : fd_table) (d : Daemon) : exit :=
  mkExit 0
    (opening e o ok ++ [Io (Out ("[sandbox] connected to Redis" +:+ eol));
       Io (Out ("[sandbox] registered" +:+ eol));
       Io (Out ("[sandbox] polling for jobs..." +:+ eol))]
     ++ (Io <$> console d)
     ++ [Io (Out ("[sandbox] shutting down..." +:+ eol)); HealthJoined; Io (Out (summary d))]
     ++ closing true)
    (close redis (Metrics.stop server fds).2).2 (Some d).

Inductive ends (e : Env) (o : Options) (fds : fd_table) : exit → Prop :=
  | ends_connect ok server fds1 err redis fds2 :
      Metrics.start (metrics_socket e) (bind_ok e) (listen_ok e) (server0 o) fds
        = (ok, server, fds1) →
      connect strerror (conn e) (host o) (port o) RedisClient_new fds1 = (Err err, redis, fds2) →
      health_join e = Ret tt →
      ends e o fds (mkExit 1
        (opening e o ok ++ [Io (ErrOut ("[sandbox] failed to connect to " +:+ addr_of o +:+ ": "
           +:+ Prelude.message err +:+ eol))] ++ closing false)
        (Metrics.stop server (RedisClient_delete redis fds2)).2 None)
  | ends_register ok server fds1 redis fds2 d :
      Metrics.start (metrics_socket e) (bind_ok e) (listen_ok e) (server0 o) fds
        = (ok, server, fds1) →
      connect strerror (conn e) (host o) (port o) RedisClient_new fds1 = (Ok tt, redis, fds2) →
      register strerror reserve_ok (settings e o redis) (target_type o) (addr_of o)
        (Daemon_new (traffic e)) = Ret (false, d) →
      health_join e = Ret tt →
      ends e o fds (mkExit 1
        (opening e o ok ++ [Io (Out ("[sandbox] connected to Redis" +:+ eol));
           Io (ErrOut ("[sandbox] failed to register" +:+ eol))] ++ closing false)
        (Metrics.stop server (RedisClient_delete redis fds2)).2 None)
  | ends_served ok server fds1 redis fds2 d0 rs d :
      Metrics.start (metrics_socket e) (bind_ok e) (listen_ok e) (server0 o) fds
        = (ok, server, fds1) →
      connect strerror (conn e) (host o) (port o) RedisClient_new fds1 = (Ok tt, redis, fds2) →
      register strerror reserve_ok (settings e o redis) (target_type o) (addr_of o)
        (Daemon_new (traffic e)) = Ret (true, d0) →
      poll (settings e o redis) (fold_left signal_handler (signals e) 1) (turns e) d0
        = Ret (rs, d) →
      health_join e = Ret tt →
      ends e o fds (exit_served e o ok server redis fds2 d).

(** What the destructors do, the health thread apart. *)
Lemma unwind_eq e (joined : bool) redis s server fds :
  Supervisor.destroy [] (λ s, Ret s) s = Ret tt →
  unwind e joined redis s server fds =
    (_ ← (if joined then Ret tt else health_join e);
     Ret (closing joined, (Metrics.stop server (RedisClient_delete redis fds)).2)).
Proof.
  intros Hd. unfold unwind. rewrite Hd. cbn [mbind outcome_bind].
  by destruct (Metrics.stop server _).
Qed.

(** After [close] and [stop], nothing is left to release. *)
Lemma closed_twice redis fds : RedisClient_delete (close redis fds).1 fds = fds.
Proof.
  unfold RedisClient_delete, close. destruct (Z.leb_spec 0 (fd_ redis)) as [H|H]; [done|].
  cbn [fst]. by rewrite (proj2 (Z.leb_gt 0 (fd_ redis))) by lia.
Qed.

Lemma stopped_twice (server : MetricsServer) fds fds' :
  (Metrics.stop (Metrics.stop server fds).1 fds').2 = fds'.
Proof.
  unfold Metrics.stop. destruct (Z.leb_spec 0 (server_fd_ server)) as [H|H]; [done|].
  cbn [fst server_fd_]. by rewrite (proj2 (Z.leb_gt 0 (server_fd_ server))) by lia.
Qed.

#[local] Opaque opening closing.
Lemma delete_closed redis fds :
  RedisClient_delete (close redis fds).1 (close redis fds).2 = (close redis fds).2.
Proof.
  rewrite <-(closed_twice redis (close redis fds).2) at 2. f_equal.
  unfold close. by destruct (0 <=? fd_ redis).
Qed.

(** The shutdown, up to what joining the health thread comes to. *)
Lemma serve_eq e o cfg ok server redis fds rs d0 d :
  poll cfg (fold_left signal_handler (signals e) 1) (turns e) d0 = Ret (rs, d) →
  serve e cfg redis (Supervisor.on_event ProcessSupervisor_new) server
    ((opening e o ok ++ [Io (Out ("[sandbox] connected to Redis" +:+ eol))])
     ++ [Io (Out ("[sandbox] registered" +:+ eol));
         Io (Out ("[sandbox] polling for jobs..." +:+ eol))]) d0 fds
    = (_ ← health_join e; Ret (exit_served e o ok server redis fds d)).
Proof.
  intros Hp. unfold serve, exit_served. rewrite Hp. cbn [mbind outcome_bind].
  destruct (health_join e); try done. cbn [mbind outcome_bind].
  pose proof (stopped_twice server fds) as Hst.
  destruct (Metrics.stop server fds) as [server' fds3] eqn:Hs. cbn [fst] in Hst.
  match goal with |- context [stop_all [] ?s] =>
    change (stop_all [] s) with (Ret (A := bool * ProcessSupervisor) (true, s)) end.
  cbn [mbind outcome_bind].
  pose proof (delete_closed redis fds3) as Hd. destruct (close redis fds3) as [redis' fds4] eqn:Hcl.
  rewrite unwind_eq by reflexivity. cbn [fst snd mbind outcome_bind] in *.
  rewrite Hd, Hst, Hcl, <-!(assoc_L (++)). reflexivity.
Qed.

Lemma start_up_served e o fds ok server fds1 redis fds2 d0 rs d :
  Metrics.start (metrics_socket e) (bind_ok e) (listen_ok e) (server0 o) fds = (ok, server, fds1) →
  connect strerror (conn e) (host o) (port o) RedisClient_new fds1 = (Ok tt, redis, fds2) →
  register strerror reserve_ok (settings e o redis) (target_type o) (addr_of o)
    (Daemon_new (traffic e)) = Ret (true, d0) →
  poll (settings e o redis) (fold_left signal_handler (signals e) 1) (turns e) d0 = Ret (rs, d) →
  start_up e o fds = (_ ← health_join e; Ret (exit_served e o ok server redis fds2 d)).
Proof.
  intros Hm Hc Hr Hp. unfold start_up. fold (server0 o). rewrite Hm, Hc, Hr.
  cbn [mbind outcome_bind]. by eapply serve_eq.
Qed.

Lemma start_up_ends e o fds x : start_up e o fds = Ret x ↔ ends e o fds x.
Proof.
  split.
  - unfold start_up. intros H. fold (server0 o) in H.
    destruct (Metrics.start _ _ _ (server0 o) fds) as [[ok server] fds1] eqn:Hm.
    destruct (connect _ _ _ _ _ fds1) as [[[[]|err] redis] fds2] eqn:Hc.
    2: { rewrite unwind_eq in H by reflexivity. apply bind_Ret in H as ([ev' f] & H & Hx).
         apply bind_Ret in H as ([] & Hj & [= <- <-]). injection Hx as <-. by eapply ends_connect. }
    apply bind_Ret in H as ([[] d0] & Hr & H).
    2: { rewrite unwind_eq in H by reflexivity. apply bind_Ret in H as ([ev' f] & H & Hx).
         apply bind_Ret in H as ([] & Hj & [= <- <-]). injection Hx as <-.
         rewrite <-(assoc_L (++)). by eapply ends_register. }
    destruct (poll (settings e o redis) (fold_left signal_handler (signals e) 1) (turns e) d0)
      as [[rs d]| | | | |] eqn:Hp; [|by unfold serve in H; rewrite Hp in H..].
    rewrite (serve_eq e o _ ok server redis fds2 rs d0 d Hp) in H.
    apply bind_Ret in H as ([] & Hj & [= <-]). by eapply ends_served.
  - intros [ok server fds1 err redis fds2 Hm Hc Hj
      |ok server fds1 redis fds2 d Hm Hc Hr Hj
      |ok server fds1 redis fds2 d0 rs d Hm Hc Hr Hp Hj].
    3: { rewrite (start_up_served e o fds ok server fds1 redis fds2 d0 rs d) by done. by rewrite Hj. }
    all: unfold start_up; fold (server0 o); rewrite Hm, Hc.
    + rewrite unwind_eq by reflexivity. by rewrite Hj.
    + rewrite Hr. cbn [mbind outcome_bind]. rewrite unwind_eq by reflexivity. rewrite Hj.
      cbn [mbind outcome_bind]. by rewrite <-(assoc_L (++)).
Qed.
#[local] Transparent opening closing.
End main.

(** * Descriptors *)
Lemma server_released sock b l o fds ok server fds1 :
  sock ∉ fds_open fds → Metrics.start sock b l (server0 o) fds = (ok, server, fds1) →
  ok = (0 <=? sock) && b && l ∧ fds1 = (if ok then fd_open sock fds else fds) ∧
  ∀ X, (Metrics.stop server X).2 = if ok then fd_close sock X else X.
Proof.
  intros Hf. unfold Metrics.start, Metrics.stop, server0. cbn [server_fd_ set_exporter].
  destruct (Z.ltb_spec sock 0) as [Hs|Hs].
  { intros [= <- <- <-]. cbn. rewrite (proj2 (Z.leb_gt 0 sock)) by done. done. }
  rewrite (proj2 (Z.leb_le 0 sock)) by done. destruct b, l; intros [= <- <- <-]; cbn.
  1: by rewrite (proj2 (Z.leb_le 0 sock)) by done.
  all: split; [done|split; [|done]]; by apply fd_close_opened.
Qed.

(** The descriptors [fds], and that of [redis] if it has one. *)
Definition with_client (redis : RedisClient) (fds : fd_table) : fd_table :=
  mkFds (fds_open fds ∪ owned redis) (stray fds).

Lemma client_released strerror e o fds r redis fds2 :
  socket_ret e ∉ fds_open fds →
  connect strerror e (host o) (port o) RedisClient_new fds = (r, redis, fds2) →
  fds2 = with_client redis fds ∧ owned redis ⊆ {[socket_ret e]}.
Proof.
  intros Hf H.
  pose proof (connect_fds strerror e (host o) (port o) RedisClient_new fds
    (empty_subseteq _) Hf) as H1.
  pose proof (connect_owned strerror e (host o) (port o) RedisClient_new fds) as H2.
  rewrite H in H1, H2. destruct H1 as [-> _]. split; [|done].
  change (owned RedisClient_new) with (∅ : gset Z). apply fd_table_eq; [|done].
  cbn. set_solver.
Qed.

Lemma close_client redis fds :
  owned redis ## fds_open fds → (close redis (with_client redis fds)).2 = fds.
Proof.
  intros Hd. rewrite close_spec by (cbn; set_solver). apply fd_table_eq; [|done].
  cbn. set_solver.
Qed.

(** Closing another descriptor leaves the client its own. *)
Lemma close_beside sock redis fds :
  sock ∉ owned redis → sock ∉ fds_open fds →
  fd_close sock (with_client redis (fd_open sock fds)) = with_client redis fds.
Proof.
  intros H1 H2. rewrite fd_close_open by (cbn; set_solver). apply fd_table_eq; [|done].
  cbn. set_solver.
Qed.

(** Whether the metrics server gets a socket that listens. *)
Definition listens (e : Env) : bool := (0 <=? metrics_socket e) && bind_ok e && listen_ok e.

Section properties.
Context (strerror : Z → string) (reserve_ok : Z → bool).

(** C21: the process ends with the descriptors it started with: on every path of
    [main] that returns, from a bad option, [--help], a refused connection, a failed
    registration or the shutdown, the socket of the metrics server and that of the
    client are closed, each once, whichever of them could be opened: nothing else is
    closed, and nothing that is not open. *)
Theorem main_releases e fds x :
  metrics_socket e ∉ fds_open fds → socket_ret (conn e) ∉ fds_open fds →
  (listens e = true → socket_ret (conn e) ≠ metrics_socket e) →
  main strerror reserve_ok e fds = Ret x →
  fds_open (open_fds x) = fds_open fds ∧ stray (open_fds x) = stray fds.
Proof.
  intros H1 H2 H3. unfold main. destruct (parse_args (args e)) as [o|]; [|by intros [= <-]].
  destruct (help o); [by intros [= <-]|].
  assert (Hall : ∀ ok server fds1 r redis fds2,
    Metrics.start (metrics_socket e) (bind_ok e) (listen_ok e) (server0 o) fds
      = (ok, server, fds1) →
    connect strerror (conn e) (host o) (port o) RedisClient_new fds1 = (r, redis, fds2) →
    (Metrics.stop server (RedisClient_delete redis fds2)).2 = fds ∧
    (close redis (Metrics.stop server fds2).2).2 = fds).
  { intros ok server fds1 r redis fds2 Hm Hc.
    apply server_released in Hm as (-> & -> & Hstop); [|done]. fold (listens e) in *.
    apply client_released in Hc as [-> Hown].
    2: { destruct (listens e); [specialize (H3 eq_refl); cbn|]; set_solver. }
    unfold RedisClient_delete. rewrite !Hstop. destruct (listens e).
    - specialize (H3 eq_refl). rewrite close_client by (cbn; set_solver).
      rewrite fd_close_opened, close_beside by set_solver.
      split; [done|]. apply close_client. set_solver.
    - split; apply close_client; set_solver. }
  intros Hx. apply start_up_ends in Hx.
  assert (open_fds x = fds) as ->; [|done].
  destruct Hx; cbn [open_fds exit_served]; by edestruct Hall.
Qed.

(** * Lifetimes *)

(** The health thread reads the resource manager: nothing of it is destroyed between
    the start and the join of the thread. *)
Fixpoint health_safe (running : bool) (evs : list event) : bool :=
  match evs with
  | [] => true
  | HealthStarts :: evs => health_safe true evs
  | HealthJoined :: evs => health_safe false evs
  | Destroy OResources :: evs => negb running && health_safe running evs
  | _ :: evs => health_safe running evs
  end.

Lemma health_safe_io b (ios : list io) evs :
  health_safe b ((Io <$> ios) ++ evs) = health_safe b evs.
Proof. by induction ios. Qed.

Lemma health_safe_opening e o ok evs :
  health_safe false (opening e o ok ++ evs) = health_safe true evs.
Proof. unfold opening. by destruct ok. Qed.

(** C23: a shutdown after the loop joins the health thread before anything it reads
    is destroyed; an exit for a refused connection or a failed registration destroys
    the resource manager while the thread that samples it still runs, and joins the
    thread only afterwards. *)
Theorem main_lifetimes e fds x :
  main strerror reserve_ok e fds = Ret x →
  health_safe false (events x) =
    match parse_args (args e), final x with
    | Ok o, None => help o
    | _, _ => true
    end.
Proof.
  unfold main. destruct (parse_args (args e)) as [o|]; [|by intros [= <-]].
  destruct (help o); [by intros [= <-]|].
  intros Hx. apply start_up_ends in Hx. destruct Hx; cbn [events final exit_served];
    rewrite health_safe_opening; [done..|].
  cbn [app health_safe]. rewrite health_safe_io. done.
Qed.

(** * The exit code *)

(** C22: what the exit code means, on every execution that returns: it is 0 or 1; it
    is 0 exactly when the help was asked for or the daemon was connected, registered
    and served until a signal, whatever became of the jobs; and then the counters it
    prints are those of the loop. *)
Theorem main_exit_code e fds x :
  main strerror reserve_ok e fds = Ret x →
  (code x = 0 ∨ code x = 1) ∧
  (code x = 0 ↔ ∃ o, parse_args (args e) = Ok o ∧ (help o = true ∨ final x ≠ None)) ∧
  (∀ d, final x = Some d →
     Io (Out (summary d)) ∈ events x ∧
     ∃ o redis fds1 fds2 d0 rs, parse_args (args e) = Ok o ∧
       connect strerror (conn e) (host o) (port o) RedisClient_new fds1 = (Ok tt, redis, fds2) ∧
       register strerror reserve_ok (settings e o redis) (target_type o) (addr_of o)
         (Daemon_new (traffic e)) = Ret (true, d0) ∧
       poll strerror reserve_ok (settings e o redis) (fold_left signal_handler (signals e) 1)
         (turns e) d0 = Ret (rs, d)).
Proof.
  unfold main. destruct (parse_args (args e)) as [o|err].
  2: { intros [= <-]. split; [by right|]. split; [|done]. split; [done|]. by intros (? & ? & _). }
  destruct (help o) eqn:Hh.
  { intros [= <-]. split; [by left|]. split; [|done]. split; [|done].
    intros _. exists o. split; [done|by left]. }
  intros Hx. apply start_up_ends in Hx.
  destruct Hx as [| |ok server fds1 redis fds2 d0 rs d Hm Hc Hr Hp Hj]; cbn [code final events exit_served].
  1-2: split; [by right|]; split; [|done]; split; [done|];
    intros (o' & [= <-] & [?|?]); congruence.
  split; [by left|]. split.
  { split; [|done]. intros _. exists o. split; [done|by right]. }
  intros d' [= <-]. split.
  - do 3 (apply elem_of_app; right). apply elem_of_app. left. set_solver.
  - by exists o, redis, fds1, fds2, d0, rs.
Qed.
End properties.

(** * Service and shutdown *)
Section service.
Context (strerror : Z → string) (reserve_ok : Z → bool).

(** A signal ends the loop at the next test: the turn in progress is finished, no
    other begins, and the turns before are those of the loop without signals. *)
Lemma poll_main_loop cfg ts t sig sigs later d :
  poll strerror reserve_ok cfg 1 (((λ t, (t, [])) <$> ts) ++ (t, sig :: sigs) :: later) d
    = main_loop strerror reserve_ok cfg (ts ++ [t]) d.
Proof.
  revert d. induction ts as [|t' ts IH]; intros d; cbn [fmap list_fmap app poll main_loop Z.eqb].
  - destruct (turn strerror reserve_ok cfg t d) as [[r d1]| | | | |]; try done.
    cbn [mbind outcome_bind fold_left]. change (signal_handler 1 sig) with 0.
    assert (fold_left signal_handler sigs 0 = 0) as -> by (by induction sigs).
    by destruct later.
  - destruct (turn strerror reserve_ok cfg t' d) as [[r d1]| | | | |]; try done.
    cbn [mbind outcome_bind fold_left]. by rewrite IH.
Qed.

Lemma register_ready cfg target addr reqs v vs more tx' rx' d :
  0 <= fd cfg → (∀ n, 0 <= n <= MAX_FRAME → reserve_ok n = true) →
  ready (["sandbox register"; sandbox_id cfg; target; addr] :: reqs) (v :: vs) more tx' rx' (net_ d) →
  ∃ w', register strerror reserve_ok cfg target addr d = Ret (negb (is_error v), with_net w' d) ∧
    carried (net_ d) [["sandbox register"; sandbox_id cfg; target; addr]] w' ∧
    ready reqs vs more tx' rx' w'.
Proof.
  intros Hfd Hmem Hr.
  destruct (send_ready strerror reserve_ok cfg Hfd Hmem more tx' rx' _ _ _ _ Hr)
    as (v' & w' & [= <-] & Hs & Hc & Hr').
  exists w'. unfold register, sandbox_register. by rewrite Hs.
Qed.

(** The first request of the daemon. *)
Definition hello (e : Env) (o : Options) : list string :=
  ["sandbox register"; sandbox_id_of e o; target_type o; addr_of o].

(** C6: the daemon serves and stops.  Given good options, a connection that is
    accepted, a server that answers the registration without an error and then every
    request, jobs whose commands close their output and end, no failing reservation
    up to the frame limit, and a signal during some turn, [main] leaves its loop: it
    has sent its registration and exactly the requests of the turns up to and
    including the one the signal came in, has started no other, and has left the log,
    the metrics and the counters of those turns.  It then comes back with exit code
    0, if the health thread has not begun a turn when it is joined; once it has, that
    depends on what the implementation makes of unlocking a mutex that is not locked,
    which is undefined: [main] comes back if that does. *)
Theorem main_serves e fds o xs x sig sigs later v0 more tx' rx' :
  parse_args (args e) = Ok o → help o = false →
  0 <= socket_ret (conn e) → inet_pton_ret (conn e) = 1 → 0 <= connect_ret (conn e) →
  (∀ n, 0 <= n <= MAX_FRAME → reserve_ok n = true) →
  let cfg := mkSettings (socket_ret (conn e)) (sandbox_id_of e o) (Options.use_seccomp o) in
  signals e = [] →
  turns e = ((λ x, (ex_turn x, [])) <$> xs) ++ (ex_turn x, sig :: sigs) :: later →
  Forall (complete strerror cfg) (xs ++ [x]) →
  Forall sound (v0 :: responses (xs ++ [x])) → is_error v0 = false →
  takes (hello e o :: requests strerror cfg (xs ++ [x])) (tx_script (traffic e)) tx' →
  incoming (rx_script (traffic e)) (replies (v0 :: responses (xs ++ [x])) ++ more) rx' →
  ∃ exit w, main strerror reserve_ok e fds
      = (_ ← match health_clock e with [] => Ret tt | _ :: _ => double_unlock e end; Ret exit) ∧
    code exit = 0 ∧
    final exit = Some (after_all strerror cfg (xs ++ [x]) w (Daemon_new (traffic e))) ∧
    sent w = sent (traffic e) ++
      List.flat_map encode_request (hello e o :: requests strerror cfg (xs ++ [x])) ∧
    tx_script w = tx' ∧ incoming (rx_script w) more rx'.
Proof.
  intros Hargs Hhelp Hs Hpton Hconn Hmem cfg Hsig Hturns Hc Hsound Hv0 Ht Hr.
  unfold main. rewrite Hargs, Hhelp.
  destruct (Metrics.start (metrics_socket e) (bind_ok e) (listen_ok e) (server0 o) fds)
    as [[ok server] fds1] eqn:Hm.
  assert (connect strerror (conn e) (host o) (port o) RedisClient_new fds1
    = (Ok tt, mkClient (socket_ret (conn e)), fd_open (socket_ret (conn e)) fds1)) as Hcon.
  { unfold connect. cbn [close RedisClient_new fd_ Z.leb Z.compare].
    rewrite (proj2 (Z.ltb_ge (socket_ret (conn e)) 0)), Hpton by done. cbn [Z.eqb Pos.eqb negb].
    by rewrite (proj2 (Z.ltb_ge (connect_ret (conn e)) 0)) by done. }
  assert (ready (hello e o :: requests strerror cfg (xs ++ [x]) ++ [])
    (v0 :: responses (xs ++ [x]) ++ []) more tx' rx' (net_ (Daemon_new (traffic e)))) as Hready.
  { rewrite !app_nil_r. constructor; [done..|]. cbn [length].
    by rewrite (length_responses strerror cfg). }
  destruct (register_ready cfg (target_type o) (addr_of o) _ _ _ more tx' rx'
    (Daemon_new (traffic e)) Hs Hmem Hready) as (w1 & H1 & Hc1 & Hr1).
  rewrite Hv0 in H1.
  destruct (main_loop_ready strerror cfg reserve_ok (xs ++ [x]) [] [] more tx' rx'
    (with_net w1 (Daemon_new (traffic e))) Hs Hmem Hc Hr1) as (w2 & H2 & Hc2 & Hr2).
  rewrite after_all_net in H2.
  assert (poll strerror reserve_ok cfg (fold_left signal_handler (signals e) 1) (turns e)
    (with_net w1 (Daemon_new (traffic e)))
    = Ret (results strerror cfg (xs ++ [x]),
           after_all strerror cfg (xs ++ [x]) w2 (Daemon_new (traffic e)))) as Hpoll.
  { rewrite Hsig, Hturns. cbn [fold_left].
    assert (((λ x0, (ex_turn x0, [] : list Z)) <$> xs) = (λ t, (t, [])) <$> (ex_turn <$> xs)) as ->
      by (by rewrite <-list_fmap_compose).
    rewrite poll_main_loop. rewrite fmap_app in H2. exact H2. }
  apply ready_nil in Hr2 as [Htx Hrx].
  eexists _, w2. split.
  { rewrite <-health_join_eq. by eapply start_up_served. }
  cbn [code final exit_served]. split; [done|]. split; [done|]. split; [|done].
  exact (carried_trans (traffic e) [hello e o] w1 _ w2 Hc1 Hc2).
Qed.
End service.

(** * Concrete executions *)
Definition std_fds : fd_table := mkFds {[0; 1; 2]} [].

(** Nobody listens on the server's port. *)
Definition refused : Env :=
  mkEnv "sandbox" [] 7 4 true true (mkConnectEnv 5 0 1 (-1) 111) (mkNet [] [] [] 0) [] []
    (λ _, (λ _, None, λ _, None)) 100 (λ _, []) 0 [] 0 Undefined.

Lemma refused_returns :
  ∃ x, main (λ _, "Connection refused") (λ _, true) refused std_fds = Ret x ∧ code x = 1 ∧
    final x = None ∧
    nth_error (events x) 10 = Some (Io (ErrOut ("[sandbox] failed to connect to 127.0.0.1:1234: connect 127.0.0.1:1234: Connection refused" +:+ eol))).
Proof.
  eexists. split.
  - unfold main. change (parse_args (args refused)) with (Ok Options_default).
    cbn [help Options_default]. apply start_up_ends. eapply ends_connect; reflexivity.
  - cbn [code final]. split; [done|]. split; [done|]. vm_compute. reflexivity.
Qed.

Lemma main_releases_witness :
  ∃ x, main (λ _, "Connection refused") (λ _, true) refused std_fds = Ret x ∧
    fds_open (open_fds x) = {[0; 1; 2]} ∧ stray (open_fds x) = [].
Proof.
  destruct refused_returns as (x & Hx & _). exists x. split; [exact Hx|].
  apply (main_releases (λ _, "Connection refused") (λ _, true) refused std_fds x).
  - cbn. unfold std_fds. set_solver.
  - cbn. unfold std_fds. set_solver.
  - by intros _ [=].
  - exact Hx.
Defined.

(** The health thread outlives what it reads. *)
Lemma main_lifetimes_witness :
  ∃ x, main (λ _, "Connection refused") (λ _, true) refused std_fds = Ret x ∧
    health_safe false (events x) = false.
Proof.
  destruct refused_returns as (x & Hx & _ & Hf & _). exists x. split; [exact Hx|].
  rewrite (main_lifetimes (λ _, "Connection refused") (λ _, true) refused std_fds x Hx), Hf.
  reflexivity.
Defined.

Lemma main_exit_code_witness :
  ∃ x, main (λ _, "Connection refused") (λ _, true) refused std_fds = Ret x ∧
    (code x = 0 ∨ code x = 1) ∧ code x ≠ 0.
Proof.
  destruct refused_returns as (x & Hx & Hc & _). exists x. split; [exact Hx|].
  split; [exact (proj1 (main_exit_code (λ _, "Connection refused") (λ _, true) refused std_fds x Hx))|].
  by rewrite Hc.
Defined.

(** The session of Session, a signal in its last turn, and a turn that never
    begins. *)
Definition test_settings : Settings := mkSettings 5 "cpp-sandbox-1" true.

Definition test_requests : list (list string) :=
  ["sandbox register"; "cpp-sandbox-1"; "local"; "127.0.0.1:1234"]
  :: requests (λ _, "") test_settings test_session.

(** [clock] is when the health thread takes its steps. *)
Definition served (clock : list Z) : Env :=
  mkEnv "sandbox" [] 7 4 true true (mkConnectEnv 5 0 1 0 0)
    (mkNet [] (replicate (length test_requests) (TAccept (2 ^ 32)) ++ [])
       [RedisClient.RData (replies (rNil :: responses test_session) ++ [x07])] 0)
    [] [(test_turn, []); (test_turn, []); (test_turn, [15]); (test_turn, [])]
    (λ _, (λ _, None, λ _, None)) 100 (λ _, []) 0 clock 9 Undefined.

(** A shutdown before the health thread has begun, and one during its first turn. *)
Lemma main_serves_witness :
  (∃ exit w, main (λ _, "") (λ n, n <=? MAX_FRAME) (served []) std_fds = Ret exit ∧ code exit = 0 ∧
     final exit = Some (after_all (λ _, "") test_settings test_session w (Daemon_new (traffic (served [])))) ∧
     sent w = List.flat_map encode_request test_requests) ∧
  main (λ _, "") (λ n, n <=? MAX_FRAME) (served [1; 2]) std_fds = Undefined.
Proof.
  assert (Hall : ∀ clock, ∃ exit w, main (λ _, "") (λ n, n <=? MAX_FRAME) (served clock) std_fds
      = (_ ← match clock with [] => Ret tt | _ :: _ => Undefined end; Ret exit) ∧ code exit = 0 ∧
    final exit = Some (after_all (λ _, "") test_settings test_session w (Daemon_new (traffic (served clock)))) ∧
    sent w = List.flat_map encode_request test_requests).
  { intros clock.
    destruct (main_serves (λ _, "") (λ n, n <=? MAX_FRAME) (served clock) std_fds Options_default
      (take 2 test_session) (mkExchange test_turn (rError 1 "busy") []) 15 [] [(test_turn, [])] rNil
      [x07] [] []) as (exit & w & H1 & H2 & H3 & H4 & _).
    - reflexivity.
    - reflexivity.
    - by vm_compute.
    - reflexivity.
    - by vm_compute.
    - intros n [_ Hn]. by apply Z.leb_le.
    - reflexivity.
    - reflexivity.
    - repeat (apply Forall_cons_2; [split; [vm_compute; reflexivity
        |split; [by apply Exists_cons_tl, Exists_cons_hd|discriminate]]|]).
      apply Forall_nil_2.
    - apply Forall_cons_2; [|exact test_session_sound].
      split; [apply wf_nil|by vm_compute].
    - reflexivity.
    - apply (takes_whole test_requests []).
      repeat (apply Forall_cons_2; [vm_compute; reflexivity|]). apply Forall_nil_2.
    - apply incoming_all. by vm_compute.
    - exists exit, w. split; [exact H1|]. split; [exact H2|]. split; [exact H3|exact H4]. }
  split.
  - exact (Hall []).
  - destruct (Hall [1; 2]) as (exit & w & H1 & _). exact H1.
Defined.

(** The identifier is generated only for an explicit empty one: without the option
    it is always the same. *)
Lemma default_id e o : parse_args [] = Ok o → sandbox_id_of e o = "cpp-sandbox-1".
Proof. by intros [= <-]. Qed.

(** The restart limit of the command line changes nothing. *)
Lemma max_restarts_unused strerror reserve_ok e o n fds :
  start_up strerror reserve_ok e
    (mkOptions (host o) (port o) (Options.sandbox_id o) (target_type o) (metrics_port o)
       (Options.use_seccomp o) n (help o)) fds
  = start_up strerror reserve_ok e o fds.
Proof. reflexivity. Qed.
